(* ===== verification/_CoqProject ===== *)
-Q . S2P
Prelude.v
CMem.v
Ctype.v
Str.v
StrFacts.v
StrSafe.v
Strto.v
Fmt.v
FmtSafe.v
FmtText.v
FmtSpec.v
FmtFormat.v
Console.v
Words.v
Pages.v
Malloc.v
PagesFacts.v
MallocSpec.v
MallocFacts.v
MallocGrow.v
MallocRelease.v
MallocCorrect.v
HeapTheorems.v
StrDup.v
PgTable.v
PgWalk.v
PgMap.v
PgSetup.v
PgCount.v
PgTheorems.v
PgAttr.v
PgAttrFacts.v
PgSpace.v
PgAttrTheorems.v
Mmu.v
MmuFacts.v
MmuTheorems.v
MmuAttr.v
Timer.v
TimerTheorems.v
Rand.v
Errno.v
Command.v
CliSimple.v
CliFacts.v
CommandFacts.v
Quoting.v
Shell.v
CliReadline.v
CompleteFacts.v
ReadlineFacts.v
MemCmd.v
MemCmdFacts.v
MemTheorems.v
UartCmd.v
Display.v
DisplayFacts.v
Boot.v
BootFacts.v
BootTheorems.v
Exception.v
Charset.v
CharsetFacts.v
CharsetTheorems.v
Device.v
Uart.v
UartFacts.v
UartTheorems.v
Gic.v
Interrupt.v
GicFacts.v
GicInit.v
IrqTheorems.v
GicCmd.v
IrqInit.v
LateBoot.v
ElCmd.v
Its.v
ItsFacts.v
ItsTheorems.v
