(* ===== verification/Prelude.v ===== *)
(** * ROCKOS: a verification of the operating system's core

    ROCKOS is a small AArch64 operating system derived from U-Boot: after the
    board initialisation it enables the memory management unit and the
    interrupt controller and runs a command line on the serial console.  This
    library models the C code of that program and proves what makes its parts
    correct.  This file is the root: the documentation of the whole and the
    vocabulary every other file uses.

    ** The parts of the program and the files that model them

    - Machine: [CMem] (a finite byte memory whose unmapped addresses fault;
      lists and strings in it), [Words] (words, frames, linked lists),
      [Console] (memory and console traffic, the [world] of a command).
    - lib/ctype.c: [Ctype].  lib/string.c: [Str] (the definitions),
      [StrFacts] (results on lists), [StrSafe] (any memory), [StrDup]
      (strdup and strndup over an allocator).  lib/strto.c: [Strto].
    - lib/vsprintf.c: [Fmt] (the definitions), [FmtSafe] (no overrun),
      [FmtText] (what numbers print), [FmtSpec] (formats and the text they
      mean), [FmtFormat] (vsnprintf against it).
    - lib/charset.c: [Charset] (the definitions), [CharsetFacts],
      [CharsetTheorems].
    - common/memory.c: [Pages], [PagesFacts].  lib/malloc.c: [Malloc] (the
      definitions), [MallocSpec] (the invariant), [MallocFacts],
      [MallocGrow], [MallocRelease], [MallocCorrect] (the steps of malloc and
      free), [HeapTheorems] (the statements).
    - arch/arm64/kernel/cache_v8.c: [PgTable] (the definitions), [PgWalk] (the
      table walk of the hardware, the invariant of the tables), [PgMap],
      [PgSetup] (each operation against the walk), [PgTheorems]; [PgCount],
      [PgSpace] (the size estimate is enough); [PgAttr], [PgAttrFacts],
      [PgAttrTheorems] (attributes of regions in use); [Mmu] (system registers,
      the MMU and the caches), [MmuFacts], [MmuTheorems], [MmuAttr].
    - lib/time.c, arch/arm64/kernel/generic_timer.c: [Timer],
      [TimerTheorems].  lib/rand.c: [Rand].  lib/errno_str.c: [Errno].
    - common/command.c: [Command], [CommandFacts].  common/cli_simple.c and
      common/cli.c: [CliSimple], [CliFacts], [Quoting] (pieces of a token),
      [Shell] (the abstract shell).  common/cli_readline.c: [CliReadline],
      [CompleteFacts] (what the editor relies on of the completion in
      common/command.c), [ReadlineFacts].
    - cmd/mem.c: [MemCmd] (with the hex dump of lib/display_options.c),
      [MemCmdFacts], [MemTheorems].  cmd/uart.c, module/uart/uart_test.c:
      [UartCmd].  cmd/gicv3.c, module/gicv3/irq-gicv3-test.c: [GicCmd].  The
      command switch_el of common/interrupt.c: [ElCmd].
    - lib/display_options.c: [Display], [DisplayFacts].  common/board_f.c,
      common/init/board_init.c, include/initcall.h: [Boot], [BootFacts] (each
      step on the fields of the global data), [BootTheorems].
      common/board_r.c: [LateBoot], over the state of the whole machine.
    - arch/arm64/kernel/interrupts_64.c, lib/panic.c, lib/hang.c: [Exception].
    - module/uart/uart.c, lib/printk.c, printf, cmd/debug.c: [Device] (device
      registers and the monad of drivers), [Uart], [UartFacts], [UartTheorems].
    - module/gicv3/: [Gic] (irq-gicv3.c, irq-gic-common.c), [GicFacts], [GicInit]; [Its]
      (gicv3_its.c), [ItsFacts], [ItsTheorems].  common/interrupt.c and the
      dispatcher: [Interrupt], [IrqTheorems], [IrqInit] (start-up).

    The command line reads a line with the editor, which asks the command
    table for completions (class [Completer], of which [cmd_auto_complete] is
    shown to be an instance); the parser splits the line and
    the table dispatches the command to its handler.  The string library is
    used by all of them.  Allocation goes from strdup through the class
    [Allocator] to the heap, and from the heap to the page allocator, whose
    region is the class [Region].  The early boot code reserves that region
    together with the places of the image, the global data and the stack; the
    late boot code starts (where configured) translation and caches, then the
    allocator and interrupt handling from there and enters the loop of the command line.  The
    dispatcher of interrupts acknowledges at the controller and calls the
    handler the table has; drivers of message interrupts send commands to the
    translation service through a queue in memory.

    ** How the code is modelled

    A C function is a definition of the same name.  It takes the memory (or
    the [world]) and returns an [outcome]: a result, a fault, a panic with its
    message, or [OutOfFuel].  Locals are [let]s, a loop is one [while] whose
    state is the tuple of locals it changes.  Integers are [Z] with the
    wrap-around written where the code converts ([u8] to [u64], [s8] to
    [s64]); pointers are addresses, [Z], and are assumed not to wrap.  [char]
    is unsigned.  Static data and structures that only the code itself reaches
    are records; objects that are linked or overlaid with others (bucket
    descriptors, free slots, translation tables, strings) lie in the memory,
    so that aliasing is the real one.  Printing is an event of the [world]
    that carries the format and its arguments; debug output is left out, and so
    are the progress messages of [setup_pgtables].

    Fuel: loops that walk the memory get [fuel_of m], one more than the number
    of mapped bytes, which is enough because each round touches a new address;
    loops that count get one more than their count.  The theorems show that
    [OutOfFuel] does not happen, as part of [returns], [returns_or] or [ends].

    ** What the theorems show

    - Strings: every function terminates on any memory, the sized ones write
      only inside their destination; strdup and strndup copy into a new object
      or return NULL because the allocator does; conversions compute the numeral's value,
      wrap-around and errors included.
    - Formatting: [vsnprintf] never writes outside its buffer, whatever the
      format and the arguments, and prints exactly the reference text of
      every format (all conversions but p and n); the reference text is the
      ordinary meaning of the format when it fits the buffer, and otherwise
      has the code's treatment of a %c behind the end, which takes no argument;
      printing and parsing are inverse.  [printf] sends exactly that text over the serial line, and
      [printk] filters by level.
    - Encodings: UTF-8 and UTF-16 round trips and the conversions of strings,
      with the exact inputs on which they fail.
    - Heap: [malloc] and [free] keep the allocator's invariant; live objects
      are disjoint, aligned and never changed by the allocator; a page whose
      last object is freed becomes free in the page map; double frees
      are caught, except of the last slot of a free list.
    - Translation tables: the hardware walk over the tables built from the
      memory map is the memory map; changing the attributes of a region
      breaks before it makes and changes exactly the region; the estimated
      size of the tables is enough for them; the MMU and the data cache are
      only ever on with complete tables, on the first core and on the others.
    - Time: delays end on a running counter and never end early.
    - Command line: a line runs as on an abstract shell, which only knows
      tokens, words and the command table; lookup by unique abbreviation and
      dispatch; a turn of the loop keeps, repeats and forgets commands; the
      line editor stays inside its buffers for any input, and without TAB
      never faults.  The memory commands
      write, copy, compare and display what they say; the test commands leave
      the heap as it was.
    - Boot: the layout of the top of memory is disjoint, aligned, inside RAM
      and gives the allocator a region it accepts; late boot reaches the
      command line with the allocator and the interrupts started (and the MMU
      and the caches, in a configuration that asks for them), or stops for
      want of an interrupt controller.  The report of an exception is complete and changes nothing.
    - Interrupts: the registers the controller's initialisation leaves, that
      interrupts stay masked until all handlers are installed, masking and
      state, dispatch to exactly the installed handler between the signal of
      the end and the one register write that deactivates; commands of the
      translation service arrive in order and none is lost, if the device
      makes progress.

    ** Not modelled

    Assembly files (start-up, exception entry, cache maintenance), the
    generated configuration, the build scripts (scripts/, a vendored kconfig)
    and the tutorial programs under module/part1 to part4, which are not part
    of the kernel's core; the parts of modelled files that the configuration
    leaves out, among them the line reader without editing, which the code
    never reaches; [print_grouped_ull] and [strmhz], which nothing calls; the
    commands help, version and display, which only call or print.  Interrupts
    are not modelled as a second thread of control. *)

From Stdlib Require Export ZArith Lia.
From stdpp Require Export base gmap list numbers.
From stdpp Require Import strings.

Declare Scope c_scope.
Delimit Scope c_scope with c.
#[export] Set Default Goal Selector "!".

Local Open Scope Z_scope.

(** ** Outcomes of C code *)

(** What running a piece of C can end in.  [Fault] is an access outside the
    mapped memory (or another undefined operation the hardware traps),
    [Panic] is a call of [panic], which prints and never returns, and
    [OutOfFuel] says that the bound given to a loop was too small: the
    theorems show that it does not happen. *)
Inductive outcome (A : Type) : Type :=
  | Ok (a : A)
  | Fault
  | Panic (msg : string)
  | OutOfFuel.
Arguments Ok {A} _.
Arguments Fault {A}.
Arguments Panic {A} _.
Arguments OutOfFuel {A}.

Definition obind {A B} (c : outcome A) (k : A -> outcome B) : outcome B :=
  match c with
  | Ok a => k a
  | Fault => Fault
  | Panic s => Panic s
  | OutOfFuel => OutOfFuel
  end.

Notation "'let!' x := c 'in' k" := (obind c (fun x => k))
  (at level 10, x name, c at level 100, k at level 200) : c_scope.
Notation "'let!' ' p := c 'in' k" := (obind c (fun p => k))
  (at level 10, p pattern, c at level 100, k at level 200) : c_scope.
Notation "c1 ;; c2" := (obind c1 (fun _ => c2))
  (at level 100, c2 at level 200, right associativity) : c_scope.

Local Open Scope c_scope.

#[export] Instance outcome_eq_dec {A} `{EqDecision A} : EqDecision (outcome A).
Proof. solve_decision. Defined.

(** ** Loops

    Every C loop is an instance of [while]: the body answers [cont s] to go
    round again with state [s], or [brk r] to leave the loop with [r]. *)
Definition cont {S R} (s : S) : outcome (S + R) := Ok (inl s).
Definition brk {S R} (r : R) : outcome (S + R) := Ok (inr r).

Fixpoint while {S R} (fuel : nat) (body : S -> outcome (S + R)) (s : S) : outcome R :=
  match fuel with
  | O => OutOfFuel
  | Datatypes.S fuel =>
      let! r := body s in
      match r with
      | inl s' => while fuel body s'
      | inr r => Ok r
      end
  end.

Lemma while_S {S R} fuel (body : S -> outcome (S + R)) s :
  while (Datatypes.S fuel) body s =
    (let! r := body s in match r with inl s' => while fuel body s' | inr r => Ok r end).
Proof. done. Qed.

(** Total correctness: an invariant, a measure bounded by the fuel and a
    postcondition of every exit. *)
Lemma while_total {S R} (I : S -> Prop) (mu : S -> nat) (Q : R -> Prop)
    (body : S -> outcome (S + R)) :
  (forall s, I s -> match body s with
                 | Ok (inl s') => I s' /\ (mu s' < mu s)%nat
                 | Ok (inr r) => Q r
                 | _ => False
                 end) ->
  forall fuel s, I s -> (mu s < fuel)%nat ->
  exists r, while fuel body s = Ok r /\ Q r.
Proof.
  intros Hb fuel. induction fuel as [|fuel IH]; intros s HI Hmu; [lia|].
  specialize (Hb s HI). simpl.
  destruct (body s) as [[s'|r]| | |]; simpl; try done.
  - destruct Hb as [HI' Hlt]. apply IH; [done|lia].
  - eauto.
Qed.

(** The same for a loop whose result is computed exactly. *)
Lemma while_eq {S R} (I : S -> Prop) (mu : S -> nat) (res : R)
    (body : S -> outcome (S + R)) :
  (forall s, I s -> match body s with
                 | Ok (inl s') => I s' /\ (mu s' < mu s)%nat
                 | Ok (inr r) => r = res
                 | _ => False
                 end) ->
  forall fuel s, I s -> (mu s < fuel)%nat -> while fuel body s = Ok res.
Proof.
  intros Hb fuel s HI Hmu.
  destruct (while_total I mu (fun r => r = res) body Hb fuel s HI Hmu) as (r & -> & ->).
  done.
Qed.

(** Partial correctness: what every exit of a loop satisfies. *)
Lemma while_exit {S R} (I : S -> Prop) (Q : R -> Prop) (body : S -> outcome (S + R)) fuel s r :
  (forall s x, I s -> body s = Ok x -> match x with inl s' => I s' | inr r => Q r end) ->
  I s -> while fuel body s = Ok r -> Q r.
Proof.
  intros Hb. revert s. induction fuel as [|fuel IH]; intros s HI; [done|]. rewrite while_S. specialize (Hb s).
  destruct (body s) as [[s'|r']| | |]; cbn [obind]; try done.
  - apply IH. by apply (Hb (inl s') HI).
  - intros [= <-]. by apply (Hb (inr r') HI).
Qed.

(** Termination alone: if the measure goes down on every iteration the loop
    never runs out of fuel, whatever the memory holds. *)
Lemma while_fuel {S R} (I : S -> Prop) (mu : S -> nat) (body : S -> outcome (S + R)) :
  (forall s, I s -> match body s with
                 | Ok (inl s') => I s' /\ (mu s' < mu s)%nat
                 | OutOfFuel => False
                 | _ => True
                 end) ->
  forall fuel s, I s -> (mu s < fuel)%nat -> while fuel body s <> OutOfFuel.
Proof.
  intros Hb fuel. induction fuel as [|fuel IH]; intros s HI Hmu; [lia|].
  specialize (Hb s HI). simpl.
  destruct (body s) as [[s'|r]| | |]; simpl; try done.
  destruct Hb as [HI' Hlt]. apply IH; [done|lia].
Qed.

(** ** Safety

    [ends c Q]: [c] never runs out of fuel, and if it returns then [Q] holds
    of the result.  It is the triple behind the theorems that make no
    assumption about the memory: a fault is possible there, an endless loop
    or a result outside [Q] is not. *)
Definition ends {A} (c : outcome A) (Q : A -> Prop) : Prop :=
  match c with
  | Ok a => Q a
  | OutOfFuel => False
  | Fault | Panic _ => True
  end.

Lemma ends_bind {A B} (c : outcome A) (k : A -> outcome B) P Q :
  ends c P -> (forall a, P a -> ends (k a) Q) -> ends (obind c k) Q.
Proof. destruct c; simpl; auto. Qed.

Lemma ends_mono {A} (c : outcome A) (P Q : A -> Prop) :
  ends c P -> (forall a, P a -> Q a) -> ends c Q.
Proof. destruct c; simpl; auto. Qed.

Lemma ends_not_out_of_fuel {A} (c : outcome A) Q : ends c Q -> c <> OutOfFuel.
Proof. by destruct c. Qed.

Lemma ends_while {S R} (I : S -> Prop) (mu : S -> nat) (Q : R -> Prop)
    (body : S -> outcome (S + R)) fuel s :
  (forall s, I s -> ends (body s) (fun r =>
     match r with inl s' => I s' /\ (mu s' < mu s)%nat | inr r => Q r end)) ->
  I s -> (mu s < fuel)%nat -> ends (while fuel body s) Q.
Proof.
  intros Hb. revert s. induction fuel as [|fuel IH]; intros s HI Hmu; [lia|].
  simpl. eapply ends_bind; [by apply Hb|]. intros [s'|r]; [|done].
  intros [HI' Hlt]. apply IH; [done|lia].
Qed.

(** [returns c Q]: [c] returns, and [Q] holds of the result. *)
Definition returns {A} (c : outcome A) (Q : A -> Prop) : Prop := exists a, c = Ok a /\ Q a.

Lemma returns_ok {A} (a : A) (Q : A -> Prop) : Q a -> returns (Ok a) Q.
Proof. by exists a. Qed.

Lemma returns_bind {A B} (c : outcome A) (k : A -> outcome B) P Q :
  returns c P -> (forall a, P a -> returns (k a) Q) -> returns (obind c k) Q.
Proof. intros (a & -> & Ha) Hk. by apply Hk. Qed.

Lemma returns_mono {A} (c : outcome A) (P Q : A -> Prop) :
  returns c P -> (forall a, P a -> Q a) -> returns c Q.
Proof. intros (a & -> & Ha) HPQ. exists a. auto. Qed.

Lemma returns_ends {A} (c : outcome A) Q : returns c Q -> ends c Q.
Proof. by intros (a & -> & Ha). Qed.

Lemma returns_while {S R} (I : S -> Prop) (mu : S -> nat) (Q : R -> Prop)
    (body : S -> outcome (S + R)) fuel s :
  (forall s, I s -> returns (body s) (fun r =>
     match r with inl s' => I s' /\ (mu s' < mu s)%nat | inr r => Q r end)) ->
  I s -> (mu s < fuel)%nat -> returns (while fuel body s) Q.
Proof.
  intros Hb HI Hmu. apply (while_total I mu Q body); [|done|done].
  intros s' Hs'. destruct (Hb s' Hs') as (r & -> & Hr). done.
Qed.

(** [returns_or msg c Q]: [c] returns with [Q], or panics with [msg]. *)
Definition returns_or {A} (msg : string) (c : outcome A) (Q : A -> Prop) : Prop :=
  c = Panic msg \/ returns c Q.

Lemma returns_or_ok {A} msg (a : A) (Q : A -> Prop) : Q a -> returns_or msg (Ok a) Q.
Proof. intros H. right. by apply returns_ok. Qed.

Lemma returns_or_bind {A B} msg (c : outcome A) (k : A -> outcome B) P Q :
  returns_or msg c P -> (forall a, P a -> returns_or msg (k a) Q) -> returns_or msg (obind c k) Q.
Proof. intros [->|(a & -> & Ha)] Hk; [by left|]. by apply Hk. Qed.

Lemma returns_or_mono {A} msg (c : outcome A) (P Q : A -> Prop) :
  returns_or msg c P -> (forall a, P a -> Q a) -> returns_or msg c Q.
Proof. intros [->|H] HQ; [by left|]. right. by eapply returns_mono. Qed.

Lemma returns_or_while {S R} msg (I : S -> Prop) (mu : S -> nat) (Q : R -> Prop)
    (body : S -> outcome (S + R)) fuel s :
  (forall s, I s -> returns_or msg (body s) (fun r =>
     match r with inl s' => I s' /\ (mu s' < mu s)%nat | inr r => Q r end)) ->
  I s -> (mu s < fuel)%nat -> returns_or msg (while fuel body s) Q.
Proof.
  intros Hb. revert s. induction fuel as [|fuel IH]; intros s HI Hmu; [lia|]. rewrite while_S.
  eapply returns_or_bind; [by apply Hb|]. intros [s'|r].
  - intros [HI' Hlt]. apply IH; [done|lia].
  - apply returns_or_ok.
Qed.

(** Two facts about one computation. *)
Lemma returns_or_returns {A} msg (c : outcome A) P Q :
  returns_or msg c P -> returns c Q -> returns c (fun a => P a /\ Q a).
Proof. intros [->|(a & -> & Ha)] (a' & E & Hb); [done|]. injection E as <-. by exists a. Qed.

(** ** Machine integers

    A value of a C integer type is the [Z] it denotes; the conversion to a
    type is written out where the code converts. *)
Definition u8 (x : Z) : Z := x mod 2 ^ 8.
Definition u16 (x : Z) : Z := x mod 2 ^ 16.
Definition u32 (x : Z) : Z := x mod 2 ^ 32.
Definition u64 (x : Z) : Z := x mod 2 ^ 64.
Definition swrap (w x : Z) : Z := (x + 2 ^ (w - 1)) mod 2 ^ w - 2 ^ (w - 1).
Definition s8 (x : Z) : Z := swrap 8 x.
Definition s16 (x : Z) : Z := swrap 16 x.
Definition s32 (x : Z) : Z := swrap 32 x.
Definition s64 (x : Z) : Z := swrap 64 x.

(** [x & ~m] at 64 bits. *)
Definition ldiff64 (x m : Z) : Z := Z.land x (u64 (Z.lnot m)).

Definition byte_range (b : Z) : Prop := 0 <= b < 256.

Lemma u8_range x : byte_range (u8 x).
Proof. apply Z.mod_pos_bound. lia. Qed.

Lemma u32_range x : 0 <= u32 x < 2 ^ 32.
Proof. apply Z.mod_pos_bound. lia. Qed.

Lemma u64_range x : 0 <= u64 x < 2 ^ 64.
Proof. apply Z.mod_pos_bound. lia. Qed.

Lemma u8_small x : byte_range x -> u8 x = x.
Proof. intros ?. apply Z.mod_small. unfold byte_range in *. lia. Qed.

Lemma u32_small x : 0 <= x < 2 ^ 32 -> u32 x = x.
Proof. apply Z.mod_small. Qed.

Lemma u64_small x : 0 <= x < 2 ^ 64 -> u64 x = x.
Proof. apply Z.mod_small. Qed.

Lemma u8_idemp x : u8 (u8 x) = u8 x.
Proof. apply u8_small, u8_range. Qed.

Lemma swrap_small w x : 0 < w -> - 2 ^ (w - 1) <= x < 2 ^ (w - 1) -> swrap w x = x.
Proof.
  intros Hw Hx. unfold swrap.
  assert (2 ^ w = 2 * 2 ^ (w - 1)) as E by (rewrite <- Z.pow_succ_r by lia; f_equal; lia).
  rewrite Z.mod_small; lia.
Qed.

Lemma swrap_range w x : 0 < w -> - 2 ^ (w - 1) <= swrap w x < 2 ^ (w - 1).
Proof.
  intros Hw. unfold swrap.
  assert (2 ^ w = 2 * 2 ^ (w - 1)) as E by (rewrite <- Z.pow_succ_r by lia; f_equal; lia).
  pose proof (Z.mod_pos_bound (x + 2 ^ (w - 1)) (2 ^ w)).
  assert (0 < 2 ^ (w - 1)) by (apply Z.pow_pos_nonneg; lia). lia.
Qed.

(** ** Bits as arithmetic *)

Lemma lor_disjoint a b : Z.land a b = 0 -> Z.lor a b = a + b.
Proof. intros H. rewrite Z.add_nocarry_lxor by done. by rewrite Z.lxor_lor. Qed.

Lemma testbit_field x a k j : 0 <= a -> 0 <= k -> (x / 2 ^ a) mod 2 ^ k = 0 -> a <= j < a + k -> Z.testbit x j = false.
Proof.
  intros Ha Hk H Hj. assert (Z.testbit ((x / 2 ^ a) mod 2 ^ k) (j - a) = false) as E by (rewrite H; apply Z.bits_0).
  rewrite Z.mod_pow2_bits_low in E by lia. rewrite Z.div_pow2_bits in E by lia. by replace (j - a + a) with j in E by lia.
Qed.

Lemma lor_field x i a k :
  0 <= a -> 0 <= k -> (x / 2 ^ a) mod 2 ^ k = 0 -> 0 <= i < 2 ^ k -> Z.lor x (i * 2 ^ a) = x + i * 2 ^ a.
Proof.
  intros Ha Hk H Hi. apply lor_disjoint, Z.bits_inj'. intros j Hj. rewrite Z.land_spec, Z.bits_0.
  destruct (decide (a <= j < a + k)) as [Hin|Hout]; [by rewrite (testbit_field x a k j Ha Hk H Hin)|].
  replace (Z.testbit (i * 2 ^ a) j) with false; [by rewrite andb_false_r|]. symmetry.
  destruct (decide (j < a)); [by apply Z.mul_pow2_bits_low|]. rewrite Z.mul_pow2_bits by lia.
  destruct (decide (i = 0)) as [->|]; [apply Z.bits_0|].
  apply Z.bits_above_log2; [lia|]. apply Z.log2_lt_pow2; [lia|].
  eapply Z.lt_le_trans; [apply Hi|]. apply Z.pow_le_mono_r; lia.
Qed.

Lemma lor_above a c i : 0 <= a -> 0 <= c < 2 ^ a -> Z.lor (i * 2 ^ a) c = i * 2 ^ a + c.
Proof.
  intros Ha Hc. apply lor_disjoint. rewrite <- Z.shiftl_mul_pow2 by done. apply Z.bits_inj'. intros j Hj.
  rewrite Z.land_spec, Z.bits_0, Z.shiftl_spec by done. destruct (Z.lt_ge_cases j a); [by rewrite Z.testbit_neg_r by lia|].
  rewrite <- (Z.mod_small c (2 ^ a)) by done. by rewrite Z.mod_pow2_bits_high, andb_false_r by lia.
Qed.

Lemma land_mask k v : 0 <= k -> Z.land v (2 ^ k - 1) = v mod 2 ^ k.
Proof. intros Hk. replace (2 ^ k - 1) with (Z.ones k) by (rewrite Z.ones_equiv; lia). by apply Z.land_ones. Qed.

(** Testing one bit with a mask. *)
Lemma land_bit v k : 0 <= k -> (Z.land v (Z.shiftl 1 k) =? 0) = negb (Z.testbit v k).
Proof.
  intros Hk. rewrite Z.shiftl_1_l. destruct (Z.testbit v k) eqn:E.
  - destruct (Z.eqb_spec (Z.land v (2 ^ k)) 0) as [H|]; [|done].
    assert (Z.testbit (Z.land v (2 ^ k)) k = true) as Hb by (rewrite Z.land_spec, E, Z.pow2_bits_true; done).
    rewrite H, Z.bits_0 in Hb. done.
  - replace (Z.land v (2 ^ k)) with 0; [done|]. symmetry. apply Z.bits_inj'. intros j Hj. rewrite Z.bits_0, Z.land_spec.
    rewrite Z.pow2_bits_eqb by done. destruct (Z.eqb_spec k j) as [->|]; [by rewrite E|by rewrite andb_false_r].
Qed.

(** Words stay words under the bitwise operations. *)
Lemma bits_range k x : 0 <= k -> (forall j, k <= j -> Z.testbit x j = false) -> 0 <= x < 2 ^ k.
Proof.
  intros Hk H. assert (x = x mod 2 ^ k) as ->; [|apply Z.mod_pos_bound, Z.pow_pos_nonneg; lia].
  rewrite <- Z.land_ones by done. apply Z.bits_inj'. intros j Hj. rewrite Z.land_spec, Z.testbit_ones_nonneg by lia.
  destruct (Z.ltb_spec j k); [by rewrite andb_true_r|]. rewrite andb_false_r. by apply H.
Qed.

Lemma range_bits k x j : 0 <= x < 2 ^ k -> 0 <= k <= j -> Z.testbit x j = false.
Proof. intros Hx Hk. rewrite <- (Z.mod_small x (2 ^ k)) by done. by apply Z.mod_pow2_bits_high. Qed.

Lemma lor_word k a b : 0 <= k -> 0 <= a < 2 ^ k -> 0 <= b < 2 ^ k -> 0 <= Z.lor a b < 2 ^ k.
Proof. intros Hk Ha Hb. apply bits_range; [done|]. intros j Hj. by rewrite Z.lor_spec, !(range_bits k). Qed.

Lemma lxor_word k a b : 0 <= k -> 0 <= a < 2 ^ k -> 0 <= b < 2 ^ k -> 0 <= Z.lxor a b < 2 ^ k.
Proof. intros Hk Ha Hb. apply bits_range; [done|]. intros j Hj. by rewrite Z.lxor_spec, !(range_bits k). Qed.

Lemma ldiff_word k a b : 0 <= k -> 0 <= a < 2 ^ k -> 0 <= Z.ldiff a b < 2 ^ k.
Proof. intros Hk Ha. apply bits_range; [done|]. intros j Hj. by rewrite Z.ldiff_spec, (range_bits k a). Qed.

(** ** Finite checks over the bytes *)

Definition bytes256 : list Z := seqZ 0 256.

Lemma elem_of_bytes256 b : byte_range b -> b ∈ bytes256.
Proof. intros ?. apply elem_of_seqZ. unfold byte_range in *. lia. Qed.

(** A boolean property of bytes holds of all of them once it computes to
    [true] on the table of bytes. *)
Lemma forall_byte (f : Z -> bool) :
  forallb f bytes256 = true -> forall b, byte_range b -> f b = true.
Proof.
  intros H b Hb. rewrite forallb_forall in H. apply H.
  apply list_elem_of_In. by apply elem_of_bytes256.
Qed.

Lemma forall_byte2 (f : Z -> Z -> bool) :
  forallb (fun a => forallb (f a) bytes256) bytes256 = true ->
  forall a b, byte_range a -> byte_range b -> f a b = true.
Proof.
  intros H a b Ha Hb.
  pose proof (forall_byte (fun a => forallb (f a) bytes256) H a Ha) as H'.
  by apply forall_byte.
Qed.

(** ** Lists *)

Section lists.
Context {A : Type}.
Implicit Types l : list A.

Lemma lookup_Z_to_nat_app_r l k i :
  0 <= i -> (l ++ k) !! (length l + Z.to_nat i)%nat = k !! Z.to_nat i.
Proof. intros. rewrite lookup_app_r by lia. f_equal. lia. Qed.

Lemma take_S_lookup l n x :
  l !! n = Some x -> take (S n) l = take n l ++ [x].
Proof. apply take_S_r. Qed.

Lemma drop_lookup_cons l n x : l !! n = Some x -> drop n l = x :: drop (S n) l.
Proof. intros H. by erewrite drop_S. Qed.
End lists.

(** Length of the longest prefix whose elements satisfy [f]. *)
Fixpoint span {A} (f : A -> bool) (l : list A) : nat :=
  match l with
  | [] => O
  | x :: l => if f x then S (span f l) else O
  end.

(** Index of the first element that satisfies [f]. *)
Fixpoint find_idx {A} (f : A -> bool) (l : list A) : option nat :=
  match l with
  | [] => None
  | x :: l => if f x then Some O else S <$> find_idx f l
  end.

Lemma span_le {A} (f : A -> bool) l : (span f l <= length l)%nat.
Proof. induction l as [|x l IH]; simpl; [lia|]. destruct (f x); lia. Qed.

Lemma span_app {A} (f : A -> bool) l k :
  Forall (fun x => f x = true) l -> span f (l ++ k) = (length l + span f k)%nat.
Proof. induction 1 as [|x l Hx _ IH]; simpl; [done|]. by rewrite Hx, IH. Qed.

Lemma find_idx_Some {A} (f : A -> bool) l i :
  find_idx f l = Some i <->
  (exists x, l !! i = Some x /\ f x = true) /\
  (forall j x, (j < i)%nat -> l !! j = Some x -> f x = false).
Proof.
  revert i. induction l as [|a l IH]; intros i; simpl.
  - split; [done|]. intros [(x & Hx & _) _]. done.
  - destruct (f a) eqn:Ha.
    + split.
      * intros [= <-]. split; [by exists a|]. intros j x Hj. lia.
      * intros [_ H]. destruct i as [|i]; [done|].
        specialize (H O a ltac:(lia) eq_refl). congruence.
    + destruct i as [|i].
      * split; [by destruct (find_idx f l)|]. intros [(x & [= ->] & Hx) _]. congruence.
      * assert (S <$> find_idx f l = Some (S i) <-> find_idx f l = Some i) as ->
          by (destruct (find_idx f l); simpl; split; intros; simplify_eq; done).
        rewrite IH. simpl. split; intros [H1 H2]; (split; [done|]).
        -- intros [|j] x Hj; simpl; [intros [= <-]; done|]. apply H2. lia.
        -- intros j x Hj Hx. apply (H2 (S j) x); [lia|done].
Qed.

Lemma find_idx_None {A} (f : A -> bool) l :
  find_idx f l = None <-> Forall (fun x => f x = false) l.
Proof.
  induction l as [|a l IH]; simpl; [split; [constructor|done]|].
  rewrite Forall_cons. destruct (f a); [naive_solver|].
  rewrite <- IH. destruct (find_idx f l); naive_solver.
Qed.

(** ** Automation *)

Create HintDb rock discriminated.
Create Rewrite HintDb rock.
#[export] Hint Resolve u8_range u32_range u64_range elem_of_bytes256 : rock.
#[export] Hint Rewrite u8_idemp : rock.

(** Arithmetic with quotients and remainders. *)
Ltac dlia := Z.div_mod_to_equations; lia.

(** Case analysis on the boolean comparison that blocks the goal. *)
Ltac case_cmp :=
  match goal with
  | |- context [?a =? ?b] => destruct (Z.eqb_spec a b)
  | |- context [?a <? ?b] => destruct (Z.ltb_spec a b)
  | |- context [?a <=? ?b] => destruct (Z.leb_spec a b)
  | |- context [?a >? ?b] => rewrite (Z.gtb_ltb a b); destruct (Z.ltb_spec b a)
  | |- context [?a >=? ?b] => rewrite (Z.geb_leb a b); destruct (Z.leb_spec b a)
  end.

(** Equality of results that are tuples of pointers and counts. *)
Ltac ok_eq := apply (f_equal Ok); repeat apply (f_equal2 pair); first [done | lia | idtac].

(** The end of an iteration: [cont] goes round again, [brk] leaves. *)
Ltac loop_next :=
  lazymatch goal with
  | |- context [obind (cont ?s) ?k] => change (obind (cont s) k) with (k (inl s)); cbv beta iota
  | |- context [obind (brk ?r) ?k] => change (obind (brk r) k) with (k (inr r)); cbv beta iota
  end.

(** One statement of a program under [returns], by the lemma about it. *)
Tactic Notation "returns_step" uconstr(lem) "as" simple_intropattern_list(p) :=
  eapply returns_bind; [eapply lem|]; [..|cbv beta; intros p; cbv beta iota zeta].

(** One statement of a program under [ends], by the lemma about it. *)
Tactic Notation "ends_step" uconstr(lem) "as" simple_intropattern_list(p) :=
  eapply ends_bind; [eapply lem|]; [..|cbv beta; intros p; cbv beta iota zeta].
