(* ===== verification/CMem.v ===== *)
(** * The memory of the machine

    A byte-addressed memory with explicit mapping: reading or writing an
    unmapped address is a [Fault].  Pointers are addresses ([Z], with [NULL]
    as 0); the little-endian accesses of 2, 4 and 8 bytes are what an AArch64
    [uint16_t], [uint32_t] or [unsigned long] access does.

    The second half relates the memory to lists: [bytes_at] (a list lies at
    an address), [cstr] (a NUL-terminated string lies there) and
    [write_bytes] (the memory after a list has been stored), which is the
    vocabulary of every specification about strings and buffers. *)

From S2P Require Import Prelude.

Local Open Scope Z_scope.
Local Open Scope c_scope.

Abbreviation mem := (gmap Z Z).

Definition NULL : Z := 0.

Definition load8 (m : mem) (p : Z) : outcome Z :=
  match m !! p with
  | Some b => Ok b
  | None => Fault
  end.

Definition store8 (m : mem) (p v : Z) : outcome mem :=
  match m !! p with
  | Some _ => Ok (<[p := u8 v]> m)
  | None => Fault
  end.

(** Little-endian accesses of [n] bytes. *)
Fixpoint load_le (n : nat) (m : mem) (p : Z) : outcome Z :=
  match n with
  | O => Ok 0
  | S n =>
      let! b := load8 m p in
      let! r := load_le n m (p + 1) in
      Ok (b + 256 * r)
  end.

Fixpoint store_le (n : nat) (m : mem) (p v : Z) : outcome mem :=
  match n with
  | O => Ok m
  | S n =>
      let! m := store8 m p v in
      store_le n m (p + 1) (v / 256)
  end.

Definition load16 := load_le 2.
Definition load32 := load_le 4.
Definition load64 := load_le 8.
Definition store16 := store_le 2.
Definition store32 := store_le 4.
Definition store64 := store_le 8.

(** A bound for loops that touch a fresh mapped address per iteration. *)
Definition fuel_of (m : mem) : nat := S (size m).

(** ** Lists in memory *)

Fixpoint bytes_at (m : mem) (p : Z) (l : list Z) : Prop :=
  match l with
  | [] => True
  | b :: l => m !! p = Some b /\ bytes_at m (p + 1) l
  end.

(** [n] consecutive mapped addresses. *)
Definition mapped (m : mem) (p n : Z) : Prop :=
  forall q, p <= q < p + n -> is_Some (m !! q).

Definition cstr (m : mem) (p : Z) (s : list Z) : Prop :=
  bytes_at m p (s ++ [0]) /\ Forall (fun b => 0 < b < 256) s.

Fixpoint write_bytes (m : mem) (p : Z) (l : list Z) : mem :=
  match l with
  | [] => m
  | b :: l => write_bytes (<[p := b]> m) (p + 1) l
  end.

(** A memory that holds exactly the bytes [l] from [p] on. *)
Definition mem_of (p : Z) (l : list Z) : mem := write_bytes ∅ p l.

Fixpoint read_bytes (m : mem) (p : Z) (n : nat) : list Z :=
  match n with
  | O => []
  | S n => default 0 (m !! p) :: read_bytes m (p + 1) n
  end.

Lemma bytes_at_app m p l k :
  bytes_at m p (l ++ k) <-> bytes_at m p l /\ bytes_at m (p + Z.of_nat (length l)) k.
Proof.
  revert p. induction l as [|b l IH]; intros p; simpl.
  - rewrite Z.add_0_r. tauto.
  - rewrite IH. replace (p + 1 + Z.of_nat (length l)) with (p + Z.of_nat (S (length l))) by lia.
    tauto.
Qed.

Lemma bytes_at_lookup m p l i b :
  bytes_at m p l -> l !! i = Some b -> m !! (p + Z.of_nat i) = Some b.
Proof.
  revert p i. induction l as [|c l IH]; intros p i H Hi; [done|].
  destruct H as [H1 H2]. destruct i as [|i]; simpl in Hi.
  - rewrite Z.add_0_r. congruence.
  - replace (p + Z.of_nat (S i)) with (p + 1 + Z.of_nat i) by lia. eauto.
Qed.

Lemma bytes_at_intro m p l :
  (forall i b, l !! i = Some b -> m !! (p + Z.of_nat i) = Some b) -> bytes_at m p l.
Proof.
  revert p. induction l as [|c l IH]; intros p H; simpl; [done|]. split.
  - specialize (H O c eq_refl). by rewrite Z.add_0_r in H.
  - apply IH. intros i b Hi. specialize (H (S i) b Hi).
    by replace (p + 1 + Z.of_nat i) with (p + Z.of_nat (S i)) by lia.
Qed.

Lemma bytes_at_ext m m' p l :
  (forall x, p <= x < p + Z.of_nat (length l) -> m' !! x = m !! x) -> bytes_at m p l -> bytes_at m' p l.
Proof.
  revert p. induction l as [|b l IH]; intros p Hx; [done|]. cbn [bytes_at length] in *. intros [H1 H2].
  split; [by rewrite Hx by lia|]. apply IH; [intros x ?; apply Hx; lia|done].
Qed.

Lemma bytes_at_mapped m p l : bytes_at m p l -> mapped m p (Z.of_nat (length l)).
Proof.
  intros H q Hq. destruct (lookup_lt_is_Some_2 l (Z.to_nat (q - p))) as [b Hb]; [lia|].
  apply (bytes_at_lookup _ _ _ _ _ H) in Hb.
  rewrite Z2Nat.id in Hb by lia. replace (p + (q - p)) with q in Hb by lia. eauto.
Qed.

(** Consecutive mapped addresses are at most as many as the memory has. *)
Lemma mapped_size m p n : mapped m p n -> n <= Z.of_nat (size m).
Proof.
  intros H. destruct (Z.le_gt_cases n 0) as [?|Hn]; [lia|].
  set (s := list_to_set (C := gset Z) (seqZ p n)).
  assert (s ⊆ dom m) as Hsub.
  { intros q Hq. apply elem_of_list_to_set, elem_of_seqZ in Hq.
    apply elem_of_dom. apply H. lia. }
  apply subseteq_size in Hsub.
  unfold s in Hsub. rewrite size_list_to_set in Hsub by apply NoDup_seqZ.
  rewrite length_seqZ, size_dom in Hsub. lia.
Qed.

Lemma bytes_at_size m p l : bytes_at m p l -> (length l <= size m)%nat.
Proof. intros H%bytes_at_mapped%mapped_size. lia. Qed.

Lemma cstr_size m p s : cstr m p s -> (length s < size m)%nat.
Proof. intros [H _]. apply bytes_at_size in H. rewrite length_app in H. simpl in H. lia. Qed.

(** ** Writing lists *)

Lemma lookup_write_bytes m p l q :
  write_bytes m p l !! q =
    if decide (p <= q < p + Z.of_nat (length l)) then l !! Z.to_nat (q - p) else m !! q.
Proof.
  revert m p. induction l as [|b l IH]; intros m p; simpl.
  - rewrite decide_False by lia. done.
  - rewrite IH. destruct (decide (p = q)) as [->|Hne].
    + rewrite decide_False, decide_True by lia.
      rewrite Z.sub_diag, lookup_insert_eq. done.
    + rewrite lookup_insert_ne by done.
      case_decide; case_decide; try lia; try done.
      replace (Z.to_nat (q - p)) with (S (Z.to_nat (q - (p + 1)))) by lia. done.
Qed.

Lemma lookup_write_bytes_ne m p l q :
  ~ (p <= q < p + Z.of_nat (length l)) -> write_bytes m p l !! q = m !! q.
Proof. intros ?. rewrite lookup_write_bytes, decide_False by done. done. Qed.

Lemma write_bytes_at m p l : bytes_at (write_bytes m p l) p l.
Proof.
  apply bytes_at_intro. intros i b Hi. rewrite lookup_write_bytes, decide_True.
  - replace (p + Z.of_nat i - p) with (Z.of_nat i) by lia. by rewrite Nat2Z.id.
  - apply lookup_lt_Some in Hi. lia.
Qed.

Lemma write_bytes_app m p l k :
  write_bytes m p (l ++ k) = write_bytes (write_bytes m p l) (p + Z.of_nat (length l)) k.
Proof.
  revert m p. induction l as [|b l IH]; intros m p; simpl.
  - by rewrite Z.add_0_r.
  - rewrite IH. f_equal. lia.
Qed.

Lemma write_bytes_snoc m p l b :
  write_bytes m p (l ++ [b]) = <[p + Z.of_nat (length l) := b]> (write_bytes m p l).
Proof. by rewrite write_bytes_app. Qed.

(** Storing what is there already changes nothing. *)
Lemma write_bytes_id m p l : bytes_at m p l -> write_bytes m p l = m.
Proof.
  intros H. apply map_eq. intros q. rewrite lookup_write_bytes.
  case_decide as Hq; [|done].
  destruct (lookup_lt_is_Some_2 l (Z.to_nat (q - p))) as [b Hb]; [lia|].
  rewrite Hb. apply (bytes_at_lookup _ _ _ _ _ H) in Hb.
  rewrite Z2Nat.id in Hb by lia. by replace (p + (q - p)) with q in Hb by lia.
Qed.

Lemma mapped_write_bytes m p l q n : mapped m q n -> mapped (write_bytes m p l) q n.
Proof.
  intros H a Ha. rewrite lookup_write_bytes. case_decide; [|by apply H].
  apply lookup_lt_is_Some_2. lia.
Qed.

Lemma mapped_insert m p b q n : mapped m q n -> mapped (<[p := b]> m) q n.
Proof. apply (mapped_write_bytes m p [b]). Qed.

Lemma mapped_sub m p n q k : mapped m p n -> p <= q -> q + k <= p + n -> mapped m q k.
Proof. intros H ?? a ?. apply H. lia. Qed.

(** A list that lies outside the written range is still there. *)
Lemma bytes_at_write_bytes_ne m p l q k :
  bytes_at m q k ->
  (p + Z.of_nat (length l) <= q \/ q + Z.of_nat (length k) <= p) ->
  bytes_at (write_bytes m p l) q k.
Proof.
  intros H Hd. apply bytes_at_intro. intros i b Hi.
  pose proof (lookup_lt_Some _ _ _ Hi).
  rewrite lookup_write_bytes_ne by lia. eauto using bytes_at_lookup.
Qed.

Lemma dom_write_bytes (m : mem) p l :
  mapped m p (Z.of_nat (length l)) -> dom (write_bytes m p l) =@{gset Z} dom m.
Proof.
  intros H. apply set_eq. intros q. rewrite !elem_of_dom, lookup_write_bytes.
  case_decide as Hq; [|done]. split; intros _; [by apply H|]. apply lookup_lt_is_Some_2. lia.
Qed.

Lemma size_write_bytes m p l :
  mapped m p (Z.of_nat (length l)) -> size (write_bytes m p l) = size m.
Proof.
  intros H. rewrite <- !size_dom. f_equal. by apply dom_write_bytes.
Qed.

(** ** Reading lists *)

Lemma length_read_bytes m p n : length (read_bytes m p n) = n.
Proof. revert p. induction n as [|n IH]; intros p; simpl; [done|]. by rewrite IH. Qed.

Lemma read_bytes_at m p n : mapped m p (Z.of_nat n) -> bytes_at m p (read_bytes m p n).
Proof.
  revert p. induction n as [|n IH]; intros p H; simpl; [done|]. split.
  - destruct (H p) as [b Hb]; [lia|]. by rewrite Hb.
  - apply IH. eapply mapped_sub; [exact H|lia|lia].
Qed.

Lemma bytes_at_read_bytes m p l : bytes_at m p l -> read_bytes m p (length l) = l.
Proof.
  revert p. induction l as [|b l IH]; intros p H; simpl; [done|].
  destruct H as [H1 H2]. rewrite H1. simpl. f_equal. by apply IH.
Qed.

Lemma lookup_read_bytes m p n i :
  (i < n)%nat -> read_bytes m p n !! i = Some (default 0 (m !! (p + Z.of_nat i))).
Proof.
  revert p i. induction n as [|n IH]; intros p i Hi; [lia|].
  destruct i as [|i]; simpl.
  - by rewrite Z.add_0_r.
  - rewrite IH by lia. do 3 f_equal. lia.
Qed.

(** ** Loads and stores against lists *)

Lemma load8_at m p b l : bytes_at m p (b :: l) -> load8 m p = Ok b.
Proof. intros [H _]. unfold load8. by rewrite H. Qed.

Lemma load8_lookup m p b : m !! p = Some b -> load8 m p = Ok b.
Proof. intros H. unfold load8. by rewrite H. Qed.

Lemma store8_mapped m p v : is_Some (m !! p) -> store8 m p v = Ok (<[p := u8 v]> m).
Proof. intros [b H]. unfold store8. by rewrite H. Qed.

Fixpoint le_bytes (n : nat) (v : Z) : list Z :=
  match n with
  | O => []
  | S n => u8 v :: le_bytes n (v / 256)
  end.

Fixpoint le_value (l : list Z) : Z :=
  match l with
  | [] => 0
  | b :: l => b + 256 * le_value l
  end.

Lemma length_le_bytes n v : length (le_bytes n v) = n.
Proof. revert v. induction n as [|n IH]; intros v; simpl; [done|]. by rewrite IH. Qed.

Lemma le_value_bytes n v : le_value (le_bytes n v) = v mod 2 ^ (8 * Z.of_nat n).
Proof.
  revert v. induction n as [|n IH]; intros v.
  - simpl. by rewrite Z.mod_1_r.
  - cbn [le_value le_bytes]. rewrite IH. unfold u8.
    replace (8 * Z.of_nat (S n)) with (8 + 8 * Z.of_nat n) by lia.
    rewrite Z.pow_add_r by lia.
    rewrite (Z.rem_mul_r v (2 ^ 8)) by (try apply Z.pow_nonzero; try apply Z.pow_pos_nonneg; lia).
    done.
Qed.

Lemma le_bytes_value l :
  Forall byte_range l -> le_bytes (length l) (le_value l) = l.
Proof.
  induction 1 as [|b l Hb _ IH]; [done|]. cbn [length le_bytes le_value]. unfold byte_range in Hb.
  assert (u8 (b + 256 * le_value l) = b) as ->.
  { unfold u8. change (2 ^ 8) with 256. rewrite Z.mul_comm, Z_mod_plus_full. apply Z.mod_small. lia. }
  assert ((b + 256 * le_value l) / 256 = le_value l) as ->.
  { rewrite Z.mul_comm, Z_div_plus_full, Z.div_small by lia. lia. }
  by rewrite IH.
Qed.

Lemma load_le_at m p l k : bytes_at m p (l ++ k) -> load_le (length l) m p = Ok (le_value l).
Proof.
  revert p. induction l as [|b l IH]; intros p H; [done|].
  destruct H as [H1 H2]. simpl. rewrite (load8_lookup _ _ _ H1). simpl.
  by rewrite (IH _ H2).
Qed.

Lemma store_le_write n m p v :
  mapped m p (Z.of_nat n) -> store_le n m p v = Ok (write_bytes m p (le_bytes n v)).
Proof.
  revert m p v. induction n as [|n IH]; intros m p v H; [done|].
  simpl. rewrite store8_mapped by (apply H; lia). simpl.
  apply IH. apply mapped_insert. eapply mapped_sub; [exact H|lia|lia].
Qed.

(** What was stored is what is loaded. *)
Lemma load_store_le n m p v :
  mapped m p (Z.of_nat n) ->
  (let! m' := store_le n m p v in load_le n m' p) = Ok (v mod 2 ^ (8 * Z.of_nat n)).
Proof.
  intros H. rewrite (store_le_write n m p v H). simpl.
  rewrite <- (le_value_bytes n v). rewrite <- (length_le_bytes n v) at 1.
  apply load_le_at with (k := []). rewrite app_nil_r. apply write_bytes_at.
Qed.

Lemma le_value_range l :
  Forall byte_range l -> 0 <= le_value l < 2 ^ (8 * Z.of_nat (length l)).
Proof.
  induction 1 as [|b l Hb _ IH]; [done|]. cbn [le_value length]. unfold byte_range in Hb.
  replace (8 * Z.of_nat (S (length l))) with (8 + 8 * Z.of_nat (length l)) by lia.
  rewrite Z.pow_add_r by lia. change (2 ^ 8) with 256. lia.
Qed.

(** ** Scanning any memory

    Loops that walk through the memory one address at a time: whatever the
    memory holds, they end within [fuel_of], because every address they pass
    is mapped. *)

Lemma ends_load8 m p : ends (load8 m p) (fun b => m !! p = Some b).
Proof. unfold load8. by destruct (m !! p). Qed.

Lemma ends_store8 m p v :
  ends (store8 m p v) (fun m' => is_Some (m !! p) /\ m' = <[p := u8 v]> m).
Proof. unfold store8. destruct (m !! p) eqn:E; simpl; [|done]. by eauto. Qed.

Lemma ends_load_le n m p : ends (load_le n m p) (fun _ => mapped m p (Z.of_nat n)).
Proof.
  revert p. induction n as [|n IH]; intros p; simpl.
  - intros q Hq. lia.
  - eapply ends_bind; [apply ends_load8|]. cbv beta. intros b Hb.
    eapply ends_bind; [apply IH|]. cbv beta. intros r Hr q Hq.
    destruct (Z.eq_dec q p) as [->|]; [eauto|]. apply Hr. lia.
Qed.

Lemma ends_store_le n m p v :
  ends (store_le n m p v) (fun m' =>
    mapped m p (Z.of_nat n) /\ m' = write_bytes m p (le_bytes n v)).
Proof.
  revert m p v. induction n as [|n IH]; intros m p v; simpl.
  - split; [|done]. intros q Hq. lia.
  - eapply ends_bind; [apply ends_store8|]. cbv beta. intros m1 [Hp ->].
    eapply ends_mono; [apply IH|]. cbv beta. intros m2 [Hm ->]. split; [|done].
    intros q Hq. destruct (Z.eq_dec q p) as [->|]; [done|].
    destruct (Hm q) as [b Hb]; [lia|]. rewrite lookup_insert_ne in Hb by lia. eauto.
Qed.

Lemma mapped_dom (m m' : mem) p n : dom m' =@{gset Z} dom m -> mapped m p n -> mapped m' p n.
Proof. intros Hd H q Hq. rewrite <- elem_of_dom, Hd, elem_of_dom. by apply H. Qed.

Lemma fuel_of_dom (m m' : mem) : dom m' =@{gset Z} dom m -> fuel_of m' = fuel_of m.
Proof. intros H. unfold fuel_of. by rewrite <- !size_dom, H. Qed.

Lemma dom_store8 (m : mem) (p v : Z) : is_Some (m !! p) -> dom (<[p := u8 v]> m) =@{gset Z} dom m.
Proof. intros H. apply dom_insert_lookup_L. done. Qed.

(** The addresses from [a] up to [b], not included, are mapped. *)
Definition seg (m : mem) (a b : Z) : Prop := a <= b /\ mapped m a (b - a).

Lemma seg_refl m a : seg m a a.
Proof. split; [lia|]. intros q Hq. lia. Qed.

Lemma seg_trans m a b c : seg m a b -> seg m b c -> seg m a c.
Proof.
  intros [? H1] [? H2]. split; [lia|]. intros q Hq.
  destruct (Z.lt_ge_cases q b); [apply H1|apply H2]; lia.
Qed.

Lemma seg_one m a b : m !! a = Some b -> seg m a (a + 1).
Proof. intros H. split; [lia|]. intros q Hq. replace q with a by lia. eauto. Qed.

Lemma seg_snoc m a b c : seg m a b -> m !! b = Some c -> seg m a (b + 1).
Proof. eauto using seg_trans, seg_one. Qed.

Lemma seg_dom (m m' : mem) a b : dom m' =@{gset Z} dom m -> seg m a b -> seg m' a b.
Proof. intros Hd [? H]. split; [done|]. by eapply mapped_dom. Qed.

Lemma seg_sub m a b b' : seg m a b -> a <= b' <= b -> seg m a b'.
Proof. intros [? H] ?. split; [lia|]. eapply mapped_sub; [exact H|lia|lia]. Qed.

Lemma seg_size m a b : seg m a b -> b - a <= Z.of_nat (size m).
Proof. intros [_ H]. by apply mapped_size in H. Qed.

Lemma ends_scan {S R} (m : mem) (ptr : S -> Z) (Q : R -> Prop)
    (body : S -> outcome (S + R)) s0 :
  (forall s, seg m (ptr s0) (ptr s) -> ends (body s) (fun r =>
     match r with
     | inl s' => ptr s < ptr s' /\ seg m (ptr s) (ptr s')
     | inr r => Q r
     end)) ->
  ends (while (fuel_of m) body s0) Q.
Proof.
  intros Hb.
  apply (ends_while (fun s => seg m (ptr s0) (ptr s))
           (fun s => Z.to_nat (Z.of_nat (size m) - (ptr s - ptr s0)))).
  - intros s Hs. eapply ends_mono; [by apply Hb|]. intros [s'|r]; [|done].
    intros [Hlt Hs']. pose proof (seg_trans _ _ _ _ Hs Hs') as Ht. split; [done|].
    apply seg_size in Ht. destruct Hs. lia.
  - apply seg_refl.
  - unfold fuel_of. lia.
Qed.

(** The same for a loop that goes down. *)
Lemma ends_scan_down {S R} (m : mem) (ptr : S -> Z) (Q : R -> Prop)
    (body : S -> outcome (S + R)) s0 :
  (forall s, ends (body s) (fun r =>
     match r with
     | inl s' => ptr s' = ptr s - 1 /\ is_Some (m !! ptr s)
     | inr r => Q r
     end)) ->
  ends (while (fuel_of m) body s0) Q.
Proof.
  intros Hb.
  apply (ends_while (fun s => seg m (ptr s + 1) (ptr s0 + 1))
           (fun s => Z.to_nat (Z.of_nat (size m) - (ptr s0 - ptr s)))).
  - intros s Hs. eapply ends_mono; [by apply Hb|]. intros [s'|r]; [|done].
    intros [-> [b Hm]].
    assert (seg m (ptr s - 1 + 1) (ptr s0 + 1)) as Ht.
    { replace (ptr s - 1 + 1) with (ptr s) by lia. eapply seg_trans; [by eapply seg_one|done]. }
    split; [done|]. apply seg_size in Ht. lia.
  - apply seg_refl.
  - unfold fuel_of. lia.
Qed.

(** ** Frames: nothing is mapped, unmapped or changed outside [lo, hi). *)
Definition frame (lo hi : Z) (m m' : mem) : Prop :=
  dom m' =@{gset Z} dom m /\ forall a, ~ (lo <= a < hi) -> m' !! a = m !! a.

Lemma frame_refl lo hi m : frame lo hi m m.
Proof. by split. Qed.

Lemma frame_trans lo hi m1 m2 m3 : frame lo hi m1 m2 -> frame lo hi m2 m3 -> frame lo hi m1 m3.
Proof. intros [D1 F1] [D2 F2]. split; [congruence|]. intros a Ha. rewrite F2, F1; done. Qed.

Lemma frame_insert lo hi m m' p v :
  frame lo hi m m' -> is_Some (m' !! p) -> lo <= p < hi -> frame lo hi m (<[p := u8 v]> m').
Proof.
  intros [D F] Hp Hin. split; [by rewrite dom_store8|].
  intros a Ha. rewrite lookup_insert_ne by lia. auto.
Qed.

Lemma frame_write lo hi m p l :
  mapped m p (Z.of_nat (length l)) -> lo <= p -> p + Z.of_nat (length l) <= hi ->
  frame lo hi m (write_bytes m p l).
Proof.
  intros Hm Hlo Hhi. split; [by apply dom_write_bytes|].
  intros a Ha. apply lookup_write_bytes_ne. lia.
Qed.

Lemma frame_mono lo hi lo' hi' m m' :
  frame lo hi m m' -> lo' <= lo -> hi <= hi' -> frame lo' hi' m m'.
Proof. intros [D F] ? ?. split; [done|]. intros a Ha. apply F. lia. Qed.

#[export] Hint Resolve frame_refl frame_trans : rock.
#[export] Hint Resolve seg_refl seg_one seg_snoc seg_trans : rock.
#[export] Hint Resolve mapped_write_bytes mapped_insert write_bytes_at : rock.

(** ** Memories of bytes *)
(** The memory holds bytes. *)
Definition wf_mem (m : mem) : Prop := forall a b, m !! a = Some b -> byte_range b.

Lemma wf_mem_write m p l : wf_mem m -> Forall byte_range l -> wf_mem (write_bytes m p l).
Proof.
  intros Hm HF a b. rewrite lookup_write_bytes. case_decide; [|apply Hm].
  intros Hb. by eapply list.Forall_lookup_1.
Qed.

Lemma wf_mem_read m p n : wf_mem m -> mapped m p (Z.of_nat n) -> Forall byte_range (read_bytes m p n).
Proof.
  intros Hm Hp. apply list.Forall_forall. intros b (i & Hi)%list_elem_of_lookup.
  pose proof (lookup_lt_Some _ _ _ Hi) as Hl. rewrite length_read_bytes in Hl.
  apply (Hm (p + Z.of_nat i)). eapply bytes_at_lookup; [by apply read_bytes_at|done].
Qed.

Lemma read_bytes_add m p a b : read_bytes m p (a + b) = read_bytes m p a ++ read_bytes m (p + Z.of_nat a) b.
Proof.
  revert p. induction a as [|a IH]; intros p; cbn [Nat.add read_bytes app]; [by rewrite Z.add_0_r|].
  rewrite IH. by replace (p + 1 + Z.of_nat a) with (p + Z.of_nat (S a)) by lia.
Qed.
