(* ===== verification/Ctype.v ===== *)
(** * Character classes (lib/ctype.c, include/linux/ctype.h)

    The classification table [_ctype] byte for byte, the mask macros over it
    and the two case conversions.  Characters are [unsigned char] values; the
    macros convert their argument, which [__ismask] does with [u8]. *)

From S2P Require Import Prelude.

Local Open Scope Z_scope.

Definition _U : Z := 0x01.
Definition _L : Z := 0x02.
Definition _D : Z := 0x04.
Definition _C : Z := 0x08.
Definition _P : Z := 0x10.
Definition _S : Z := 0x20.
Definition _X : Z := 0x40.
Definition _SP : Z := 0x80.

Definition _ctype : list Z :=
  let CS := Z.lor _C _S in
  let SS := Z.lor _S _SP in
  let UX := Z.lor _U _X in
  let LX := Z.lor _L _X in
  [ _C;_C;_C;_C;_C;_C;_C;_C;                          (* 0-7 *)
    _C;CS;CS;CS;CS;CS;_C;_C;                          (* 8-15 *)
    _C;_C;_C;_C;_C;_C;_C;_C;                          (* 16-23 *)
    _C;_C;_C;_C;_C;_C;_C;_C;                          (* 24-31 *)
    SS;_P;_P;_P;_P;_P;_P;_P;                          (* 32-39 *)
    _P;_P;_P;_P;_P;_P;_P;_P;                          (* 40-47 *)
    _D;_D;_D;_D;_D;_D;_D;_D;                          (* 48-55 *)
    _D;_D;_P;_P;_P;_P;_P;_P;                          (* 56-63 *)
    _P;UX;UX;UX;UX;UX;UX;_U;                          (* 64-71 *)
    _U;_U;_U;_U;_U;_U;_U;_U;                          (* 72-79 *)
    _U;_U;_U;_U;_U;_U;_U;_U;                          (* 80-87 *)
    _U;_U;_U;_P;_P;_P;_P;_P;                          (* 88-95 *)
    _P;LX;LX;LX;LX;LX;LX;_L;                          (* 96-103 *)
    _L;_L;_L;_L;_L;_L;_L;_L;                          (* 104-111 *)
    _L;_L;_L;_L;_L;_L;_L;_L;                          (* 112-119 *)
    _L;_L;_L;_P;_P;_P;_P;_C;                          (* 120-127 *)
    0;0;0;0;0;0;0;0;0;0;0;0;0;0;0;0;                  (* 128-143 *)
    0;0;0;0;0;0;0;0;0;0;0;0;0;0;0;0;                  (* 144-159 *)
    SS;_P;_P;_P;_P;_P;_P;_P;_P;_P;_P;_P;_P;_P;_P;_P;  (* 160-175 *)
    _P;_P;_P;_P;_P;_P;_P;_P;_P;_P;_P;_P;_P;_P;_P;_P;  (* 176-191 *)
    _U;_U;_U;_U;_U;_U;_U;_U;_U;_U;_U;_U;_U;_U;_U;_U;  (* 192-207 *)
    _U;_U;_U;_U;_U;_U;_U;_P;_U;_U;_U;_U;_U;_U;_U;_L;  (* 208-223 *)
    _L;_L;_L;_L;_L;_L;_L;_L;_L;_L;_L;_L;_L;_L;_L;_L;  (* 224-239 *)
    _L;_L;_L;_L;_L;_L;_L;_P;_L;_L;_L;_L;_L;_L;_L;_L ]. (* 240-255 *)

Definition __ismask (x : Z) : Z := default 0 (_ctype !! Z.to_nat (u8 x)).

Definition has_mask (c mask : Z) : bool := negb (Z.land (__ismask c) mask =? 0).

Definition isalnum (c : Z) : bool := has_mask c (Z.lor (Z.lor _U _L) _D).
Definition isalpha (c : Z) : bool := has_mask c (Z.lor _U _L).
Definition iscntrl (c : Z) : bool := has_mask c _C.
Definition isdigit (c : Z) : bool := has_mask c _D.
Definition isgraph (c : Z) : bool := has_mask c (Z.lor (Z.lor (Z.lor _P _U) _L) _D).
Definition islower (c : Z) : bool := has_mask c _L.
Definition isprint (c : Z) : bool := has_mask c (Z.lor (Z.lor (Z.lor (Z.lor _P _U) _L) _D) _SP).
Definition ispunct (c : Z) : bool := has_mask c _P.
Definition isspace (c : Z) : bool := has_mask c _S.
Definition isupper (c : Z) : bool := has_mask c _U.
Definition isxdigit (c : Z) : bool := has_mask c (Z.lor _D _X).
Definition isblank (c : Z) : bool := (c =? 32) || (c =? 9).
Definition isascii (c : Z) : bool := u8 c <=? 0x7f.

Definition tolower (c : Z) : Z := let c := u8 c in if isupper c then u8 (c - (65 - 97)) else c.
Definition toupper (c : Z) : Z := let c := u8 c in if islower c then u8 (c - (97 - 65)) else c.

(** The classes in terms of code ranges. *)
Lemma isdigit_range c : byte_range c -> isdigit c = ((48 <=? c) && (c <=? 57)).
Proof.
  intros Hc. apply eqb_prop.
  apply (forall_byte (fun c => Bool.eqb (isdigit c) ((48 <=? c) && (c <=? 57)))); [by vm_compute|done].
Qed.

Lemma isxdigit_range c :
  byte_range c ->
  isxdigit c = ((48 <=? c) && (c <=? 57) || (65 <=? c) && (c <=? 70) || (97 <=? c) && (c <=? 102)).
Proof.
  intros Hc. apply eqb_prop.
  apply (forall_byte (fun c => Bool.eqb (isxdigit c)
    ((48 <=? c) && (c <=? 57) || (65 <=? c) && (c <=? 70) || (97 <=? c) && (c <=? 102))));
    [by vm_compute|done].
Qed.

(** Case folding is idempotent. *)
Lemma tolower_idemp c : byte_range c -> tolower (tolower c) = tolower c.
Proof.
  intros Hc. apply Z.eqb_eq.
  apply (forall_byte (fun c => tolower (tolower c) =? tolower c)); [by vm_compute|done].
Qed.

(** On upper-case letters outside the two Latin-1 symbols the conversions
    are inverse to each other. *)
Lemma toupper_tolower c : byte_range c -> isupper c = true -> toupper (tolower c) = c.
Proof.
  intros Hc Hu. apply Z.eqb_eq.
  pose proof (forall_byte (fun c => implb (isupper c) (toupper (tolower c) =? c))) as H.
  specialize (H ltac:(by vm_compute) c Hc). cbv beta in H. by rewrite Hu in H.
Qed.

Lemma tolower_range c : byte_range (tolower c).
Proof. unfold tolower. destruct (isupper _); apply u8_range. Qed.
