(* ===== verification/Str.v ===== *)
(** * The string library (lib/string.c)

    One definition per function of lib/string.c, over the memory of [CMem].
    A loop of the C code is one [while] whose state is the tuple of locals
    the loop changes; pointers move through the real memory, so overlapping
    buffers and missing terminators behave as they do in C.  [char] is
    unsigned on AArch64.

    The bound given to every loop is [fuel_of m]: each iteration touches an
    address the previous ones did not, so the loop ends (in a result or in a
    [Fault]) before the bound.  The functions that allocate ([strdup],
    [strndup]) are in [Malloc]. *)

From S2P Require Import Prelude CMem Ctype.

Local Open Scope Z_scope.
Local Open Scope c_scope.

(** ** Comparing and measuring *)

Definition strncasecmp (m : mem) (s1 s2 len : Z) : outcome Z :=
  if len =? 0 then Ok 0 else
  while (fuel_of m) (fun '(s1, s2, len) =>
    let! c1 := load8 m s1 in
    let! c2 := load8 m s2 in
    let next c1 c2 :=
      if len - 1 =? 0 then brk (c1 - c2) else cont (s1 + 1, s2 + 1, len - 1) in
    if c1 =? 0 then brk (c1 - c2)
    else if c2 =? 0 then brk (c1 - c2)
    else if c1 =? c2 then next c1 c2
    else
      let c1 := tolower c1 in
      let c2 := tolower c2 in
      if negb (c1 =? c2) then brk (c1 - c2) else next c1 c2)
  (s1, s2, len).

Definition strcasecmp (m : mem) (s1 s2 : Z) : outcome Z :=
  strncasecmp m s1 s2 (u32 (-1)).

Definition strlen (m : mem) (s : Z) : outcome Z :=
  while (fuel_of m) (fun sc =>
    let! c := load8 m sc in
    if c =? 0 then brk (sc - s) else cont (sc + 1)) s.

Definition strnlen (m : mem) (s count : Z) : outcome Z :=
  while (fuel_of m) (fun '(sc, count) =>
    if count =? 0 then brk (sc - s) else
    let! c := load8 m sc in
    if c =? 0 then brk (sc - s) else cont (sc + 1, count - 1)) (s, count).

(** The result goes through a [signed char]. *)
Definition strcmp (m : mem) (cs ct : Z) : outcome Z :=
  while (fuel_of m) (fun '(cs, ct) =>
    let! a := load8 m cs in
    let! b := load8 m ct in
    let res := s8 (a - b) in
    if negb (res =? 0) || (a =? 0) then brk res else cont (cs + 1, ct + 1)) (cs, ct).

Definition strncmp (m : mem) (cs ct count : Z) : outcome Z :=
  while (fuel_of m) (fun '(cs, ct, count, res) =>
    if count =? 0 then brk res else
    let! a := load8 m cs in
    let! b := load8 m ct in
    let res := s8 (a - b) in
    if negb (res =? 0) || (a =? 0) then brk res
    else cont (cs + 1, ct + 1, count - 1, res)) (cs, ct, count, 0).

Definition memcmp (m : mem) (cs ct count : Z) : outcome Z :=
  while (fuel_of m) (fun '(su1, su2, count, res) =>
    if negb (0 <? count) then brk res else
    let! a := load8 m su1 in
    let! b := load8 m su2 in
    let res := a - b in
    if negb (res =? 0) then brk res
    else cont (su1 + 1, su2 + 1, count - 1, res)) (cs, ct, count, 0).

(** ** Searching *)

Definition strchr (m : mem) (s c : Z) : outcome Z :=
  while (fuel_of m) (fun s =>
    let! a := load8 m s in
    if a =? u8 c then brk s
    else if a =? 0 then brk NULL
    else cont (s + 1)) s.

Definition strchrnul (m : mem) (s c : Z) : outcome Z :=
  while (fuel_of m) (fun s =>
    let! a := load8 m s in
    if a =? u8 c then brk s
    else if a =? 0 then brk s
    else cont (s + 1)) s.

Definition strrchr (m : mem) (s c : Z) : outcome Z :=
  let! len := strlen m s in
  while (fuel_of m) (fun p =>
    let! a := load8 m p in
    if a =? u8 c then brk p
    else if s <=? p - 1 then cont (p - 1) else brk NULL) (s + len).

(** The inner loops of [strspn], [strcspn] and [strpbrk]: does the string at
    [r] contain [c]? *)
Definition str_has (m : mem) (r c : Z) : outcome bool :=
  while (fuel_of m) (fun r =>
    let! b := load8 m r in
    if b =? 0 then brk false
    else if c =? b then brk true
    else cont (r + 1)) r.

Definition strcspn (m : mem) (s reject : Z) : outcome Z :=
  while (fuel_of m) (fun '(p, count) =>
    let! a := load8 m p in
    if a =? 0 then brk count else
    let! found := str_has m reject a in
    if found then brk count else cont (p + 1, count + 1)) (s, 0).

Definition strspn (m : mem) (s accept : Z) : outcome Z :=
  while (fuel_of m) (fun '(p, count) =>
    let! a := load8 m p in
    if a =? 0 then brk count else
    let! found := str_has m accept a in
    if found then cont (p + 1, count + 1) else brk count) (s, 0).

Definition strpbrk (m : mem) (cs ct : Z) : outcome Z :=
  while (fuel_of m) (fun sc1 =>
    let! a := load8 m sc1 in
    if a =? 0 then brk NULL else
    let! found := str_has m ct a in
    if found then brk sc1 else cont (sc1 + 1)) cs.

Definition memscan (m : mem) (addr c size : Z) : outcome Z :=
  while (fuel_of m) (fun '(p, size) =>
    if size =? 0 then brk p else
    let! a := load8 m p in
    if a =? c then brk p else cont (p + 1, size - 1)) (addr, size).

Definition memchr (m : mem) (s c n : Z) : outcome Z :=
  while (fuel_of m) (fun '(p, n) =>
    if n =? 0 then brk NULL else
    let! a := load8 m p in
    if u8 c =? a then brk p else cont (p + 1, n - 1)) (s, n).

Definition strstr (m : mem) (s1 s2 : Z) : outcome Z :=
  let! n2 := strlen m s2 in
  let l2 := s32 n2 in
  if l2 =? 0 then Ok s1 else
  let! n1 := strlen m s1 in
  while (fuel_of m) (fun '(s1, l1) =>
    if l1 <? l2 then brk NULL else
    let! d := memcmp m s1 s2 (u64 l2) in
    if d =? 0 then brk s1 else cont (s1 + 1, l1 - 1)) (s1, s32 n1).

Definition check_bytes8 (m : mem) (start value bytes : Z) : outcome Z :=
  while (fuel_of m) (fun '(start, bytes) =>
    if bytes =? 0 then brk NULL else
    let! a := load8 m start in
    if negb (a =? value) then brk start else cont (start + 1, bytes - 1)) (start, bytes).

(** The byte repeated in the eight bytes of a word. *)
Definition repeat8 (value : Z) : Z :=
  let v := value in
  let v := Z.lor v (u64 (Z.shiftl v 8)) in
  let v := Z.lor v (u64 (Z.shiftl v 16)) in
  Z.lor v (u64 (Z.shiftl v 32)).

Definition memchr_inv (m : mem) (start c bytes : Z) : outcome Z :=
  let value := u8 c in
  if bytes <=? 16 then check_bytes8 m start value (u32 bytes) else
  let value64 := repeat8 value in
  let words_from start bytes :=
    while (fuel_of m) (fun '(start, words) =>
      if words =? 0 then
        let! r := check_bytes8 m start value (bytes mod 8) in brk r
      else
        let! w := load64 m start in
        if negb (w =? value64) then let! r := check_bytes8 m start value 8 in brk r
        else cont (start + 8, words - 1)) (start, u32 (bytes / 8)) in
  let prefix := start mod 8 in
  if negb (prefix =? 0) then
    let prefix := 8 - prefix in
    let! r := check_bytes8 m start value prefix in
    if negb (r =? NULL) then Ok r else words_from (start + prefix) (bytes - prefix)
  else words_from start bytes.

(** ** Copying and filling *)

(** The word the aligned part of [memset] stores. *)
Fixpoint memset_word (n : nat) (c cl : Z) : Z :=
  match n with
  | O => cl
  | S n => memset_word n c (Z.lor (u64 (Z.shiftl cl 8)) (Z.land c 0xff))
  end.

Definition memset (m : mem) (s c count : Z) : outcome mem :=
  let! '(m, sl, count) :=
    if Z.land s 7 =? 0 then
      let cl := memset_word 8 c 0 in
      while (fuel_of m) (fun '(m, sl, count) =>
        if 8 <=? count then
          let! m := store64 m sl cl in cont (m, sl + 8, count - 8)
        else brk (m, sl, count)) (m, s, count)
    else Ok (m, s, count) in
  while (fuel_of m) (fun '(m, s8, count) =>
    if count =? 0 then brk m else
    let! m := store8 m s8 c in cont (m, s8 + 1, count - 1)) (m, sl, count).

Definition memcpy (m : mem) (dest src count : Z) : outcome mem :=
  if src =? dest then Ok m else
  let! '(m, dl, sl, count) :=
    if Z.land (Z.lor dest src) 7 =? 0 then
      while (fuel_of m) (fun '(m, dl, sl, count) =>
        if 8 <=? count then
          let! w := load64 m sl in
          let! m := store64 m dl w in cont (m, dl + 8, sl + 8, count - 8)
        else brk (m, dl, sl, count)) (m, dest, src, count)
    else Ok (m, dest, src, count) in
  while (fuel_of m) (fun '(m, d8, s8, count) =>
    if count =? 0 then brk m else
    let! b := load8 m s8 in
    let! m := store8 m d8 b in cont (m, d8 + 1, s8 + 1, count - 1)) (m, dl, sl, count).

Definition memmove (m : mem) (dest src count : Z) : outcome mem :=
  if dest <=? src then memcpy m dest src count
  else
    while (fuel_of m) (fun '(m, tmp, s, count) =>
      if count =? 0 then brk m else
      let! b := load8 m (s - 1) in
      let! m := store8 m (tmp - 1) b in cont (m, tmp - 1, s - 1, count - 1))
    (m, dest + count, src + count, count).

Definition strcpy (m : mem) (dest src : Z) : outcome mem :=
  while (fuel_of m) (fun '(m, dest, src) =>
    let! c := load8 m src in
    let! m := store8 m dest c in
    if c =? 0 then brk m else cont (m, dest + 1, src + 1)) (m, dest, src).

Definition strncpy (m : mem) (dest src count : Z) : outcome mem :=
  while (fuel_of m) (fun '(m, dest, src, count) =>
    if count =? 0 then brk m else
    let! c := load8 m src in
    let! m := store8 m dest c in
    if c =? 0 then brk m else cont (m, dest + 1, src + 1, count - 1)) (m, dest, src, count).

Definition strlcpy (m : mem) (dest src size : Z) : outcome (mem * Z) :=
  let! ret := strlen m src in
  if size =? 0 then Ok (m, ret) else
  let len := if size <=? ret then size - 1 else ret in
  let! m := memcpy m dest src len in
  let! m := store8 m (dest + len) 0 in
  Ok (m, ret).

(** [while ( *dest) dest++;] of [strcat] and [strncat]. *)
Definition str_end (m : mem) (dest : Z) : outcome Z :=
  while (fuel_of m) (fun dest =>
    let! c := load8 m dest in
    if c =? 0 then brk dest else cont (dest + 1)) dest.

Definition strcat (m : mem) (dest src : Z) : outcome mem :=
  let! d := str_end m dest in
  while (fuel_of m) (fun '(m, dest, src) =>
    let! c := load8 m src in
    let! m := store8 m dest c in
    if c =? 0 then brk m else cont (m, dest + 1, src + 1)) (m, d, src).

Definition strncat (m : mem) (dest src count : Z) : outcome mem :=
  if count =? 0 then Ok m else
  let! d := str_end m dest in
  while (fuel_of m) (fun '(m, dest, src, count) =>
    let! c := load8 m src in
    let! m := store8 m dest c in
    if c =? 0 then brk m
    else if count - 1 =? 0 then let! m := store8 m (dest + 1) 0 in brk m
    else cont (m, dest + 1, src + 1, count - 1)) (m, d, src, count).

(** ** Tokens *)

(** [tok] is the static [___strtok]; the result is the new memory, the new
    [___strtok] and the token. *)
Definition strtok (m : mem) (tok s ct : Z) : outcome (mem * Z * Z) :=
  let sbegin := if negb (s =? NULL) then s else tok in
  if sbegin =? NULL then Ok (m, tok, NULL) else
  let! n := strspn m sbegin ct in
  let sbegin := sbegin + n in
  let! c := load8 m sbegin in
  if c =? 0 then Ok (m, NULL, NULL) else
  let! send := strpbrk m sbegin ct in
  if negb (send =? NULL) then
    let! e := load8 m send in
    if negb (e =? 0) then
      let! m := store8 m send 0 in Ok (m, send + 1, sbegin)
    else Ok (m, send, sbegin)
  else Ok (m, send, sbegin).

(** [s] is the value of the pointer variable; the result is the memory, its
    new value and the token. *)
Definition strsep (m : mem) (s ct : Z) : outcome (mem * Z * Z) :=
  if s =? NULL then Ok (m, s, NULL) else
  let! e := strpbrk m s ct in
  if negb (e =? NULL) then
    let! m := store8 m e 0 in Ok (m, e + 1, s)
  else Ok (m, e, s).

Definition strswab (m : mem) (s : Z) : outcome (mem * Z) :=
  if s =? NULL then Ok (m, NULL) else
  let! c := load8 m s in
  if c =? 0 then Ok (m, NULL) else
  let! m' :=
    while (fuel_of m) (fun '(m, p, q) =>
      let! a := load8 m p in
      if a =? 0 then brk m else
      let! b := load8 m q in
      if b =? 0 then brk m else
      let! m := store8 m p b in
      let! m := store8 m q a in
      cont (m, p + 2, q + 2)) (m, s, s + 1) in
  Ok (m', s).
