(* ===== verification/StrFacts.v ===== *)
(** * Correctness of the string library

    Each function of [Str] against what it promises on lists of bytes: a
    caller that knows which lists lie in memory ([cstr], [bytes_at]) knows
    the result and the memory afterwards ([write_bytes]), truncation and
    overlap included. *)

From S2P Require Import Prelude CMem Ctype Str.

Local Open Scope Z_scope.
Local Open Scope c_scope.

(** ** Stepping through a string *)

Lemma cstr_nil m p : cstr m p [] -> load8 m p = Ok 0.
Proof. intros [H _]. exact (load8_at m p 0 [] H). Qed.

Lemma cstr_cons m p c s :
  cstr m p (c :: s) -> load8 m p = Ok c /\ 0 < c < 256 /\ cstr m (p + 1) s.
Proof.
  intros [[H1 H2] HF]. apply Forall_cons_1 in HF as [Hc HF].
  split; [by apply load8_lookup|]. split; [done|]. by split.
Qed.

Lemma cstr_tail m p c s : cstr m p (c :: s) -> cstr m (p + 1) s.
Proof. intros H. by apply cstr_cons in H as (_ & _ & H). Qed.

Lemma cstr_write_ne m p s d l :
  cstr m p s -> (d + Z.of_nat (length l) <= p \/ p + Z.of_nat (length s) < d) ->
  cstr (write_bytes m d l) p s.
Proof.
  intros [H HF] Hd. split; [|done]. apply bytes_at_write_bytes_ne; [done|].
  rewrite length_app. simpl. lia.
Qed.

Lemma cstr_insert_ne m p s d b :
  cstr m p s -> (d < p \/ p + Z.of_nat (length s) < d) -> cstr (<[d := b]> m) p s.
Proof. intros H Hd. apply (cstr_write_ne m p s d [b] H). simpl. lia. Qed.

(** The memory string determines the list. *)
Lemma cstr_inj m p s t : cstr m p s -> cstr m p t -> s = t.
Proof.
  revert p t. induction s as [|c s IH]; intros p [|d t] Hs Ht; [done| | |].
  - apply cstr_nil in Hs. apply cstr_cons in Ht as (Ht & ? & _).
    rewrite Hs in Ht. injection Ht. lia.
  - apply cstr_nil in Ht. apply cstr_cons in Hs as (Hs & ? & _).
    rewrite Hs in Ht. injection Ht. lia.
  - apply cstr_cons in Hs as (Hc & ? & Hs). apply cstr_cons in Ht as (Hd & ? & Ht).
    rewrite Hc in Hd. injection Hd as ->. f_equal. eauto.
Qed.

(** Executes the loads of one iteration over the strings in the context. *)
Ltac cstr_step :=
  repeat match goal with
  | H : cstr _ ?p [] |- context [load8 _ ?p] => rewrite (cstr_nil _ _ H)
  | H : cstr _ ?p (_ :: _) |- context [load8 _ ?p] =>
      let E := fresh "E" in let R := fresh "R" in let T := fresh "T" in
      destruct (cstr_cons _ _ _ _ H) as (E & R & T); rewrite E; clear E
  end; cbn [obind].

(** One unfolding of a loop with fuel to spare. *)
Ltac while_step fuel := destruct fuel as [|fuel]; [simpl in *; lia|]; cbn [while].

(** ** Measuring *)

Lemma strlen_loop m s0 fuel s p :
  cstr m p s -> (length s < fuel)%nat ->
  while fuel (fun sc =>
    let! c := load8 m sc in
    if c =? 0 then brk (sc - s0) else cont (sc + 1)) p = Ok (p + Z.of_nat (length s) - s0).
Proof.
  revert p fuel. induction s as [|c s IH]; intros p fuel H Hf; while_step fuel; cstr_step.
  - simpl. f_equal. lia.
  - case_cmp; [lia|]. cbn. rewrite IH by (simpl in *; done || lia). f_equal. simpl. lia.
Qed.

Lemma strlen_cstr m s l : cstr m s l -> strlen m s = Ok (Z.of_nat (length l)).
Proof.
  intros H. unfold strlen. rewrite (strlen_loop m s _ l s H).
  - f_equal. lia.
  - apply cstr_size in H. unfold fuel_of. lia.
Qed.

Lemma str_end_cstr m d l : cstr m d l -> str_end m d = Ok (d + Z.of_nat (length l)).
Proof.
  intros H. unfold str_end. pose proof (cstr_size _ _ _ H) as Hf.
  assert (length l < fuel_of m)%nat as Hfuel by (unfold fuel_of; lia). clear Hf. revert H Hfuel.
  generalize (fuel_of m) as fuel. intros fuel. revert d fuel.
  induction l as [|c l IH]; intros d fuel H Hf; while_step fuel; cstr_step.
  - simpl. f_equal. lia.
  - case_cmp; [lia|]. cbn. rewrite IH by (simpl in *; done || lia). f_equal. simpl. lia.
Qed.

Lemma strnlen_loop m s0 fuel s p n :
  cstr m p s -> 0 <= n -> (length s < fuel)%nat ->
  while fuel (fun '(sc, count) =>
    if count =? 0 then brk (sc - s0) else
    let! c := load8 m sc in
    if c =? 0 then brk (sc - s0) else cont (sc + 1, count - 1)) (p, n)
  = Ok (p + Z.min n (Z.of_nat (length s)) - s0).
Proof.
  revert p n fuel. induction s as [|c s IH]; intros p n fuel H Hn Hf; while_step fuel.
  - case_cmp; [cbn; f_equal; lia|]. cstr_step. cbn. f_equal. lia.
  - case_cmp; [cbn; f_equal; lia|]. cstr_step. case_cmp; [lia|]. cbn.
    rewrite IH by (simpl in *; done || lia). f_equal. simpl. lia.
Qed.

Lemma strnlen_cstr m s l n :
  cstr m s l -> 0 <= n -> strnlen m s n = Ok (Z.min n (Z.of_nat (length l))).
Proof.
  intros H Hn. unfold strnlen. rewrite (strnlen_loop m s _ l s n H Hn).
  - f_equal. lia.
  - apply cstr_size in H. unfold fuel_of. lia.
Qed.

(** On any memory. *)
Lemma strlen_ends m s : ends (strlen m s) (fun _ => True).
Proof.
  apply (ends_scan m (fun p => p)). intros p _. ends_step ends_load8 as c Hc.
  case_cmp; simpl; [done|]. split; [lia|eauto with rock].
Qed.

Lemma strnlen_ends m s n : ends (strnlen m s n) (fun _ => True).
Proof.
  apply (ends_scan m fst). intros [p c] _. cbn [fst]. case_cmp; [done|].
  ends_step ends_load8 as b Hb.
  case_cmp; simpl; [done|]. split; [lia|eauto with rock].
Qed.

(** ** Comparing *)

(** Byte-wise lexicographic order, the order [strcmp] is about. *)
Fixpoint lex_lt (s t : list Z) : bool :=
  match s, t with
  | _, [] => false
  | [], _ :: _ => true
  | a :: s, b :: t => (a <? b) || ((a =? b) && lex_lt s t)
  end.

(** The first difference, as [strcmp] returns it. *)
Fixpoint first_diff (s t : list Z) : Z :=
  match s, t with
  | [], [] => 0
  | [], b :: _ => s8 (0 - b)
  | a :: _, [] => s8 (a - 0)
  | a :: s, b :: t => if a =? b then first_diff s t else s8 (a - b)
  end.

Lemma s8_zero a b : byte_range a -> byte_range b -> s8 (a - b) = 0 <-> a = b.
Proof.
  intros Ha Hb. unfold s8, swrap, byte_range in *. change (2 ^ 8) with 256. change (2 ^ (8 - 1)) with 128.
  split; intros; [dlia|]. subst. rewrite Z.sub_diag. done.
Qed.

Lemma s8_neg_ascii a b : 0 <= a < 128 -> 0 <= b < 128 -> s8 (a - b) < 0 <-> a < b.
Proof.
  intros Ha Hb. unfold s8. rewrite swrap_small; [lia|lia|]. simpl. lia.
Qed.

Lemma strcmp_cstr m a b s t :
  cstr m a s -> cstr m b t -> strcmp m a b = Ok (first_diff s t).
Proof.
  intros Hs Ht. unfold strcmp. pose proof (cstr_size _ _ _ Hs) as Hf.
  assert (length s < fuel_of m)%nat as Hfuel by (unfold fuel_of; lia). clear Hf.
  revert Hs Ht Hfuel. generalize (fuel_of m) as fuel. intros fuel. revert a b t fuel.
  induction s as [|x s IH]; intros a b [|y t] fuel Hs Ht Hf; while_step fuel; cstr_step; cbn [first_diff].
  - done.
  - rewrite orb_true_r. done.
  - assert (s8 (x - 0) <> 0) by (rewrite s8_zero by (unfold byte_range; lia); lia).
    case_cmp; [done|]. done.
  - destruct (Z.eqb_spec x y) as [->|Hne].
    + rewrite Z.sub_diag. change (s8 0) with 0. cbn [Z.eqb negb orb]. case_cmp; [lia|]. cbn. apply IH; [done|done|simpl in *; lia].
    + assert (s8 (x - y) <> 0) by (rewrite s8_zero by (unfold byte_range; lia); lia).
      case_cmp; [done|]. done.
Qed.

Lemma first_diff_zero s t :
  Forall (fun b => 0 < b < 256) s -> Forall (fun b => 0 < b < 256) t ->
  first_diff s t = 0 <-> s = t.
Proof.
  intros Hs. revert t. induction Hs as [|x s Hx Hs IH]; intros t Ht;
    destruct Ht as [|y t Hy Ht]; cbn [first_diff].
  - done.
  - rewrite s8_zero by (unfold byte_range; lia). split; [lia|done].
  - rewrite s8_zero by (unfold byte_range; lia). split; [lia|done].
  - case_cmp.
    + subst. rewrite IH by done. split; [by intros ->|congruence].
    + rewrite s8_zero by (unfold byte_range; lia). split; congruence.
Qed.

Lemma first_diff_lex s t :
  Forall (fun b => 0 < b < 128) s -> Forall (fun b => 0 < b < 128) t ->
  first_diff s t < 0 <-> lex_lt s t = true.
Proof.
  intros Hs. revert t. induction Hs as [|x s Hx Hs IH]; intros t Ht;
    destruct Ht as [|y t Hy Ht]; cbn [first_diff lex_lt].
  - done.
  - rewrite s8_neg_ascii by lia. split; [done|lia].
  - rewrite s8_neg_ascii by lia. split; [lia|done].
  - case_cmp; subst.
    + rewrite Z.ltb_irrefl. simpl. by apply IH.
    + rewrite s8_neg_ascii by lia. rewrite andb_false_l, orb_false_r, Z.ltb_lt. done.
Qed.

(** [strncmp] compares the first [n] bytes. *)
Lemma strncmp_cstr m a b s t n :
  cstr m a s -> cstr m b t -> 0 <= n ->
  strncmp m a b n = Ok (first_diff (take (Z.to_nat n) s) (take (Z.to_nat n) t)).
Proof.
  intros Hs Ht. unfold strncmp. pose proof (cstr_size _ _ _ Hs) as Hf.
  assert (length s < fuel_of m)%nat as Hfuel by (unfold fuel_of; lia). clear Hf.
  revert Hs Ht Hfuel. generalize (fuel_of m) as fuel. intros fuel. revert a b t n fuel.
  induction s as [|x s IH]; intros a b [|y t] n fuel Hs Ht Hf Hn; while_step fuel;
    (destruct (Z.eqb_spec n 0) as [->|Hn0]; [done|]);
    (replace (Z.to_nat n) with (S (Z.to_nat (n - 1))) by lia); cstr_step; cbn [first_diff take].
  - done.
  - rewrite orb_true_r. done.
  - assert (s8 (x - 0) <> 0) by (rewrite s8_zero by (unfold byte_range; lia); lia).
    case_cmp; [done|]. done.
  - destruct (Z.eqb_spec x y) as [->|Hne].
    + rewrite Z.sub_diag. change (s8 0) with 0. cbn [Z.eqb negb orb]. case_cmp; [lia|]. cbn. apply IH; [done|done|simpl in *; lia|lia].
    + assert (s8 (x - y) <> 0) by (rewrite s8_zero by (unfold byte_range; lia); lia).
      case_cmp; [done|]. done.
Qed.

(** ** Filling and copying *)

Lemma write_bytes_insert_ne m p l q b :
  ~ (p <= q < p + Z.of_nat (length l)) ->
  write_bytes (<[q := b]> m) p l = <[q := b]> (write_bytes m p l).
Proof.
  intros Hq. apply map_eq. intros a.
  rewrite lookup_write_bytes. destruct (decide (q = a)) as [->|Hne].
  - rewrite decide_False by done. by rewrite !lookup_insert_eq.
  - rewrite !lookup_insert_ne by done. by rewrite lookup_write_bytes.
Qed.

Lemma bytes_at_insert_ne m p l q b :
  bytes_at m p l -> (q < p \/ p + Z.of_nat (length l) <= q) -> bytes_at (<[q := b]> m) p l.
Proof. intros H Hq. apply (bytes_at_write_bytes_ne m q [b] p l H). simpl. lia. Qed.

(** Taking the first eight bytes of a list. *)
Lemma split8 (l : list Z) :
  (8 <= length l)%nat -> exists w k, l = w ++ k /\ length w = 8%nat.
Proof.
  intros H. exists (take 8 l), (drop 8 l). rewrite take_drop, length_take. split; [done|lia].
Qed.

Lemma store64_word m p w k :
  mapped m p 8 -> Forall byte_range (w ++ k) -> length w = 8%nat ->
  store64 m p (le_value w) = Ok (write_bytes m p w).
Proof.
  intros Hm HF Hl. unfold store64. rewrite store_le_write by done.
  rewrite <- Hl, le_bytes_value; [done|]. by apply Forall_app in HF as [? _].
Qed.

Definition memset_bytes_body (c : Z) : mem * Z * Z -> outcome (mem * Z * Z + mem) :=
  fun '(m, s8, count) =>
    if count =? 0 then brk m else
    let! m := store8 m s8 c in cont (m, s8 + 1, count - 1).

Lemma memset_bytes_loop c n m s fuel :
  mapped m s (Z.of_nat n) -> (n < fuel)%nat ->
  while fuel (memset_bytes_body c) (m, s, Z.of_nat n) = Ok (write_bytes m s (replicate n (u8 c))).
Proof.
  revert m s fuel. induction n as [|n IH]; intros m s fuel Hm Hf; while_step fuel; cbn [memset_bytes_body].
  - done.
  - case_cmp; [lia|]. rewrite store8_mapped by (apply Hm; lia). cbn [obind cont].
    replace (Z.of_nat (S n) - 1) with (Z.of_nat n) by lia.
    rewrite IH; [done| |lia].
    apply mapped_insert. eapply mapped_sub; [exact Hm|lia|lia].
Qed.

Lemma memset_word_u8 n c cl : memset_word n c cl = memset_word n (u8 c) cl.
Proof.
  revert cl. induction n as [|n IH]; intros cl; [done|]. cbn [memset_word]. rewrite IH.
  do 2 f_equal. unfold u8. rewrite <- (Z.land_ones c 8) by lia.
  change (Z.ones 8) with 0xff. rewrite <- Z.land_assoc. by rewrite Z.land_diag.
Qed.

Lemma memset_word_byte b :
  byte_range b -> le_bytes 8 (memset_word 8 b 0) = replicate 8 b.
Proof.
  intros Hb.
  pose proof (forall_byte (fun b => bool_decide (le_bytes 8 (memset_word 8 b 0) = replicate 8 b))
    ltac:(by vm_compute) b Hb) as H.
  exact (bool_decide_eq_true_1 _ H).
Qed.

Lemma memset_word_bytes c : le_bytes 8 (memset_word 8 c 0) = replicate 8 (u8 c).
Proof. rewrite memset_word_u8. apply memset_word_byte, u8_range. Qed.

Lemma memset_word_loop c n r m s fuel :
  (r < 8)%nat -> mapped m s (Z.of_nat (8 * n + r)) -> (n < fuel)%nat ->
  while fuel (fun '(m, sl, count) =>
    if 8 <=? count then
      let! m := store64 m sl (memset_word 8 c 0) in cont (m, sl + 8, count - 8)
    else brk (m, sl, count)) (m, s, Z.of_nat (8 * n + r))
  = Ok (write_bytes m s (replicate (8 * n) (u8 c)), s + Z.of_nat (8 * n), Z.of_nat r).
Proof.
  intros Hr. revert m s fuel. induction n as [|n IH]; intros m s fuel Hm Hf; while_step fuel.
  - case_cmp; [lia|]. cbn [obind brk]. ok_eq.
  - case_cmp; [|lia]. unfold store64.
    rewrite store_le_write by (eapply mapped_sub; [exact Hm|lia|lia]).
    cbn [obind cont]. rewrite memset_word_bytes.
    replace (Z.of_nat (8 * S n + r) - 8) with (Z.of_nat (8 * n + r)) by lia.
    rewrite IH; [| |lia].
    + replace (8 * S n)%nat with (8 + 8 * n)%nat by lia. rewrite replicate_add, write_bytes_app.
      rewrite length_replicate. ok_eq.
    + apply mapped_write_bytes. eapply mapped_sub; [exact Hm|lia|lia].
Qed.

Lemma memset_write m s c n :
  0 <= n -> mapped m s n ->
  memset m s c n = Ok (write_bytes m s (replicate (Z.to_nat n) (u8 c))).
Proof.
  intros Hn Hm. pose proof (mapped_size _ _ _ Hm) as Hsz. unfold memset.
  destruct (Z.land s 7 =? 0); cbn [obind].
  - set (N := Z.to_nat n). replace n with (Z.of_nat N) in * by lia.
    pose proof (Nat.div_mod_eq N 8) as HN.
    pose proof (Nat.mod_upper_bound N 8 ltac:(lia)) as Hr.
    rewrite HN at 1. rewrite (memset_word_loop c (N / 8) (N mod 8)); [|lia| |].
    + cbn [obind]. rewrite (memset_bytes_loop c).
      * rewrite HN at 4. rewrite replicate_add, write_bytes_app, length_replicate. done.
      * apply mapped_write_bytes. eapply mapped_sub; [exact Hm|lia|lia].
      * unfold fuel_of. rewrite size_write_bytes; [lia|].
        rewrite length_replicate. eapply mapped_sub; [exact Hm|lia|lia].
    + eapply mapped_sub; [exact Hm|lia|lia].
    + unfold fuel_of. lia.
  - replace n with (Z.of_nat (Z.to_nat n)) at 1 by lia.
    rewrite (memset_bytes_loop c); [done| |unfold fuel_of; lia].
    by rewrite Z2Nat.id.
Qed.

(** Forward copying is right when the destination does not start inside the
    part of the source that is still to be read. *)
Definition forward_ok (dest src n : Z) : Prop := dest <= src \/ src + n <= dest.

Lemma memcpy_bytes_loop l m dest src fuel :
  bytes_at m src l -> Forall byte_range l -> mapped m dest (Z.of_nat (length l)) ->
  forward_ok dest src (Z.of_nat (length l)) -> (length l < fuel)%nat ->
  while fuel (fun '(m, d8, s8, count) =>
    if count =? 0 then brk m else
    let! b := load8 m s8 in
    let! m := store8 m d8 b in cont (m, d8 + 1, s8 + 1, count - 1))
  (m, dest, src, Z.of_nat (length l)) = Ok (write_bytes m dest l).
Proof.
  unfold forward_ok.
  revert m dest src fuel. induction l as [|b l IH]; intros m dest src fuel Hs HF Hd Ho Hf;
    while_step fuel; [done|].
  destruct Hs as [Hb Hs]. apply Forall_cons_1 in HF as [Rb HF]. cbn [length] in *.
  case_cmp; [lia|]. rewrite (load8_lookup _ _ _ Hb). cbn [obind].
  rewrite store8_mapped by (apply Hd; lia). cbn [obind cont]. rewrite (u8_small b Rb).
  replace (Z.of_nat (S (length l)) - 1) with (Z.of_nat (length l)) by lia.
  rewrite IH; [done| |done| |lia|lia].
  - apply bytes_at_insert_ne; [done|lia].
  - apply mapped_insert. eapply mapped_sub; [exact Hd|lia|lia].
Qed.

Lemma memcpy_word_loop n : forall l m dest src fuel,
  (8 * n <= length l < 8 * n + 8)%nat ->
  bytes_at m src l -> Forall byte_range l -> mapped m dest (Z.of_nat (length l)) ->
  forward_ok dest src (Z.of_nat (length l)) -> (n < fuel)%nat ->
  while fuel (fun '(m, dl, sl, count) =>
    if 8 <=? count then
      let! w := load64 m sl in
      let! m := store64 m dl w in cont (m, dl + 8, sl + 8, count - 8)
    else brk (m, dl, sl, count)) (m, dest, src, Z.of_nat (length l))
  = Ok (write_bytes m dest (take (8 * n) l), dest + Z.of_nat (8 * n),
        src + Z.of_nat (8 * n), Z.of_nat (length (drop (8 * n) l))).
Proof.
  unfold forward_ok.
  induction n as [|n IH]; intros l m dest src fuel Hl Hs HF Hd Ho Hf; while_step fuel.
  - case_cmp; [lia|]. cbn [obind brk]. change (8 * 0)%nat with 0%nat. rewrite drop_0. ok_eq.
  - destruct (split8 l) as (w & k & -> & Hw); [lia|].
    rewrite length_app, Hw in *. case_cmp; [|lia].
    unfold load64. rewrite <- Hw at 1. rewrite (load_le_at m src w k Hs). cbn [obind].
    rewrite (store64_word m dest w k);
      [|eapply mapped_sub; [exact Hd|lia|lia]|done|done]. cbn [obind cont].
    replace (Z.of_nat (8 + length k) - 8) with (Z.of_nat (length k)) by lia.
    replace (8 * S n)%nat with (length w + 8 * n)%nat by lia.
    rewrite take_app_add, drop_app_add. rewrite write_bytes_app, Hw.
    apply bytes_at_app in Hs as [_ Hs]. rewrite Hw in Hs. apply Forall_app in HF as [_ HF].
    rewrite (IH k); [|lia| |done| |lia|lia].
    + ok_eq.
    + apply bytes_at_write_bytes_ne; [done|]. rewrite Hw. lia.
    + apply mapped_write_bytes. eapply mapped_sub; [exact Hd|lia|lia].
Qed.

Lemma memcpy_write m dest src l :
  bytes_at m src l -> Forall byte_range l -> mapped m dest (Z.of_nat (length l)) ->
  forward_ok dest src (Z.of_nat (length l)) ->
  memcpy m dest src (Z.of_nat (length l)) = Ok (write_bytes m dest l).
Proof.
  intros Hs HF Hd Ho. pose proof (mapped_size _ _ _ Hd) as Hsz. unfold memcpy.
  case_cmp; [subst; by rewrite write_bytes_id|].
  destruct (Z.land (Z.lor dest src) 7 =? 0); cbn [obind].
  - set (k := (length l / 8)%nat).
    pose proof (Nat.div_mod_eq (length l) 8) as HN. fold k in HN.
    pose proof (Nat.mod_upper_bound (length l) 8 ltac:(lia)) as Hr.
    rewrite (memcpy_word_loop k l m dest src); [|lia|done|done|done|done|unfold fuel_of; lia].
    cbn [obind].
    assert (length (take (8 * k) l) = 8 * k)%nat as Ht by (rewrite length_take; lia).
    assert (length (drop (8 * k) l) = length l - 8 * k)%nat as Hk by apply length_drop.
    assert (write_bytes m dest l =
      write_bytes (write_bytes m dest (take (8 * k) l)) (dest + Z.of_nat (8 * k)) (drop (8 * k) l))
      as -> by (rewrite <- (take_drop (8 * k) l) at 1; by rewrite write_bytes_app, Ht).
    rewrite <- (take_drop (8 * k) l) in Hs. apply bytes_at_app in Hs as [_ Hs]. rewrite Ht in Hs.
    unfold forward_ok in *. apply memcpy_bytes_loop.
    + apply bytes_at_write_bytes_ne; [done|]. rewrite Ht. lia.
    + by apply Forall_drop.
    + apply mapped_write_bytes. eapply mapped_sub; [exact Hd|lia|lia].
    + unfold forward_ok. lia.
    + unfold fuel_of. rewrite size_write_bytes; [lia|].
      rewrite Ht. eapply mapped_sub; [exact Hd|lia|lia].
  - apply memcpy_bytes_loop; [done|done|done|done|unfold fuel_of; lia].
Qed.

Lemma memmove_down_loop l m dest src fuel :
  bytes_at m src l -> Forall byte_range l -> mapped m dest (Z.of_nat (length l)) ->
  src < dest -> (length l < fuel)%nat ->
  while fuel (fun '(m, tmp, s, count) =>
    if count =? 0 then brk m else
    let! b := load8 m (s - 1) in
    let! m := store8 m (tmp - 1) b in cont (m, tmp - 1, s - 1, count - 1))
  (m, dest + Z.of_nat (length l), src + Z.of_nat (length l), Z.of_nat (length l))
  = Ok (write_bytes m dest l).
Proof.
  revert m fuel. induction l as [|b l IH] using rev_ind; intros m fuel Hs HF Hd Ho Hf;
    while_step fuel; [done|].
  apply bytes_at_app in Hs as [Hs [Hb _]]. apply Forall_app in HF as [HF Rb].
  apply Forall_cons_1 in Rb as [Rb _]. rewrite length_app in *. cbn [length] in *.
  case_cmp; [lia|].
  replace (src + Z.of_nat (length l + 1) - 1) with (src + Z.of_nat (length l)) by lia.
  rewrite (load8_lookup _ _ _ Hb). cbn [obind].
  replace (dest + Z.of_nat (length l + 1) - 1) with (dest + Z.of_nat (length l)) by lia.
  rewrite store8_mapped by (apply Hd; lia). cbn [obind cont]. rewrite (u8_small b Rb).
  replace (Z.of_nat (length l + 1) - 1) with (Z.of_nat (length l)) by lia.
  rewrite IH; [| |done| |done|lia].
  - by rewrite write_bytes_snoc, write_bytes_insert_ne by lia.
  - apply bytes_at_insert_ne; [done|lia].
  - apply mapped_insert. eapply mapped_sub; [exact Hd|lia|lia].
Qed.

Lemma memmove_write m dest src l :
  bytes_at m src l -> Forall byte_range l -> mapped m dest (Z.of_nat (length l)) ->
  memmove m dest src (Z.of_nat (length l)) = Ok (write_bytes m dest l).
Proof.
  intros Hs HF Hd. unfold memmove. case_cmp.
  - apply memcpy_write; [done|done|done|]. unfold forward_ok. lia.
  - apply memmove_down_loop; [done|done|done|lia|].
    pose proof (mapped_size _ _ _ Hd). unfold fuel_of. lia.
Qed.

(** ** Copying strings *)

Definition disjoint_from (dest n src k : Z) : Prop := dest + n <= src \/ src + k <= dest.

Lemma strcpy_loop s m dest src fuel :
  cstr m src s -> mapped m dest (Z.of_nat (length s) + 1) ->
  forward_ok dest src (Z.of_nat (length s) + 1) -> (length s < fuel)%nat ->
  while fuel (fun '(m, dest, src) =>
    let! c := load8 m src in
    let! m := store8 m dest c in
    if c =? 0 then brk m else cont (m, dest + 1, src + 1)) (m, dest, src)
  = Ok (write_bytes m dest (s ++ [0])).
Proof.
  unfold forward_ok. revert m dest src fuel.
  induction s as [|c s IH]; intros m dest src fuel Hs Hd Ho Hf; while_step fuel; cstr_step;
    (rewrite store8_mapped by (apply Hd; lia)); cbn [obind].
  - done.
  - rewrite u8_small by (unfold byte_range; lia). case_cmp; [lia|]. loop_next.
    cbn [length] in *.
    rewrite IH; [done| | |lia|lia].
    + apply cstr_insert_ne; [done|lia].
    + apply mapped_insert. eapply mapped_sub; [exact Hd|lia|lia].
Qed.

Lemma strcpy_write m dest src s :
  cstr m src s -> mapped m dest (Z.of_nat (length s) + 1) ->
  forward_ok dest src (Z.of_nat (length s) + 1) ->
  strcpy m dest src = Ok (write_bytes m dest (s ++ [0])).
Proof.
  intros Hs Hd Ho. apply strcpy_loop; [done|done|done|].
  apply cstr_size in Hs. unfold fuel_of. lia.
Qed.

Lemma strcat_write m dest src d s :
  cstr m dest d -> cstr m src s ->
  mapped m dest (Z.of_nat (length d) + Z.of_nat (length s) + 1) ->
  forward_ok (dest + Z.of_nat (length d)) src (Z.of_nat (length s) + 1) ->
  strcat m dest src = Ok (write_bytes m (dest + Z.of_nat (length d)) (s ++ [0])).
Proof.
  intros Hd Hs Hm Ho. unfold strcat. rewrite (str_end_cstr m dest d Hd). cbn [obind].
  apply strcpy_loop; [done| |done|].
  - eapply mapped_sub; [exact Hm|lia|lia].
  - apply cstr_size in Hs. unfold fuel_of. lia.
Qed.

Lemma cstr_bytes m p s : cstr m p s -> bytes_at m p s.
Proof. intros [H _]. by apply bytes_at_app in H as [? _]. Qed.

Lemma bytes_at_take m p l n : bytes_at m p l -> bytes_at m p (take n l).
Proof. intros H. rewrite <- (take_drop n l) in H. by apply bytes_at_app in H as [? _]. Qed.

Lemma cstr_byte_range (s : list Z) : Forall (fun b => 0 < b < 256) s -> Forall byte_range s.
Proof. apply Forall_impl. unfold byte_range. lia. Qed.

(** [strlcpy] stores the longest prefix that fits with its terminator. *)
Lemma strlcpy_write m dest src s size :
  cstr m src s -> 0 < size ->
  mapped m dest (Z.min size (Z.of_nat (length s) + 1)) ->
  forward_ok dest src (Z.of_nat (length s)) ->
  strlcpy m dest src size =
    Ok (write_bytes m dest (take (Z.to_nat (size - 1)) s ++ [0]), Z.of_nat (length s)).
Proof.
  intros Hs Hsz Hd Ho. unfold strlcpy. rewrite (strlen_cstr m src s Hs). cbn [obind].
  case_cmp; [lia|].
  set (t := take (Z.to_nat (size - 1)) s).
  assert (Z.of_nat (length t) = Z.min (size - 1) (Z.of_nat (length s))) as Ht
    by (unfold t; rewrite length_take; lia).
  replace (if size <=? Z.of_nat (length s) then size - 1 else Z.of_nat (length s))
    with (Z.of_nat (length t)) by (case_cmp; lia).
  assert (bytes_at m src t) as Hb by (apply bytes_at_take, cstr_bytes, Hs).
  assert (Forall byte_range t) as HF by (apply Forall_take, cstr_byte_range, (proj2 Hs)).
  unfold forward_ok in *.
  rewrite (memcpy_write m dest src t Hb HF); [|eapply mapped_sub; [exact Hd|lia|lia]|unfold forward_ok; lia].
  cbn [obind]. rewrite store8_mapped.
  - by rewrite <- write_bytes_snoc.
  - apply (mapped_write_bytes _ _ _ dest (Z.min size (Z.of_nat (length s) + 1)) Hd). lia.
Qed.

(** ** Searching *)

(** The bound of every scan of a known string is large enough. *)
Lemma cstr_fuel m p s : cstr m p s -> (length s < fuel_of m)%nat.
Proof. intros H%cstr_size. unfold fuel_of. lia. Qed.

Ltac with_fuel H :=
  let Hf := fresh "Hfuel" in
  lazymatch type of H with
  | cstr ?m _ _ => pose proof (cstr_fuel _ _ _ H) as Hf; revert Hf; generalize (fuel_of m)
  end.

Definition ptr_or_null (p : Z) (o : option nat) : Z :=
  match o with Some i => p + Z.of_nat i | None => NULL end.

Lemma ptr_or_null_S p o : ptr_or_null (p + 1) o = ptr_or_null p (S <$> o).
Proof. destruct o; simpl; [lia|done]. Qed.

(** [strchr] finds the first occurrence; the terminator counts. *)
Lemma strchr_cstr m p s c :
  cstr m p s -> strchr m p c = Ok (ptr_or_null p (find_idx (Z.eqb (u8 c)) (s ++ [0]))).
Proof.
  intros H. unfold strchr. with_fuel H. intros fuel. revert p H fuel.
  induction s as [|a s IH]; intros p H fuel Hf; while_step fuel; cstr_step; cbn [app find_idx].
  - rewrite (Z.eqb_sym (u8 c)). case_cmp; cbn; [f_equal; lia|done].
  - rewrite (Z.eqb_sym (u8 c)). case_cmp; cbn; [f_equal; lia|]. case_cmp; [lia|]. cbn.
    rewrite IH by (simpl in *; done || lia). by rewrite ptr_or_null_S.
Qed.

Lemma str_has_cstr m r d c :
  cstr m r d -> str_has m r c = Ok (bool_decide (c ∈ d)).
Proof.
  intros H. unfold str_has. with_fuel H. intros fuel. revert r H fuel.
  induction d as [|a d IH]; intros r H fuel Hf; while_step fuel; cstr_step.
  - done.
  - case_cmp; [lia|]. case_cmp; subst.
    + cbn. f_equal. symmetry. apply bool_decide_eq_true. set_solver.
    + loop_next. rewrite IH by (simpl in *; done || lia). f_equal.
      apply bool_decide_ext. set_solver.
Qed.

Definition in_set (d : list Z) (c : Z) : bool := bool_decide (c ∈ d).

Lemma strspn_loop m a d s p count fuel :
  cstr m p s -> cstr m a d -> (length s < fuel)%nat ->
  while fuel (fun '(p, count) =>
    let! b := load8 m p in
    if b =? 0 then brk count else
    let! found := str_has m a b in
    if found then cont (p + 1, count + 1) else brk count) (p, count)
  = Ok (count + Z.of_nat (span (in_set d) s)).
Proof.
  intros H Hd. revert p H fuel count.
  induction s as [|b s IH]; intros p H fuel count Hf; while_step fuel; cstr_step.
  - cbn. f_equal. lia.
  - case_cmp; [lia|]. rewrite (str_has_cstr m a d b Hd). cbn [obind span]. change (in_set d b) with (bool_decide (b ∈ d)).
    destruct (bool_decide (b ∈ d)); loop_next.
    + rewrite IH by (simpl in *; done || lia). f_equal. lia.
    + f_equal. lia.
Qed.

Lemma strspn_cstr m p s a d :
  cstr m p s -> cstr m a d -> strspn m p a = Ok (Z.of_nat (span (in_set d) s)).
Proof. intros H Hd. apply (strspn_loop m a d s p 0); [done|done|by eapply cstr_fuel]. Qed.

Lemma strcspn_loop m a d s p count fuel :
  cstr m p s -> cstr m a d -> (length s < fuel)%nat ->
  while fuel (fun '(p, count) =>
    let! b := load8 m p in
    if b =? 0 then brk count else
    let! found := str_has m a b in
    if found then brk count else cont (p + 1, count + 1)) (p, count)
  = Ok (count + Z.of_nat (span (fun c => negb (in_set d c)) s)).
Proof.
  intros H Hd. revert p H fuel count.
  induction s as [|b s IH]; intros p H fuel count Hf; while_step fuel; cstr_step.
  - cbn. f_equal. lia.
  - case_cmp; [lia|]. rewrite (str_has_cstr m a d b Hd). cbn [obind span]. change (in_set d b) with (bool_decide (b ∈ d)).
    destruct (bool_decide (b ∈ d)); cbn [negb]; loop_next.
    + f_equal. lia.
    + rewrite IH by (simpl in *; done || lia). f_equal. lia.
Qed.

Lemma strcspn_cstr m p s a d :
  cstr m p s -> cstr m a d -> strcspn m p a = Ok (Z.of_nat (span (fun c => negb (in_set d c)) s)).
Proof. intros H Hd. apply (strcspn_loop m a d s p 0); [done|done|by eapply cstr_fuel]. Qed.

Lemma strpbrk_cstr m p s a d :
  cstr m p s -> cstr m a d -> strpbrk m p a = Ok (ptr_or_null p (find_idx (in_set d) s)).
Proof.
  intros H Hd. unfold strpbrk. with_fuel H. intros fuel. revert p H fuel.
  induction s as [|b s IH]; intros p H fuel Hf; while_step fuel; cstr_step.
  - done.
  - case_cmp; [lia|]. rewrite (str_has_cstr m a d b Hd). cbn [obind find_idx]. change (in_set d b) with (bool_decide (b ∈ d)).
    destruct (bool_decide (b ∈ d)); loop_next.
    + f_equal. simpl. lia.
    + rewrite IH by (simpl in *; done || lia). by rewrite ptr_or_null_S.
Qed.

(** [strrchr] finds the last occurrence. *)
Lemma strrchr_cstr m p s c :
  cstr m p s -> exists r, strrchr m p c = Ok r /\
  ((exists i : nat, r = p + Z.of_nat i /\ (s ++ [0]) !! i = Some (u8 c) /\
              forall j, (i < j)%nat -> (s ++ [0]) !! j <> Some (u8 c)) \/
   (r = NULL /\ u8 c ∉ s ++ [0])).
Proof.
  intros H. unfold strrchr. rewrite (strlen_cstr _ _ _ H). cbn [obind].
  assert (Hlen : length (s ++ [0]) = S (length s)) by (rewrite length_app; simpl; lia).
  apply (while_total
    (fun q => exists i : nat, q = p + Z.of_nat i /\ (i <= length s)%nat /\
       forall j, (i < j)%nat -> (s ++ [0]) !! j <> Some (u8 c))
    (fun q => Z.to_nat (q - p))).
  - intros q (i & -> & Hi & Hafter).
    destruct (lookup_lt_is_Some_2 (s ++ [0]) i) as [b Hb]; [lia|].
    rewrite (load8_lookup _ _ b) by (eapply bytes_at_lookup; [exact (proj1 H)|done]).
    cbn [obind]. case_cmp; subst.
    + left. eauto.
    + case_cmp; cbn.
      * split; [|lia]. exists (i - 1)%nat. split; [lia|]. split; [lia|].
        intros j Hj. destruct (decide (j = i)) as [->|]; [congruence|]. apply Hafter. lia.
      * right. split; [done|]. intros (j & Hj)%list_elem_of_lookup.
        destruct (decide (j = i)) as [->|]; [congruence|]. apply (Hafter j); [lia|done].
  - exists (length s). split; [done|]. split; [lia|]. intros j Hj Hx.
    apply lookup_lt_Some in Hx. lia.
  - apply cstr_fuel in H. lia.
Qed.

(** [memcmp] compares byte by byte. *)
Fixpoint bytes_diff (l k : list Z) : Z :=
  match l, k with
  | a :: l, b :: k => if a =? b then bytes_diff l k else a - b
  | _, _ => 0
  end.

Lemma memcmp_bytes m p q l k :
  bytes_at m p l -> bytes_at m q k -> length l = length k ->
  memcmp m p q (Z.of_nat (length l)) = Ok (bytes_diff l k).
Proof.
  intros Hl Hk Hlen. unfold memcmp.
  pose proof (bytes_at_size _ _ _ Hl) as Hf.
  assert (length l < fuel_of m)%nat as Hfuel by (unfold fuel_of; lia). clear Hf.
  revert Hfuel. generalize (fuel_of m) as fuel. intros fuel. revert p q k Hl Hk Hlen fuel.
  induction l as [|a l IH]; intros p q [|b k] Hl Hk Hlen fuel Hf; try done; while_step fuel; [done|].
  destruct Hl as [Ha Hl], Hk as [Hb Hk]. cbn [length] in *.
  rewrite (proj2 (Z.ltb_lt 0 _)) by lia. cbn [negb].
  rewrite (load8_lookup _ _ _ Ha), (load8_lookup _ _ _ Hb). cbn [obind bytes_diff].
  destruct (Z.eqb_spec a b) as [->|Hne].
  - rewrite Z.sub_diag. cbn [Z.eqb negb]. loop_next.
    replace (Z.of_nat (S (length l)) - 1) with (Z.of_nat (length l)) by lia.
    apply IH; [done|done|lia|lia].
  - case_cmp; [lia|]. done.
Qed.

Lemma bytes_diff_zero l k : length l = length k -> bytes_diff l k = 0 <-> l = k.
Proof.
  revert k. induction l as [|a l IH]; intros [|b k] H; try done.
  cbn [bytes_diff]. case_cmp; subst.
  - rewrite IH by (simpl in H; lia). split; [by intros ->|congruence].
  - split; [lia|congruence].
Qed.

Definition occurs_at (t s : list Z) (i : nat) : Prop := take (length t) (drop i s) = t.

(** [strstr] finds the first occurrence of the second string. *)
Lemma strstr_cstr m p q s t :
  cstr m p s -> cstr m q t -> Z.of_nat (length s) < 2 ^ 31 -> Z.of_nat (length t) < 2 ^ 31 ->
  exists r, strstr m p q = Ok r /\
  ((exists i, r = p + Z.of_nat i /\ (i + length t <= length s)%nat /\ occurs_at t s i /\
        forall j, (j < i)%nat -> ~ occurs_at t s j) \/
   (r = NULL /\ forall j, (j + length t <= length s)%nat -> ~ occurs_at t s j)).
Proof.
  intros Hs Ht Ls Lt. unfold strstr.
  rewrite (strlen_cstr _ _ _ Ht). cbn [obind].
  assert (forall x, 0 <= x < 2 ^ 31 -> s32 x = x) as Hs32
    by (intros x Hx; apply swrap_small; [lia|]; simpl; lia).
  rewrite Hs32 by lia. case_cmp.
  { exists p. split; [done|]. left. exists O. destruct t; [|done]. simpl in *.
    unfold occurs_at. simpl. split; [lia|]. split; [lia|]. split; [done|]. lia. }
  rewrite (strlen_cstr _ _ _ Hs). cbn [obind]. rewrite Hs32 by lia.
  apply (while_total
    (fun '(q1, l1) => exists i : nat, q1 = p + Z.of_nat i /\ l1 = Z.of_nat (length s) - Z.of_nat i /\
       (i <= length s)%nat /\ forall j, (j < i)%nat -> ~ occurs_at t s j)
    (fun '(q1, l1) => Z.to_nat l1)).
  - intros [q1 l1] (i & -> & -> & Hi & Hb). case_cmp.
    + right. split; [done|]. intros j Hj. apply Hb. lia.
    + rewrite u64_small by lia.
      assert (length (take (length t) (drop i s)) = length t) as Htl
        by (rewrite length_take, length_drop; lia).
      pose proof (memcmp_bytes m (p + Z.of_nat i) q (take (length t) (drop i s)) t) as Hc.
      rewrite Htl in Hc. rewrite Hc; [| |by apply cstr_bytes|done].
      * cbn [obind]. destruct (Z.eqb_spec (bytes_diff (take (length t) (drop i s)) t) 0) as [Hd|Hd].
        -- left. exists i. apply bytes_diff_zero in Hd; [|done].
           split; [done|]. split; [lia|]. by split.
        -- cbn. split; [|lia]. exists (S i). split; [lia|]. split; [lia|]. split; [lia|].
           intros j Hj. destruct (decide (j = i)) as [->|]; [|apply Hb; lia].
           unfold occurs_at. rewrite <- bytes_diff_zero by done. done.
      * apply bytes_at_take. apply cstr_bytes in Hs. rewrite <- (take_drop i s) in Hs.
        apply bytes_at_app in Hs as [_ Hs]. by rewrite length_take, Nat.min_l in Hs by lia.
  - exists O. split; [lia|]. split; [lia|]. split; [lia|]. lia.
  - apply cstr_fuel in Hs. lia.
Qed.

(** A concrete string in a concrete memory. *)
Lemma cstr_mem_of p s :
  forallb (fun b => (0 <? b) && (b <? 256)) s = true -> cstr (mem_of p (s ++ [0])) p s.
Proof.
  intros H. split; [apply write_bytes_at|].
  apply list.Forall_forall. intros b Hb. rewrite forallb_forall in H.
  specialize (H b (proj1 (list_elem_of_In _ _) Hb)). cbv beta in H. lia.
Qed.
