(* ===== verification/StrSafe.v ===== *)
(** * The string library on any memory

    No assumption about what the memory holds: every loop of lib/string.c
    ends, because each iteration touches an address the previous ones did not
    and the memory is finite, and the functions that take a size change
    nothing outside the destination of that size.  The rules are [ends_scan]
    (reading loops) and [ends_copy] (loops that store while they walk). *)

From S2P Require Import Prelude CMem Ctype Str StrFacts.

Local Open Scope Z_scope.
Local Open Scope c_scope.

(** One loop that reads: run the loads, split the conditions, close the
    exits and show that the pointer moved. *)
Ltac scan_step :=
  cbv beta iota zeta;
  repeat first
    [ progress (ends_step ends_load8 as ? ?)
    | match goal with |- ends (if ?b then _ else _) _ => destruct b end ];
  simpl; try done; try (split; [lia|eauto with rock]).

(** ** Functions that read *)

Lemma strcmp_ends m a b : ends (strcmp m a b) (fun _ => True).
Proof. apply (ends_scan m fst). intros [p q] _. scan_step. Qed.

Lemma strncmp_ends m a b n : ends (strncmp m a b n) (fun _ => True).
Proof. apply (ends_scan m (fun '(p, _, _, _) => p)). intros [[[p q] c] r] _. scan_step. Qed.

Lemma strncasecmp_ends m a b n : ends (strncasecmp m a b n) (fun _ => True).
Proof.
  unfold strncasecmp. case_cmp; [done|].
  apply (ends_scan m (fun '(p, _, _) => p)). intros [[p q] c] _. scan_step.
Qed.

Lemma memcmp_ends m a b n : ends (memcmp m a b n) (fun _ => True).
Proof. apply (ends_scan m (fun '(p, _, _, _) => p)). intros [[[p q] c] r] _. scan_step. Qed.

Lemma strchr_ends m s c : ends (strchr m s c) (fun _ => True).
Proof. apply (ends_scan m id). intros p _. scan_step. Qed.

Lemma strchrnul_ends m s c : ends (strchrnul m s c) (fun _ => True).
Proof. apply (ends_scan m id). intros p _. scan_step. Qed.

Lemma strlen_nonneg m s : ends (strlen m s) (fun n => 0 <= n).
Proof.
  apply (ends_scan m id). intros p [Hp _]. unfold id in *. ends_step ends_load8 as c Hc.
  case_cmp; simpl; [lia|]. split; [lia|eauto with rock].
Qed.

Lemma strrchr_ends m s c : ends (strrchr m s c) (fun _ => True).
Proof.
  unfold strrchr. ends_step strlen_ends as n _.
  apply (ends_scan_down m id). intros p. unfold id. ends_step ends_load8 as a Ha.
  repeat case_match; simpl; eauto.
Qed.

Lemma str_has_ends m r c : ends (str_has m r c) (fun _ => True).
Proof. apply (ends_scan m id). intros p _. scan_step. Qed.

Lemma strspn_ends m s a : ends (strspn m s a) (fun _ => True).
Proof.
  apply (ends_scan m fst). intros [p c] _. ends_step ends_load8 as b Hb. case_cmp; [done|].
  ends_step str_has_ends as [] _; simpl; [|done]. split; [lia|eauto with rock].
Qed.

Lemma strcspn_ends m s a : ends (strcspn m s a) (fun _ => True).
Proof.
  apply (ends_scan m fst). intros [p c] _. ends_step ends_load8 as b Hb. case_cmp; [done|].
  ends_step str_has_ends as [] _; simpl; [done|]. split; [lia|eauto with rock].
Qed.

Lemma strpbrk_ends m s a : ends (strpbrk m s a) (fun r => r = NULL \/ is_Some (m !! r)).
Proof.
  apply (ends_scan m id). intros p _. ends_step ends_load8 as b Hb. unfold id in *. case_cmp; [by left|].
  ends_step str_has_ends as [] _; simpl; [eauto|]. split; [lia|eauto with rock].
Qed.

Lemma memscan_ends m a c n : ends (memscan m a c n) (fun _ => True).
Proof. apply (ends_scan m fst). intros [p k] _. scan_step. Qed.

Lemma memchr_ends m s c n : ends (memchr m s c n) (fun _ => True).
Proof. apply (ends_scan m fst). intros [p k] _. scan_step. Qed.

Lemma check_bytes8_ends m s v n : ends (check_bytes8 m s v n) (fun _ => True).
Proof. apply (ends_scan m fst). intros [p k] _. scan_step. Qed.

Lemma mapped_seg m p n : mapped m p n -> 0 <= n -> seg m p (p + n).
Proof. intros H Hn. split; [lia|]. by replace (p + n - p) with n by lia. Qed.

Lemma memchr_inv_ends m s c n : ends (memchr_inv m s c n) (fun _ => True).
Proof.
  unfold memchr_inv. destruct (n <=? 16); [apply check_bytes8_ends|]. cbv zeta.
  assert (forall start bytes, ends (while (fuel_of m) (fun '(start, words) =>
      if words =? 0 then
        let! r := check_bytes8 m start (u8 c) (bytes mod 8) in brk r
      else
        let! w := load64 m start in
        if negb (w =? repeat8 (u8 c)) then let! r := check_bytes8 m start (u8 c) 8 in brk r
        else cont (start + 8, words - 1)) (start, u32 (bytes / 8))) (fun _ => True)) as Hw.
  { intros start bytes. apply (ends_scan m fst). intros [p k] _. cbn [fst].
    destruct (k =? 0); [by eapply ends_bind; [apply check_bytes8_ends|]|].
    eapply ends_bind; [apply ends_load_le|]. cbv beta. intros w Hm.
    case_match; [by eapply ends_bind; [apply check_bytes8_ends|]|].
    simpl. split; [lia|]. by apply mapped_seg. }
  case_match; [|apply Hw]. ends_step check_bytes8_ends as r _. case_match; [done|apply Hw].
Qed.


(** A comparison of at least one byte reads the first one. *)
Lemma memcmp_touch m a b n : 0 < n -> ends (memcmp m a b n) (fun _ => is_Some (m !! a)).
Proof.
  intros Hn.
  apply (ends_mono _ (fun _ => True /\ is_Some (m !! a))); [|by intros ? [_ ?]].
  unfold memcmp, fuel_of. rewrite while_S. cbv beta iota.
  rewrite (proj2 (Z.ltb_lt 0 n)) by lia. cbn [negb].
  destruct (load8 m a) as [x| | |] eqn:Ea; cbn [obind]; try done;
    [|unfold load8 in Ea; by destruct (m !! a)].
  assert (is_Some (m !! a)) as Hs by (unfold load8 in Ea; destruct (m !! a); [eauto|done]).
  destruct (load8 m b) as [y| | |] eqn:Eb; cbn [obind]; try done;
    [|unfold load8 in Eb; by destruct (m !! b)].
  case_match; loop_next; [done|].
  apply (ends_mono _ (fun _ => True)); [|done].
  apply (ends_while (fun '(p, _, _, _) => seg m a p /\ a < p)
           (fun '(p, _, _, _) => Z.to_nat (Z.of_nat (size m) - (p - a)))).
  - intros [[[p q] c] r] [Hp Hlt]. case_match; [done|]. ends_step ends_load8 as u Hu.
    ends_step ends_load8 as v Hv. case_match; [done|]. simpl.
    assert (seg m a (p + 1)) as Hp' by eauto with rock. pose proof (seg_size _ _ _ Hp').
    split; [|lia]. split; [done|lia].
  - destruct Hs as [z Hz]. split; [by eapply seg_one|lia].
  - destruct Hs as [z Hz]. pose proof (seg_size _ _ _ (seg_one _ _ _ Hz)). lia.
Qed.

Lemma strstr_ends m a b : ends (strstr m a b) (fun _ => True).
Proof.
  unfold strstr. ends_step strlen_ends as n2 _. case_cmp; [done|].
  ends_step strlen_ends as n1 _.
  apply (ends_scan m fst). intros [p l] _. cbn [fst]. case_match; [done|].
  eapply ends_bind; [apply memcmp_touch|].
  - pose proof (u64_range (s32 n2)). destruct (Z.eq_dec (u64 (s32 n2)) 0) as [E|]; [|lia].
    exfalso. unfold s32, swrap, u64 in *. change (2 ^ (32 - 1)) with (2 ^ 31) in *. dlia.
  - cbv beta. intros d [z Hz]. case_match; simpl; [done|]. split; [lia|eauto with rock].
Qed.

(** ** Functions that write *)

(** A loop that stores while [ptr] walks through mapped addresses. *)
Lemma ends_copy {S R} (m0 : mem) (ptr : S -> Z) (I : S -> Prop) (Q : R -> Prop)
    (body : S -> outcome (S + R)) s0 :
  (forall s, I s -> ends (body s) (fun r =>
     match r with
     | inl s' => I s' /\ ptr s < ptr s' /\ seg m0 (ptr s) (ptr s')
     | inr r => Q r
     end)) ->
  I s0 -> ends (while (fuel_of m0) body s0) Q.
Proof.
  intros Hb HI.
  apply (ends_while (fun s => I s /\ seg m0 (ptr s0) (ptr s))
           (fun s => Z.to_nat (Z.of_nat (size m0) - (ptr s - ptr s0)))).
  - intros s [Hs Hseg]. eapply ends_mono; [by apply Hb|]. intros [s'|r]; [|done].
    intros (Hs' & Hlt & Hseg'). pose proof (seg_trans _ _ _ _ Hseg Hseg') as Ht.
    split; [done|]. apply seg_size in Ht. destruct Hseg. lia.
  - split; [done|apply seg_refl].
  - unfold fuel_of. lia.
Qed.

Lemma frame_mapped lo hi m m' a : frame lo hi m m' -> is_Some (m' !! a) -> is_Some (m !! a).
Proof. intros [D _]. by rewrite <- !elem_of_dom, D. Qed.

Lemma frame_seg1 lo hi m m' a : frame lo hi m m' -> is_Some (m' !! a) -> seg m a (a + 1).
Proof. intros H Ha. destruct (frame_mapped _ _ _ _ _ H Ha) as [b Hb]. by eapply seg_one. Qed.

Lemma frame_seg8 lo hi m m' a : frame lo hi m m' -> mapped m' a 8 -> seg m a (a + 8).
Proof.
  intros [D _] Ha. apply mapped_seg; [|lia]. eapply mapped_dom; [symmetry; exact D|done].
Qed.

Lemma frame_store64 lo hi m m' p v :
  frame lo hi m m' -> lo <= p -> p + 8 <= hi ->
  ends (store64 m' p v) (fun m2 => frame lo hi m m2 /\ mapped m' p 8).
Proof.
  intros Hf H1 H2. eapply ends_mono; [apply ends_store_le|]. cbv beta. intros m2 [Hm ->].
  split; [|done]. eapply frame_trans; [exact Hf|].
  pose proof (length_le_bytes 8 v) as Hl.
  apply frame_write; rewrite ?Hl; [done|lia|lia].
Qed.

Lemma memset_ends m s c n : 0 <= n -> ends (memset m s c n) (frame s (s + n) m).
Proof.
  intros Hn. unfold memset.
  apply (ends_bind _ _ (fun '(m1, p, k) => frame s (s + n) m m1 /\ s <= p /\ 0 <= k /\ p + k = s + n)).
  - case_match; [|simpl; split; [apply frame_refl|lia]].
    apply (ends_copy m (fun '(_, p, _) => p)
      (fun '(m1, p, k) => frame s (s + n) m m1 /\ s <= p /\ 0 <= k /\ p + k = s + n));
      [|split; [apply frame_refl|lia]].
    intros [[m1 p] k] (Hf & Hp & Hk & He). destruct (Z.leb_spec 8 k); [|simpl; auto].
    eapply ends_bind; [apply (frame_store64 s (s + n) m); [done|lia|lia]|].
    intros m2 [Hf2 Hm]. simpl. split; [split; [done|lia]|]. split; [lia|exact (frame_seg8 _ _ _ _ _ Hf Hm)].
  - intros [[m1 p] k] (Hf & Hp & Hk & He).
    apply (ends_copy m1 (fun '(_, p, _) => p)
      (fun '(m2, p, k) => frame s (s + n) m m2 /\ frame s (s + n) m1 m2 /\ s <= p /\ 0 <= k /\ p + k = s + n));
      [|split; [done|split; [apply frame_refl|lia]]].
    intros [[m2 q] j] (Hf2 & Hf3 & Hq & Hj & He2). case_cmp; [done|].
    ends_step ends_store8 as m3 [Hs3 ->]. simpl.
    split; [|split; [lia|by eapply frame_seg1]].
    split; [apply frame_insert; [done|done|lia]|]. split; [apply frame_insert; [done|done|lia]|lia].
Qed.

Lemma memcpy_ends m d s n : 0 <= n -> ends (memcpy m d s n) (frame d (d + n) m).
Proof.
  intros Hn. unfold memcpy. case_match; [apply frame_refl|].
  set (Inv := fun '((m1, p, _, k) : mem * Z * Z * Z) => frame d (d + n) m m1 /\ d <= p /\ 0 <= k /\ p + k = d + n).
  apply (ends_bind _ _ Inv).
  - case_match; [|simpl; split; [apply frame_refl|lia]].
    apply (ends_copy m (fun '(_, p, _, _) => p) Inv); [|split; [apply frame_refl|lia]].
    intros [[[m1 p] q] k] (Hf & Hp & Hk & He). destruct (Z.leb_spec 8 k); [|simpl; auto].
    eapply ends_bind; [apply ends_load_le|]. intros w _.
    eapply ends_bind; [apply (frame_store64 d (d + n) m); [done|lia|lia]|].
    intros m2 [Hf2 Hm]. simpl. split; [split; [done|lia]|]. split; [lia|exact (frame_seg8 _ _ _ _ _ Hf Hm)].
  - intros [[[m1 p] q] k] (Hf & Hp & Hk & He).
    apply (ends_copy m1 (fun '(_, p, _, _) => p)
      (fun '(m2, p, q, k) => frame d (d + n) m m2 /\ frame d (d + n) m1 m2 /\ d <= p /\ 0 <= k /\ p + k = d + n));
      [|split; [done|split; [apply frame_refl|lia]]].
    intros [[[m2 p2] q2] j] (Hf2 & Hf3 & Hq & Hj & He2). case_cmp; [done|].
    ends_step ends_load8 as b _. ends_step ends_store8 as m3 [Hs3 ->]. simpl.
    split; [|split; [lia|by eapply frame_seg1]].
    split; [apply frame_insert; [done|done|lia]|]. split; [apply frame_insert; [done|done|lia]|lia].
Qed.


Lemma memmove_ends m d s n : 0 <= n -> ends (memmove m d s n) (frame d (d + n) m).
Proof.
  intros Hn. unfold memmove. case_match; [by apply memcpy_ends|].
  apply (ends_while
    (fun '(m1, p, q, k) => frame d (d + n) m m1 /\ p = d + k /\ 0 <= k <= n /\ seg m p (d + n))
    (fun '(_, p, _, _) => Z.to_nat (Z.of_nat (size m) - (d + n - p)))).
  - intros [[[m1 p] q] k] (Hf & -> & Hk & Hs). case_cmp; [done|].
    ends_step ends_load8 as b _. ends_step ends_store8 as m2 [Hp ->]. simpl.
    assert (seg m (d + k - 1) (d + n)) as Hs'.
    { eapply seg_trans; [|exact Hs]. pose proof (frame_seg1 _ _ _ _ _ Hf Hp) as H1.
      by replace (d + k - 1 + 1) with (d + k) in H1 by lia. }
    split; [|apply seg_size in Hs'; lia].
    split; [apply frame_insert; [done|done|lia]|]. split; [lia|]. split; [lia|done].
  - split; [apply frame_refl|]. split; [done|]. split; [lia|apply seg_refl].
  - unfold fuel_of. lia.
Qed.

(** Functions bounded by a terminator only: they end, and they map and unmap
    nothing. *)
Definition same_dom (m m' : mem) : Prop := dom m' =@{gset Z} dom m.

Lemma same_dom_store m m1 p v : same_dom m m1 -> is_Some (m1 !! p) -> same_dom m (<[p := u8 v]> m1).
Proof. unfold same_dom. intros H Hp. by rewrite dom_store8. Qed.

Lemma same_dom_seg m m1 p b : same_dom m m1 -> m1 !! p = Some b -> seg m p (p + 1).
Proof.
  intros H Hp. assert (is_Some (m !! p)) as [c Hc] by (rewrite <- elem_of_dom, <- H, elem_of_dom; eauto).
  by eapply seg_one.
Qed.

Lemma strcpy_ends m d s : ends (strcpy m d s) (same_dom m).
Proof.
  apply (ends_copy m (fun '(_, _, p) => p) (fun '(m1, _, _) => same_dom m m1)); [|done].
  intros [[m1 p] q] Hm. ends_step ends_load8 as c Hc. ends_step ends_store8 as m2 [Hp ->].
  pose proof (same_dom_store m m1 p c Hm Hp). case_match; simpl; [done|].
  split; [done|]. split; [lia|exact (same_dom_seg _ _ _ _ Hm Hc)].
Qed.

Lemma strncpy_ends m d s n : 0 <= n -> ends (strncpy m d s n) (frame d (d + n) m).
Proof.
  intros Hn. apply (ends_copy m (fun '(_, p, _, _) => p)
    (fun '(m1, p, _, k) => frame d (d + n) m m1 /\ d <= p /\ 0 <= k /\ p + k = d + n));
    [|split; [apply frame_refl|lia]].
  intros [[[m1 p] q] k] (Hf & Hp & Hk & He). destruct (Z.eqb_spec k 0); [done|].
  ends_step ends_load8 as c Hc. ends_step ends_store8 as m2 [Hs ->].
  assert (frame d (d + n) m (<[p := u8 c]> m1)) as Hf2 by (apply frame_insert; [done|done|lia]).
  case_match; simpl; [done|]. split; [split; [done|lia]|]. split; [lia|exact (frame_seg1 _ _ _ _ _ Hf Hs)].
Qed.

Lemma strlcpy_ends m d s n : 0 <= n -> ends (strlcpy m d s n) (fun '(m', _) => frame d (d + n) m m').
Proof.
  intros Hn. unfold strlcpy. ends_step strlen_nonneg as ret Hr. destruct (Z.eqb_spec n 0); [apply frame_refl|].
  set (len := if n <=? ret then n - 1 else ret).
  assert (0 <= len < n) as Hl by (unfold len; case_cmp; lia).
  eapply ends_bind; [apply memcpy_ends; lia|]. intros m1 Hf. cbv beta in *.
  ends_step ends_store8 as m2 [Hs ->]. simpl.
  apply frame_insert; [|done|lia]. eapply frame_mono; [exact Hf|lia|lia].
Qed.

Lemma str_end_ends m d : ends (str_end m d) (fun _ => True).
Proof. apply (ends_scan m id). intros p _. scan_step. Qed.

Lemma strcat_ends m d s : ends (strcat m d s) (same_dom m).
Proof. unfold strcat. ends_step str_end_ends as e _. apply strcpy_ends. Qed.

Lemma strncat_ends m d s n : ends (strncat m d s n) (same_dom m).
Proof.
  unfold strncat. case_match; [done|]. ends_step str_end_ends as e _.
  apply (ends_copy m (fun '(_, _, p, _) => p) (fun '(m1, _, _, _) => same_dom m m1)); [|done].
  intros [[[m1 p] q] k] Hm. ends_step ends_load8 as c Hc. ends_step ends_store8 as m2 [Hp ->].
  pose proof (same_dom_store m m1 p c Hm Hp) as Hm2. case_match; simpl; [done|]. case_match.
  - ends_step ends_store8 as m3 [Hp3 ->]. simpl. by apply same_dom_store.
  - simpl. split; [done|]. split; [lia|exact (same_dom_seg _ _ _ _ Hm Hc)].
Qed.

Lemma strtok_ends m tok s ct : ends (strtok m tok s ct) (fun '(m', _, _) => same_dom m m').
Proof.
  unfold strtok. cbv zeta. set (b := if negb (s =? NULL) then s else tok).
  case_match; [done|]. ends_step strspn_ends as n _. ends_step ends_load8 as c _.
  case_match; [done|]. ends_step strpbrk_ends as e _. case_match; [|done].
  ends_step ends_load8 as x Hx. case_match; [|done].
  ends_step ends_store8 as m1 [Hp ->]. simpl. by apply same_dom_store.
Qed.

Lemma strsep_ends m s ct : ends (strsep m s ct) (fun '(m', _, _) => same_dom m m').
Proof.
  unfold strsep. case_match; [done|]. ends_step strpbrk_ends as e _. case_match; [|done].
  ends_step ends_store8 as m1 [Hp ->]. simpl. by apply same_dom_store.
Qed.

Lemma strswab_ends m s : ends (strswab m s) (fun '(m', _) => same_dom m m').
Proof.
  unfold strswab. case_match; [done|]. ends_step ends_load8 as c Hc. case_match; [done|].
  eapply (ends_bind _ _ (same_dom m)); [|done].
  apply (ends_while (fun '(m1, p, q) => same_dom m m1 /\ q = p + 1 /\ seg m s p)
           (fun '(_, p, _) => Z.to_nat (Z.of_nat (size m) - (p - s)))).
  - intros [[m1 p] q] (Hm & -> & Hs). ends_step ends_load8 as a Ha. case_match; [done|].
    ends_step ends_load8 as b Hb. case_match; [done|].
    ends_step ends_store8 as m2 [Hp ->]. ends_step ends_store8 as m3 [Hq ->]. simpl.
    assert (seg m s (p + 1 + 1)) as Hs2.
    { eapply seg_trans; [exact Hs|]. eapply seg_trans; eapply same_dom_seg; [done|exact Ha|done|exact Hb]. }
    replace (p + 1 + 1) with (p + 2) in Hs2 by lia.
    split; [split; [by repeat apply same_dom_store|split; [lia|done]]|]. apply seg_size in Hs2. destruct Hs. lia.
  - split; [done|]. split; [done|apply seg_refl].
  - unfold fuel_of. lia.
Qed.

(** ** Claims *)

(** C26: the string library on any memory whatsoever.  No function of
    lib/string.c but the two that allocate (strdup and strndup) loops, whatever
    the buffers hold, whether or not they are terminated or overlap, and for
    every size; and the five that write and take the size of the destination
    (memset, memcpy, memmove, strncpy, strlcpy) never change a byte outside it
    nor map or unmap memory when they return. *)
Theorem string_library_terminates (m : mem) (p q r c n : Z) :
  0 <= n ->
  Forall (fun x => x <> OutOfFuel)
    [strcmp m p q; strncmp m p q n; strncasecmp m p q n; strcasecmp m p q; memcmp m p q n;
     strlen m p; strnlen m p n; strchr m p c; strchrnul m p c; strrchr m p c; strspn m p q;
     strcspn m p q; strpbrk m p q; memscan m p c n; memchr m p c n; memchr_inv m p c n;
     strstr m p q] /\
  Forall (fun x => x <> OutOfFuel) [strcpy m p q; strcat m p q; strncat m p q n] /\
  Forall (fun x => x <> OutOfFuel) [strtok m r p q; strsep m p q] /\
  strswab m p <> OutOfFuel /\
  Forall (fun x => ends x (frame p (p + n) m)) [memset m p c n; memcpy m p q n; memmove m p q n; strncpy m p q n] /\
  ends (strlcpy m p q n) (fun '(m', _) => frame p (p + n) m m').
Proof.
  intros Hn. split; [|split; [|split; [|split; [|split]]]].
  5: { constructor; [by apply memset_ends|]. constructor; [by apply memcpy_ends|]. constructor; [by apply memmove_ends|].
       constructor; [by apply strncpy_ends|constructor]. }
  5: by apply strlcpy_ends.
  all: repeat match goal with
  | |- Forall _ (_ :: _) => constructor
  | |- Forall _ [] => constructor
  end; eapply ends_not_out_of_fuel;
  eauto using strcmp_ends, strncmp_ends, strncasecmp_ends, memcmp_ends, strlen_ends, strnlen_ends,
    strchr_ends, strchrnul_ends, strrchr_ends, strspn_ends, strcspn_ends, strpbrk_ends, memscan_ends,
    memchr_ends, memchr_inv_ends, strstr_ends, strcpy_ends, strcat_ends, strncat_ends, strtok_ends,
    strsep_ends, strswab_ends.
Qed.

(** Unterminated bytes, with the destination over the source. *)
Lemma string_library_terminates_witness :
  let m := mem_of 8 [1; 2; 3; 4; 5; 6] in
  strcpy m 9 8 <> OutOfFuel /\ ends (memmove m 9 8 4) (frame 9 13 m) /\
  ends (strlcpy m 9 8 4) (fun '(m', _) => frame 9 13 m m').
Proof.
  intros m. destruct (string_library_terminates m 9 8 0 7 4 ltac:(lia)) as (_ & H1 & _ & _ & H2 & H3).
  apply list.Forall_cons_1 in H1 as [H1 _]. apply list.Forall_cons_1 in H2 as [_ H2]. apply list.Forall_cons_1 in H2 as [_ H2].
  apply list.Forall_cons_1 in H2 as [H2 _]. split; [exact H1|]. split; [exact H2|exact H3].
Defined.
