(* ===== verification/Strto.v ===== *)
(** * String to integer conversion (lib/strto.c)

    [simple_strtoul] and its relatives over the memory of [CMem], with the
    64-bit wrap-around of [unsigned long].  A function that stores through
    [endp] returns the pair of its result and the end pointer.  The
    specification [strtoul_spec] is a function of the list of characters:
    radix detection, the longest run of digits, their value modulo 2^64. *)

From S2P Require Import Prelude CMem Ctype Str StrFacts.

Local Open Scope Z_scope.
Local Open Scope c_scope.

Definition EINVAL : Z := 22.

(** ** The code *)

Definition _parse_integer_fixup_radix (m : mem) (s base : Z) : outcome (Z * Z) :=
  let! base :=
    if base =? 0 then
      let! c0 := load8 m s in
      if c0 =? 48 then
        let! c1 := load8 m (s + 1) in
        if tolower c1 =? 120 then
          let! c2 := load8 m (s + 2) in
          Ok (if isxdigit c2 then 16 else 8)
        else Ok 8
      else Ok 10
    else Ok base in
  if base =? 16 then
    let! c0 := load8 m s in
    if c0 =? 48 then
      let! c1 := load8 m (s + 1) in
      Ok (if tolower c1 =? 120 then s + 2 else s, base)
    else Ok (s, base)
  else Ok (s, base).

(** The value the loops give to a character that passed [isxdigit]. *)
Definition digit_value (c : Z) : Z :=
  if isdigit c then c - 48 else (if islower c then toupper c else c) - 65 + 10.

Definition simple_strtoul (m : mem) (cp base : Z) : outcome (Z * Z) :=
  let! '(cp, base) := _parse_integer_fixup_radix m cp base in
  while (fuel_of m) (fun '(cp, result) =>
    let! c := load8 m cp in
    if isxdigit c then
      let value := u64 (digit_value c) in
      if value <? base then cont (cp + 1, u64 (u64 (result * base) + value))
      else brk (result, cp)
    else brk (result, cp)) (cp, 0).

Definition simple_strtoull (m : mem) (cp base : Z) : outcome (Z * Z) :=
  let! '(cp, base) := _parse_integer_fixup_radix m cp base in
  while (fuel_of m) (fun '(cp, result) =>
    let! c := load8 m cp in
    if isxdigit c then
      let value := u64 (digit_value c) in
      if value <? base then cont (cp + 1, u64 (u64 (result * base) + value))
      else brk (result, cp)
    else brk (result, cp)) (cp, 0).

(** The result is the error code and what is stored in [*res]. *)
Definition strict_strtoul (m : mem) (cp base : Z) : outcome (Z * Z) :=
  let! len := strlen m cp in
  if len =? 0 then Ok (- EINVAL, 0) else
  let! '(val, tail) := simple_strtoul m cp base in
  if tail =? cp then Ok (- EINVAL, 0) else
  let! c := load8 m tail in
  if (c =? 0) || ((len =? u64 (tail - cp) + 1) && (c =? 10)) then Ok (0, val)
  else Ok (- EINVAL, 0).

Definition simple_strtol (m : mem) (cp base : Z) : outcome (Z * Z) :=
  let! c := load8 m cp in
  if c =? 45 then
    let! '(r, e) := simple_strtoul m (cp + 1) base in Ok (s64 (u64 (- r)), e)
  else
    let! '(r, e) := simple_strtoul m cp base in Ok (s64 r, e).

(** The suffix switch of [ustrtoul] and [ustrtoull], with its fall through. *)
Definition size_suffix (m : mem) (result e : Z) : outcome (Z * Z) :=
  let! c := load8 m e in
  let t := tolower c in
  let k result :=
    let result := u64 (result * 1024) in
    let e := e + 1 in
    let! c := load8 m e in
    let e := if c =? 105 then e + 1 else e in
    let! c := load8 m e in
    let e := if c =? 66 then e + 1 else e in
    Ok (result, e) in
  let mb result := k (u64 (result * 1024)) in
  let g result := mb (u64 (result * 1024)) in
  if t =? 103 then g result
  else if t =? 109 then mb result
  else if t =? 107 then k result
  else Ok (result, e).

Definition ustrtoul (m : mem) (cp base : Z) : outcome (Z * Z) :=
  let! '(result, e) := simple_strtoul m cp base in
  size_suffix m result e.

Definition ustrtoull (m : mem) (cp base : Z) : outcome (Z * Z) :=
  let! '(result, e) := simple_strtoull m cp base in
  size_suffix m result e.

Definition trailing_strtoln (m : mem) (str end_ : Z) : outcome Z :=
  let! end_ :=
    if end_ =? NULL then let! n := strlen m str in Ok (str + n) else Ok end_ in
  let! last := load8 m (end_ - 1) in
  if isdigit last then
    while (fuel_of m) (fun p =>
      if str <? p then
        let! c := load8 m p in
        if negb (isdigit c) then
          let! '(r, _) := simple_strtoul m (p + 1) 10 in brk (s64 r)
        else cont (p - 1)
      else brk (-1)) (end_ - 1)
  else Ok (-1).

Definition trailing_strtol (m : mem) (str : Z) : outcome Z := trailing_strtoln m str NULL.

(** ** The specification, on lists of characters *)

(** The radix used and the length of the prefix skipped. *)
Definition radix_spec (base : Z) (s : list Z) : Z * nat :=
  let at_ i := nth i (s ++ [0]) 0 in
  let x := (at_ 0%nat =? 48) && (tolower (at_ 1%nat) =? 120) in
  let base :=
    if base =? 0 then
      if at_ 0%nat =? 48 then
        if x && isxdigit (at_ 2%nat) then 16 else 8
      else 10
    else base in
  (base, if (base =? 16) && x then 2%nat else O).

Definition is_digit_of (base c : Z) : bool := isxdigit c && (digit_value c <? base).

(** The number a list of digits denotes. *)
Definition numeral (base : Z) (ds : list Z) : Z :=
  fold_left (fun r c => r * base + digit_value c) ds 0.

Definition strtoul_spec (base : Z) (s : list Z) : Z * nat :=
  let '(base, k) := radix_spec base s in
  let ds := drop k s in
  let n := span (is_digit_of base) ds in
  (u64 (numeral base (take n ds)), (k + n)%nat).

(** ** Correctness *)

Lemma cstr_drop m p s k :
  (k <= length s)%nat -> cstr m p s -> cstr m (p + Z.of_nat k) (drop k s).
Proof.
  revert p s. induction k as [|k IH]; intros p s Hk H.
  - by rewrite Z.add_0_r, drop_0.
  - destruct s as [|c s]; simpl in Hk; [lia|]. apply cstr_tail in H.
    replace (p + Z.of_nat (S k)) with (p + 1 + Z.of_nat k) by lia. apply IH; [lia|done].
Qed.

Lemma load8_cstr m p s k :
  cstr m p s -> (k <= length s)%nat -> load8 m (p + Z.of_nat k) = Ok (nth k (s ++ [0]) 0).
Proof.
  intros [H _] Hk. apply load8_lookup. eapply bytes_at_lookup; [exact H|].
  destruct (lookup_lt_is_Some_2 (s ++ [0]) k) as [b Hb]; [rewrite length_app; simpl; lia|].
  rewrite Hb. f_equal. symmetry. by apply nth_lookup_Some.
Qed.

(** The terminator keeps the look-ahead inside the string. *)
Lemma cstr_nth_nonzero (s : list Z) k :
  nth k (s ++ [0]) 0 <> 0 -> (k < length s)%nat.
Proof.
  intros H. destruct (Nat.lt_ge_cases k (length s)) as [?|Hge]; [done|exfalso]. apply H.
  rewrite app_nth2 by lia. by destruct (k - length s)%nat as [|[|?]].
Qed.

Lemma fixup_radix_cstr m p s base :
  cstr m p s ->
  _parse_integer_fixup_radix m p base =
    Ok (p + Z.of_nat (snd (radix_spec base s)), fst (radix_spec base s)).
Proof.
  intros H. unfold _parse_integer_fixup_radix, radix_spec.
  pose proof (load8_cstr m p s 0 H ltac:(lia)) as H0. rewrite Z.add_0_r in H0.
  pose proof (cstr_nth_nonzero s 0) as L0. pose proof (cstr_nth_nonzero s 1) as L1.
  pose proof (load8_cstr m p s 1 H) as H1. pose proof (load8_cstr m p s 2 H) as H2.
  change (Z.of_nat 1) with 1 in H1. change (Z.of_nat 2) with 2 in H2.
  revert H0 H1 H2 L0 L1.
  generalize (nth 0 (s ++ [0]) 0) (nth 1 (s ++ [0]) 0) (nth 2 (s ++ [0]) 0).
  intros a0 a1 a2 H0 H1 H2 L0 L1.
  assert (a0 = 48 -> load8 m (p + 1) = Ok a1) as H1' by (intros; apply H1; lia).
  assert (a0 = 48 -> tolower a1 = 120 -> load8 m (p + 2) = Ok a2) as H2'.
  { intros ? E1. apply H2. destruct (decide (a1 = 0)) as [->|]; [by vm_compute in E1|].
    specialize (L1 ltac:(done)). lia. }
  rewrite H0. cbn [obind].
  destruct (Z.eqb_spec a0 48) as [E0|N0]; [rewrite (H1' E0); cbn [obind];
    destruct (Z.eqb_spec (tolower a1) 120) as [E1|N1]; [rewrite (H2' E0 E1)|]|];
    destruct (Z.eqb_spec base 0) as [Eb|Nb]; cbn [obind andb];
    try destruct (isxdigit a2); cbn [Z.eqb Pos.eqb obind andb fst snd];
    try destruct (Z.eqb_spec base 16); cbn [andb fst snd]; ok_eq.
Qed.

Lemma digit_value_range c : byte_range c -> isxdigit c = true -> 0 <= digit_value c < 16.
Proof.
  intros Hc Hx.
  pose proof (forall_byte (fun c => implb (isxdigit c)
    ((0 <=? digit_value c) && (digit_value c <? 16))) ltac:(by vm_compute) c Hc) as H.
  cbv beta in H. rewrite Hx in H. cbn [implb] in H. apply andb_true_iff in H as [H1 H2]. lia.
Qed.

(** Accumulating modulo 2^64 is accumulating, then reducing. *)
Lemma u64_step r base v : u64 (u64 (u64 r * base) + v) = u64 (r * base + v).
Proof.
  unfold u64. rewrite Zplus_mod_idemp_l.
  rewrite <- (Zplus_mod_idemp_l (r mod 2 ^ 64 * base)). rewrite Zmult_mod_idemp_l.
  by rewrite Zplus_mod_idemp_l.
Qed.

Lemma strtoul_loop m base s p r fuel :
  cstr m p s -> (length s < fuel)%nat ->
  while fuel (fun '(cp, result) =>
    let! c := load8 m cp in
    if isxdigit c then
      let value := u64 (digit_value c) in
      if value <? base then cont (cp + 1, u64 (u64 (result * base) + value))
      else brk (result, cp)
    else brk (result, cp)) (p, u64 r)
  = let n := span (is_digit_of base) s in
    Ok (u64 (fold_left (fun r c => r * base + digit_value c) (take n s) r), p + Z.of_nat n).
Proof.
  revert p r fuel. induction s as [|c s IH]; intros p r fuel H Hf; while_step fuel; cstr_step.
  - change (isxdigit 0) with false. cbn [span]. cbn. ok_eq.
  - cbn [span]. change (is_digit_of base c) with (isxdigit c && (digit_value c <? base)).
    destruct (isxdigit c) eqn:Hx; cbn [andb]; [|loop_next; ok_eq].
    pose proof (digit_value_range c ltac:(unfold byte_range; lia) Hx) as Hd.
    rewrite u64_small by lia. case_cmp; [|loop_next; ok_eq].
    loop_next. rewrite u64_step, IH by (simpl in *; done || lia).
    cbn [take fold_left]. ok_eq.
Qed.

Lemma radix_spec_skip base s : (snd (radix_spec base s) <= length s)%nat.
Proof.
  unfold radix_spec. cbv zeta. cbn [snd].
  match goal with |- context [if ?b then 2%nat else O] => destruct b eqn:E end; [|lia].
  apply andb_true_iff in E as [_ E]. apply andb_true_iff in E as [_ E].
  apply Z.eqb_eq in E.
  pose proof (cstr_nth_nonzero s 1) as H. destruct (Z.eq_dec (nth 1 (s ++ [0]) 0) 0) as [E'|]; [|lia].
  rewrite E' in E. by vm_compute in E.
Qed.

Lemma simple_strtoul_cstr m p s base :
  cstr m p s ->
  simple_strtoul m p base =
    Ok (fst (strtoul_spec base s), p + Z.of_nat (snd (strtoul_spec base s))).
Proof.
  intros H. unfold simple_strtoul. rewrite (fixup_radix_cstr m p s base H). cbn [obind].
  unfold strtoul_spec. pose proof (radix_spec_skip base s) as Hk.
  destruct (radix_spec base s) as [b k]. cbn [fst snd] in *.
  pose proof (cstr_drop m p s k Hk H) as Hd.
  change 0 with (u64 0). rewrite (strtoul_loop m b (drop k s)); [|done|by eapply cstr_fuel].
  cbv zeta. unfold numeral. change (u64 0) with 0. ok_eq.
Qed.

(** The 64-bit and the [long long] version are one function here. *)
Lemma simple_strtoull_eq m p base : simple_strtoull m p base = simple_strtoul m p base.
Proof. done. Qed.

Lemma digit_of_ten c : byte_range c -> is_digit_of 10 c = isdigit c.
Proof.
  intros Hc. apply eqb_prop.
  apply (forall_byte (fun c => Bool.eqb (is_digit_of 10 c) (isdigit c))); [by vm_compute|done].
Qed.

Lemma span_all {A} (f : A -> bool) l : Forall (fun x => f x = true) l -> span f l = length l.
Proof. intros H. rewrite <- (app_nil_r l) at 1. rewrite span_app by done. simpl. lia. Qed.

(** Decimal digits read as decimal digits. *)
Lemma strtoul_spec_decimal ds :
  Forall (fun c => 0 < c < 256) ds -> Forall (fun c => isdigit c = true) ds ->
  strtoul_spec 10 ds = (u64 (numeral 10 ds), length ds).
Proof.
  intros Hb Hd. unfold strtoul_spec, radix_spec. cbn [Z.eqb Pos.eqb andb].
  rewrite drop_0, span_all.
  - by rewrite firstn_all.
  - rewrite !list.Forall_forall in *. intros c Hc. rewrite digit_of_ten; [auto|].
    specialize (Hb c Hc). unfold byte_range. simpl in Hb. lia.
Qed.

Lemma strtoul_spec_skip base s : (snd (strtoul_spec base s) <= length s)%nat.
Proof.
  unfold strtoul_spec. pose proof (radix_spec_skip base s). destruct (radix_spec base s) as [b k].
  cbn [snd] in *. pose proof (span_le (is_digit_of b) (drop k s)). rewrite length_drop in *. lia.
Qed.

Lemma last_lookup_app (pre ds : list Z) i :
  (i < length ds)%nat -> (pre ++ ds) !! (length pre + i)%nat = ds !! i.
Proof. intros. rewrite lookup_app_r by lia. f_equal. lia. Qed.

Definition trailing_spec (pre ds : list Z) : Z :=
  if bool_decide (ds = [] \/ (length pre < 2)%nat) then -1 else s64 (u64 (numeral 10 ds)).

Section trailing.
Context (m : mem) (p : Z) (pre ds : list Z).
Hypothesis Hs : cstr m p (pre ++ ds).
Hypothesis Hds : Forall (fun c => isdigit c = true) ds.
Hypothesis Hpre : forall c, list.last pre = Some c -> isdigit c = false.

Lemma trailing_char i c : (pre ++ ds) !! i = Some c -> load8 m (p + Z.of_nat i) = Ok c.
Proof.
  intros H. apply load8_lookup. eapply bytes_at_lookup; [by apply cstr_bytes|done].
Qed.

Lemma trailing_digit i :
  (length pre <= i < length (pre ++ ds))%nat ->
  exists c, load8 m (p + Z.of_nat i) = Ok c /\ isdigit c = true.
Proof.
  intros Hi. destruct (lookup_lt_is_Some_2 (pre ++ ds) i) as [c Hc]; [lia|].
  exists c. split; [by apply trailing_char|].
  rewrite lookup_app_r in Hc by lia. rewrite list.Forall_forall in Hds. apply Hds.
  by eapply list_elem_of_lookup_2.
Qed.

Lemma trailing_boundary :
  pre <> [] -> exists c, load8 m (p + Z.of_nat (length pre - 1)) = Ok c /\ isdigit c = false.
Proof.
  intros Hne. destruct (list.last pre) as [c|] eqn:El; [|by apply last_None in El].
  exists c. split; [|auto]. apply trailing_char. rewrite last_lookup in El.
  rewrite lookup_app_l by (destruct pre; [done|simpl; lia]). rewrite <- El. f_equal. lia.
Qed.

Lemma trailing_parse : simple_strtoul m (p + Z.of_nat (length pre)) 10
  = Ok (u64 (numeral 10 ds), p + Z.of_nat (length pre) + Z.of_nat (length ds)).
Proof.
  pose proof (cstr_drop m p (pre ++ ds) (length pre) ltac:(rewrite length_app; lia) Hs) as H.
  rewrite drop_app_length in H. rewrite (simple_strtoul_cstr m _ ds 10 H).
  rewrite strtoul_spec_decimal; [done|apply H|done].
Qed.

Lemma trailing_strtol_spec :
  pre ++ ds <> [] -> trailing_strtol m p = Ok (trailing_spec pre ds).
Proof.
  intros Hne. unfold trailing_strtol, trailing_strtoln, trailing_spec.
  cbn [Z.eqb NULL]. rewrite (strlen_cstr m p _ Hs). cbn [obind].
  assert (length (pre ++ ds) <> O) as Hlen by (destruct (pre ++ ds); [done|simpl; lia]).
  replace (p + Z.of_nat (length (pre ++ ds)) - 1)
    with (p + Z.of_nat (length (pre ++ ds) - 1)) by lia.
  pose proof (length_app pre ds) as Hla.
  destruct (decide (ds = [])) as [Ed|Hd].
  - rewrite bool_decide_true by auto.
    assert (length ds = O) as El by (by rewrite Ed).
    replace (length (pre ++ ds)) with (length pre) by lia.
    assert (pre <> []) as Hp by (intros Ep; apply Hne; by rewrite Ep, Ed).
    destruct (trailing_boundary Hp) as (c & -> & Hc). cbn [obind]. by rewrite Hc.
  - assert (length ds <> O) by (destruct ds; [done|simpl; lia]).
    destruct (trailing_digit (length (pre ++ ds) - 1)) as (c & -> & Hc); [lia|].
    cbn [obind]. rewrite Hc.
    apply (while_eq (fun q => exists i, q = p + Z.of_nat i /\ (length pre <= S i)%nat /\
                                (i < length (pre ++ ds))%nat) (fun q => Z.to_nat (q - p))).
    + intros q (i & -> & Hi & Hi'). case_cmp.
      * destruct (decide (length pre <= i)%nat) as [Hge|].
        -- destruct (trailing_digit i) as (c' & -> & Hc'); [lia|]. cbn [obind]. rewrite Hc'. cbn.
           split; [|lia]. exists (i - 1)%nat. lia.
        -- assert (i = length pre - 1)%nat as -> by lia.
           destruct trailing_boundary as (c' & -> & Hc'); [destruct pre; simpl in *; [lia|done]|].
           cbn [obind]. rewrite Hc'. cbn [negb].
           replace (p + Z.of_nat (length pre - 1) + 1) with (p + Z.of_nat (length pre)) by lia.
           rewrite trailing_parse. cbn. rewrite bool_decide_false; [done|].
           intros [?|?]; [done|lia].
      * cbn. rewrite bool_decide_true; [done|]. right. lia.
    + exists (length (pre ++ ds) - 1)%nat. lia.
    + unfold fuel_of. apply cstr_size in Hs. lia.
Qed.
End trailing.

(** ** Claims *)



(** [strict_strtoul] accepts exactly the non-empty numerals that reach
    the end of the string (a final newline allowed), stores their value, and
    on every other string returns -EINVAL and stores 0. *)
Theorem strict_strtoul_correct (m : mem) (p : Z) (s : list Z) (base : Z) :
  cstr m p s -> Z.of_nat (length s) < 2 ^ 64 ->
  strict_strtoul m p base = Ok (
    let '(v, n) := strtoul_spec base s in
    if bool_decide (n <> O /\ (n = length s \/ drop n s = [10])) then (0, v) else (- EINVAL, 0)).
Proof.
  intros H Hlen. unfold strict_strtoul. rewrite (strlen_cstr m p s H). cbn [obind].
  pose proof (strtoul_spec_skip base s) as Hn.
  pose proof (simple_strtoul_cstr m p s base H) as Hstr.
  destruct (strtoul_spec base s) as [v n]. cbn [fst snd] in *.
  case_cmp.
  { rewrite bool_decide_false; [done|]. lia. }
  rewrite Hstr. cbn [obind]. case_cmp; [rewrite bool_decide_false; [done|lia]|].
  rewrite (load8_cstr m p s n H Hn). cbn [obind].
  replace (p + Z.of_nat n - p) with (Z.of_nat n) by lia. rewrite u64_small by lia.
  pose proof (cstr_drop m p s n Hn H) as [_ HF].
  assert (nth n (s ++ [0]) 0 = nth 0 (drop n s ++ [0]) 0) as ->.
  { rewrite <- (take_drop n s) at 1. rewrite <- app_assoc.
    rewrite app_nth2; rewrite length_take, Nat.min_l by lia; [|lia]. by rewrite Nat.sub_diag. }
  pose proof (length_drop s n) as Hl.
  destruct (drop n s) as [|c t] eqn:Ed; cbn [app nth length] in *.
  - rewrite bool_decide_true by lia. done.
  - apply Forall_cons_1 in HF as [Hc _].
    destruct (Z.eqb_spec c 0); [lia|]. cbn [orb].
    destruct (decide (c = 10 /\ t = [])) as [[-> ->]|Hno]; cbn [length] in *.
    + rewrite bool_decide_true by (split; [lia|by right]). case_cmp; [done|lia].
    + rewrite bool_decide_false by (intros [_ [?|[= -> ->]]]; [lia|tauto]).
      destruct (Z.eqb_spec (Z.of_nat (length s)) (Z.of_nat n + 1)); cbn [andb]; [|done].
      case_cmp; [|done]. destruct t; [tauto|]. simpl in Hl. lia.
Qed.

(** "42\n" is accepted, with the newline. *)
Lemma strict_strtoul_correct_witness :
  strict_strtoul (mem_of 8 [52; 50; 10; 0]) 8 10 = Ok (0, 42).
Proof.
  rewrite (strict_strtoul_correct _ 8 [52; 50; 10] 10).
  - vm_compute. reflexivity.
  - apply (cstr_mem_of 8 [52; 50; 10]). vm_compute. reflexivity.
  - vm_compute. reflexivity.
Defined.

(** [trailing_strtol] returns the number the final digits of a non-empty
    string denote when at least two characters come before them, and -1 in
    every other case: also for a string of digits only and for digits after a
    single character. *)
Theorem trailing_strtol_correct (m : mem) (p : Z) (pre ds : list Z) :
  cstr m p (pre ++ ds) -> Forall (fun c => isdigit c = true) ds ->
  (forall c, list.last pre = Some c -> isdigit c = false) -> pre ++ ds <> [] ->
  trailing_strtol m p = Ok (trailing_spec pre ds).
Proof. intros. by apply trailing_strtol_spec. Qed.

(** "a7" gives -1, not 7. *)
Lemma trailing_strtol_correct_witness :
  trailing_strtol (mem_of 8 [97; 55; 0]) 8 = Ok (-1).
Proof.
  rewrite (trailing_strtol_correct _ 8 [97] [55]).
  - reflexivity.
  - apply (cstr_mem_of 8 [97; 55]). vm_compute. reflexivity.
  - by repeat constructor.
  - intros c [= <-]. reflexivity.
  - done.
Defined.
