(* ===== verification/Fmt.v ===== *)
(** * Formatted output (lib/vsprintf.c)

    [number], [string], [pointer] and the interpreter [vsnprintf_internal]
    with every conversion, flag, width, precision and qualifier of the code.
    Output goes through [ADDCH], which stores only below [end] and always
    advances: the pair (memory, [str]) is threaded through everything.

    Local arrays ([tmp], [mac_addr], ...) are lists in the order the code
    fills them; a string argument is a pointer into the memory or such a
    list ([strsrc]).  A [va_list] is the list of the raw 64-bit argument
    slots; taking an argument that was not passed is a [Fault]. *)

From S2P Require Import Prelude CMem Ctype Str StrFacts Strto.

Local Open Scope Z_scope.
Local Open Scope c_scope.

(** ** Decimal conversion *)

Definition put_dec_trunc (buf : list Z) (q : Z) : list Z :=
  let d1 := Z.land (Z.shiftr q 4) 0xf in
  let d2 := Z.land (Z.shiftr q 8) 0xf in
  let d3 := Z.shiftr q 12 in
  let d0 := u32 (6 * (d3 + d2 + d1) + Z.land q 0xf) in
  let q := Z.shiftr (u32 (d0 * 0xcd)) 11 in
  let d0 := u32 (d0 - 10 * q) in
  let buf := buf ++ [u8 (d0 + 48)] in
  let d1 := u32 (q + 9 * d3 + 5 * d2 + d1) in
  if d1 =? 0 then buf else
  let q := Z.shiftr (u32 (d1 * 0xcd)) 11 in
  let d1 := u32 (d1 - 10 * q) in
  let buf := buf ++ [u8 (d1 + 48)] in
  let d2 := u32 (q + 2 * d2) in
  if (d2 =? 0) && (d3 =? 0) then buf else
  let q := Z.shiftr (u32 (d2 * 0xd)) 7 in
  let d2 := u32 (d2 - 10 * q) in
  let buf := buf ++ [u8 (d2 + 48)] in
  let d3 := u32 (q + 4 * d3) in
  if d3 =? 0 then buf else
  let q := Z.shiftr (u32 (d3 * 0xcd)) 11 in
  let d3 := u32 (d3 - 10 * q) in
  let buf := buf ++ [u8 (d3 + 48)] in
  if q =? 0 then buf else buf ++ [u8 (q + 48)].

Definition put_dec_full (buf : list Z) (q : Z) : list Z :=
  let d1 := Z.land (Z.shiftr q 4) 0xf in
  let d2 := Z.land (Z.shiftr q 8) 0xf in
  let d3 := Z.shiftr q 12 in
  let d0 := u32 (6 * (d3 + d2 + d1) + Z.land q 0xf) in
  let q := Z.shiftr (u32 (d0 * 0xcd)) 11 in
  let d0 := u32 (d0 - 10 * q) in
  let buf := buf ++ [u8 (d0 + 48)] in
  let d1 := u32 (q + 9 * d3 + 5 * d2 + d1) in
  let q := Z.shiftr (u32 (d1 * 0xcd)) 11 in
  let d1 := u32 (d1 - 10 * q) in
  let buf := buf ++ [u8 (d1 + 48)] in
  let d2 := u32 (q + 2 * d2) in
  let q := Z.shiftr (u32 (d2 * 0xd)) 7 in
  let d2 := u32 (d2 - 10 * q) in
  let buf := buf ++ [u8 (d2 + 48)] in
  let d3 := u32 (q + 4 * d3) in
  let q := Z.shiftr (u32 (d3 * 0xcd)) 11 in
  let d3 := u32 (d3 - 10 * q) in
  buf ++ [u8 (d3 + 48); u8 (q + 48)].

(** [do_div]: quotient and remainder of the 64-bit [n]. *)
Definition do_div (n base : Z) : Z * Z := (n / base, n mod base).

(** Five digits per round: a 64-bit number takes at most four rounds. *)
Definition put_dec (buf : list Z) (num : Z) : outcome (list Z) :=
  while 8 (fun '(buf, num) =>
    if num <? 100000 then brk (put_dec_trunc buf num) else
    let '(num, rem) := do_div num 100000 in
    cont (put_dec_full buf rem, num)) (buf, num).

(** ** Numbers *)

Definition ZEROPAD : Z := 1.
Definition SIGN : Z := 2.
Definition PLUS : Z := 4.
Definition SPACE : Z := 8.
Definition LEFT : Z := 16.
Definition SMALL : Z := 32.
Definition SPECIAL : Z := 64.

Definition flag (t f : Z) : bool := negb (Z.land t f =? 0).

(** The output so far: memory and the position [str]. *)
Abbreviation out := (mem * Z)%type.

Definition ADDCH (end_ : Z) (o : out) (ch : Z) : outcome out :=
  let '(m, str) := o in
  if str <? end_ then let! m := store8 m str ch in Ok (m, str + 1)
  else Ok (m, str + 1).

(** [while (--size >= 0) ADDCH(buf, ch);] *)
Definition pad (end_ ch : Z) (o : out) (size : Z) : outcome (out * Z) :=
  while (S (Z.to_nat size)) (fun '(o, size) =>
    let size := size - 1 in
    if 0 <=? size then let! o := ADDCH end_ o ch in cont (o, size)
    else brk (o, size)) (o, size).

(** "0123456789ABCDEF" *)
Definition digits : list Z :=
  [48;49;50;51;52;53;54;55;56;57;65;66;67;68;69;70].

(** The digits of [num] in [tmp], least significant first. *)
Definition number_tmp (num base locase : Z) : outcome (list Z) :=
  if num =? 0 then Ok [48]
  else if negb (base =? 10) then
    let mask := base - 1 in
    let shift := if base =? 16 then 4 else 3 in
    while 66 (fun '(tmp, num) =>
      match digits !! Z.to_nat (Z.land (u8 num) mask) with
      | Some d =>
          let tmp := tmp ++ [Z.lor d locase] in
          let num := Z.shiftr num shift in
          if num =? 0 then brk tmp else cont (tmp, num)
      | None => Fault
      end) ([], num)
  else put_dec [] num.

(** The sign character, the magnitude and the width left. *)
Definition number_sign (num size type : Z) : Z * Z * Z :=
  if flag type SIGN then
    if s64 num <? 0 then (45, u64 (- s64 num), size - 1)
    else if flag type PLUS then (43, num, size - 1)
    else if flag type SPACE then (32, num, size - 1)
    else (0, num, size)
  else (0, num, size).

(** The sign, then "0x" or "0". *)
Definition number_prefix (end_ : Z) (o : out) (sign : Z) (need_pfx : bool) (base locase : Z)
    : outcome out :=
  let! o := if negb (sign =? 0) then ADDCH end_ o sign else Ok o in
  if need_pfx then
    let! o := ADDCH end_ o 48 in
    if base =? 16 then ADDCH end_ o (Z.lor 88 locase) else Ok o
  else Ok o.

(** Precision zeros, the digits of [tmp] backwards, trailing spaces. *)
Definition number_digits (end_ : Z) (o : out) (tmp : list Z) (precision size : Z)
    : outcome out :=
  let i := Z.of_nat (length tmp) in
  let! o :=
    while (S (Z.to_nat (precision - i))) (fun '(o, precision) =>
      let precision := precision - 1 in
      if i <=? precision then let! o := ADDCH end_ o 48 in cont (o, precision)
      else brk o) (o, precision) in
  let! o :=
    while (S (Z.to_nat i)) (fun '(o, i) =>
      let i := i - 1 in
      if 0 <=? i then
        match tmp !! Z.to_nat i with
        | Some c => let! o := ADDCH end_ o c in cont (o, i)
        | None => Fault
        end
      else brk o) (o, i) in
  let! '(o, _) := pad end_ 32 o size in
  Ok o.

Definition number (o : out) (end_ num base size precision type : Z) : outcome out :=
  let need_pfx := flag type SPECIAL && negb (base =? 10) in
  let locase := Z.land type SMALL in
  let type := if flag type LEFT then Z.ldiff type ZEROPAD else type in
  let '(sign, num, size) := number_sign num size type in
  let size :=
    if need_pfx then
      let size := size - 1 in if base =? 16 then size - 1 else size
    else size in
  let! tmp := number_tmp num base locase in
  let i := Z.of_nat (length tmp) in
  let precision := if i >? precision then i else precision in
  let size := size - precision in
  let! '(o, size) :=
    if negb (flag type (ZEROPAD + LEFT)) then pad end_ 32 o size else Ok (o, size) in
  let! o := number_prefix end_ o sign need_pfx base locase in
  let! '(o, size) :=
    if negb (flag type LEFT) then
      pad end_ (if flag type ZEROPAD then 48 else 32) o size
    else Ok (o, size) in
  number_digits end_ o tmp precision size.

(** ** Strings *)

(** A [char *]: into the memory, or to a local array. *)
Inductive strsrc : Type :=
  | Ptr (p : Z)
  | Local (l : list Z).

Definition src_load (m : mem) (s : strsrc) (i : Z) : outcome Z :=
  match s with
  | Ptr p => load8 m (p + i)
  | Local l => match l !! Z.to_nat i with Some b => Ok b | None => Fault end
  end.

(** [strnlen] on either. *)
Definition src_strnlen (m : mem) (s : strsrc) (count : Z) : outcome Z :=
  match s with
  | Ptr p => strnlen m p count
  | Local l =>
      while (S (length l)) (fun '(sc, count) =>
        if count =? 0 then brk sc else
        let! c := src_load m s sc in
        if c =? 0 then brk sc else cont (sc + 1, count - 1)) (0, count)
  end.

(** "<NULL>" *)
Definition null_text : list Z := [60; 78; 85; 76; 76; 62; 0].

(** [while (len < field_width--) ADDCH(buf, ' ');] *)
Definition pad_width (end_ len : Z) (o : out) (field_width : Z) : outcome (out * Z) :=
  while (S (Z.to_nat (field_width - len))) (fun '(o, field_width) =>
    if len <? field_width then let! o := ADDCH end_ o 32 in cont (o, field_width - 1)
    else brk (o, field_width - 1)) (o, field_width).

Definition string_ (o : out) (end_ : Z) (s : strsrc) (field_width precision flags : Z)
    : outcome out :=
  let s := match s with
           | Ptr p => if p =? NULL then Local null_text else s
           | Local _ => s
           end in
  let! n := src_strnlen (fst o) s (u64 precision) in
  let len := s32 n in
  let! '(o, field_width) :=
    if negb (flag flags LEFT) then pad_width end_ len o field_width
    else Ok (o, field_width) in
  let! o :=
    while (S (Z.to_nat len)) (fun '(o, i) =>
      if i <? len then
        let! c := src_load (fst o) s i in
        let! o := ADDCH end_ o c in cont (o, i + 1)
      else brk o) (o, 0) in
  let! '(o, _) := pad_width end_ len o field_width in
  Ok o.

(** ** Addresses *)

(** "0123456789abcdef" *)
Definition hex_asc : list Z :=
  [48;49;50;51;52;53;54;55;56;57;97;98;99;100;101;102].

Definition hex_byte_pack (buf : list Z) (byte : Z) : list Z :=
  buf ++ [nth (Z.to_nat (Z.shiftr (Z.land byte 0xf0) 4)) hex_asc 0;
          nth (Z.to_nat (Z.land byte 0x0f)) hex_asc 0].

Definition mac_address_string (o : out) (end_ addr field_width precision flags : Z)
    : outcome out :=
  let! mac_addr :=
    while 7 (fun '(p, i) =>
      if i <? 6 then
        let! b := load8 (fst o) (addr + i) in
        let p := hex_byte_pack p b in
        let p := if negb (flag flags SPECIAL) && negb (i =? 5) then p ++ [58] else p in
        cont (p, i + 1)
      else brk (p ++ [0])) ([], 0) in
  string_ o end_ (Local mac_addr) field_width precision (Z.ldiff flags SPECIAL).

Definition ip6_addr_string (o : out) (end_ addr field_width precision flags : Z)
    : outcome out :=
  let! ip6_addr :=
    while 9 (fun '(p, i) =>
      if i <? 8 then
        let! b0 := load8 (fst o) (addr + 2 * i) in
        let p := hex_byte_pack p b0 in
        let! b1 := load8 (fst o) (addr + (2 * i + 1)) in
        let p := hex_byte_pack p b1 in
        let p := if negb (flag flags SPECIAL) && negb (i =? 7) then p ++ [58] else p in
        cont (p, i + 1)
      else brk (p ++ [0])) ([], 0) in
  string_ o end_ (Local ip6_addr) field_width precision (Z.ldiff flags SPECIAL).

Definition ip4_addr_string (o : out) (end_ addr field_width precision flags : Z)
    : outcome out :=
  let! ip4_addr :=
    while 5 (fun '(p, i) =>
      if i <? 4 then
        let! b := load8 (fst o) (addr + i) in
        let p := p ++ reverse (put_dec_trunc [] b) in
        let p := if negb (i =? 3) then p ++ [46] else p in
        cont (p, i + 1)
      else brk (p ++ [0])) ([], 0) in
  string_ o end_ (Local ip4_addr) field_width precision (Z.ldiff flags SPECIAL).

(** The plain hexadecimal form: the end of [pointer]. *)
Definition pointer_plain (o : out) (end_ num field_width precision flags : Z) : outcome out :=
  let flags := Z.lor flags SMALL in
  let '(field_width, flags) :=
    if field_width =? -1 then (16, Z.lor flags ZEROPAD) else (field_width, flags) in
  number o end_ num 16 field_width precision flags.

Definition pointer (fmt : Z) (o : out) (end_ ptr field_width precision flags : Z)
    : outcome out :=
  let plain num field_width flags := pointer_plain o end_ num field_width precision flags in
  let mac flags := mac_address_string o end_ ptr field_width precision flags in
  let ip flags :=
    let! c1 := load8 (fst o) (fmt + 1) in
    if c1 =? 54 then ip6_addr_string o end_ ptr field_width precision flags
    else if c1 =? 52 then ip4_addr_string o end_ ptr field_width precision flags
    else plain (u64 ptr) field_width (Z.ldiff flags SPECIAL) in
  let! c := load8 (fst o) fmt in
  if c =? 97 then
    let! _ := load8 (fst o) (fmt + 1) in
    let! num := load64 (fst o) ptr in
    plain (u64 num) 18 (Z.lor flags (Z.lor SPECIAL ZEROPAD))
  else if c =? 109 then mac (Z.lor flags SPECIAL)
  else if c =? 77 then mac flags
  else if c =? 105 then ip (Z.lor flags SPECIAL)
  else if c =? 73 then ip flags
  else plain (u64 ptr) field_width flags.

(** ** The interpreter *)

Definition is_digit (c : Z) : bool := (48 <=? c) && (c <=? 57).

Definition skip_atoi (m : mem) (s : Z) : outcome (Z * Z) :=
  while (fuel_of m) (fun '(s, i) =>
    let! c := load8 m s in
    if is_digit c then cont (s + 1, s32 (i * 10 + c - 48)) else brk (i, s)) (s, 0).

(** The next argument slot. *)
Definition va_arg (args : list Z) : outcome (Z * list Z) :=
  match args with
  | [] => Fault
  | a :: args => Ok (a, args)
  end.

(** From [repeat:] to the end of the flags switch. *)
Definition parse_flags (m : mem) (fmt : Z) : outcome (Z * Z) :=
  while (fuel_of m) (fun '(fmt, flags) =>
    let fmt := fmt + 1 in
    let! c := load8 m fmt in
    if c =? 45 then cont (fmt, Z.lor flags LEFT)
    else if c =? 43 then cont (fmt, Z.lor flags PLUS)
    else if c =? 32 then cont (fmt, Z.lor flags SPACE)
    else if c =? 35 then cont (fmt, Z.lor flags SPECIAL)
    else if c =? 48 then cont (fmt, Z.lor flags ZEROPAD)
    else brk (fmt, flags)) (fmt, 0).

(** The field width; a negative one given by an argument sets [LEFT]. *)
Definition parse_width (m : mem) (fmt flags : Z) (args : list Z)
    : outcome (Z * Z * Z * list Z) :=
  let! c := load8 m fmt in
  if is_digit c then
    let! '(w, fmt) := skip_atoi m fmt in Ok (fmt, w, flags, args)
  else if c =? 42 then
    let! '(a, args) := va_arg args in
    let w := s32 a in
    if w <? 0 then Ok (fmt + 1, s32 (- w), Z.lor flags LEFT, args)
    else Ok (fmt + 1, w, flags, args)
  else Ok (fmt, -1, flags, args).

Definition parse_precision (m : mem) (fmt : Z) (args : list Z)
    : outcome (Z * Z * list Z) :=
  let! c := load8 m fmt in
  if c =? 46 then
    let fmt := fmt + 1 in
    let! c := load8 m fmt in
    let! '(p, fmt, args) :=
      if is_digit c then
        let! '(p, fmt) := skip_atoi m fmt in Ok (p, fmt, args)
      else if c =? 42 then
        let! '(a, args) := va_arg args in Ok (s32 a, fmt + 1, args)
      else Ok (-1, fmt, args) in
    Ok (fmt, if p <? 0 then 0 else p, args)
  else Ok (fmt, -1, args).

Definition parse_qualifier (m : mem) (fmt : Z) : outcome (Z * Z) :=
  let! c := load8 m fmt in
  if (c =? 104) || (c =? 108) || (c =? 76) || (c =? 90) || (c =? 122) || (c =? 116) then
    let fmt := fmt + 1 in
    let! d := load8 m fmt in
    if (c =? 108) && (d =? 108) then Ok (fmt + 1, 76) else Ok (fmt, c)
  else Ok (fmt, -1).

(** The argument of an integer conversion, as the [u64] given to [number]. *)
Definition fetch_num (qualifier flags : Z) (a : Z) : Z :=
  if qualifier =? 76 then u64 a
  else if qualifier =? 108 then u64 a
  else if (qualifier =? 90) || (qualifier =? 122) then u64 a
  else if qualifier =? 116 then u64 (s64 a)
  else if qualifier =? 104 then
    let num := u16 (s32 a) in if flag flags SIGN then u64 (s16 num) else num
  else
    let num := u32 a in if flag flags SIGN then u64 (s32 num) else num.

(** [while (--field_width > 0) ADDCH(str, ' ');] *)
Definition pad_char (end_ : Z) (o : out) (field_width : Z) : outcome (out * Z) :=
  while (S (Z.to_nat field_width)) (fun '(o, field_width) =>
    let field_width := field_width - 1 in
    if 0 <? field_width then let! o := ADDCH end_ o 32 in cont (o, field_width)
    else brk (o, field_width)) (o, field_width).

(** [ADDCH(str, (unsigned char) va_arg(args, int));]: the macro evaluates its
    second argument only when the position lies below [end], so that a
    character that does not fit leaves the arguments as they are. *)
Definition addch_arg (end_ : Z) (o : out) (args : list Z) : outcome (out * list Z) :=
  let '(m, str) := o in
  if str <? end_ then
    let! '(a, args) := va_arg args in
    let! m := store8 m str (u8 a) in Ok ((m, str + 1), args)
  else Ok ((m, str + 1), args).

(** [while (isalnum(fmt[1])) fmt++;] *)
Definition skip_suffix (m : mem) (fmt : Z) : outcome Z :=
  while (fuel_of m) (fun fmt =>
    let! c := load8 m (fmt + 1) in
    if isalnum c then cont (fmt + 1) else brk fmt) fmt.

Definition IS_ERR (p : Z) : bool := 2 ^ 64 - 4095 <=? u64 p.

(** What a conversion does: the new output, [fmt] (before the [++fmt] of the
    loop) and arguments, or the error [pointer] answered. *)
Definition conversion (buf end_ : Z) (o : out) (fmt flags field_width precision qualifier : Z)
    (args : list Z) : outcome (out * Z * list Z + mem * Z) :=
  let! c := load8 (fst o) fmt in
  let num_conv base flags :=
    let! '(a, args) := va_arg args in
    let! o := number o end_ (fetch_num qualifier flags a) base field_width precision flags in
    Ok (inl (o, fmt, args)) in
  if c =? 99 then
    let! '(o, field_width) :=
      if negb (flag flags LEFT) then pad_char end_ o field_width else Ok (o, field_width) in
    let! '(o, args) := addch_arg end_ o args in
    let! '(o, _) := pad_char end_ o field_width in
    Ok (inl (o, fmt, args))
  else if c =? 115 then
    let! '(a, args) := va_arg args in
    let! o := string_ o end_ (Ptr (u64 a)) field_width precision flags in
    Ok (inl (o, fmt, args))
  else if c =? 112 then
    let! '(a, args) := va_arg args in
    let! o := pointer (fmt + 1) o end_ (u64 a) field_width precision flags in
    if IS_ERR (snd o) then Ok (inr (fst o, s32 (snd o))) else
    let! fmt := skip_suffix (fst o) fmt in
    Ok (inl (o, fmt, args))
  else if c =? 110 then
    let! '(a, args) := va_arg args in
    let '(m, str) := o in
    let! m := if qualifier =? 108 then store64 m (u64 a) (str - buf)
              else store32 m (u64 a) (str - buf) in
    Ok (inl ((m, str), fmt, args))
  else if c =? 37 then
    let! o := ADDCH end_ o 37 in Ok (inl (o, fmt, args))
  else if c =? 111 then num_conv 8 flags
  else if c =? 120 then num_conv 16 (Z.lor flags SMALL)
  else if c =? 88 then num_conv 16 flags
  else if (c =? 100) || (c =? 105) then num_conv 10 (Z.lor flags SIGN)
  else if c =? 117 then num_conv 10 flags
  else
    let! o := ADDCH end_ o 37 in
    if negb (c =? 0) then let! o := ADDCH end_ o c in Ok (inl (o, fmt, args))
    else Ok (inl (o, fmt - 1, args)).

(** One turn of the loop over the format. *)
Definition format_step (buf end_ : Z) (st : out * Z * list Z)
    : outcome (out * Z * list Z + (out + mem * Z)) :=
  let '(o, fmt, args) := st in
  let! c := load8 (fst o) fmt in
  if c =? 0 then brk (inl o)
  else if negb (c =? 37) then
    let! o := ADDCH end_ o c in cont (o, fmt + 1, args)
  else
    let! '(fmt, flags) := parse_flags (fst o) fmt in
    let! '(fmt, field_width, flags, args) := parse_width (fst o) fmt flags args in
    let! '(fmt, precision, args) := parse_precision (fst o) fmt args in
    let! '(fmt, qualifier) := parse_qualifier (fst o) fmt in
    let! r := conversion buf end_ o fmt flags field_width precision qualifier args in
    match r with
    | inl (o, fmt, args) => cont (o, fmt + 1, args)
    | inr e => brk (inr e)
    end.

(** The result is the memory and the [int] returned. *)
Definition vsnprintf_internal (m : mem) (buf size fmt : Z) (args : list Z)
    : outcome (mem * Z) :=
  let end_ := u64 (buf + size) in
  let '(end_, size) := if end_ <? buf then (2 ^ 64 - 1, 2 ^ 64 - 1 - buf) else (end_, size) in
  let! r := while (fuel_of m) (format_step buf end_) ((m, buf), fmt, args) in
  match r with
  | inr e => Ok e
  | inl o =>
      if 0 <? size then
        let! '(m, str) := ADDCH end_ o 0 in
        let! m := if end_ <? str then store8 m (end_ - 1) 0 else Ok m in
        Ok (m, s32 (str - 1 - buf))
      else Ok (fst o, s32 (snd o - buf))
  end.

Definition vsnprintf := vsnprintf_internal.

Definition vscnprintf (m : mem) (buf size fmt : Z) (args : list Z) : outcome (mem * Z) :=
  let! '(m, i) := vsnprintf m buf size fmt args in
  if u64 i <? size then Ok (m, i)
  else if negb (size =? 0) then Ok (m, s32 (size - 1))
  else Ok (m, 0).

Definition INT_MAX : Z := 2 ^ 31 - 1.

Definition vsprintf (m : mem) (buf fmt : Z) (args : list Z) : outcome (mem * Z) :=
  vsnprintf_internal m buf INT_MAX fmt args.

Definition snprintf (m : mem) (buf size fmt : Z) (args : list Z) : outcome (mem * Z) :=
  vsnprintf m buf size fmt args.

Definition scnprintf (m : mem) (buf size fmt : Z) (args : list Z) : outcome (mem * Z) :=
  vscnprintf m buf size fmt args.

Definition sprintf (m : mem) (buf fmt : Z) (args : list Z) : outcome (mem * Z) :=
  vsprintf m buf fmt args.

(** ** Small helpers *)

(** [simple_itoa]: the contents of the static buffer from the returned
    pointer to the terminator. *)
Definition simple_itoa (i : Z) : outcome (list Z) :=
  while 22 (fun '(p, i) =>
    let p := (48 + i mod 10) :: p in
    let i := i / 10 in
    if 0 <? i then cont (p, i) else brk p) ([0], i).

(** The result is the flag and the number stored. *)
Definition str2off (m : mem) (p : Z) : outcome (bool * Z) :=
  let! '(num, endptr) := simple_strtoull m p 16 in
  let! c := load8 m p in
  if c =? 0 then Ok (false, num) else
  let! e := load8 m endptr in
  Ok (e =? 0, num).

Definition str2long (m : mem) (p : Z) : outcome (bool * Z) :=
  let! '(num, endptr) := simple_strtoul m p 16 in
  let! c := load8 m p in
  if c =? 0 then Ok (false, num) else
  let! e := load8 m endptr in
  Ok (e =? 0, num).
