(* ===== verification/FmtSafe.v ===== *)
(** * [vsnprintf] stays inside its buffer

    For any memory, any format and any arguments, [vsnprintf_internal] ends,
    and when it returns it has changed nothing outside [buf, buf + size)
    except where a %n conversion stores.  The proof threads one invariant,
    [keeps], through every definition of [Fmt] with the rules of [ends]. *)

From S2P Require Import Prelude CMem Ctype Str StrFacts Strto Fmt.

Local Open Scope Z_scope.
Local Open Scope c_scope.

(** Addresses a %n may store to. *)
Definition n_target (args : list Z) (a : Z) : Prop :=
  exists x, x ∈ args /\ u64 x <= a < u64 x + 8.

(** The format readers only read. *)
Lemma skip_atoi_ends m s : ends (skip_atoi m s) (fun '(_, s') => seg m s s').
Proof.
  apply (ends_scan m fst). intros [p i] Hp. cbn [fst] in *.
  ends_step ends_load8 as c Hc.
  destruct (is_digit c); simpl; [|done]. split; [lia|eauto with rock].
Qed.

Lemma parse_flags_ends m fmt c :
  m !! fmt = Some c ->
  ends (parse_flags m fmt) (fun '(fmt', _) => seg m (fmt + 1) fmt' /\ is_Some (m !! fmt')).
Proof.
  intros Hc. unfold parse_flags.
  apply (ends_while (fun '(p, _) => seg m fmt p /\ is_Some (m !! p))
           (fun '(p, _) => Z.to_nat (Z.of_nat (size m) - (p - fmt)))).
  - intros [p f] [Hp [d Hd]]. ends_step ends_load8 as e He.
    assert (seg m fmt (p + 1)) as Hs by eauto with rock.
    assert (seg m fmt (p + 1 + 1)) as Hs2 by eauto with rock. apply seg_size in Hs2.
    assert (seg m (fmt + 1) (p + 1)) as Ht.
    { destruct Hp, Hs as [? Hm]. split; [lia|]. eapply mapped_sub; [exact Hm|lia|lia]. }
    repeat case_cmp; simpl; eauto; (split; [eauto|lia]).
  - split; [apply seg_refl|eauto].
  - unfold fuel_of. lia.
Qed.

Lemma va_arg_ends args : ends (va_arg args) (fun '(a, args') => args = a :: args').
Proof. by destruct args. Qed.

Lemma parse_width_ends m fmt flags args :
  ends (parse_width m fmt flags args) (fun '(fmt', _, _, args') =>
    seg m fmt fmt' /\ args' ⊆ args).
Proof.
  ends_step ends_load8 as c Hc. destruct (is_digit c).
  - ends_step skip_atoi_ends as [w f] Hf. by split.
  - case_cmp; [|simpl; eauto with rock].
    ends_step va_arg_ends as [a args'] ->.
    case_cmp; simpl; (split; [eauto with rock|set_solver]).
Qed.

Lemma parse_precision_ends m fmt args :
  ends (parse_precision m fmt args) (fun '(fmt', _, args') => seg m fmt fmt' /\ args' ⊆ args).
Proof.
  ends_step ends_load8 as c Hc.
  case_cmp; [|simpl; eauto with rock].
  ends_step ends_load8 as d Hd.
  apply (ends_bind _ _ (fun '(_, f, args') => seg m fmt f /\ args' ⊆ args)).
  - destruct (is_digit d).
    + ends_step skip_atoi_ends as [w f] Hf. simpl.
      split; [|done]. eapply seg_trans; [by eapply seg_one|done].
    + case_cmp; [|simpl; eauto with rock].
      ends_step va_arg_ends as [a args'] ->. simpl.
      split; [eauto with rock|set_solver].
  - by intros [[p f] args'] ?.
Qed.

Lemma parse_qualifier_ends m fmt :
  ends (parse_qualifier m fmt) (fun '(fmt', _) => seg m fmt fmt').
Proof.
  ends_step ends_load8 as c Hc.
  match goal with |- context [if ?b then _ else _] => destruct b end; [|simpl; eauto with rock].
  ends_step ends_load8 as d Hd.
  destruct ((c =? 108) && (d =? 108)); simpl; eauto with rock.
Qed.

Lemma skip_suffix_ends m fmt c :
  m !! fmt = Some c -> ends (skip_suffix m fmt) (fun fmt' => seg m fmt fmt' /\ is_Some (m !! fmt')).
Proof.
  intros Hc. unfold skip_suffix.
  apply (ends_while (fun p => seg m fmt p /\ is_Some (m !! p))
           (fun p => Z.to_nat (Z.of_nat (size m) - (p - fmt)))).
  - intros p [Hp [d Hd]]. ends_step ends_load8 as e He.
    destruct (isalnum e); simpl; [|eauto].
    assert (seg m fmt (p + 1 + 1)) as Hs by eauto with rock.
    split; [eauto with rock|]. apply seg_size in Hs. destruct Hp. lia.
  - eauto with rock.
  - unfold fuel_of. lia.
Qed.

Lemma src_strnlen_ends m s n : ends (src_strnlen m s n) (fun _ => True).
Proof.
  destruct s as [p|l]; [apply strnlen_ends|]. unfold src_strnlen.
  apply (ends_while (fun '(i, _) => 0 <= i <= Z.of_nat (length l))
           (fun '(i, _) => Z.to_nat (Z.of_nat (length l) - i))); [|lia|lia].
  intros [i c] Hi. case_cmp; [done|]. unfold src_load. case_match eqn:E; [|done].
  apply lookup_lt_Some in E. cbn [obind]. case_cmp; simpl; [done|]. lia.
Qed.

Lemma log2_div5 n : 100000 <= n -> Z.log2 (n / 100000) + 16 <= Z.log2 n.
Proof.
  intros Hn. assert (n / 100000 <= Z.shiftr n 16) as H.
  { rewrite Z.shiftr_div_pow2 by lia. apply Z.div_le_compat_l; lia. }
  apply Z.log2_le_mono in H. rewrite Z.log2_shiftr in H by lia.
  assert (16 <= Z.log2 n) by (apply (Z.log2_le_mono 65536 n); lia). lia.
Qed.

(** The loop of [number] over the digits of a number in base 8 or 16. *)
Lemma number_tmp_ends num base locase :
  base = 8 \/ base = 10 \/ base = 16 -> 0 <= num < 2 ^ 64 ->
  ends (number_tmp num base locase) (fun _ => True).
Proof.
  intros Hbase Hnum. unfold number_tmp. case_cmp; [done|].
  destruct (Z.eqb_spec base 10) as [->|Hb]; cbn [negb].
  - apply (ends_while (fun '(_, n) => 0 <= n)
             (fun '(_, n) => Z.to_nat (Z.log2 n / 16))).
    + intros [b k] Hk. case_cmp; [done|]. simpl. split; [by apply Z.div_pos|].
      pose proof (log2_div5 k ltac:(lia)) as Hl. revert Hl.
      pose proof (Z.log2_nonneg (k / 100000)) as Hz. revert Hz.
      generalize (Z.log2 (k / 100000)) (Z.log2 k). intros. dlia.
    + lia.
    + assert (Z.log2 num < 64) as Hl by (apply Z.log2_lt_pow2; lia). revert Hl.
      generalize (Z.log2 num). intros. dlia.
  - set (shift := if base =? 16 then 4 else 3).
    assert (3 <= shift) by (unfold shift; case_cmp; lia).
    apply (ends_while (fun '(_, n) => 0 < n) (fun '(_, n) => Z.to_nat (Z.log2 n))).
    + intros [b k] Hk. case_match; [|done].
      destruct (Z.eqb_spec (Z.shiftr k shift) 0) as [|Hnz]; simpl; [done|].
      assert (0 <= Z.shiftr k shift) by (apply Z.shiftr_nonneg; lia).
      split; [lia|]. rewrite Z.log2_shiftr by lia.
      assert (1 <= Z.log2 k); [|lia].
      destruct (Z.eq_dec k 1) as [->|]; [|apply (Z.log2_le_mono 2); lia].
      exfalso. apply Hnz. unfold shift. by case_cmp.
    + lia.
    + assert (Z.log2 num < 64) by (apply Z.log2_lt_pow2; lia). lia.
Qed.

Lemma number_sign_range num size type :
  0 <= num < 2 ^ 64 -> 0 <= snd (fst (number_sign num size type)) < 2 ^ 64.
Proof. intros H. unfold number_sign. repeat case_match; simpl; auto using u64_range. Qed.

Lemma IS_ERR_neg x : IS_ERR x = true -> s32 x < 0.
Proof.
  unfold IS_ERR, u64, s32, swrap. change (2 ^ (32 - 1)) with (2 ^ 31). intros H%Z.leb_le.
  pose proof (Z_div_mod_eq_full x (2 ^ 64)) as E.
  pose proof (Z.mod_pos_bound x (2 ^ 64) ltac:(lia)) as B.
  assert (x mod 2 ^ 64 - 2 ^ 64 + 2 ^ 31 = (x + 2 ^ 31) mod 2 ^ 32) as <-; [|lia].
  apply (Z.mod_unique _ _ (2 ^ 32 * (x / 2 ^ 64) + 2 ^ 32)); [left; lia|].
  rewrite E at 1. ring.
Qed.

Section keeps.
Context (m0 : mem) (buf end_ : Z) (args0 : list Z).
Local Abbreviation T := (n_target args0).

Definition keeps (m : mem) : Prop :=
  dom m =@{gset Z} dom m0 /\ forall a, ~ (buf <= a < end_) -> ~ T a -> m !! a = m0 !! a.

Definition good (o : out) : Prop := keeps (fst o) /\ buf <= snd o.

Lemma keeps_insert m p v :
  keeps m -> is_Some (m !! p) -> (buf <= p < end_ \/ T p) -> keeps (<[p := u8 v]> m).
Proof.
  intros [Hd Hk] Hp Hin. split; [by rewrite dom_store8|].
  intros a Ha HT. rewrite lookup_insert_ne; [auto|]. intros ->. tauto.
Qed.

Lemma ADDCH_ends o ch : good o -> ends (ADDCH end_ o ch) good.
Proof.
  destruct o as [m str]. intros [Hk Hs]. cbn [fst snd] in *. unfold ADDCH. case_cmp.
  - ends_step ends_store8 as m' [Hp ->].
    split; cbn [fst snd]; [|lia]. apply keeps_insert; [done|done|left; lia].
  - split; cbn [fst snd]; [done|lia].
Qed.

(** Counting loops that only emit. *)
Lemma emit_ends {S R} (st : S -> out) (mu : S -> nat) (res : R -> out)
    (body : S -> outcome (S + R)) fuel s :
  (forall s, good (st s) -> ends (body s) (fun r =>
     match r with inl s' => good (st s') /\ (mu s' < mu s)%nat | inr r => good (res r) end)) ->
  good (st s) -> (mu s < fuel)%nat -> ends (while fuel body s) (fun r => good (res r)).
Proof. apply (ends_while (fun s => good (st s))). Qed.

Lemma pad_ends ch o size : good o -> ends (pad end_ ch o size) (fun r => good (fst r)).
Proof.
  intros Ho. apply (emit_ends fst (fun r => Z.to_nat (snd r)) fst); [|done|simpl; lia].
  intros [o' n] Hg. cbn [fst snd] in *. case_cmp; [|done].
  eapply ends_bind; [by apply ADDCH_ends|]. intros o2 H2. simpl. split; [done|lia].
Qed.

Lemma pad_width_ends len o w : good o -> ends (pad_width end_ len o w) (fun r => good (fst r)).
Proof.
  intros Ho. apply (emit_ends fst (fun r => Z.to_nat (snd r - len)) fst); [|done|simpl; lia].
  intros [o' n] Hg. cbn [fst snd] in *. case_cmp; [|done].
  eapply ends_bind; [by apply ADDCH_ends|]. intros o2 H2. simpl. split; [done|lia].
Qed.

Lemma pad_char_ends o w : good o -> ends (pad_char end_ o w) (fun r => good (fst r)).
Proof.
  intros Ho. apply (emit_ends fst (fun r => Z.to_nat (snd r)) fst); [|done|simpl; lia].
  intros [o' n] Hg. cbn [fst snd] in *. case_cmp; [|done].
  eapply ends_bind; [by apply ADDCH_ends|]. intros o2 H2. simpl. split; [done|lia].
Qed.

Lemma number_prefix_ends o sign pfx base locase :
  good o -> ends (number_prefix end_ o sign pfx base locase) good.
Proof.
  intros Ho. unfold number_prefix. eapply (ends_bind _ _ good).
  { destruct (negb _); [by apply ADDCH_ends|done]. }
  intros o1 H1. destruct pfx; [|done]. eapply ends_bind; [by apply ADDCH_ends|].
  intros o2 H2. destruct (base =? 16); [by apply ADDCH_ends|done].
Qed.

Lemma number_digits_ends o tmp precision size :
  good o -> ends (number_digits end_ o tmp precision size) good.
Proof.
  intros Ho. unfold number_digits. eapply (ends_bind _ _ good).
  { apply (emit_ends fst (fun r => Z.to_nat (snd r - Z.of_nat (length tmp))) id);
      [|done|simpl; lia].
    intros [o' n] Hg. cbn [fst snd] in *. case_cmp; [|done].
    eapply ends_bind; [by apply ADDCH_ends|]. intros o1 H1. simpl. split; [done|lia]. }
  intros o1 H1. eapply (ends_bind _ _ good).
  { apply (emit_ends fst (fun r => Z.to_nat (snd r)) id); [|done|simpl; lia].
    intros [o' n] Hg. cbn [fst snd] in *. case_cmp; [|done]. case_match; [|done].
    eapply ends_bind; [by apply ADDCH_ends|]. intros o2 H2. simpl. split; [done|lia]. }
  intros o2 H2. eapply ends_bind; [by apply pad_ends|]. by intros [o3 n3] H3.
Qed.

Lemma number_ends o num base size precision type :
  good o -> base = 8 \/ base = 10 \/ base = 16 -> 0 <= num < 2 ^ 64 ->
  ends (number o end_ num base size precision type) good.
Proof.
  intros Ho Hbase Hnum. unfold number.
  cbv zeta. set (type' := if flag type LEFT then Z.ldiff type ZEROPAD else type).
  pose proof (number_sign_range num size type' Hnum) as Hn.
  destruct (number_sign num size type') as [[sign num'] size']. cbn [fst snd] in Hn.
  eapply ends_bind; [by apply number_tmp_ends|]. intros tmp _.
  eapply (ends_bind _ _ (fun r => good (fst r))).
  { destruct (negb _); [by apply pad_ends|done]. }
  intros [o1 n1] H1. cbn [fst] in H1. cbv beta iota zeta.
  eapply ends_bind; [by apply number_prefix_ends|]. intros o2 H2.
  eapply (ends_bind _ _ (fun r => good (fst r))).
  { destruct (negb _); [by apply pad_ends|done]. }
  intros [o3 n3] H3. by apply number_digits_ends.
Qed.

Lemma src_load_ends m s i : ends (src_load m s i) (fun _ => True).
Proof. destruct s; simpl; [eapply ends_mono; [apply ends_load8|done]|by case_match]. Qed.

Lemma string_ends o s w precision flags :
  good o -> ends (string_ o end_ s w precision flags) good.
Proof.
  intros Ho. unfold string_. cbv zeta.
  set (s' := match s with Ptr p => if p =? NULL then Local null_text else s | Local _ => s end).
  eapply (ends_bind _ _ (fun _ => True)); [apply src_strnlen_ends|]. intros n _.
  eapply (ends_bind _ _ (fun r => good (fst r))).
  { destruct (negb _); [by apply pad_width_ends|done]. }
  intros [o1 w1] H1. cbn [fst] in H1. cbv beta iota.
  eapply (ends_bind _ _ good).
  { apply (emit_ends fst (fun r => Z.to_nat (s32 n - snd r)) id); [|done|simpl; lia].
    intros [o' i] Hg. cbn [fst snd] in *. case_cmp; [|done].
    eapply ends_bind; [apply src_load_ends|]. intros c _.
    eapply ends_bind; [by apply ADDCH_ends|]. intros o2 H2. simpl. split; [done|lia]. }
  intros o2 H2. eapply ends_bind; [by apply pad_width_ends|]. by intros [o3 n3] H3.
Qed.

Lemma mac_address_string_ends o addr w precision flags :
  good o -> ends (mac_address_string o end_ addr w precision flags) good.
Proof.
  intros Ho. eapply (ends_bind _ _ (fun _ => True)); [|intros; by apply string_ends].
  apply (ends_while (fun _ => True) (fun '(_, i) => Z.to_nat (6 - i))); [|done|simpl; lia].
  intros [p i] _. destruct (Z.ltb_spec i 6); [|done]. ends_step ends_load8 as b _. simpl. split; [done|lia].
Qed.

Lemma ip6_addr_string_ends o addr w precision flags :
  good o -> ends (ip6_addr_string o end_ addr w precision flags) good.
Proof.
  intros Ho. eapply (ends_bind _ _ (fun _ => True)); [|intros; by apply string_ends].
  apply (ends_while (fun _ => True) (fun '(_, i) => Z.to_nat (8 - i))); [|done|simpl; lia].
  intros [p i] _. destruct (Z.ltb_spec i 8); [|done]. ends_step ends_load8 as b _. ends_step ends_load8 as d _.
  simpl. split; [done|lia].
Qed.

Lemma ip4_addr_string_ends o addr w precision flags :
  good o -> ends (ip4_addr_string o end_ addr w precision flags) good.
Proof.
  intros Ho. eapply (ends_bind _ _ (fun _ => True)); [|intros; by apply string_ends].
  apply (ends_while (fun _ => True) (fun '(_, i) => Z.to_nat (4 - i))); [|done|simpl; lia].
  intros [p i] _. destruct (Z.ltb_spec i 4); [|done]. ends_step ends_load8 as b _. simpl. split; [done|lia].
Qed.

Lemma pointer_plain_ends o num w precision flags :
  good o -> 0 <= num < 2 ^ 64 -> ends (pointer_plain o end_ num w precision flags) good.
Proof. intros Ho Hnum. unfold pointer_plain. case_cmp; apply number_ends; auto. Qed.

#[local] Hint Resolve mac_address_string_ends ip6_addr_string_ends ip4_addr_string_ends
  pointer_plain_ends : rock.

Lemma pointer_ends fmt o ptr w precision flags :
  good o -> ends (pointer fmt o end_ ptr w precision flags) good.
Proof.
  intros Ho. unfold pointer. cbv zeta. ends_step ends_load8 as c _.
  repeat case_cmp; auto with rock; ends_step ends_load8 as d _.
  - eapply ends_bind; [apply ends_load_le|]. intros num _.
    apply pointer_plain_ends; auto with rock.
  - repeat case_cmp; auto with rock.
  - repeat case_cmp; auto with rock.
Qed.

Lemma keeps_write_bytes m p l :
  keeps m -> mapped m p (Z.of_nat (length l)) ->
  (forall a, p <= a < p + Z.of_nat (length l) -> T a) -> keeps (write_bytes m p l).
Proof.
  intros [Hd Hk] Hm HT. split; [by rewrite dom_write_bytes|].
  intros a Ha Hn. rewrite lookup_write_bytes_ne; [auto|]. intros Hin. by apply Hn, HT.
Qed.

Lemma good_seg o o' a b : good o -> good o' -> seg (fst o) a b -> seg (fst o') a b.
Proof. intros [[Hd _] _] [[Hd' _] _]. apply seg_dom. by rewrite Hd, Hd'. Qed.

(** One conversion: the output stays good, [fmt] moves through mapped
    memory, arguments are only consumed. *)
Definition conv_post (fmt : Z) (args : list Z) (r : out * Z * list Z + mem * Z) : Prop :=
  match r with
  | inl (o', fmt', args') =>
      good o' /\ fmt - 1 <= fmt' /\ seg (fst o') fmt (Z.max fmt (fmt' + 1)) /\ args' ⊆ args
  | inr (m', e) => keeps m' /\ e < 0
  end.

Lemma conv_stay o o' fmt args args' c :
  good o -> fst o !! fmt = Some c -> good o' -> args' ⊆ args ->
  conv_post fmt args (inl (o', fmt, args')).
Proof.
  intros Ho Hc Ho' Ha. simpl. split; [done|]. split; [lia|]. split; [|done].
  replace (Z.max fmt (fmt + 1)) with (fmt + 1) by lia.
  apply (good_seg o o'); [done|done|]. by eapply seg_one.
Qed.

Lemma n_conv_ends o (n : nat) a :
  good o -> a ∈ args0 -> (n <= 8)%nat ->
  ends (store_le n (fst o) (u64 a) (snd o - buf)) (fun m' => good (m', snd o)).
Proof.
  intros [Hk Hs] Ha Hn. eapply ends_mono; [apply ends_store_le|]. cbv beta.
  intros m' [Hm ->]. split; [|done]. cbn [fst]. apply keeps_write_bytes; [done| |].
  - by rewrite length_le_bytes.
  - intros b Hb. rewrite length_le_bytes in Hb. exists a. split; [done|lia].
Qed.

Lemma fetch_num_range q f a : 0 <= fetch_num q f a < 2 ^ 64.
Proof.
  unfold fetch_num. repeat case_match; auto using u64_range.
  - assert (0 <= u16 (s32 a) < 2 ^ 16) by (apply Z.mod_pos_bound; lia). lia.
  - pose proof (u32_range a). lia.
Qed.

Lemma addch_arg_ends o args :
  good o -> ends (addch_arg end_ o args) (fun '(o', args') => good o' /\ args' ⊆ args).
Proof.
  intros Ho. pose proof (ADDCH_ends o) as H. destruct o as [m str]. unfold addch_arg, ADDCH in *. destruct (str <? end_).
  - ends_step va_arg_ends as [a args'] ->. specialize (H (u8 a) Ho).
    destruct (store8 m str (u8 a)); cbn [obind] in *; try done. split; [done|set_solver].
  - split; [exact (H 0 Ho)|done].
Qed.

Lemma conversion_ends o fmt flags w precision q args c :
  good o -> args ⊆ args0 -> fst o !! fmt = Some c ->
  ends (conversion buf end_ o fmt flags w precision q args) (conv_post fmt args).
Proof.
  intros Ho Hargs Hc. unfold conversion. rewrite (load8_lookup _ _ _ Hc). cbn [obind].
  assert (forall base flags, base = 8 \/ base = 10 \/ base = 16 ->
    ends (let! '(a, args) := va_arg args in
          let! o := number o end_ (fetch_num q flags a) base w precision flags in
          Ok (inl (o, fmt, args))) (conv_post fmt args)) as Hnum.
  { intros base f Hb. ends_step va_arg_ends as [a args'] ->.
    eapply ends_bind; [apply number_ends; auto using fetch_num_range|]. intros o1 H1.
    eapply conv_stay; [exact Ho|exact Hc|done|set_solver]. }
  assert (forall o' args', good o' -> args' ⊆ args ->
    ends (Ok (inl (o', fmt, args'))) (conv_post fmt args)) as Hstay
    by (intros; eapply conv_stay; [exact Ho|exact Hc|done|done]).
  cbv zeta. destruct (c =? 99).
  { eapply (ends_bind _ _ (fun r => good (fst r))).
    { destruct (negb _); [by apply pad_char_ends|done]. }
    intros [o1 w1] H1. eapply ends_bind; [by apply addch_arg_ends|]. intros [o2 args'] [H2 Ha2].
    eapply ends_bind; [by apply pad_char_ends|]. intros [o3 w3] H3. apply Hstay; [done|set_solver]. }
  destruct (c =? 115).
  { ends_step va_arg_ends as [a args'] ->. eapply ends_bind; [by apply string_ends|].
    intros o1 H1. apply Hstay; [done|set_solver]. }
  destruct (c =? 112).
  { ends_step va_arg_ends as [a args'] ->. eapply ends_bind; [by apply pointer_ends|].
    intros o1 H1. case_match eqn:He; [split; [apply H1|by apply IS_ERR_neg]|].
    assert (is_Some (fst o1 !! fmt)) as [d Hd].
    { destruct Ho as [[Hd _] _], H1 as [[Hd1 _] _]. rewrite <- elem_of_dom, Hd1, <- Hd, elem_of_dom.
      eauto. }
    ends_step (skip_suffix_ends _ _ d Hd) as fmt' [Hs [e Hfe]]. simpl.
    split; [done|]. split; [destruct Hs; lia|]. split; [|set_solver].
    replace (Z.max fmt (fmt' + 1)) with (fmt' + 1) by (destruct Hs; lia). eauto with rock. }
  destruct (c =? 110).
  { ends_step va_arg_ends as [a args'] ->. destruct o as [m str].
    apply (ends_bind _ _ (fun m' => good (m', str))).
    - assert (a ∈ args0) by set_solver.
      destruct (q =? 108); [apply (n_conv_ends (m, str) 8)|apply (n_conv_ends (m, str) 4)]; auto; lia.
    - intros m' Hm. apply Hstay; [done|set_solver]. }
  destruct (c =? 37). { eapply ends_bind; [by apply ADDCH_ends|]. auto. }
  repeat (case_match; [apply Hnum; auto|]).
  eapply ends_bind; [by apply ADDCH_ends|]. intros o1 Ho1.
  case_match; [eapply ends_bind; [by apply ADDCH_ends|]; auto|].
  simpl. split; [done|]. split; [lia|]. split; [|done].
  replace (Z.max fmt (fmt - 1 + 1)) with fmt by lia. apply seg_refl.
Qed.

Lemma good_lookup o o' a c :
  good o -> good o' -> fst o !! a = Some c -> is_Some (fst o' !! a).
Proof.
  intros [[Hd _] _] [[Hd' _] _] Hc. rewrite <- elem_of_dom, Hd', <- Hd, elem_of_dom. eauto.
Qed.

Definition step_post (fmt : Z) (r : out * Z * list Z + (out + mem * Z)) : Prop :=
  match r with
  | inl (o', fmt', args') =>
      good o' /\ args' ⊆ args0 /\ fmt < fmt' /\ seg (fst o') fmt fmt'
  | inr (inl o') => good o'
  | inr (inr (m', e)) => keeps m' /\ e < 0
  end.

Lemma format_step_ends o fmt args :
  good o -> args ⊆ args0 -> ends (format_step buf end_ (o, fmt, args)) (step_post fmt).
Proof.
  intros Ho Ha. unfold format_step. ends_step ends_load8 as c Hc.
  destruct (c =? 0); [done|]. destruct (negb (c =? 37)).
  { eapply ends_bind; [by apply ADDCH_ends|]. intros o1 Ho1. simpl.
    split; [done|]. split; [done|]. split; [lia|].
    apply (good_seg o o1); [done|done|]. by eapply seg_one. }
  ends_step (parse_flags_ends _ _ c Hc) as [f1 flags] [H1 [c1 Hc1]].
  ends_step parse_width_ends as [[[f2 w] flags2] args2] [H2 Ha2].
  ends_step parse_precision_ends as [[f3 p] args3] [H3 Ha3].
  ends_step parse_qualifier_ends as [f4 q] H4.
  assert (seg (fst o) (fmt + 1) f4) as Hs by eauto with rock.
  assert (is_Some (fst o !! f4) \/ fst o !! f4 = None) as [[c4 Hc4]|Hn]
    by (destruct (fst o !! f4); eauto).
  - eapply ends_bind; [eapply conversion_ends; [done|set_solver|done]|].
    intros [[[o5 f5] args5]|[m5 e]]; cbn [conv_post]; [|done].
    intros (Ho5 & Hf & Hseg & Ha5). simpl. split; [done|]. split; [set_solver|].
    assert (seg (fst o5) fmt f4) as Hs'.
    { apply (good_seg o o5); [done|done|]. eapply seg_trans; [by eapply seg_one|done]. }
    destruct Hs. split; [lia|]. eapply seg_sub; [eapply seg_trans; [exact Hs'|exact Hseg]|lia].
  - unfold conversion, load8. by rewrite Hn.
Qed.
End keeps.

(** The end of the buffer, after the clamping of an [end] that wraps. *)
Definition buf_end (buf size : Z) : Z :=
  if u64 (buf + size) <? buf then 2 ^ 64 - 1 else u64 (buf + size).

(** A NUL inside the buffer. *)
Definition terminated (m : mem) (buf end_ : Z) : Prop :=
  exists k, buf <= k < end_ /\ m !! k = Some 0.

Lemma finish_ends m0 buf end_ args o :
  buf < end_ -> good m0 buf end_ args o ->
  ends (let! '(m, str) := ADDCH end_ o 0 in
        let! m := if end_ <? str then store8 m (end_ - 1) 0 else Ok m in
        Ok (m, s32 (str - 1 - buf)))
       (fun '(m', _) => keeps m0 buf end_ args m' /\ terminated m' buf end_).
Proof.
  intros Hlt Ho. destruct o as [m str]. pose proof Ho as [Hk Hs]. cbn [fst snd] in *.
  apply (ends_bind _ _ (fun '(m1, s1) => keeps m0 buf end_ args m1 /\ s1 = str + 1 /\
                          (str < end_ -> m1 !! str = Some 0))).
  { unfold ADDCH. destruct (Z.ltb_spec str end_); [|simpl; split; [done|lia]].
    ends_step ends_store8 as m1 [Hp ->]. simpl. split; [apply keeps_insert; auto|].
    split; [done|]. intros _. apply lookup_insert_eq. }
  intros [m1 s1] (Hk1 & -> & Hz).
  destruct (Z.ltb_spec end_ (str + 1)).
  - ends_step ends_store8 as m2 [Hp ->]. simpl. split; [apply keeps_insert; auto; lia|].
    exists (end_ - 1). split; [lia|]. apply lookup_insert_eq.
  - simpl. split; [done|]. exists str. split; [lia|]. apply Hz. lia.
Qed.

Lemma buf_end_clamp buf n :
  0 <= buf < 2 ^ 64 -> 0 <= n < 2 ^ 64 ->
  (if u64 (buf + n) <? buf then (2 ^ 64 - 1, 2 ^ 64 - 1 - buf) else (u64 (buf + n), n))
  = (buf_end buf n, buf_end buf n - buf) /\ buf <= buf_end buf n.
Proof.
  intros Hb Hn. unfold buf_end. destruct (Z.ltb_spec (u64 (buf + n)) buf) as [|H]; [split; [done|lia]|].
  assert (u64 (buf + n) = buf + n) as ->.
  { unfold u64 in *. destruct (Z.lt_ge_cases (buf + n) (2 ^ 64)); [apply Z.mod_small; lia|].
    exfalso. rewrite <- (Z_mod_plus_full _ (-1)), Z.mod_small in H by lia. lia. }
  split; [f_equal; lia|lia].
Qed.

Lemma vsnprintf_ends m buf n fmt args :
  0 <= buf < 2 ^ 64 -> 0 <= n < 2 ^ 64 ->
  ends (vsnprintf_internal m buf n fmt args) (fun '(m', r) =>
    keeps m buf (buf_end buf n) args m' /\
    (buf < buf_end buf n -> r < 0 \/ terminated m' buf (buf_end buf n))).
Proof.
  intros Hbuf Hn. unfold vsnprintf_internal. cbv zeta.
  destruct (buf_end_clamp buf n Hbuf Hn) as [-> Hle]. set (end_ := buf_end buf n) in *.
  apply (ends_bind _ _ (fun r => match r with
    | inl o => good m buf end_ args o
    | inr (m', e) => keeps m buf end_ args m' /\ e < 0 end)).
  - apply (ends_while (fun '(o, f, a) => good m buf end_ args o /\ a ⊆ args /\ seg m fmt f)
             (fun '(o, f, a) => Z.to_nat (Z.of_nat (size m) - (f - fmt)))).
    + intros [[o f] a] (Ho & Ha & Hf). eapply ends_mono; [by apply format_step_ends|].
      intros [[[o' f'] a']|[o'|[m' e]]]; cbn [step_post]; [|done|done].
      intros (Ho' & Ha' & Hlt & Hs).
      assert (seg m fmt f') as Hs'.
      { eapply seg_trans; [exact Hf|]. eapply seg_dom; [|exact Hs]. symmetry. apply Ho'. }
      split; [done|]. apply seg_size in Hs'. lia.
    + split; [|eauto with rock]. split; [|done]. by split.
    + unfold fuel_of. lia.
  - intros [o|[m' e]]; [|intros [? ?]; split; auto].
    intros Ho. destruct (Z.ltb_spec 0 (end_ - buf)).
    + eapply ends_mono; [apply finish_ends; [lia|done]|]. intros [m' r] [? ?]. auto.
    + split; [apply Ho|lia].
Qed.

(** ** Claims *)

(** C8: for any memory, format string and arguments, [vsnprintf] ends (it
    never loops), and when it returns: no address outside [buf, buf + size)
    has changed, other than the up to eight bytes at the pointer arguments a
    %n stores through; no address was mapped or unmapped; and for a non-empty
    buffer the result is a terminated string inside the buffer, or negative. *)
Theorem vsnprintf_safe (m : mem) (buf n fmt : Z) (args : list Z) :
  0 <= buf -> 0 <= n -> buf + n < 2 ^ 64 ->
  vsnprintf m buf n fmt args <> OutOfFuel /\
  forall m' r, vsnprintf m buf n fmt args = Ok (m', r) ->
    dom m' =@{gset Z} dom m /\
    (forall a, ~ (buf <= a < buf + n) -> ~ n_target args a -> m' !! a = m !! a) /\
    (0 < n -> r < 0 \/ exists k, buf <= k < buf + n /\ m' !! k = Some 0).
Proof.
  intros Hb Hn Hlt.
  pose proof (vsnprintf_ends m buf n fmt args ltac:(lia) ltac:(lia)) as H.
  assert (buf_end buf n = buf + n) as E
    by (unfold buf_end; rewrite u64_small by lia; case_cmp; lia).
  rewrite E in H. unfold vsnprintf. split; [by eapply ends_not_out_of_fuel|].
  intros m' r Er. rewrite Er in H. destruct H as [[Hd Hk] Ht].
  split; [done|]. split; [done|]. intros Hpos. apply Ht. lia.
Qed.

(** A format of four literal characters into a buffer of three bytes: two
    characters and the terminator are stored, the byte after them is kept. *)
Lemma vsnprintf_safe_witness :
  let m := mem_of 100 [97; 98; 99; 100; 0; 7; 7; 7; 7] in
  vsnprintf m 105 3 100 [] <> OutOfFuel /\
  forall m' r, vsnprintf m 105 3 100 [] = Ok (m', r) -> m' !! 108 = Some 7.
Proof.
  cbv zeta.
  destruct (vsnprintf_safe (mem_of 100 [97; 98; 99; 100; 0; 7; 7; 7; 7]) 105 3 100 [])
    as [H1 H2]; [lia|lia|lia|].
  split; [exact H1|]. intros m' r E. destruct (H2 m' r E) as (_ & Hk & _).
  rewrite (Hk 108); [reflexivity|lia|]. intros (x & Hx & _). set_solver.
Defined.
