(* ===== verification/FmtText.v ===== *)
(** * What the formatter prints

    The text of a number: [number_tmp] holds the digits of the magnitude,
    least significant first, for the three radices the interpreter uses, and
    [number] emits them with sign, prefix and padding.  The decimal routines
    with their approximate divisions ([put_dec_trunc], [put_dec_full]) are
    checked against the reference value on all their inputs. *)

From S2P Require Import Prelude CMem Ctype Str StrFacts Strto Fmt.

Local Open Scope Z_scope.
Local Open Scope c_scope.

(** The value of digits given least significant first. *)
Fixpoint lsd_value (base : Z) (ds : list Z) : Z :=
  match ds with
  | [] => 0
  | d :: ds => digit_value d + base * lsd_value base ds
  end.

Lemma numeral_snoc base ds d : numeral base (ds ++ [d]) = numeral base ds * base + digit_value d.
Proof. unfold numeral. by rewrite fold_left_app. Qed.

Lemma numeral_reverse base ds : numeral base (reverse ds) = lsd_value base ds.
Proof.
  induction ds as [|d ds IH]; [done|]. rewrite reverse_cons, numeral_snoc, IH. simpl. lia.
Qed.

Lemma lsd_value_app base ds es :
  lsd_value base (ds ++ es) = lsd_value base ds + base ^ Z.of_nat (length ds) * lsd_value base es.
Proof.
  induction ds as [|d ds IH]; cbn [lsd_value app length]; [lia|].
  rewrite IH, Nat2Z.inj_succ, Z.pow_succ_r by lia. ring.
Qed.

(** ** Decimal digits *)

(** The multiplications that stand for a division by ten. *)
Lemma div10_205 x : 0 <= x < 1020 -> Z.shiftr (u32 (x * 0xcd)) 11 = x / 10.
Proof. intros H. rewrite u32_small, Z.shiftr_div_pow2 by lia. change (2 ^ 11) with 2048. dlia. Qed.

Lemma div10_13 x : 0 <= x < 69 -> Z.shiftr (u32 (x * 0xd)) 7 = x / 10.
Proof. intros H. rewrite u32_small, Z.shiftr_div_pow2 by lia. change (2 ^ 7) with 128. dlia. Qed.

Lemma nibble x k : 0 <= k -> Z.land (Z.shiftr x k) 0xf = x / 2 ^ k mod 16.
Proof. intros. rewrite Z.shiftr_div_pow2 by done. apply (Z.land_ones _ 4). lia. Qed.

(** The recurrences of the two routines: [e0] to [e3] are the running sums,
    and they produce the decimal digits of [q]. *)
Lemma digits5_sums d0 d1 d2 d3 :
  0 <= d0 < 16 -> 0 <= d1 < 16 -> 0 <= d2 < 16 -> 0 <= d3 <= 24 ->
  let q := 4096 * d3 + 256 * d2 + 16 * d1 + d0 in
  let e0 := 6 * (d3 + d2 + d1) + d0 in
  let e1 := e0 / 10 + 9 * d3 + 5 * d2 + d1 in
  let e2 := e1 / 10 + 2 * d2 in
  let e3 := e2 / 10 + 4 * d3 in
  (0 <= e0 < 1020 /\ 0 <= e1 < 1020 /\ 0 <= e2 < 69 /\ 0 <= e3 < 1020) /\
  e0 - 10 * (e0 / 10) = q mod 10 /\ e1 - 10 * (e1 / 10) = q / 10 mod 10 /\
  e2 - 10 * (e2 / 10) = q / 100 mod 10 /\ e3 = q / 1000 /\
  (e1 = 0 <-> q / 10 = 0) /\ (e2 = 0 /\ d3 = 0 <-> q / 100 = 0).
Proof.
  intros H0 H1 H2 H3 q e0 e1 e2 e3.
  assert (q / 10 = 10 * (40 * d3 + 2 * d2) + e1) as Q1 by (unfold q, e1, e0; dlia).
  assert (q / 100 = 40 * d3 + e2) as Q2.
  { replace 100 with (10 * 10) by done. rewrite <- Z.div_div, Q1 by lia. unfold e2. dlia. }
  assert (q / 1000 = e3) as Q3.
  { replace 1000 with (100 * 10) by done. rewrite <- Z.div_div, Q2 by lia. unfold e3. dlia. }
  assert (0 <= e0 < 340) by (unfold e0; lia).
  assert (0 <= e1 < 340) by (unfold e1; dlia).
  assert (0 <= e2 < 64) by (unfold e2; dlia).
  assert (0 <= e3 < 103) by (unfold e3; dlia).
  assert (q mod 10 = e0 mod 10) as Qm by (unfold q, e0; dlia).
  rewrite Q1, Q2, Q3, Qm. split; [lia|]. split; [dlia|]. split; [dlia|]. split; [dlia|].
  split; [done|]. split; [unfold e1; dlia|]. unfold e2. dlia.
Qed.

Lemma u8_digit d : 0 <= d < 10 -> u8 (d + 48) = d + 48.
Proof. intros. apply u8_small. unfold byte_range. lia. Qed.

(** What the code computes, with the masks and wrap-arounds gone. *)
Ltac dec_setup q Hq :=
  let Hs := fresh "Hs" in
  rewrite !(nibble q) by lia;
  replace (Z.shiftr q 12) with (q / 4096) by (symmetry; apply (Z.shiftr_div_pow2 q 12); lia);
  replace (Z.land q 0xf) with (q mod 16) by (symmetry; apply (Z.land_ones q 4); lia);
  change (2 ^ 4) with 16; change (2 ^ 8) with 256;
  pose proof (digits5_sums (q mod 16) (q / 16 mod 16) (q / 256 mod 16) (q / 4096)
    ltac:(dlia) ltac:(dlia) ltac:(dlia) ltac:(dlia)) as Hs; cbv zeta in Hs;
  replace (4096 * (q / 4096) + 256 * (q / 256 mod 16) + 16 * (q / 16 mod 16) + q mod 16)
    with q in Hs by dlia;
  revert Hs;
  generalize (q mod 16) (q / 16 mod 16) (q / 256 mod 16) (q / 4096);
  intros d0 d1 d2 d3 ((B0 & B1 & B2 & B3) & D0 & D1 & D2 & D3 & Z1 & Z2);
  cbv zeta;
  set (e0 := 6 * (d3 + d2 + d1) + d0) in *;
  rewrite !(u32_small e0), !(div10_205 e0) by lia; rewrite D0;
  set (e1 := e0 / 10 + 9 * d3 + 5 * d2 + d1) in *;
  rewrite !(u32_small e1), !(div10_205 e1) by lia; rewrite D1;
  set (e2 := e1 / 10 + 2 * d2) in *;
  rewrite !(u32_small e2), !(div10_13 e2) by lia; rewrite D2;
  set (e3 := e2 / 10 + 4 * d3) in *;
  rewrite !(u32_small e3), !(div10_205 e3) by lia;
  replace (e3 - 10 * (e3 / 10)) with (q / 1000 mod 10) by (rewrite D3; dlia);
  replace (e3 / 10) with (q / 10000) by (rewrite D3, Z.div_div by lia; done);
  rewrite !u32_small by dlia; rewrite !u8_digit by dlia.

Definition full_digits (q : Z) : list Z :=
  [q mod 10 + 48; q / 10 mod 10 + 48; q / 100 mod 10 + 48; q / 1000 mod 10 + 48; q / 10000 + 48].

Lemma put_dec_full_digits buf q :
  0 <= q < 100000 -> put_dec_full buf q = buf ++ full_digits q.
Proof. intros Hq. unfold put_dec_full. dec_setup q Hq. by rewrite <- !app_assoc. Qed.

(** As many digits as the number has. *)
Definition dec_count (q : Z) : nat :=
  if q <? 10 then 1 else if q <? 100 then 2 else if q <? 1000 then 3
  else if q <? 10000 then 4 else 5.

Lemma put_dec_trunc_digits buf q :
  0 <= q < 100000 ->
  put_dec_trunc buf q = buf ++ take (dec_count q) (full_digits q).
Proof.
  intros Hq. unfold put_dec_trunc. dec_setup q Hq.
  assert ((e2 =? 0) && (d3 =? 0) = (q / 100 =? 0)) as ->.
  { apply eq_bool_prop_intro. rewrite andb_True, !Is_true_true, !Z.eqb_eq. tauto. }
  assert ((e1 =? 0) = (q / 10 =? 0)) as ->.
  { apply eq_bool_prop_intro. rewrite !Is_true_true, !Z.eqb_eq. tauto. }
  rewrite D3. unfold dec_count.
  repeat match goal with
  | |- context [q / ?k =? 0] =>
      replace (q / k =? 0) with (q <? k)
        by (destruct (Z.ltb_spec q k), (Z.eqb_spec (q / k) 0); dlia)
  end.
  repeat case_cmp; try lia; simpl; by rewrite <- ?app_assoc.
Qed.

(** ** The digits of a number in any of the radices *)

(** The digits [ds], least significant first, represent [n]: they are digits
    of the radix, and there is no leading zero unless [n] is zero. *)
Definition represents (base : Z) (ds : list Z) (n : Z) : Prop :=
  ds <> [] /\ Forall (fun c => 0 < c < 256 /\ is_digit_of base c = true) ds /\
  lsd_value base ds = n /\
  (n <> 0 -> forall d, list.last ds = Some d -> digit_value d <> 0).

Lemma digit_char d : 0 <= d < 10 ->
  0 < d + 48 < 256 /\ is_digit_of 10 (d + 48) = true /\ digit_value (d + 48) = d.
Proof.
  intros Hd. split; [lia|].
  assert (d = 0 \/ d = 1 \/ d = 2 \/ d = 3 \/ d = 4 \/ d = 5 \/ d = 6 \/ d = 7 \/ d = 8 \/ d = 9)
    as H by lia.
  by repeat (destruct H as [->|H]; [by vm_compute|]); subst; vm_compute.
Qed.

Lemma digit_char_value d : 0 <= d < 10 -> digit_value (d + 48) = d.
Proof. apply digit_char. Qed.

Lemma full_digits_value q :
  0 <= q < 100000 ->
  lsd_value 10 (full_digits q) = q /\
  Forall (fun c => 0 < c < 256 /\ is_digit_of 10 c = true) (full_digits q).
Proof.
  intros Hq. unfold full_digits. split.
  - cbn [lsd_value]. rewrite !digit_char_value by dlia. dlia.
  - repeat constructor; apply digit_char; dlia.
Qed.

Lemma represents_trunc q : 0 <= q < 100000 -> represents 10 (put_dec_trunc [] q) q.
Proof.
  intros Hq. rewrite put_dec_trunc_digits by done. unfold dec_count.
  unfold full_digits. repeat case_cmp; cbn [take app]; (split; [done|]); (split; [|split]).
  all: try (repeat constructor; apply digit_char; dlia).
  all: try (cbn [lsd_value]; rewrite ?digit_char_value by dlia; dlia).
  all: intros Hz d [= <-]; rewrite digit_char_value by dlia; dlia.
Qed.

(** Prepending less significant digits. *)
Lemma represents_app base ds es n :
  Forall (fun c => 0 < c < 256 /\ is_digit_of base c = true) ds ->
  0 <= lsd_value base ds -> 0 < base -> 0 < n ->
  represents base es n ->
  represents base (ds ++ es) (lsd_value base ds + base ^ Z.of_nat (length ds) * n).
Proof.
  intros Hds Hv Hb Hn (Hne & Hes & Hval & Hlast). split; [by destruct ds|].
  split; [by apply Forall_app|]. split; [by rewrite lsd_value_app, Hval|].
  intros _ d Hd. rewrite last_app in Hd. destruct (list.last es) as [e|] eqn:E.
  - injection Hd as <-. by apply Hlast; [lia|].
  - by apply last_None in E.
Qed.

Lemma put_dec_step buf num :
  (if num <? 100000 then brk (put_dec_trunc buf num) else
    let '(num, rem) := do_div num 100000 in
    cont (put_dec_full buf rem, num) : outcome (list Z * Z + list Z)) =
  (if num <? 100000 then brk (put_dec_trunc buf num)
   else cont (put_dec_full buf (num mod 100000), num / 100000)).
Proof. done. Qed.

Lemma put_dec_loop fuel buf num :
  0 <= num -> (0 < fuel)%nat -> num < 100000 ^ Z.of_nat fuel ->
  exists ds, while fuel (fun '(buf, num) =>
    if num <? 100000 then brk (put_dec_trunc buf num) else
    let '(num, rem) := do_div num 100000 in
    cont (put_dec_full buf rem, num)) (buf, num) = Ok (buf ++ ds) /\ represents 10 ds num.
Proof.
  revert buf num. induction fuel as [|fuel IH]; intros buf num H0 Hf Hlt; [lia|].
  cbn [while]. rewrite put_dec_step. case_cmp; loop_next.
  - exists (put_dec_trunc [] num). split; [|by apply represents_trunc].
    by rewrite !put_dec_trunc_digits by lia.
  - pose proof (Z.mod_pos_bound num 100000 ltac:(lia)) as Hm.
    destruct (IH (put_dec_full buf (num mod 100000)) (num / 100000)) as (ds & -> & Hr).
    + by apply Z.div_pos.
    + destruct fuel; [simpl in Hlt; lia|lia].
    + apply Z.div_lt_upper_bound; [lia|]. rewrite <- Z.pow_succ_r by lia.
      by replace (Z.succ (Z.of_nat fuel)) with (Z.of_nat (S fuel)) by lia.
    + rewrite put_dec_full_digits by lia. rewrite <- app_assoc. eexists. split; [done|].
      assert (0 < num / 100000) as Hpos by (apply Z.div_str_pos; lia).
      pose proof (full_digits_value _ Hm) as [Hv HF]. revert Hv HF.
      set (dl := full_digits (num mod 100000)). intros Hv HF.
      pose proof (represents_app 10 dl ds _ HF ltac:(lia) ltac:(lia) Hpos Hr) as Ha.
      rewrite Hv in Ha. change (10 ^ Z.of_nat (length dl)) with 100000 in Ha.
      rewrite (Z_div_mod_eq_full num 100000), Z.add_comm. exact Ha.
Qed.

Lemma put_dec_represents num :
  0 <= num < 2 ^ 64 -> exists ds, put_dec [] num = Ok ds /\ represents 10 ds num.
Proof.
  intros H. apply (put_dec_loop 8 [] num); [lia|lia|].
  change (100000 ^ Z.of_nat 8) with 10000000000000000000000000000000000000000. lia.
Qed.

(** A digit of [digits] with the letter case the flags ask for. *)
Definition hex_char (locase d : Z) : Z := Z.lor (nth (Z.to_nat d) digits 0) locase.

Lemma hex_char_digit base locase d :
  base = 8 \/ base = 16 -> locase = 0 \/ locase = 32 -> 0 <= d < base ->
  digits !! Z.to_nat d = Some (nth (Z.to_nat d) digits 0) /\
  0 < hex_char locase d < 256 /\ is_digit_of base (hex_char locase d) = true /\
  digit_value (hex_char locase d) = d.
Proof.
  intros Hb Hl Hd.
  pose proof (forall_byte (fun d => (16 <=? d) ||
    (bool_decide (digits !! Z.to_nat d = Some (nth (Z.to_nat d) digits 0)) &&
     forallb (fun l => forallb (fun b => (b <=? d) ||
       ((0 <? hex_char l d) && (hex_char l d <? 256) && is_digit_of b (hex_char l d) &&
        (digit_value (hex_char l d) =? d))) [8; 16]) [0; 32])) ltac:(by vm_compute) d) as H.
  specialize (H ltac:(unfold byte_range; lia)). cbv beta in H.
  destruct (Z.leb_spec 16 d); [lia|]. cbn [orb] in H.
  apply andb_true_iff in H as [H1 H2]. apply bool_decide_eq_true in H1.
  rewrite forallb_forall in H2. specialize (H2 locase ltac:(simpl; naive_solver)).
  rewrite forallb_forall in H2. specialize (H2 base ltac:(simpl; naive_solver)).
  destruct (Z.leb_spec base d); [lia|]. cbn [orb] in H2.
  rewrite !andb_true_iff in H2. destruct H2 as (((? & ?) & ?) & ?).
  split; [done|]. split; [lia|]. split; [done|lia].
Qed.

Definition number_tmp_body (base locase : Z) : list Z * Z -> outcome (list Z * Z + list Z) :=
  fun '(tmp, num) =>
    match digits !! Z.to_nat (Z.land (u8 num) (base - 1)) with
    | Some d =>
        let tmp := tmp ++ [Z.lor d locase] in
        let num := Z.shiftr num (if base =? 16 then 4 else 3) in
        if num =? 0 then brk tmp else cont (tmp, num)
    | None => Fault
    end.

Section number_tmp.
Context (base locase : Z).
Hypothesis Hb : base = 8 \/ base = 16.
Hypothesis Hl : locase = 0 \/ locase = 32.

Lemma number_tmp_step buf num :
  number_tmp_body base locase (buf, num) =
  let buf := buf ++ [hex_char locase (num mod base)] in
  if num / base =? 0 then brk buf else cont (buf, num / base).
Proof.
  unfold number_tmp_body.
  assert (Z.land (u8 num) (base - 1) = num mod base) as ->.
  { unfold u8. change (2 ^ 8) with 256. destruct Hb as [-> | ->].
    - change (8 - 1) with (Z.ones 3). rewrite Z.land_ones by lia. change (2 ^ 3) with 8. dlia.
    - change (16 - 1) with (Z.ones 4). rewrite Z.land_ones by lia. change (2 ^ 4) with 16. dlia. }
  assert (Z.shiftr num (if base =? 16 then 4 else 3) = num / base) as ->
    by (destruct Hb as [-> | ->];
        [exact (Z.shiftr_div_pow2 num 3 ltac:(lia))|exact (Z.shiftr_div_pow2 num 4 ltac:(lia))]).
  pose proof (Z.mod_pos_bound num base ltac:(lia)) as Hm.
  by destruct (hex_char_digit base locase (num mod base) Hb Hl Hm) as (-> & _).
Qed.

Lemma number_tmp_loop fuel buf num :
  0 < num -> num < base ^ Z.of_nat fuel ->
  exists ds, while fuel (number_tmp_body base locase) (buf, num) = Ok (buf ++ ds) /\
        represents base ds num.
Proof.
  revert buf num. induction fuel as [|fuel IH]; intros buf num Hn Hlt; [simpl in Hlt; lia|].
  cbn [while]. rewrite number_tmp_step. cbv zeta.
  pose proof (Z.mod_pos_bound num base ltac:(lia)) as Hm.
  destruct (hex_char_digit base locase (num mod base) Hb Hl Hm) as (_ & Hc & Hd & Hv).
  pose proof (Z_div_mod_eq_full num base) as Hdm. case_cmp; loop_next.
  - eexists. split; [done|]. split; [done|]. split; [by apply list.Forall_singleton|].
    cbn [lsd_value]. rewrite Hv. split; [lia|]. intros _ d [= <-]. lia.
  - assert (0 < num / base) as Hpos by (pose proof (Z.div_pos num base); lia).
    destruct (IH (buf ++ [hex_char locase (num mod base)]) (num / base) Hpos) as (ds & -> & Hr).
    + apply Z.div_lt_upper_bound; [lia|]. rewrite <- Z.pow_succ_r by lia.
      by replace (Z.succ (Z.of_nat fuel)) with (Z.of_nat (S fuel)) by lia.
    + rewrite <- app_assoc. eexists. split; [done|].
      pose proof (represents_app base [hex_char locase (num mod base)] ds (num / base)
        ltac:(by apply list.Forall_singleton) ltac:(cbn [lsd_value]; lia) ltac:(lia) Hpos Hr) as Ha.
      cbn [lsd_value length] in Ha. rewrite Hv, Z.pow_1_r in Ha.
      replace (num mod base + base * 0 + base * (num / base)) with num in Ha by lia. done.
Qed.
End number_tmp.

Lemma number_tmp_represents num base locase :
  base = 8 \/ base = 10 \/ base = 16 -> locase = 0 \/ locase = 32 -> 0 <= num < 2 ^ 64 ->
  exists ds, number_tmp num base locase = Ok ds /\ represents base ds num.
Proof.
  intros Hb Hl Hn. unfold number_tmp. case_cmp.
  - exists [48]. subst. split; [done|]. split; [done|].
    split; [|split; [change (digit_value 48 + base * 0 = 0); change (digit_value 48) with 0; lia|done]].
    apply list.Forall_singleton. split; [lia|]. by destruct Hb as [->|[->| ->]].
  - destruct (Z.eqb_spec base 10) as [->|]; cbn [negb]; [by apply put_dec_represents|].
    apply (number_tmp_loop base locase ltac:(lia) Hl 66 [] num); [lia|].
    eapply Z.lt_le_trans; [apply Hn|]. transitivity (8 ^ Z.of_nat 66); [by vm_compute|].
    apply Z.pow_le_mono_l. lia.
Qed.


(** ** Emitting text *)

(** The output after the characters [l]: those below [end_] are stored, all
    are counted. *)
Definition emit (end_ : Z) (o : out) (l : list Z) : out :=
  (write_bytes (fst o) (snd o) (take (Z.to_nat (end_ - snd o)) l), snd o + Z.of_nat (length l)).

Definition room (end_ : Z) (o : out) : Prop := mapped (fst o) (snd o) (end_ - snd o).

Lemma emit_nil end_ o : emit end_ o [] = o.
Proof. destruct o as [m p]. unfold emit. rewrite take_nil. simpl. f_equal. lia. Qed.

Lemma emit_app end_ o l k : emit end_ o (l ++ k) = emit end_ (emit end_ o l) k.
Proof.
  destruct o as [m p]. unfold emit. cbn [fst snd]. rewrite length_app. f_equal; [|lia].
  rewrite take_app. destruct (Z.le_gt_cases (Z.of_nat (length l)) (end_ - p)).
  - rewrite (take_ge l) by lia. rewrite write_bytes_app. f_equal. f_equal. lia.
  - replace (Z.to_nat (end_ - p) - length l)%nat with O by lia.
    replace (Z.to_nat (end_ - (p + Z.of_nat (length l)))) with O by lia.
    by rewrite !take_0, app_nil_r.
Qed.

Lemma room_emit end_ o l : room end_ o -> room end_ (emit end_ o l).
Proof.
  unfold room, emit. cbn [fst snd]. intros H. apply mapped_write_bytes.
  eapply mapped_sub; [exact H|lia|lia].
Qed.

Lemma ADDCH_emit end_ o ch :
  room end_ o -> byte_range ch -> ADDCH end_ o ch = Ok (emit end_ o [ch]).
Proof.
  destruct o as [m p]. unfold room, emit. cbn [fst snd]. intros Hr Hc. unfold ADDCH. case_cmp.
  - rewrite store8_mapped by (apply Hr; lia). cbn [obind]. rewrite u8_small by done.
    replace (Z.to_nat (end_ - p)) with (S (Z.to_nat (end_ - p - 1))) by lia.
    cbn [take]. by rewrite take_nil.
  - replace (Z.to_nat (end_ - p)) with O by lia. done.
Qed.

#[export] Hint Resolve room_emit : rock.

Section emitting.
Context (end_ : Z).

Lemma pad_emit ch size o :
  room end_ o -> byte_range ch ->
  pad end_ ch o size = Ok (emit end_ o (replicate (Z.to_nat size) ch), Z.min size 0 - 1).
Proof.
  intros Hr Hc. unfold pad.
  remember (Z.to_nat size) as n eqn:En. revert o size En Hr.
  induction n as [|n IH]; intros o size En Hr; rewrite while_S; cbv beta iota zeta.
  - destruct (Z.leb_spec 0 (size - 1)); [lia|]. loop_next. rewrite emit_nil. ok_eq.
  - destruct (Z.leb_spec 0 (size - 1)); [|lia]. rewrite ADDCH_emit by done. cbn [obind]. loop_next.
    rewrite IH by (auto with rock; lia). cbn [replicate].
    rewrite <- emit_app. cbn [app]. ok_eq.
Qed.

Lemma zeros_emit i precision o :
  room end_ o ->
  while (S (Z.to_nat (precision - i))) (fun '(o, precision) =>
    let precision := precision - 1 in
    if i <=? precision then let! o := ADDCH end_ o 48 in cont (o, precision)
    else brk o) (o, precision) = Ok (emit end_ o (replicate (Z.to_nat (precision - i)) 48)).
Proof.
  intros Hr. remember (Z.to_nat (precision - i)) as n eqn:En. revert o precision En Hr.
  induction n as [|n IH]; intros o precision En Hr; rewrite while_S; cbv beta iota zeta.
  - destruct (Z.leb_spec i (precision - 1)); [lia|]. loop_next. by rewrite emit_nil.
  - destruct (Z.leb_spec i (precision - 1)); [|lia].
    rewrite ADDCH_emit by (unfold byte_range; auto with lia). cbn [obind]. loop_next.
    rewrite IH by (auto with rock; lia). cbn [replicate]. by rewrite <- emit_app.
Qed.

Lemma digits_emit tmp o :
  room end_ o -> Forall byte_range tmp ->
  while (S (Z.to_nat (Z.of_nat (length tmp)))) (fun '(o, i) =>
    let i := i - 1 in
    if 0 <=? i then
      match tmp !! Z.to_nat i with
      | Some c => let! o := ADDCH end_ o c in cont (o, i)
      | None => Fault
      end
    else brk o) (o, Z.of_nat (length tmp)) = Ok (emit end_ o (reverse tmp)).
Proof.
  intros Hr HF. rewrite Nat2Z.id.
  assert (forall n o, (n <= length tmp)%nat -> room end_ o ->
    while (S n) (fun '(o, i) =>
      let i := i - 1 in
      if 0 <=? i then
        match tmp !! Z.to_nat i with
        | Some c => let! o := ADDCH end_ o c in cont (o, i)
        | None => Fault
        end
      else brk o) (o, Z.of_nat n) = Ok (emit end_ o (reverse (take n tmp)))) as H.
  { clear o Hr. induction n as [|n IH]; intros o Hn Hr; rewrite while_S; cbv beta iota zeta.
    - cbn. by rewrite emit_nil.
    - destruct (Z.leb_spec 0 (Z.of_nat (S n) - 1)); [|lia].
      replace (Z.of_nat (S n) - 1) with (Z.of_nat n) by lia. rewrite Nat2Z.id.
      destruct (lookup_lt_is_Some_2 tmp n) as [c Hc]; [lia|]. rewrite Hc.
      rewrite ADDCH_emit; [|done|by eapply list.Forall_lookup_1]. cbn [obind]. loop_next.
      rewrite IH by (auto with rock; lia).
      rewrite (take_S_r _ _ _ Hc), reverse_app. by rewrite <- emit_app. }
  rewrite H by (done || lia). by rewrite firstn_all.
Qed.
End emitting.

(** ** The text of a number *)

Definition number_text (num base size precision type : Z) (ds : list Z) : list Z :=
  let need_pfx := flag type SPECIAL && negb (base =? 10) in
  let locase := Z.land type SMALL in
  let left := flag type LEFT in
  let zero := flag type ZEROPAD && negb left in
  let '(sign, _, size) := number_sign num size type in
  let pfx := if need_pfx then 48 :: (if base =? 16 then [Z.lor 88 locase] else []) else [] in
  let i := Z.of_nat (length ds) in
  let precision := Z.max i precision in
  let fill := Z.to_nat (size - Z.of_nat (length pfx) - precision) in
  (if zero || left then [] else replicate fill 32) ++
  (if sign =? 0 then [] else [sign]) ++ pfx ++
  (if zero then replicate fill 48 else []) ++
  replicate (Z.to_nat (precision - i)) 48 ++ reverse ds ++
  (if left then replicate fill 32 else []).

Lemma flag_lor t f g : flag t (Z.lor f g) = flag t f || flag t g.
Proof.
  unfold flag. rewrite Z.land_lor_distr_r.
  destruct (Z.eqb_spec (Z.lor (Z.land t f) (Z.land t g)) 0) as [E|N].
  - apply Z.lor_eq_0_iff in E as [-> ->]. done.
  - destruct (Z.eqb_spec (Z.land t f) 0) as [E1|]; [|done].
    destruct (Z.eqb_spec (Z.land t g) 0) as [E2|]; [|done].
    rewrite E1, E2 in N. done.
Qed.

Lemma flag_ldiff t c f : flag (Z.ldiff t c) f = flag t (Z.ldiff f c).
Proof.
  unfold flag. do 2 f_equal. apply Z.bits_inj'. intros n Hn.
  rewrite !Z.land_spec, !Z.ldiff_spec. by destruct (Z.testbit t n), (Z.testbit c n), (Z.testbit f n).
Qed.

Lemma number_sign_ldiff num size type :
  number_sign num size (Z.ldiff type ZEROPAD) = number_sign num size type.
Proof. unfold number_sign. by rewrite !flag_ldiff. Qed.

Lemma number_sign_char num size type :
  fst (fst (number_sign num size type)) ∈ [0; 45; 43; 32].
Proof. unfold number_sign. repeat case_match; set_solver. Qed.

Lemma number_prefix_emit end_ o sign pfx base locase :
  room end_ o -> sign ∈ [0; 45; 43; 32] -> locase = 0 \/ locase = 32 ->
  number_prefix end_ o sign pfx base locase =
  Ok (emit end_ o ((if sign =? 0 then [] else [sign]) ++
        (if pfx then 48 :: (if base =? 16 then [Z.lor 88 locase] else []) else []))).
Proof.
  intros Hr Hsign Hl. unfold number_prefix.
  assert ((if negb (sign =? 0) then ADDCH end_ o sign else Ok o) =
          Ok (emit end_ o (if sign =? 0 then [] else [sign]))) as ->.
  { case_cmp; cbn [negb]; [by rewrite emit_nil|]. apply ADDCH_emit; [done|].
    unfold byte_range. set_solver by lia. }
  cbn [obind]. rewrite emit_app. destruct pfx; [|by rewrite emit_nil].
  rewrite ADDCH_emit by (unfold byte_range; auto with rock lia). cbn [obind].
  destruct (base =? 16); [|done].
  rewrite ADDCH_emit; [by rewrite <- emit_app|auto with rock|].
  by destruct Hl as [-> | ->].
Qed.

Lemma number_digits_emit end_ o ds precision size :
  room end_ o -> Forall byte_range ds ->
  number_digits end_ o ds precision size =
  Ok (emit end_ o (replicate (Z.to_nat (precision - Z.of_nat (length ds))) 48 ++ reverse ds ++
        replicate (Z.to_nat size) 32)).
Proof.
  intros Hr HF. unfold number_digits. rewrite zeros_emit by done. cbn [obind].
  rewrite digits_emit by auto with rock. cbn [obind].
  rewrite pad_emit by (unfold byte_range; auto with rock lia). cbn [obind]. by rewrite !emit_app.
Qed.

(** [number] emits the text of the number, when its digits are in [ds]. *)
Lemma number_emit end_ o num base size precision type ds :
  room end_ o -> Forall byte_range ds -> Z.land type SMALL = 0 \/ Z.land type SMALL = 32 ->
  number_tmp (snd (fst (number_sign num size type))) base (Z.land type SMALL) = Ok ds ->
  number o end_ num base size precision type =
    Ok (emit end_ o (number_text num base size precision type ds)).
Proof.
  intros Hr HF Hl Hds. unfold number, number_text. cbv zeta.
  set (type' := if flag type LEFT then Z.ldiff type ZEROPAD else type).
  assert (number_sign num size type' = number_sign num size type) as ->.
  { unfold type'. destruct (flag type LEFT); [apply number_sign_ldiff|done]. }
  pose proof (number_sign_char num size type) as Hsign.
  destruct (number_sign num size type) as [[sign num'] size']. cbn [fst snd] in *.
  rewrite Hds. cbn [obind].
  assert (flag type' LEFT = flag type LEFT) as EL.
  { unfold type'. destruct (flag type LEFT) eqn:E; [|done]. by rewrite flag_ldiff. }
  assert (flag type' ZEROPAD = flag type ZEROPAD && negb (flag type LEFT)) as EZ.
  { unfold type'. destruct (flag type LEFT) eqn:E; [|by rewrite andb_true_r].
    rewrite flag_ldiff, andb_false_r. unfold flag. change (Z.ldiff ZEROPAD ZEROPAD) with 0.
    by rewrite Z.land_0_r. }
  change (ZEROPAD + LEFT) with (Z.lor ZEROPAD LEFT). rewrite flag_lor, EL, EZ.
  set (left := flag type LEFT). set (zero := flag type ZEROPAD && negb left).
  set (pfx := flag type SPECIAL && negb (base =? 10)).
  set (i := Z.of_nat (length ds)).
  replace (if i >? precision then i else precision) with (Z.max i precision)
    by (rewrite Z.gtb_ltb; case_cmp; lia).
  set (prec := Z.max i precision).
  set (pl := if pfx then 48 :: (if base =? 16 then [Z.lor 88 (Z.land type SMALL)] else []) else []).
  assert ((if pfx then if base =? 16 then size' - 1 - 1 else size' - 1 else size') =
          size' - Z.of_nat (length pl)) as ->
    by (unfold pl; destruct pfx; [destruct (base =? 16)|]; simpl; lia).
  set (w := size' - Z.of_nat (length pl) - prec).
  assert (Z.to_nat (Z.min w 0 - 1) = O) as Hneg by lia.
  assert (forall o, room end_ o -> number_prefix end_ o sign pfx base (Z.land type SMALL)
    = Ok (emit end_ o ((if sign =? 0 then [] else [sign]) ++ pl))) as Hpfx
    by (intros; by apply number_prefix_emit).
  unfold zero. destruct left; rewrite ?andb_false_r, ?andb_true_r, ?orb_true_r, ?orb_false_r; cbn [negb orb].
  - cbn [obind]. rewrite Hpfx by done. cbn [obind]. rewrite number_digits_emit by auto with rock.
    rewrite <- emit_app. f_equal. f_equal. by rewrite <- app_assoc.
  - destruct (flag type ZEROPAD); cbn [negb obind].
    + rewrite Hpfx by done. cbn [obind].
      rewrite pad_emit by (unfold byte_range; auto with rock lia). cbn [obind].
      rewrite number_digits_emit by auto with rock. rewrite Hneg, <- !emit_app.
      f_equal. f_equal. by rewrite <- !app_assoc.
    + rewrite pad_emit by (unfold byte_range; auto with rock lia). cbn [obind].
      rewrite Hpfx by auto with rock. cbn [obind].
      rewrite pad_emit by (unfold byte_range; auto with rock lia). cbn [obind].
      rewrite number_digits_emit by auto with rock.
      rewrite Hneg. replace (Z.to_nat (Z.min (Z.min w 0 - 1) 0 - 1)) with O by lia.
      rewrite <- !emit_app. f_equal. f_equal. by rewrite <- !app_assoc.
Qed.

(** ** Printing and reading back *)

Lemma lsd_value_lower base ds :
  2 <= base -> Forall (fun c => 0 < c < 256 /\ is_digit_of base c = true) ds ->
  (forall d, list.last ds = Some d -> digit_value d <> 0) -> ds <> [] ->
  base ^ (Z.of_nat (length ds) - 1) <= lsd_value base ds.
Proof.
  intros Hb. induction ds as [|d ds IH]; intros HF Hlast Hne; [done|].
  apply Forall_cons_1 in HF as [[Hc Hd] HF].
  assert (0 <= digit_value d) as Hd0.
  { apply digit_value_range; [unfold byte_range; lia|]. by apply andb_true_iff in Hd as [? _]. }
  cbn [lsd_value length]. destruct ds as [|e ds].
  - specialize (Hlast d eq_refl). cbn [length lsd_value].
    replace (Z.of_nat 1 - 1) with 0 by lia. rewrite Z.pow_0_r, Z.mul_0_r. revert Hd0 Hlast.
    generalize (digit_value d). intros v ? ?. lia.
  - replace (Z.of_nat (S (length (e :: ds))) - 1) with (Z.succ (Z.of_nat (length (e :: ds)) - 1))
      by (simpl; lia).
    rewrite Z.pow_succ_r by (simpl; lia).
    specialize (IH HF (fun d' H => Hlast d' H) ltac:(done)).
    apply (Z.mul_le_mono_nonneg_l _ _ base) in IH; lia.
Qed.

Lemma represents_length base ds n k :
  2 <= base -> represents base ds n -> 0 <= n < base ^ k -> 0 < k ->
  Z.of_nat (length ds) <= k \/ n = 0.
Proof.
  intros Hb (Hne & HF & Hv & Hlast) Hn Hk. destruct (Z.eq_dec n 0) as [|Hn0]; [by right|left].
  pose proof (lsd_value_lower base ds Hb HF (Hlast Hn0) Hne) as H. rewrite Hv in H.
  apply Z.nlt_ge. intros Hlt.
  assert (base ^ k <= base ^ (Z.of_nat (length ds) - 1)) by (apply Z.pow_le_mono_r; lia). lia.
Qed.

Lemma represents_bytes base ds n : represents base ds n -> Forall byte_range ds.
Proof.
  intros (_ & HF & _). eapply list.Forall_impl; [exact HF|]. unfold byte_range. simpl. lia.
Qed.

(** Without width, precision and flags the text is the digits. *)
Lemma number_text_plain num base ds :
  number_text num base (-1) (-1) 0 ds = reverse ds.
Proof.
  unfold number_text. cbn. change (number_sign num (-1) 0) with (0, num, -1). cbn.
  replace (Z.to_nat _) with O by lia.
  replace (Z.to_nat (Z.max (Z.of_nat (length ds)) (-1) - Z.of_nat (length ds))) with O by lia.
  cbn. by rewrite app_nil_r.
Qed.

Lemma emit_fits end_ o l :
  snd o + Z.of_nat (length l) <= end_ ->
  emit end_ o l = (write_bytes (fst o) (snd o) l, snd o + Z.of_nat (length l)).
Proof. intros H. unfold emit. by rewrite take_ge by lia. Qed.

(** A conversion "%l<c>" without flags, width or precision reaches
    [conversion] with the qualifier 'l'. *)
Lemma format_step_l buf end_ o fmt args c t :
  cstr (fst o) fmt (37 :: 108 :: c :: t) -> c <> 108 ->
  format_step buf end_ (o, fmt, args) =
    (let! r := conversion buf end_ o (fmt + 2) 0 (-1) (-1) 108 args in
     match r with
     | inl (o, fmt, args) => cont (o, fmt + 1, args)
     | inr e => brk (inr e)
     end).
Proof.
  intros H Hc. unfold format_step.
  destruct (cstr_cons _ _ _ _ H) as (E0 & _ & H1).
  destruct (cstr_cons _ _ _ _ H1) as (E1 & _ & H2).
  destruct (cstr_cons _ _ _ _ H2) as (E2 & _ & _).
  rewrite E0. cbn [obind Z.eqb Pos.eqb negb].
  unfold parse_flags, fuel_of. rewrite while_S. cbv beta iota zeta. rewrite E1.
  cbn [obind Z.eqb Pos.eqb]. loop_next. cbn [obind].
  unfold parse_width. rewrite E1. cbn [obind Z.eqb Pos.eqb].
  change (is_digit 108) with false. cbn [obind].
  unfold parse_precision. rewrite E1. cbn [obind Z.eqb Pos.eqb].
  unfold parse_qualifier. rewrite E1. cbn [obind Z.eqb Pos.eqb orb]. rewrite E2. cbn [obind andb].
  destruct (Z.eqb_spec c 108); [done|]. cbn [obind].
  by replace (fmt + 1 + 1) with (fmt + 2) by lia.
Qed.

(** [number] prints any 64-bit value in radix 8, 10 or 16: the digits
    it emits denote exactly the magnitude of the value, have no leading zero,
    and come with the sign, prefix, zeros and spaces the flags, width and
    precision ask for, cut at the end of the buffer. *)
Theorem number_correct (end_ : Z) (o : out) (num base size precision type : Z) :
  base = 8 \/ base = 10 \/ base = 16 -> 0 <= num < 2 ^ 64 ->
  mapped (fst o) (snd o) (end_ - snd o) ->
  Z.land type SMALL = 0 \/ Z.land type SMALL = 32 ->
  exists ds, represents base ds (snd (fst (number_sign num size type))) /\
    number o end_ num base size precision type =
      Ok (emit end_ o (number_text num base size precision type ds)).
Proof.
  intros Hb Hn Hr Hl.
  destruct (number_tmp_represents (snd (fst (number_sign num size type))) base (Z.land type SMALL))
    as (ds & Hds & Hrep); [done|done| |].
  - unfold number_sign. repeat case_match; simpl; auto using u64_range.
  - exists ds. split; [done|]. apply number_emit; [done|by eapply represents_bytes|done|done].
Qed.

(** 255 in radix 16 with prefix and lower case, into a buffer of four bytes. *)
Lemma number_correct_witness :
  exists ds, represents 16 ds 255 /\
    number (mem_of 10 [0; 0; 0; 0], 10) 14 255 16 (-1) (-1) 96 =
      Ok (emit 14 (mem_of 10 [0; 0; 0; 0], 10) (number_text 255 16 (-1) (-1) 96 ds)).
Proof.
  apply (number_correct 14 (mem_of 10 [0; 0; 0; 0], 10) 255 16 (-1) (-1) 96).
  - auto.
  - lia.
  - apply (bytes_at_mapped _ 10 [0; 0; 0; 0]), write_bytes_at.
  - right. reflexivity.
Defined.

(** The digits of a number, read back in their radix. *)
Lemma strtoul_digits m p base ds n :
  base = 8 \/ base = 10 \/ base = 16 -> represents base ds n -> 0 <= n < 2 ^ 64 ->
  (base = 16 -> forall c, nth 0 (reverse ds) 0 = 48 -> nth 1 (reverse ds ++ [0]) 0 = c -> tolower c <> 120) ->
  bytes_at m p (reverse ds ++ [0]) ->
  simple_strtoul m p base = Ok (n, p + Z.of_nat (length ds)).
Proof.
  intros Hb (Hne & HF & Hv & _) Hn Hx Hm.
  assert (Forall (fun c => 0 < c < 256 /\ is_digit_of base c = true) (reverse ds)) as HF'
    by (by apply Forall_reverse).
  assert (cstr m p (reverse ds)) as Hs.
  { split; [done|]. eapply list.Forall_impl; [exact HF'|]. simpl. tauto. }
  rewrite (simple_strtoul_cstr m p _ base Hs). unfold strtoul_spec.
  assert (radix_spec base (reverse ds) = (base, O)) as ->.
  { unfold radix_spec. destruct (Z.eqb_spec base 0); [lia|]. f_equal.
    destruct (Z.eqb_spec base 16) as [E|]; [|done]. cbn [andb].
    destruct (Z.eqb_spec (nth 0 (reverse ds ++ [0]) 0) 48) as [E0|]; [|done]. cbn [andb].
    case_cmp; [|done]. exfalso. eapply Hx; [done| |done|done].
    rewrite app_nth1 in E0; [done|]. rewrite length_reverse. destruct ds; [done|simpl; lia]. }
  rewrite drop_0, span_all, firstn_all, numeral_reverse, Hv, u64_small by
    (done || (eapply list.Forall_impl; [exact HF'|]; simpl; tauto)).
  cbn [fst snd]. rewrite length_reverse. ok_eq.
Qed.

(** One conversion of an unsigned long without width, as [snprintf] runs it
    on the format "%lu". *)
Lemma snprintf_lu m buf size_ fmt n :
  cstr m fmt [37; 108; 117] -> 0 <= n < 2 ^ 64 -> 0 <= buf -> 21 <= size_ ->
  buf + size_ < 2 ^ 64 -> mapped m buf size_ ->
  (buf + size_ <= fmt \/ fmt + 3 < buf) ->
  exists ds, represents 10 ds n /\ (length ds <= 20)%nat /\
    snprintf m buf size_ fmt [n] =
      Ok (write_bytes m buf (reverse ds ++ [0]), Z.of_nat (length ds)).
Proof.
  intros Hf Hn Hb Hs Hlt Hm Hd.
  destruct (number_tmp_represents n 10 0) as (ds & Hds & Hr); [auto|auto|done|].
  assert (Z.of_nat (length ds) <= 20) as Hlen.
  { destruct (represents_length 10 ds n 20) as [|Hz]; [lia|done|lia|lia|done|].
    subst n. destruct Hr as (Hne & _). injection Hds as <-. simpl. lia. }
  exists ds. split; [done|]. split; [lia|].
  unfold snprintf, vsnprintf, vsnprintf_internal. cbv zeta.
  rewrite u64_small by lia. destruct (Z.ltb_spec (buf + size_) buf); [lia|].
  assert (exists k, fuel_of m = S (S k)) as [k ->].
  { apply cstr_size in Hf. unfold fuel_of. exists (size m - 1)%nat. simpl in Hf. lia. }
  rewrite while_S, (format_step_l _ _ _ _ _ 117 []) by (done || lia).
  unfold conversion. cbn [fst].
  assert (load8 m (fmt + 2) = Ok 117) as ->
    by exact (load8_cstr m fmt _ 2 Hf ltac:(simpl; lia)).
  cbn [obind Z.eqb Pos.eqb orb va_arg].
  change (fetch_num 108 0 n) with (u64 n). rewrite u64_small by done.
  rewrite (number_emit _ _ _ _ _ _ _ ds);
    [|eapply mapped_sub; [exact Hm|cbn; lia|cbn; lia]|by eapply represents_bytes|by left|done].
  cbn [obind]. loop_next. rewrite number_text_plain, emit_fits
    by (rewrite length_reverse; cbn [snd]; lia).
  cbn [fst snd]. rewrite length_reverse.
  rewrite while_S. unfold format_step. cbn [fst].
  set (m1 := write_bytes m buf (reverse ds)).
  assert (cstr m1 fmt [37; 108; 117]) as Hf1.
  { apply cstr_write_ne; [done|]. rewrite length_reverse. simpl. lia. }
  assert (load8 m1 (fmt + 2 + 1) = Ok 0) as ->.
  { replace (fmt + 2 + 1) with (fmt + Z.of_nat 3) by lia.
    exact (load8_cstr m1 fmt _ 3 Hf1 ltac:(simpl; lia)). }
  cbn [obind Z.eqb]. loop_next. cbn [obind].
  destruct (Z.ltb_spec 0 size_); [|lia].
  rewrite ADDCH_emit; [|apply mapped_write_bytes; eapply mapped_sub; [exact Hm|cbn;lia|cbn;lia]|done].
  cbn [obind]. rewrite emit_fits by (cbn; lia). cbn [fst snd obind length].
  destruct (Z.ltb_spec (buf + size_) (buf + Z.of_nat (length ds) + Z.of_nat 1)); [lia|].
  cbn [obind]. unfold m1. rewrite <- (length_reverse ds) at 1. rewrite <- write_bytes_app.
  unfold s32. rewrite swrap_small; [|lia|cbn; lia]. ok_eq.
Qed.

(** C19: print and parse are inverse on every 64-bit number: [snprintf] with
    "%lu" into a buffer of at least 21 bytes returns the number of digits,
    changes only the digits and their terminator, and [simple_strtoul] reads
    the number back, up to the terminator. *)
Theorem snprintf_strtoul_roundtrip (m : mem) (buf size_ fmt n : Z) :
  cstr m fmt [37; 108; 117] -> 0 <= n < 2 ^ 64 -> 0 <= buf -> 21 <= size_ ->
  buf + size_ < 2 ^ 64 -> mapped m buf size_ ->
  (buf + size_ <= fmt \/ fmt + 3 < buf) ->
  exists m' len, snprintf m buf size_ fmt [n] = Ok (m', len) /\ 1 <= len <= 20 /\
    (forall a, ~ (buf <= a <= buf + len) -> m' !! a = m !! a) /\
    simple_strtoul m' buf 10 = Ok (n, buf + len).
Proof.
  intros Hf Hn Hb Hs Hlt Hm Hd.
  destruct (snprintf_lu m buf size_ fmt n) as (ds & Hr & Hlen & ->); [done..|].
  exists (write_bytes m buf (reverse ds ++ [0])), (Z.of_nat (length ds)).
  split; [done|]. split; [destruct Hr as (Hne & _); destruct ds; [done|simpl in *; lia]|].
  split.
  - intros a Ha. apply lookup_write_bytes_ne. rewrite length_app, length_reverse. simpl. lia.
  - apply strtoul_digits; [auto|done|done|done|apply write_bytes_at].
Qed.

Lemma snprintf_strtoul_roundtrip_witness :
  let m := write_bytes (mem_of 100 [37; 108; 117; 0]) 200 (replicate 21 0) in
  exists m' len, snprintf m 200 21 100 [18446744073709551615] = Ok (m', len) /\ 1 <= len <= 20 /\
    (forall a, ~ (200 <= a <= 200 + len) -> m' !! a = m !! a) /\
    simple_strtoul m' 200 10 = Ok (18446744073709551615, 200 + len).
Proof.
  cbv zeta. apply (snprintf_strtoul_roundtrip _ 200 21 100).
  - apply cstr_write_ne; [apply (cstr_mem_of 100 [37; 108; 117]); reflexivity|].
    right. simpl. lia.
  - lia.
  - lia.
  - lia.
  - lia.
  - apply (bytes_at_mapped _ 200 (replicate 21 0)), write_bytes_at.
  - right. lia.
Defined.
