(* ===== verification/FmtSpec.v ===== *)
(** * What printf formats mean

    A reference for [vsnprintf] that does not look at bytes: a format is a
    list of items, a directive has flags, a width, a precision, a length
    modifier and a conversion, [means] gives the text of the items with their
    arguments, and [renders] that text as the code produces it in a buffer of a
    given size, where a character that does not fit takes no argument.  The
    parser of the code is shown to read the spelling of a directive back. *)

From S2P Require Import Prelude CMem Ctype Str StrFacts Strto Fmt FmtText.

Local Open Scope Z_scope.
Local Open Scope c_scope.

(** ** Formats *)

Record directive : Type := Directive {
  d_flags : list Z;
  d_width : list Z;
  d_prec : option (list Z);
  d_qual : list Z;
  d_conv : Z
}.

Inductive item : Type :=
  | Text (c : Z)
  | Conv (d : directive).

(** The spelling of an item. *)
Definition d_tail3 (d : directive) : list Z := d_qual d ++ [d_conv d].
Definition d_tail2 (d : directive) : list Z := (match d_prec d with Some p => 46 :: p | None => [] end) ++ d_tail3 d.
Definition d_tail1 (d : directive) : list Z := d_width d ++ d_tail2 d.
Definition spell (i : item) : list Z :=
  match i with
  | Text c => [c]
  | Conv d => 37 :: d_flags d ++ d_tail1 d
  end.

Definition flag_of (c : Z) : Z :=
  if c =? 45 then LEFT else if c =? 43 then PLUS else if c =? 32 then SPACE
  else if c =? 35 then SPECIAL else if c =? 48 then ZEROPAD else 0.

Definition flag_chars : list Z := [45; 43; 32; 35; 48].
Definition qual_chars : list Z := [104; 108; 76; 90; 122; 116].
Definition quals : list (list Z) := [[]; [104]; [108]; [108; 108]; [76]; [90]; [122]; [116]].
Definition convs : list Z := [99; 115; 37; 100; 105; 117; 120; 88; 111].

(** Numbers as they are written. *)
Definition dec_value (ds : list Z) : Z := fold_left (fun i c => i * 10 + c - 48) ds 0.
Definition dec_ok (ds : list Z) : Prop := Forall (fun c => is_digit c = true) ds /\ dec_value ds < 2 ^ 31.

Record directive_ok (d : directive) : Prop := {
  dk_flags : Forall (fun c => c ∈ flag_chars) (d_flags d);
  dk_width : dec_ok (d_width d) /\ head (d_width d) <> Some 48;
  dk_prec : forall p, d_prec d = Some p -> dec_ok p;
  dk_qual : d_qual d ∈ quals;
  dk_conv : d_conv d ∈ convs
}.

Definition item_ok (i : item) : Prop :=
  match i with
  | Text c => 0 < c < 256 /\ c <> 37
  | Conv d => directive_ok d
  end.

(** ** Text *)

Definition flags_of (d : directive) : Z := fold_left (fun f c => Z.lor f (flag_of c)) (d_flags d) 0.
Definition width_of (d : directive) : Z := match d_width d with [] => -1 | ds => dec_value ds end.
Definition prec_of (d : directive) : Z := match d_prec d with None => -1 | Some [] => 0 | Some ds => dec_value ds end.
Definition qual_of (d : directive) : Z :=
  match d_qual d with [] => -1 | [c] => c | _ => 76 end.

(** The radix and the extra flag of an integer conversion. *)
Definition num_conv_of (c : Z) : option (Z * Z) :=
  if c =? 111 then Some (8, 0) else if c =? 120 then Some (16, SMALL) else if c =? 88 then Some (16, 0)
  else if (c =? 100) || (c =? 105) then Some (10, SIGN) else if c =? 117 then Some (10, 0) else None.

Definition padded (left : bool) (width : Z) (text : list Z) : list Z :=
  let fill := replicate (Z.to_nat (width - Z.of_nat (length text))) 32 in
  if left then text ++ fill else fill ++ text.

(** The digits of the case a conversion asks for. *)
Definition digit_case (type : Z) (ds : list Z) : Prop := Forall (fun c => c ∈ (fun d => Z.lor d (Z.land type SMALL)) <$> digits) ds.

(** Where the character of a %c stands in its text, and whether it falls
    behind a buffer with [space] bytes left. *)
Definition char_offset (d : directive) : Z := if flag (flags_of d) LEFT then 0 else Z.max 0 (width_of d - 1).
Definition char_cut (space : Z) (d : directive) : bool := (d_conv d =? 99) && (space <=? char_offset d).
Definition cut_text (d : directive) : list Z := padded (flag (flags_of d) LEFT) (width_of d) [0].

Lemma cut_text_length d : char_offset d < Z.of_nat (length (cut_text d)).
Proof. unfold char_offset, cut_text, padded. destruct (flag _ _); rewrite length_app, length_replicate; cbn [length]; lia. Qed.

Section renders.
Context (m : mem).

(** The string a pointer argument stands for. *)
Definition string_arg (a : Z) (s : list Z) : Prop := if a =? NULL then s = take 6 null_text else cstr m a s.

(** The text of a directive that takes the argument [a]. *)
Inductive shows (d : directive) (a : Z) : list Z -> Prop :=
  | S_char : d_conv d = 99 -> shows d a (padded (flag (flags_of d) LEFT) (width_of d) [u8 a])
  | S_string s :
      d_conv d = 115 -> string_arg (u64 a) s ->
      let shown := if prec_of d <? 0 then s else take (Z.to_nat (prec_of d)) s in
      shows d a (padded (flag (flags_of d) LEFT) (width_of d) shown)
  | S_number base extra ds :
      num_conv_of (d_conv d) = Some (base, extra) ->
      let type := Z.lor (flags_of d) extra in
      let num := fetch_num (qual_of d) type a in
      represents base ds (snd (fst (number_sign num (width_of d) type))) -> digit_case type ds ->
      shows d a (number_text num base (width_of d) (prec_of d) type ds).

(** What a format means: every directive shows its argument, in order. *)
Inductive means : list item -> list Z -> list Z -> Prop :=
  | M_nil args : means [] args []
  | M_text c items args text : means items args text -> means (Text c :: items) args (c :: text)
  | M_percent d items args text :
      d_conv d = 37 -> means items args text -> means (Conv d :: items) args (37 :: text)
  | M_conv d items a args text rest :
      shows d a text -> means items args rest -> means (Conv d :: items) (a :: args) (text ++ rest).

(** What the code makes of it in a buffer with [space] bytes left: as above,
    but a %c whose character falls behind the buffer takes no argument, and
    the directives after it start with the one it left.  The character itself
    is never stored; it counts, and is written 0 here. *)
Inductive renders : Z -> list item -> list Z -> list Z -> Prop :=
  | R_nil space args : renders space [] args []
  | R_text space c items args text :
      renders (space - 1) items args text -> renders space (Text c :: items) args (c :: text)
  | R_percent space d items args text :
      d_conv d = 37 -> renders (space - 1) items args text -> renders space (Conv d :: items) args (37 :: text)
  | R_conv space d items a args text rest :
      char_cut space d = false -> shows d a text -> renders (space - Z.of_nat (length text)) items args rest ->
      renders space (Conv d :: items) (a :: args) (text ++ rest)
  | R_cut space d items args rest :
      char_cut space d = true -> renders (space - Z.of_nat (length (cut_text d))) items args rest ->
      renders space (Conv d :: items) args (cut_text d ++ rest).

(** In a text that fits no character is cut off. *)
Lemma renders_fits space items args text :
  renders space items args text -> Z.of_nat (length text) <= space -> means items args text.
Proof.
  induction 1; cbn [length]; rewrite ?length_app; intros Hl; try (econstructor; eauto; apply IHrenders; lia).
  unfold char_cut in H. apply andb_prop in H as [_ H]. apply Z.leb_le in H. pose proof (cut_text_length d). lia.
Qed.
End renders.

(** ** The parser *)

Lemma conv_plain c : c ∈ convs -> c ∉ flag_chars /\ is_digit c = false /\ c <> 42 /\ c <> 46 /\ c ∉ qual_chars.
Proof. intros H. repeat (apply elem_of_cons in H as [->|H]; [(vm_compute; set_solver)|]). by apply elem_of_nil in H. Qed.

Lemma qual_tail_plain d t : directive_ok d -> exists c r, d_tail3 d ++ t = c :: r /\
  c ∉ flag_chars /\ is_digit c = false /\ c <> 42 /\ c <> 46.
Proof.
  intros [_ _ _ Hq Hc]. unfold d_tail3. destruct (conv_plain _ Hc) as (H1 & H2 & H3 & H4 & _).
  repeat (apply elem_of_cons in Hq as [->|Hq]; [do 2 eexists; split; [done|]; first [done | (vm_compute; set_solver)]|]).
  by apply elem_of_nil in Hq.
Qed.

Lemma prec_tail_plain d t : directive_ok d -> exists c r, d_tail2 d ++ t = c :: r /\
  c ∉ flag_chars /\ is_digit c = false /\ c <> 42.
Proof.
  intros Hd. unfold d_tail2. destruct (d_prec d) as [p|].
  - do 2 eexists. split; [done|]. (vm_compute; set_solver).
  - destruct (qual_tail_plain d t Hd) as (c & r & E & ?). exists c, r. rewrite app_nil_l. tauto.
Qed.

Lemma width_tail_plain d t : directive_ok d -> exists c r, d_tail1 d ++ t = c :: r /\ c ∉ flag_chars.
Proof.
  intros Hd. pose proof Hd as [_ [[Hw _] H0] _ _ _]. unfold d_tail1. destruct (d_width d) as [|c w].
  - destruct (prec_tail_plain d t Hd) as (c & r & E & ? & _). by exists c, r.
  - do 2 eexists. split; [done|]. apply Forall_cons_1 in Hw as [Hw _]. cbn in H0.
    unfold is_digit in Hw. apply andb_prop in Hw as [Ha Hb]. apply Z.leb_le in Ha, Hb.
    assert (c <> 48) by congruence. unfold flag_chars. rewrite !not_elem_of_cons. repeat split; [lia..|apply not_elem_of_nil].
Qed.

Lemma parse_flags_spec m fmt fs c t :
  cstr m (fmt + 1) (fs ++ c :: t) -> Forall (fun c => c ∈ flag_chars) fs -> c ∉ flag_chars ->
  parse_flags m fmt = Ok (fmt + 1 + Z.of_nat (length fs), fold_left (fun f c => Z.lor f (flag_of c)) fs 0).
Proof.
  intros H HF Hc. unfold parse_flags. pose proof (cstr_size _ _ _ H) as Hsz. rewrite length_app in Hsz. cbn [length] in Hsz.
  assert (length fs < fuel_of m)%nat as Hf by (unfold fuel_of; lia). clear Hsz. revert Hf. generalize (fuel_of m) as fuel. intros fuel.
  generalize 0 as f. revert fmt fuel H HF. induction fs as [|x fs IH]; intros fmt fuel H HF f Hf; (destruct fuel as [|fuel]; [cbn in Hf; lia|]); cbn [while].
  - cbn [app] in H. destruct (cstr_cons _ _ _ _ H) as (-> & _). cbn [obind].
    unfold flag_chars in Hc. rewrite !not_elem_of_cons in Hc. destruct Hc as (N1 & N2 & N3 & N4 & N5 & _).
    repeat (case_cmp; [done|]). cbn. ok_eq.
  - cbn [app] in H. destruct (cstr_cons _ _ _ _ H) as (-> & _ & T). cbn [obind]. apply Forall_cons_1 in HF as [Hx HF].
    cbn [fold_left length]. specialize (IH (fmt + 1) fuel T HF (Z.lor f (flag_of x)) ltac:(cbn in Hf; lia)).
    replace (fmt + 1 + Z.of_nat (S (length fs))) with (fmt + 1 + 1 + Z.of_nat (length fs)) by lia.
    repeat (apply elem_of_cons in Hx as [->|Hx]; [exact IH|]). by apply elem_of_nil in Hx.
Qed.

Lemma dec_value_mono ds i : 0 <= i -> Forall (fun c => is_digit c = true) ds -> i <= fold_left (fun i c => i * 10 + c - 48) ds i.
Proof.
  revert i. induction ds as [|c ds IH]; intros i Hi HF; [done|]. apply Forall_cons_1 in HF as [Hc HF]. cbn [fold_left].
  unfold is_digit in Hc. apply andb_prop in Hc as [Ha Hb]. apply Z.leb_le in Ha, Hb.
  specialize (IH (i * 10 + c - 48) ltac:(lia) HF). lia.
Qed.

Lemma atoi_loop m c t ds : forall p fuel i,
  cstr m p (ds ++ c :: t) -> Forall (fun c => is_digit c = true) ds -> is_digit c = false -> 0 <= i ->
  fold_left (fun i c => i * 10 + c - 48) ds i < 2 ^ 31 -> (length ds < fuel)%nat ->
  while fuel (fun '(s, i) =>
    let! c := load8 m s in
    if is_digit c then cont (s + 1, s32 (i * 10 + c - 48)) else brk (i, s)) (p, i) =
  Ok (fold_left (fun i c => i * 10 + c - 48) ds i, p + Z.of_nat (length ds)).
Proof.
  induction ds as [|x ds IH]; intros p fuel i H HF Hc Hi Hv Hf; (destruct fuel as [|fuel]; [cbn in Hf; lia|]); cbn [while].
  - cbn [app] in H. destruct (cstr_cons _ _ _ _ H) as (-> & _). cbn [obind]. rewrite Hc. cbn. ok_eq.
  - cbn [app] in H. destruct (cstr_cons _ _ _ _ H) as (-> & _ & T). cbn [obind]. apply Forall_cons_1 in HF as [Hx HF].
    rewrite Hx. cbn [obind cont]. cbn [fold_left] in Hv |- *.
    unfold is_digit in Hx. apply andb_prop in Hx as [Ha Hb]. apply Z.leb_le in Ha, Hb.
    pose proof (dec_value_mono ds (i * 10 + x - 48) ltac:(lia) HF). unfold s32 at 2. rewrite swrap_small by lia.
    rewrite IH; [|done|done|done|lia|done|cbn in Hf; lia]. cbn [length]. ok_eq.
Qed.

Lemma skip_atoi_spec m p ds c t :
  cstr m p (ds ++ c :: t) -> dec_ok ds -> is_digit c = false -> skip_atoi m p = Ok (dec_value ds, p + Z.of_nat (length ds)).
Proof.
  intros H [HF Hv] Hc. pose proof (cstr_size _ _ _ H) as Hsz. rewrite length_app in Hsz. cbn [length] in Hsz.
  apply (atoi_loop m c t); [done|done|done|lia|done|]. unfold fuel_of. lia.
Qed.

Lemma parse_width_spec m p d t args :
  cstr m p (d_tail1 d ++ t) -> directive_ok d -> forall flags,
  parse_width m p flags args = Ok (p + Z.of_nat (length (d_width d)), width_of d, flags, args).
Proof.
  intros H Hd flags. pose proof Hd as [_ [Hw H0] _ _ _]. destruct (prec_tail_plain d t Hd) as (c & r & E & _ & Hdig & H42).
  unfold d_tail1 in H. rewrite <- app_assoc, E in H. unfold parse_width, width_of. destruct (d_width d) as [|x w] eqn:Ew.
  - cbn [app] in H. destruct (cstr_cons _ _ _ _ H) as (-> & _). cbn [obind]. rewrite Hdig. case_cmp; [done|]. cbn. ok_eq.
  - pose proof Hw as [HF _]. apply Forall_cons_1 in HF as [Hx _]. cbn [app] in H.
    destruct (cstr_cons _ _ _ _ H) as (-> & _). cbn [obind]. rewrite Hx.
    by rewrite (skip_atoi_spec m p (x :: w) c r H Hw Hdig).
Qed.

Lemma dec_value_nonneg ds : Forall (fun c => is_digit c = true) ds -> 0 <= dec_value ds.
Proof. by apply dec_value_mono. Qed.

Lemma parse_precision_spec m p d t args :
  cstr m p (d_tail2 d ++ t) -> directive_ok d ->
  parse_precision m p args = Ok (p + Z.of_nat (length (match d_prec d with Some p => 46 :: p | None => [] end)), prec_of d, args).
Proof.
  intros H Hd. pose proof Hd as [_ _ Hp _ _]. destruct (qual_tail_plain d t Hd) as (c & r & E & _ & Hdig & H42 & H46).
  unfold d_tail2 in H. rewrite <- app_assoc, E in H. unfold parse_precision, prec_of. destruct (d_prec d) as [[|x ds]|].
  - cbn [app] in H. destruct (cstr_cons _ _ _ _ H) as (-> & _ & T). cbn [obind Z.eqb Pos.eqb].
    destruct (cstr_cons _ _ _ _ T) as (-> & _). cbn [obind]. rewrite Hdig. case_cmp; [done|]. cbn. ok_eq.
  - specialize (Hp _ eq_refl). pose proof Hp as [HF _]. pose proof (dec_value_nonneg _ HF). apply Forall_cons_1 in HF as [Hx _].
    cbn [app] in H. destruct (cstr_cons _ _ _ _ H) as (-> & _ & T). cbn [obind Z.eqb Pos.eqb].
    destruct (cstr_cons _ _ _ _ T) as (-> & _). cbn [obind]. rewrite Hx.
    rewrite (skip_atoi_spec m (p + 1) (x :: ds) c r T Hp Hdig). cbn [obind]. case_cmp; [lia|]. cbn [length]. ok_eq.
  - cbn [app] in H. destruct (cstr_cons _ _ _ _ H) as (-> & _). cbn [obind]. case_cmp; [done|]. cbn. ok_eq.
Qed.

Lemma parse_qualifier_spec m p d t :
  cstr m p (d_tail3 d ++ t) -> directive_ok d -> parse_qualifier m p = Ok (p + Z.of_nat (length (d_qual d)), qual_of d).
Proof.
  intros H [_ _ _ Hq Hc]. destruct (conv_plain _ Hc) as (_ & _ & _ & _ & Hnq). unfold d_tail3 in H. unfold parse_qualifier, qual_of.
  unfold qual_chars in Hnq. rewrite !not_elem_of_cons in Hnq. destruct Hnq as (N1 & N2 & N3 & N4 & N5 & N6 & _).
  repeat (apply elem_of_cons in Hq as [E|Hq]; [rewrite E in H |- *; cbn [app] in H;
    destruct (cstr_cons _ _ _ _ H) as (E1 & _ & T); rewrite E1; cbn [obind Z.eqb Pos.eqb orb andb]|]); [..|by apply elem_of_nil in Hq].
  { repeat (case_cmp; [done|]). cbn. ok_eq. }
  all: destruct (cstr_cons _ _ _ _ T) as (E2 & _); rewrite E2; cbn [obind Z.eqb Pos.eqb orb andb]; try (cbn; ok_eq; fail).
  case_cmp; [done|]. cbn. ok_eq.
Qed.
