(* ===== verification/FmtFormat.v ===== *)
(** * vsnprintf against its reference

    Every item of a format emits its text; the loop over the format emits the
    text of all of them, cut to the buffer and terminated. *)

From S2P Require Import Prelude CMem Ctype Str StrFacts Strto Fmt FmtText FmtSpec.

Local Open Scope Z_scope.
Local Open Scope c_scope.

(** ** Strings and characters *)

Lemma pad_width_emit end_ len o w :
  room end_ o ->
  pad_width end_ len o w = Ok (emit end_ o (replicate (Z.to_nat (w - len)) 32), Z.min w len - 1).
Proof.
  intros Hr. unfold pad_width. remember (Z.to_nat (w - len)) as n eqn:En. revert o w Hr En.
  induction n as [|n IH]; intros o w Hr En; rewrite while_S; case_cmp; try lia; cbn [obind].
  - loop_next. rewrite emit_nil. ok_eq.
  - rewrite ADDCH_emit by (done || (unfold byte_range; lia)). cbn [obind]. loop_next. rewrite IH by (auto with rock; lia).
    rewrite <- emit_app. ok_eq.
Qed.

Lemma pad_char_emit end_ o w :
  room end_ o ->
  pad_char end_ o w = Ok (emit end_ o (replicate (Z.to_nat (w - 1)) 32), Z.min (w - 1) 0).
Proof.
  intros Hr. unfold pad_char. assert (Z.to_nat (w - 1) < S (Z.to_nat w))%nat as Hf by lia. revert Hf.
  generalize (S (Z.to_nat w)) as fuel. remember (Z.to_nat (w - 1)) as n eqn:En. revert o w Hr En.
  induction n as [|n IH]; intros o w Hr En fuel Hf; (destruct fuel as [|fuel]; [lia|]); rewrite while_S; cbv beta iota zeta; case_cmp; try lia; cbn [obind].
  - loop_next. rewrite emit_nil. ok_eq.
  - rewrite ADDCH_emit by (done || (unfold byte_range; lia)). cbn [obind]. loop_next. rewrite IH by (auto with rock; lia).
    rewrite <- emit_app. ok_eq.
Qed.

(** What lies outside the buffer stays. *)
Definition keeps (buf end_ : Z) (m m' : mem) : Prop := forall x, ~ buf <= x < end_ -> m' !! x = m !! x.

Definition clear_of (buf end_ p n : Z) : Prop := p + n < buf \/ end_ <= p.

Lemma keeps_emit buf end_ m o l : buf <= snd o -> keeps buf end_ m (fst o) -> keeps buf end_ m (fst (emit end_ o l)).
Proof.
  intros Hb Hk x Hx. rewrite <- (Hk x Hx). unfold emit. cbn [fst]. apply lookup_write_bytes_ne. rewrite length_take. lia.
Qed.

Lemma cstr_keeps buf end_ m m' p s : keeps buf end_ m m' -> clear_of buf end_ p (Z.of_nat (length s)) -> cstr m p s -> cstr m' p s.
Proof.
  intros Hk Hc [H HF]. split; [|done]. eapply bytes_at_ext; [|exact H]. intros x Hx. apply Hk. rewrite length_app in Hx. cbn in Hx.
  unfold clear_of in Hc. lia.
Qed.

Lemma emit_pos end_ o l : snd o <= snd (emit end_ o l).
Proof. unfold emit. cbn [snd]. lia. Qed.

Lemma emit_space end_ o l : end_ - snd (emit end_ o l) = end_ - snd o - Z.of_nat (length l).
Proof. unfold emit. cbn [snd]. lia. Qed.

(** The characters of a string are copied one by one. *)
Lemma copy_emit end_ s l o :
  room end_ o -> Forall byte_range l ->
  (forall k c, l !! k = Some c -> src_load (fst (emit end_ o (take k l))) s (Z.of_nat k) = Ok c) ->
  while (S (Z.to_nat (Z.of_nat (length l)))) (fun '(o, i) =>
    if i <? Z.of_nat (length l) then
      let! c := src_load (fst o) s i in
      let! o := ADDCH end_ o c in cont (o, i + 1)
    else brk o) (o, 0) = Ok (emit end_ o l).
Proof.
  intros Hr HF Hs. eapply (while_eq (fun '(o', i) => exists k, (k <= length l)%nat /\ i = Z.of_nat k /\ o' = emit end_ o (take k l))
    (fun '(_, i) => (length l - Z.to_nat i)%nat)); [|exists 0%nat; split; [lia|]; split; [done|]; by rewrite emit_nil|cbn; lia].
  intros [o' i] (k & Hk & -> & ->). case_cmp; [|replace k with (length l) by lia; by rewrite firstn_all].
  destruct (lookup_lt_is_Some_2 l k) as [c Hc]; [lia|]. rewrite (Hs k c Hc). cbn [obind].
  rewrite ADDCH_emit by (auto with rock; by eapply list.Forall_lookup_1). cbn [obind cont]. split; [|lia].
  exists (S k). split; [lia|]. split; [lia|]. by rewrite (take_S_r _ _ _ Hc), emit_app.
Qed.

Lemma cstr_char m p s k c : cstr m p s -> s !! k = Some c -> load8 m (p + Z.of_nat k) = Ok c.
Proof.
  intros [H _] Hk. apply load8_lookup. eapply bytes_at_lookup; [exact H|]. rewrite lookup_app_l by (by eapply lookup_lt_Some). done.
Qed.

Section strings.
Context (buf end_ : Z) (m : mem).

Definition str_ok (a : Z) : Prop :=
  a = NULL \/ exists s, cstr m a s /\ Z.of_nat (length s) < 2 ^ 31 /\ clear_of buf end_ a (Z.of_nat (length s)).

Lemma null_strnlen m' n : 0 <= n -> src_strnlen m' (Local null_text) n = Ok (Z.min n 6).
Proof.
  intros Hn. unfold src_strnlen. eapply (while_eq (fun '(sc, c) => 0 <= sc <= Z.min n 6 /\ c = n - sc) (fun '(sc, _) => Z.to_nat (6 - sc))).
  - intros [sc c] (Hs & ->). case_cmp; [cbn; lia|]. cbn [src_load].
    assert (exists x, null_text !! Z.to_nat sc = Some x /\ (x = 0 <-> sc = 6)) as (x & -> & Hx).
    { assert (sc = 0 \/ sc = 1 \/ sc = 2 \/ sc = 3 \/ sc = 4 \/ sc = 5 \/ sc = 6) as Hc by lia.
      repeat destruct Hc as [->|Hc]; [eexists; split; [reflexivity|lia]..|]. subst sc. eexists. split; [reflexivity|lia]. }
    cbn [obind]. case_cmp; [cbn; lia|]. unfold cont. lia.
  - lia.
  - cbn. lia.
Qed.

(** What the code makes of the pointer: where it reads, and the string. *)
Lemma string_source o a :
  buf <= snd o -> keeps buf end_ m (fst o) -> str_ok a ->
  let s := if a =? NULL then Local null_text else Ptr a in
  exists l, string_arg m a l /\ Forall byte_range l /\ Z.of_nat (length l) < 2 ^ 31 /\
    (forall n, 0 <= n -> src_strnlen (fst o) s n = Ok (Z.min n (Z.of_nat (length l)))) /\
    (forall t k c, l !! k = Some c -> src_load (fst (emit end_ o t)) s (Z.of_nat k) = Ok c).
Proof.
  intros Hb Hk Ha s. unfold s, string_arg. destruct (Z.eqb_spec a NULL) as [->|Hn].
  - exists (take 6 null_text). split; [done|]. split; [by repeat constructor|]. split; [done|].
    split; [apply null_strnlen|]. intros t k c Hc. unfold src_load. rewrite Nat2Z.id. apply lookup_take_Some in Hc as [Hc _]. by rewrite Hc.
  - destruct Ha as [|(l & Hc & Hl & Hcl)]; [done|]. exists l. split; [done|]. pose proof Hc as [_ HF].
    split; [eapply list.Forall_impl; [exact HF|]; unfold byte_range; simpl; lia|]. split; [done|]. split.
    + intros n Hn'. apply strnlen_cstr; [|done]. by eapply cstr_keeps.
    + intros t k c Hkc. cbn [src_load]. eapply cstr_char; [|exact Hkc]. eapply cstr_keeps; [|exact Hcl|exact Hc]. by apply keeps_emit.
Qed.

Definition shown_part (prec : Z) (s : list Z) : list Z := if prec <? 0 then s else take (Z.to_nat prec) s.

Lemma shown_length prec l : -1 <= prec < 2 ^ 31 -> Z.of_nat (length l) < 2 ^ 31 ->
  Z.min (u64 prec) (Z.of_nat (length l)) = Z.of_nat (length (shown_part prec l)).
Proof.
  intros Hp Hl. unfold shown_part. case_cmp.
  - replace prec with (-1) by lia. change (u64 (-1)) with (2 ^ 64 - 1). lia.
  - rewrite u64_small, length_take by lia. lia.
Qed.

Lemma string_emit o a w prec flags :
  room end_ o -> buf <= snd o -> keeps buf end_ m (fst o) -> str_ok a -> -1 <= prec < 2 ^ 31 ->
  exists l, string_arg m a l /\
    string_ o end_ (Ptr a) w prec flags = Ok (emit end_ o (padded (flag flags LEFT) w (shown_part prec l))).
Proof.
  intros Hr Hb Hk Ha Hp. destruct (string_source o a Hb Hk Ha) as (l & Hs & HF & Hl & Hlen & Hload). exists l. split; [done|].
  unfold string_. set (s := if a =? NULL then Local null_text else Ptr a) in *. rewrite Hlen by apply u64_range. cbn [obind].
  rewrite shown_length by done. set (l' := shown_part prec l).
  assert (exists k, l' = take k l) as [k Ek].
  { unfold l', shown_part. case_cmp; [exists (length l); by rewrite firstn_all|eauto]. }
  assert (s32 (Z.of_nat (length l')) = Z.of_nat (length l')) as ->.
  { apply swrap_small; [lia|]. rewrite Ek, length_take. lia. }
  assert (forall o', room end_ o' -> (exists t, o' = emit end_ o t) ->
    while (S (Z.to_nat (Z.of_nat (length l')))) (fun '(o, i) =>
      if i <? Z.of_nat (length l') then
        let! c := src_load (fst o) s i in let! o := ADDCH end_ o c in cont (o, i + 1)
      else brk o) (o', 0) = Ok (emit end_ o' l')) as Hcopy.
  { intros o' Hr' (t & ->). apply copy_emit; [done|rewrite Ek; by apply list.Forall_take|]. intros j c Hj. rewrite <- emit_app.
    apply Hload. rewrite Ek in Hj. by apply lookup_take_Some in Hj as [Hj _]. }
  unfold padded. destruct (flag flags LEFT); cbn [negb obind].
  - rewrite Hcopy by (done || (exists []; by rewrite emit_nil)). cbn [obind]. rewrite pad_width_emit by auto with rock. cbn [obind].
    by rewrite emit_app.
  - rewrite pad_width_emit by done. cbn [obind]. rewrite Hcopy by (auto with rock; eauto). cbn [obind].
    rewrite pad_width_emit by auto with rock. cbn [obind]. replace (Z.to_nat (Z.min w _ - 1 - _)) with 0%nat by lia.
    cbn [replicate]. by rewrite emit_nil, emit_app.
Qed.
End strings.

(** ** Numbers *)

Lemma land_small x : Z.land x SMALL = 0 \/ Z.land x SMALL = 32.
Proof.
  assert (Z.land x SMALL = if Z.testbit x 5 then 32 else 0) as ->; [|destruct (Z.testbit x 5); auto].
  apply Z.bits_inj'. intros n Hn. rewrite Z.land_spec. change SMALL with (2 ^ 5). rewrite Z.pow2_bits_eqb by lia.
  destruct (Z.eqb_spec 5 n) as [<-|]; [|rewrite andb_false_r].
  - by destruct (Z.testbit x 5).
  - destruct (Z.testbit x 5); [|by rewrite Z.bits_0]. change 32 with (2 ^ 5). rewrite Z.pow2_bits_eqb by lia. by destruct (Z.eqb_spec 5 n).
Qed.

Lemma decimal_case ds locase : locase = 0 \/ locase = 32 ->
  Forall (fun c => 0 < c < 256 /\ is_digit_of 10 c = true) ds -> Forall (fun c => c ∈ (fun d => Z.lor d locase) <$> digits) ds.
Proof.
  intros Hl HF. eapply list.Forall_impl; [exact HF|]. intros c [Hr Hd]. rewrite digit_of_ten, isdigit_range in Hd by (unfold byte_range; lia).
  apply andb_prop in Hd as [Ha Hb]. apply Z.leb_le in Ha, Hb.
  assert (c = 48 \/ c = 49 \/ c = 50 \/ c = 51 \/ c = 52 \/ c = 53 \/ c = 54 \/ c = 55 \/ c = 56 \/ c = 57) as Hc by lia.
  destruct Hl as [->| ->]; repeat destruct Hc as [->|Hc]; try subst c; apply list_elem_of_In; cbn; tauto.
Qed.

Lemma number_tmp_case num base locase ds :
  locase = 0 \/ locase = 32 -> represents base ds num -> base = 8 \/ base = 10 \/ base = 16 ->
  number_tmp num base locase = Ok ds -> Forall (fun c => c ∈ (fun d => Z.lor d locase) <$> digits) ds.
Proof.
  intros Hl (_ & HF & _) Hb. unfold number_tmp. case_cmp.
  { intros [= <-]. constructor; [|constructor]. destruct Hl as [-> | ->]; apply list_elem_of_In; cbn; tauto. }
  destruct (Z.eqb_spec base 10) as [->|Hn]; cbn [negb]; [intros _; by apply decimal_case|]. intros H.
  refine (while_exit (fun '(tmp, _) => Forall (fun c => c ∈ (fun d => Z.lor d locase) <$> digits) tmp)
    (Forall (fun c => c ∈ (fun d => Z.lor d locase) <$> digits)) _ _ _ _ _ _ H); [|constructor].
  intros [tmp k] x Ht. destruct (digits !! _) as [d|] eqn:Ed; [|done].
  assert (Forall (fun c => c ∈ (fun d => Z.lor d locase) <$> digits) (tmp ++ [Z.lor d locase])) as Ht'.
  { apply list.Forall_app_2; [done|]. constructor; [|constructor]. apply list_elem_of_fmap. exists d. split; [done|]. by eapply list_elem_of_lookup_2. }
  case_cmp; intros [= <-]; done.
Qed.

Lemma fetch_num_u64 q f a : 0 <= fetch_num q f a < 2 ^ 64.
Proof.
  unfold fetch_num. repeat case_match; try apply u64_range.
  all: pose proof (Z.mod_pos_bound (s32 a) (2 ^ 16) ltac:(lia)); pose proof (Z.mod_pos_bound a (2 ^ 32) ltac:(lia)); unfold u16, u32; lia.
Qed.

Lemma number_renders end_ o num base w prec type :
  base = 8 \/ base = 10 \/ base = 16 -> 0 <= num < 2 ^ 64 -> room end_ o ->
  exists ds, represents base ds (snd (fst (number_sign num w type))) /\ digit_case type ds /\
    number o end_ num base w prec type = Ok (emit end_ o (number_text num base w prec type ds)).
Proof.
  intros Hb Hn Hr.
  destruct (number_tmp_represents (snd (fst (number_sign num w type))) base (Z.land type SMALL)) as (ds & Hds & Hrep); [done|apply land_small| |].
  - unfold number_sign. repeat case_match; simpl; auto using u64_range.
  - exists ds. split; [done|]. split; [by eapply number_tmp_case; [apply land_small|..]|].
    apply number_emit; [done|by eapply represents_bytes|apply land_small|done].
Qed.

(** ** The steps *)

Lemma cstr_skip m p a b : cstr m p (a ++ b) -> cstr m (p + Z.of_nat (length a)) b.
Proof.
  intros H. rewrite <- (drop_app_length a b). apply cstr_drop; [|done]. rewrite length_app. lia.
Qed.

Lemma directive_step buf end_ o fmt args d t :
  cstr (fst o) fmt (spell (Conv d) ++ t) -> directive_ok d ->
  let q := fmt + Z.of_nat (length (spell (Conv d))) - 1 in
  load8 (fst o) q = Ok (d_conv d) /\
  format_step buf end_ (o, fmt, args) =
    (let! r := conversion buf end_ o q (flags_of d) (width_of d) (prec_of d) (qual_of d) args in
     match r with
     | inl (o, fmt, args) => cont (o, fmt + 1, args)
     | inr e => brk (inr e)
     end).
Proof.
  intros H Hd q. cbn [spell app] in H. rewrite <- app_assoc in H. destruct (cstr_cons _ _ _ _ H) as (E0 & _ & H0).
  destruct (width_tail_plain d t Hd) as (c & r & Ec & Hc). pose proof H0 as Hf. rewrite Ec in Hf.
  pose proof (cstr_skip _ _ _ _ H0) as H1. pose proof H1 as H1'. unfold d_tail1 in H1'. rewrite <- app_assoc in H1'.
  pose proof (cstr_skip _ _ _ _ H1') as H2. pose proof H2 as H2'. unfold d_tail2 in H2'. rewrite <- app_assoc in H2'.
  pose proof (cstr_skip _ _ _ _ H2') as H3. pose proof H3 as H3'. unfold d_tail3 in H3'. rewrite <- app_assoc in H3'.
  pose proof (cstr_skip _ _ _ _ H3') as H4. destruct (cstr_cons _ _ _ _ H4) as (E4 & _).
  assert (q = fmt + 1 + Z.of_nat (length (d_flags d)) + Z.of_nat (length (d_width d)) +
    Z.of_nat (length (match d_prec d with Some p => 46 :: p | None => [] end)) + Z.of_nat (length (d_qual d))) as Eq.
  { unfold q. cbn [spell length]. unfold d_tail1, d_tail2, d_tail3. rewrite !length_app. cbn [length]. lia. }
  rewrite Eq. split; [exact E4|]. unfold format_step. rewrite E0. cbn [obind Z.eqb Pos.eqb negb].
  rewrite (parse_flags_spec _ _ _ _ _ Hf (dk_flags _ Hd) Hc). cbn [obind]. fold (flags_of d).
  rewrite (parse_width_spec _ _ _ _ _ H1 Hd). cbn [obind]. rewrite (parse_precision_spec _ _ _ _ _ H2 Hd). cbn [obind].
  by rewrite (parse_qualifier_spec _ _ _ _ H3 Hd).
Qed.

Lemma prec_range d : directive_ok d -> -1 <= prec_of d < 2 ^ 31.
Proof.
  intros [_ _ Hp _ _]. unfold prec_of. destruct (d_prec d) as [[|c ds]|]; try lia. destruct (Hp _ eq_refl) as [HF Hv].
  pose proof (dec_value_nonneg _ HF). lia.
Qed.

Section items.
Context (buf end_ : Z) (m : mem).

(** Arguments for the items in a buffer with [space] bytes left: enough of
    them, and strings where %s takes one. *)
Fixpoint args_ok (space : Z) (items : list item) (args : list Z) : Prop :=
  match items with
  | [] => True
  | Text _ :: items => args_ok (space - 1) items args
  | Conv d :: items =>
      if d_conv d =? 37 then args_ok (space - 1) items args
      else if char_cut space d then args_ok (space - Z.of_nat (length (cut_text d))) items args
      else
      match args with
      | [] => False
      | a :: args =>
          (d_conv d = 115 -> str_ok buf end_ m (u64 a)) /\
          forall text, shows m d a text -> args_ok (space - Z.of_nat (length text)) items args
      end
  end.

(** Without %c the space does not matter. *)
Fixpoint plain_args (items : list item) (args : list Z) : Prop :=
  match items with
  | [] => True
  | Text _ :: items => plain_args items args
  | Conv d :: items =>
      if d_conv d =? 37 then plain_args items args else
      match args with
      | [] => False
      | a :: args => d_conv d <> 99 /\ (d_conv d = 115 -> str_ok buf end_ m (u64 a)) /\ plain_args items args
      end
  end.

Lemma plain_args_ok items : forall space args, plain_args items args -> args_ok space items args.
Proof.
  induction items as [|[c|d] items IH]; intros space args; cbn [plain_args args_ok]; auto.
  destruct (d_conv d =? 37); [auto|]. destruct args as [|a args]; [done|]. intros (Hn & Hs & Ha).
  unfold char_cut. destruct (Z.eqb_spec (d_conv d) 99); [done|]. cbn [andb]. auto.
Qed.

(** What the directive [d] at the head of [items] does: it prints its text,
    moves behind its spelling and takes its arguments. *)
Definition step_ok (d : directive) (items : list item) (o : out) (next : Z) (args : list Z)
    (c : outcome (out * Z * list Z + (out + mem * Z))) : Prop :=
  exists text args', args_ok (end_ - snd o - Z.of_nat (length text)) items args' /\ c = cont (emit end_ o text, next, args') /\
    forall rest, renders m (end_ - snd o - Z.of_nat (length text)) items args' rest ->
      renders m (end_ - snd o) (Conv d :: items) args (text ++ rest).

(** A directive that shows its argument. *)
Lemma shown_step d items o next a args text c :
  char_cut (end_ - snd o) d = false -> shows m d a text -> c = cont (emit end_ o text, next, args) ->
  (forall text, shows m d a text -> args_ok (end_ - snd o - Z.of_nat (length text)) items args) ->
  step_ok d items o next (a :: args) c.
Proof. intros Hc Hs -> Ha. exists text, args. split; [by apply Ha|]. split; [done|]. intros rest. by apply R_conv. Qed.

Lemma number_step d items o q base extra a args :
  num_conv_of (d_conv d) = Some (base, extra) -> base = 8 \/ base = 10 \/ base = 16 -> room end_ o ->
  (forall text, shows m d a text -> args_ok (end_ - snd o - Z.of_nat (length text)) items args) ->
  step_ok d items o (q + 1) (a :: args)
    (let! r := (let! '(a, args) := va_arg (a :: args) in
       let! o := number o end_ (fetch_num (qual_of d) (Z.lor (flags_of d) extra) a) base (width_of d) (prec_of d) (Z.lor (flags_of d) extra) in
       Ok (inl (o, q, args))) in
     match r with inl (o, fmt, args) => cont (o, fmt + 1, args) | inr e => brk (inr e) end).
Proof.
  intros En Hbase Hr Ha. cbn [va_arg obind].
  destruct (number_renders end_ o (fetch_num (qual_of d) (Z.lor (flags_of d) extra) a) base (width_of d) (prec_of d) (Z.lor (flags_of d) extra))
    as (ds & Hrep & Hcase & ->); [done|apply fetch_num_u64|done|]. cbn [obind].
  eapply shown_step; [|by eapply S_number|done|done]. unfold char_cut. destruct (Z.eqb_spec (d_conv d) 99) as [E|]; [by rewrite E in En|done].
Qed.

(** The character of a %c: stored with the next argument, or only counted. *)
Lemma addch_arg_emit o args :
  room end_ o ->
  addch_arg end_ o args =
    if end_ - snd o <=? 0 then Ok (emit end_ o [0], args)
    else match args with a :: args => Ok (emit end_ o [u8 a], args) | [] => Fault end.
Proof.
  intros Hr. destruct o as [m0 p]. unfold addch_arg. cbn [snd].
  destruct (Z.ltb_spec p end_), (Z.leb_spec (end_ - p) 0); try lia.
  - destruct args as [|a args]; [done|]. cbn [va_arg obind]. pose proof (ADDCH_emit end_ (m0, p) (u8 a) Hr (u8_range a)) as E.
    unfold ADDCH in E. destruct (Z.ltb_spec p end_); [|lia]. destruct (store8 m0 p (u8 a)); cbn [obind] in *; try done. by injection E as ->.
  - unfold emit. cbn [fst snd]. by replace (Z.to_nat (end_ - p)) with 0%nat by lia.
Qed.

Lemma char_emit d (o : out) (q : Z) (args args' : list Z) (c : Z) :
  room end_ o ->
  (end_ - snd o <=? char_offset d) = true /\ c = 0 /\ args' = args \/
  (end_ - snd o <=? char_offset d) = false /\ (exists a, args = a :: args' /\ c = u8 a) ->
  (let! '(o, w) := if negb (flag (flags_of d) LEFT) then pad_char end_ o (width_of d) else Ok (o, width_of d) in
   let! '(o, args) := addch_arg end_ o args in
   let! '(o, _) := pad_char end_ o w in
   Ok (inl (B := mem * Z) (o, q, args))) =
  Ok (inl (emit end_ o (padded (flag (flags_of d) LEFT) (width_of d) [c]), q, args')).
Proof.
  intros Hr Hc. unfold padded, char_offset in *. cbn [length]. destruct (flag (flags_of d) LEFT); cbn [negb obind] in *.
  - rewrite addch_arg_emit by done.
    destruct Hc as [(-> & -> & ->)|(-> & a & -> & ->)]; cbn [obind]; rewrite pad_char_emit by auto with rock; cbn [obind]; by rewrite <- emit_app.
  - rewrite pad_char_emit by done. cbn [obind]. rewrite addch_arg_emit by auto with rock.
    set (o1 := emit end_ o _). replace (end_ - snd o1 <=? 0) with (end_ - snd o <=? Z.max 0 (width_of d - 1))
      by (unfold o1, emit; cbn [snd]; rewrite length_replicate; destruct (Z.leb_spec (end_ - snd o) (Z.max 0 (width_of d - 1)));
          symmetry; [apply Z.leb_le|apply Z.leb_gt]; lia).
    destruct Hc as [(-> & -> & ->)|(-> & a & -> & ->)]; cbn [obind]; rewrite pad_char_emit by (unfold o1; auto with rock); cbn [obind];
      replace (Z.to_nat (Z.min _ 0 - 1)) with 0%nat by lia; cbn [replicate]; rewrite emit_nil; unfold o1; by rewrite <- emit_app.
Qed.

Lemma char_step d items o q args :
  d_conv d = 99 -> room end_ o -> args_ok (end_ - snd o) (Conv d :: items) args ->
  step_ok d items o (q + 1) args
    (let! r := (let! '(o, w) := if negb (flag (flags_of d) LEFT) then pad_char end_ o (width_of d) else Ok (o, width_of d) in
       let! '(o, args) := addch_arg end_ o args in
       let! '(o, _) := pad_char end_ o w in
       Ok (inl (o, q, args))) in
     match r with inl (o, fmt, args) => cont (o, fmt + 1, args) | inr e => brk (inr e) end).
Proof.
  intros Ec Hr Ha. assert (forall space, char_cut space d = (space <=? char_offset d)) as Hcut by (intros; unfold char_cut; by rewrite Ec).
  cbn [args_ok] in Ha. rewrite Hcut, Ec in Ha. cbn [Z.eqb Pos.eqb] in Ha. destruct (end_ - snd o <=? char_offset d) eqn:Es.
  - rewrite (char_emit d o q args args 0) by auto. exists (cut_text d), args. split; [done|]. split; [done|].
    intros rest. apply R_cut. by rewrite Hcut.
  - destruct args as [|a args]; [done|]. destruct Ha as [_ Ha]. rewrite (char_emit d o q (a :: args) args (u8 a)) by eauto.
    eapply shown_step; [by rewrite Hcut|by apply S_char|done|done].
Qed.

Lemma string_step d items o q a args :
  d_conv d = 115 -> directive_ok d -> buf <= snd o -> room end_ o -> keeps buf end_ m (fst o) -> str_ok buf end_ m (u64 a) ->
  (forall text, shows m d a text -> args_ok (end_ - snd o - Z.of_nat (length text)) items args) ->
  step_ok d items o (q + 1) (a :: args)
    (let! r := (let! '(a, args) := va_arg (a :: args) in
       let! o := string_ o end_ (Ptr (u64 a)) (width_of d) (prec_of d) (flags_of d) in
       Ok (inl (o, q, args))) in
     match r with inl (o, fmt, args) => cont (o, fmt + 1, args) | inr e => brk (inr e) end).
Proof.
  intros Ec Hd Hb Hr Hk Hs Ha. cbn [va_arg obind].
  destruct (string_emit buf end_ m o (u64 a) (width_of d) (prec_of d) (flags_of d) Hr Hb Hk Hs (prec_range d Hd)) as (l & Hl & ->). cbn [obind].
  eapply shown_step; [unfold char_cut; by rewrite Ec|by apply S_string|done|done].
Qed.

Lemma directive_renders o fmt args d items t :
  buf <= snd o -> room end_ o -> keeps buf end_ m (fst o) ->
  cstr (fst o) fmt (spell (Conv d) ++ t) -> directive_ok d -> args_ok (end_ - snd o) (Conv d :: items) args ->
  step_ok d items o (fmt + Z.of_nat (length (spell (Conv d)))) args (format_step buf end_ (o, fmt, args)).
Proof.
  intros Hb Hr Hk Hs Hd Ha. destruct (directive_step buf end_ o fmt args d t Hs Hd) as [Ec ->].
  set (q := fmt + Z.of_nat (length (spell (Conv d))) - 1) in *.
  replace (fmt + Z.of_nat (length (spell (Conv d)))) with (q + 1) by (unfold q; lia). clearbody q.
  unfold conversion. rewrite Ec. cbn [obind]. destruct (Z.eqb_spec (d_conv d) 99) as [E99|N99]; [by apply char_step|].
  pose proof (dk_conv _ Hd) as Hc. cbn [args_ok] in Ha. unfold char_cut in Ha. destruct (Z.eqb_spec (d_conv d) 99) as [|_]; [done|]. cbn [andb] in Ha.
  repeat (apply elem_of_cons in Hc as [E|Hc]; [rewrite E in Ha |- *; cbn [Z.eqb Pos.eqb orb] in Ha |- *|]); [..|by apply elem_of_nil in Hc].
  1: done.
  2: { rewrite ADDCH_emit by (done || (unfold byte_range; lia)). cbn [obind]. exists [37], args. split; [done|]. split; [done|].
       intros. by apply R_percent. }
  all: destruct args as [|a args]; [done|]; destruct Ha as [Hstr Ha].
  - apply string_step; auto.
  - apply (number_step d items o q 10 SIGN a args); [by rewrite E|auto|done|done].
  - apply (number_step d items o q 10 SIGN a args); [by rewrite E|auto|done|done].
  - pose proof (number_step d items o q 10 0 a args) as H. rewrite Z.lor_0_r in H. apply H; [by rewrite E|auto|done|done].
  - apply (number_step d items o q 16 SMALL a args); [by rewrite E|auto|done|done].
  - pose proof (number_step d items o q 16 0 a args) as H. rewrite Z.lor_0_r in H. apply H; [by rewrite E|auto|done|done].
  - pose proof (number_step d items o q 8 0 a args) as H. rewrite Z.lor_0_r in H. apply H; [by rewrite E|auto|done|done].
Qed.
End items.

Definition spelling (items : list item) : list Z := concat (spell <$> items).

Lemma format_loop buf end_ m items : forall o fmt args fuel,
  buf <= snd o -> room end_ o -> keeps buf end_ m (fst o) -> Forall item_ok items ->
  cstr m fmt (spelling items) -> clear_of buf end_ fmt (Z.of_nat (length (spelling items))) ->
  args_ok buf end_ m (end_ - snd o) items args -> (length items < fuel)%nat ->
  exists text, renders m (end_ - snd o) items args text /\
    while fuel (format_step buf end_) (o, fmt, args) = Ok (inl (emit end_ o text)).
Proof.
  unfold spelling. induction items as [|i items IH]; intros o fmt args fuel Hb Hr Hk HF Hs Hcl Ha Hf; (destruct fuel as [|fuel]; [cbn in Hf; lia|]);
    rewrite while_S; cbn [fmap list_fmap concat] in Hs, Hcl.
  - exists []. split; [constructor|]. unfold format_step. pose proof (cstr_keeps _ _ _ _ _ _ Hk Hcl Hs) as Ho.
    rewrite (cstr_nil _ _ Ho). cbn [obind Z.eqb]. loop_next. by rewrite emit_nil.
  - apply Forall_cons_1 in HF as [Hi HF]. pose proof (cstr_keeps _ _ _ _ _ _ Hk Hcl Hs) as Ho.
    pose proof (cstr_skip _ _ _ _ Hs) as Hs'. rewrite length_app in Hcl.
    assert (clear_of buf end_ (fmt + Z.of_nat (length (spell i))) (Z.of_nat (length (concat (spell <$> items))))) as Hcl'
      by (unfold clear_of in *; lia).
    assert (forall l, buf <= snd (emit end_ o l)) as Hb' by (intros l; pose proof (emit_pos end_ o l); lia).
    destruct i as [c|d].
    + destruct Hi as [Hc Hn]. cbn [spell app] in Ho. unfold format_step at 1. destruct (cstr_cons _ _ _ _ Ho) as (-> & _). cbn [obind].
      destruct (Z.eqb_spec c 0); [lia|]. destruct (Z.eqb_spec c 37); [done|]. cbn [negb].
      rewrite ADDCH_emit by (done || (unfold byte_range; lia)). cbn [obind]. loop_next.
      destruct (IH (emit end_ o [c]) (fmt + 1) args fuel) as (text & Ht & ->);
        [apply Hb'|by apply room_emit|by apply keeps_emit|done|done|done|by rewrite emit_space|cbn in Hf; lia|].
      rewrite emit_space in Ht. exists (c :: text). split; [by constructor|]. by rewrite <- emit_app.
    + destruct (directive_renders buf end_ m o fmt args d items _ Hb Hr Hk Ho Hi Ha) as (t & args' & Ha' & -> & Hren). loop_next.
      destruct (IH (emit end_ o t) (fmt + Z.of_nat (length (spell (Conv d)))) args' fuel) as (text & Ht & ->);
        [apply Hb'|by apply room_emit|by apply keeps_emit|done|done|done|by rewrite emit_space|cbn in Hf; lia|].
      rewrite emit_space in Ht. exists (t ++ text). split; [by apply Hren|]. by rewrite <- emit_app.
Qed.

(** The end of [vsnprintf]: the terminator, inside the buffer in any case. *)
Lemma finish_text m buf size text :
  0 < size -> mapped m buf size ->
  (let! '(m', str) := ADDCH (buf + size) (emit (buf + size) (m, buf) text) 0 in
   let! m' := if buf + size <? str then store8 m' (buf + size - 1) 0 else Ok m' in
   Ok (m', str)) =
  Ok (write_bytes m buf (take (Z.to_nat (size - 1)) text ++ [0]), buf + Z.of_nat (length text) + 1).
Proof.
  intros Hs Hm. assert (room (buf + size) (m, buf)) as Hr by (eapply mapped_sub; [exact Hm|cbn; lia|cbn; lia]).
  rewrite ADDCH_emit by (done || auto with rock). rewrite <- emit_app. unfold emit. cbn [fst snd obind]. rewrite length_app. cbn [length].
  replace (buf + size - buf) with size by lia. destruct (Z.ltb_spec (buf + size) (buf + Z.of_nat (length text + 1))) as [Hlt|Hge].
  - rewrite take_app_le by lia.
    assert (mapped (write_bytes m buf (take (Z.to_nat size) text)) buf size) as Hm' by by apply mapped_write_bytes.
    rewrite store8_mapped by (apply Hm'; lia). cbn [obind]. change (u8 0) with 0.
    destruct (lookup_lt_is_Some_2 text (Z.to_nat (size - 1))) as [c Hc]; [lia|].
    replace (Z.to_nat size) with (S (Z.to_nat (size - 1))) by lia. rewrite (take_S_r _ _ _ Hc), !write_bytes_snoc.
    rewrite !length_take. replace (buf + Z.of_nat (Z.to_nat (size - 1) `min` length text)) with (buf + size - 1) by lia.
    rewrite insert_insert_eq. ok_eq.
  - rewrite !take_ge by (rewrite ?length_app; cbn [length]; lia). cbn [obind]. ok_eq.
Qed.

Lemma vsnprintf_renders (m : mem) (buf size fmt : Z) (items : list item) (args : list Z) :
  Forall item_ok items -> cstr m fmt (spelling items) ->
  0 <= buf -> 0 <= size -> buf + size < 2 ^ 64 -> mapped m buf size ->
  clear_of buf (buf + size) fmt (Z.of_nat (length (spelling items))) -> args_ok buf (buf + size) m size items args ->
  exists text, renders m size items args text /\ (Z.of_nat (length text) <= size -> means m items args text) /\
    vsnprintf m buf size fmt args =
      Ok (if size =? 0 then m else write_bytes m buf (take (Z.to_nat (size - 1)) text ++ [0]), s32 (Z.of_nat (length text))).
Proof.
  intros HF Hf Hb Hs Hlt Hm Hcl Ha. assert (buf + size - snd (m, buf) = size) as Esp by (cbn; lia).
  destruct (format_loop buf (buf + size) m items (m, buf) fmt args (fuel_of m)) as (text & Ht & E);
    [done|eapply mapped_sub; [exact Hm|cbn; lia|cbn; lia]|done|done|done|done|by rewrite Esp| |].
  { apply cstr_size in Hf. assert (length items <= length (spelling items))%nat; [|unfold fuel_of; lia].
    unfold spelling. clear. induction items as [|i items IH]; [done|]. cbn [fmap list_fmap concat length]. rewrite length_app. destruct i; cbn; lia. }
  rewrite Esp in Ht. exists text. split; [done|]. split; [by apply renders_fits|]. unfold vsnprintf, vsnprintf_internal. cbv zeta. rewrite u64_small by lia.
  destruct (Z.ltb_spec (buf + size) buf); [lia|]. rewrite E. cbn [obind]. destruct (Z.eqb_spec size 0) as [->|Hne].
  - cbn [Z.ltb Z.compare]. unfold emit. cbn [fst snd]. replace (Z.to_nat (buf + 0 - buf)) with 0%nat by lia. cbn [take write_bytes]. ok_eq. f_equal. lia.
  - destruct (Z.ltb_spec 0 size); [|lia]. pose proof (finish_text m buf size text ltac:(lia) Hm) as Hfin.
    destruct (ADDCH (buf + size) (emit (buf + size) (m, buf) text) 0) as [[m' str]| | |]; cbn [obind] in Hfin |- *; try done.
    destruct (if buf + size <? str then store8 m' (buf + size - 1) 0 else Ok m') as [m''| | |]; cbn [obind] in Hfin |- *; try done.
    injection Hfin as -> ->. ok_eq. f_equal. lia.
Qed.

(** ** Claims *)


(** "%-4s:%c%c%#lx" with a string, two characters and a number, into a buffer
    of six bytes: the second character does not fit, and %#lx shows it. *)
Definition demo_items : list item :=
  [Conv (Directive [45] [52] None [] 115); Text 58; Conv (Directive [] [] None [] 99);
   Conv (Directive [] [] None [] 99); Conv (Directive [35] [] None [108] 120)].
Definition demo_fmt_mem : mem :=
  write_bytes (mem_of 100 (spelling demo_items ++ [0] ++ [97; 98; 0])) 200 (replicate 8 7).

Lemma demo_string : cstr demo_fmt_mem 114 [97; 98].
Proof. split; [vm_compute; repeat split|repeat constructor]. Qed.

Lemma demo_args : args_ok 200 206 demo_fmt_mem 6 demo_items [114; 88; 89; 255].
Proof.
  cbn [args_ok demo_items d_conv Z.eqb Pos.eqb]. unfold char_cut at 1. cbn [d_conv Z.eqb Pos.eqb andb]. split.
  { intros _. right. exists [97; 98]. split; [exact demo_string|]. split; [done|]. left. by vm_compute. }
  intros text Ht. assert (length text = 4%nat) as ->.
  { destruct Ht as [H|s H Hs|? ? ? H]; [done| |done]. apply (cstr_inj _ _ _ _ demo_string) in Hs as <-. by vm_compute. }
  split; [done|]. intros text' Ht'. assert (length text' = 1%nat) as ->.
  { destruct Ht' as [H|s H Hs|? ? ? H]; done || by vm_compute. }
  split; [done|]. auto.
Qed.


(** The arguments of the code in that buffer: %#lx prints the second character
    and the number is left over. *)
Example char_behind_buffer :
  (let! '(_, n) := vsnprintf demo_fmt_mem 200 6 100 [114; 88; 89] in Ok n) = Ok 11 /\
  (let! '(_, n) := vsnprintf demo_fmt_mem 200 8 100 [114; 88; 89] in Ok n) = Fault.
Proof. split; vm_compute; reflexivity. Qed.
