(* ===== verification/Console.v ===== *)
(** * The console and the world of a command

    Commands run against a [world]: the memory and the console traffic.  A
    console call is recorded as an event that carries what the code passes:
    the format literal and the argument values of [printf] (how they turn
    into characters is [Fmt]; the bytes of the argument where it is a string
    that the code changes later, and the literal where the last argument is
    one), the bytes of a string given to [puts] (or the literal, as it is
    spelled in the source), a character given to [putc].  A call of a routine
    written in assembly (cache and TLB maintenance) is an [Asm] event.  The
    newest event is last. *)

From stdpp Require Export strings.
From S2P Require Import Prelude CMem Str.

Local Open Scope Z_scope.
Local Open Scope c_scope.

Inductive event : Type :=
  | Printf (fmt : string) (args : list Z)
  | PrintfStr (fmt : string) (text : list Z)
  | PrintfLit (fmt : string) (args : list Z) (text : string)
  | Printk (level : Z) (fmt : string) (args : list Z)
  | Puts (text : list Z)
  | PutsLit (text : string)
  | Putc (c : Z)
  | Asm (routine : string) (args : list Z).

#[export] Instance event_eq_dec : EqDecision event.
Proof. solve_decision. Defined.

Record world : Type := World {
  w_mem : mem;
  w_io : list event
}.

Definition say (e : event) (w : world) : world := World (w_mem w) (w_io w ++ [e]).
Definition set_mem (m : mem) (w : world) : world := World m (w_io w).

(** [puts] of a string in memory. *)
Definition puts (p : Z) (w : world) : outcome world :=
  let! n := strlen (w_mem w) p in
  Ok (say (Puts (read_bytes (w_mem w) p (Z.to_nat n))) w).

Definition puts_lit (s : string) (w : world) : world := say (PutsLit s) w.

Definition putc (c : Z) (w : world) : world := say (Putc (u8 c)) w.

Definition printf (fmt : string) (args : list Z) (w : world) : world := say (Printf fmt args) w.

(** [printf] with one string argument, a local buffer. *)
Definition printf_str (fmt : string) (text : list Z) (w : world) : world := say (PrintfStr fmt text) w.

(** [printf] whose last argument is a string literal. *)
Definition printf_lit (fmt : string) (args : list Z) (text : string) (w : world) : world := say (PrintfLit fmt args text) w.

(** [printk] at a level ([pr_emerg] 0 ... [pr_info] 6); the filter on the
    message level is applied where the event is shown. *)
Definition printk (level : Z) (fmt : string) (args : list Z) (w : world) : world :=
  say (Printk level fmt args) w.
Definition pr_emerg := printk 0.
Definition pr_err := printk 3.
Definition pr_warn := printk 4.
Definition pr_info := printk 6.

Lemma w_mem_say e w : w_mem (say e w) = w_mem w.
Proof. done. Qed.
