(* ===== verification/Words.v ===== *)
(** * Words in memory and what a store leaves alone

    Reasoning about structures linked by pointers: the [n]-byte value at an
    address, the relation between two memories that differ only inside a
    region, and singly linked lists. *)

From S2P Require Import Prelude CMem.

Local Open Scope Z_scope.
Local Open Scope c_scope.

(** ** Values *)
Definition rdn (n : nat) (m : mem) (a : Z) : Z := le_value (read_bytes m a n).
Abbreviation rdw := (rdn 8).
Abbreviation rdh := (rdn 2).

(** ** Regions *)
Definition span_of (a n : Z) : Z -> Prop := fun x => a <= x < a + n.

(** [m'] has the same addresses as [m] and the same bytes outside [R]. *)
Definition unchanged (R : Z -> Prop) (m m' : mem) : Prop :=
  dom m' =@{gset Z} dom m /\ forall x, ~ R x -> m' !! x = m !! x.

Definition apart (R : Z -> Prop) (a n : Z) : Prop := forall x, a <= x < a + n -> ~ R x.

Lemma apart_span a k c j : a + k <= c \/ c + j <= a -> apart (span_of a k) c j.
Proof. unfold apart, span_of. lia. Qed.

Lemma apart_sub R a k c j : apart R a k -> a <= c -> c + j <= a + k -> apart R c j.
Proof. unfold apart. intros H H1 H2 x Hx. apply H. lia. Qed.

Lemma unchanged_refl R m : unchanged R m m.
Proof. done. Qed.

Lemma unchanged_trans R m1 m2 m3 : unchanged R m1 m2 -> unchanged R m2 m3 -> unchanged R m1 m3.
Proof. intros [D1 H1] [D2 H2]. split; [congruence|]. intros x Hx. by rewrite H2, H1. Qed.

Lemma unchanged_mono (R R' : Z -> Prop) m m' :
  unchanged R m m' -> (forall x, R x -> R' x) -> unchanged R' m m'.
Proof. intros [D H] HR. split; [done|]. intros x Hx. apply H. eauto. Qed.

Lemma unchanged_mapped R m m' a n : unchanged R m m' -> mapped m a n -> mapped m' a n.
Proof. intros [D _]. by apply mapped_dom. Qed.

Lemma unchanged_bytes R m m' a n :
  unchanged R m m' -> apart R a n -> forall x, a <= x < a + n -> m' !! x = m !! x.
Proof. intros [_ H] HR x Hx. by apply H, HR. Qed.

Lemma read_bytes_ext m m' a n :
  (forall x, a <= x < a + Z.of_nat n -> m' !! x = m !! x) -> read_bytes m' a n = read_bytes m a n.
Proof.
  revert a. induction n as [|n IH]; intros a H; [done|]. simpl. rewrite H by lia. f_equal.
  apply IH. intros x Hx. apply H. lia.
Qed.

Lemma rdn_unchanged n R m m' a :
  unchanged R m m' -> apart R a (Z.of_nat n) -> rdn n m' a = rdn n m a.
Proof. intros H HR. unfold rdn. f_equal. apply read_bytes_ext. by eapply unchanged_bytes. Qed.

Lemma load_le_rdn n m a : mapped m a (Z.of_nat n) -> load_le n m a = Ok (rdn n m a).
Proof.
  intros H. rewrite <- (length_read_bytes m a n) at 1. unfold rdn.
  apply load_le_at with (k := []). rewrite app_nil_r. by apply read_bytes_at.
Qed.

Lemma load64_rdw m a : mapped m a 8 -> load64 m a = Ok (rdw m a).
Proof. apply (load_le_rdn 8). Qed.

Lemma load16_rdh m a : mapped m a 2 -> load16 m a = Ok (rdh m a).
Proof. apply (load_le_rdn 2). Qed.

Lemma store_le_spec n m a v :
  mapped m a (Z.of_nat n) ->
  returns (store_le n m a v) (fun m' =>
    unchanged (span_of a (Z.of_nat n)) m m' /\ rdn n m' a = v mod 2 ^ (8 * Z.of_nat n)).
Proof.
  intros H. rewrite (store_le_write n m a v H). apply returns_ok.
  pose proof (length_le_bytes n v) as Hl. split; [split|].
  - apply dom_write_bytes. by rewrite Hl.
  - intros x Hx. apply lookup_write_bytes_ne. rewrite Hl. unfold span_of in Hx. lia.
  - unfold rdn. rewrite <- Hl at 2. rewrite bytes_at_read_bytes by apply write_bytes_at.
    apply le_value_bytes.
Qed.

Lemma store64_spec m a v :
  mapped m a 8 ->
  returns (store64 m a v) (fun m' => unchanged (span_of a 8) m m' /\ rdw m' a = v mod 2 ^ 64).
Proof. apply (store_le_spec 8). Qed.

Lemma store16_spec m a v :
  mapped m a 2 ->
  returns (store16 m a v) (fun m' => unchanged (span_of a 2) m m' /\ rdh m' a = v mod 2 ^ 16).
Proof. apply (store_le_spec 2). Qed.

(** ** Linked lists: [lk x] is the address of the link of the node [x] *)

(** The nodes [l] from [p] up to [q]. *)
Fixpoint lseg (lk : Z -> Z) (m : mem) (p : Z) (l : list Z) (q : Z) : Prop :=
  match l with
  | [] => p = q
  | x :: l => p = x /\ x <> NULL /\ lseg lk m (rdw m (lk x)) l q
  end.

Definition linked (lk : Z -> Z) (m : mem) (p : Z) (l : list Z) : Prop := lseg lk m p l NULL.

Lemma lseg_app lk m p l1 l2 q :
  lseg lk m p (l1 ++ l2) q <-> exists r, lseg lk m p l1 r /\ lseg lk m r l2 q.
Proof.
  revert p. induction l1 as [|x l1 IH]; intros p; simpl.
  - split; [eauto|]. by intros (r & -> & H).
  - rewrite IH. naive_solver.
Qed.

Lemma lseg_ext lk m m' p l q :
  (forall x, x ∈ l -> rdw m' (lk x) = rdw m (lk x)) -> lseg lk m p l q -> lseg lk m' p l q.
Proof.
  revert p. induction l as [|x l IH]; intros p H; simpl; [done|].
  intros (-> & Hx & Hl). split; [done|]. split; [done|]. rewrite H by set_solver.
  apply IH; [|done]. intros y Hy. apply H. set_solver.
Qed.

Lemma lseg_unchanged lk R m m' p l q :
  unchanged R m m' -> (forall x, x ∈ l -> apart R (lk x) 8) -> lseg lk m p l q -> lseg lk m' p l q.
Proof. intros H HR. apply lseg_ext. intros x Hx. eapply (rdn_unchanged 8); [done|]. by apply HR. Qed.

Lemma lseg_nonnull lk m p l q x : lseg lk m p l q -> x ∈ l -> x <> NULL.
Proof.
  revert p. induction l as [|y l IH]; intros p; simpl; [set_solver|].
  intros (_ & Hy & Hl). rewrite elem_of_cons. intros [->|Hx]; [done|]. by eapply IH.
Qed.

Lemma linked_head lk m p l : linked lk m p l -> p = default NULL (head l).
Proof. unfold linked. destruct l as [|x l]; simpl; [done|]. by intros [-> _]. Qed.

Lemma linked_null lk m l : linked lk m NULL l -> l = [].
Proof. unfold linked. destruct l as [|x l]; simpl; [done|]. intros (<- & H & _). done. Qed.

Lemma linked_cons_inv lk m p l : p <> NULL -> linked lk m p l -> exists l', l = p :: l'.
Proof. unfold linked. destruct l as [|x l]; simpl; [done|]. intros _ (-> & _). eauto. Qed.

Lemma linked_unchanged lk R m m' p l :
  unchanged R m m' -> (forall x, x ∈ l -> apart R (lk x) 8) -> linked lk m p l -> linked lk m' p l.
Proof. apply lseg_unchanged. Qed.

(** The loop that links an arithmetic progression of [k] nodes. *)
Definition nodes (p stride : Z) (k : nat) : list Z := (fun i => p + stride * Z.of_nat i) <$> seq 0 k.

Lemma nodes_S p stride k : nodes p stride (S k) = p :: nodes (p + stride) stride k.
Proof.
  unfold nodes. simpl. f_equal; [lia|]. rewrite <- fmap_S_seq, <- list_fmap_compose.
  apply list_fmap_ext. intros i x _. simpl. lia.
Qed.

Lemma elem_of_nodes p stride k x :
  x ∈ nodes p stride k <-> exists i, 0 <= i < Z.of_nat k /\ x = p + stride * i.
Proof.
  unfold nodes. rewrite list_elem_of_fmap. split.
  - intros (i & -> & Hi). apply elem_of_seq in Hi. exists (Z.of_nat i). lia.
  - intros (i & Hi & ->). exists (Z.to_nat i). rewrite elem_of_seq. rewrite Z2Nat.id by lia. split; [done|lia].
Qed.

Lemma length_nodes p stride k : length (nodes p stride k) = k.
Proof. unfold nodes. by rewrite length_fmap, length_seq. Qed.

Lemma NoDup_nodes p stride k : stride <> 0 -> NoDup (nodes p stride k).
Proof. intros H. apply NoDup_fmap_2; [|apply NoDup_seq]. intros i j E. apply Z.add_cancel_l, Z.mul_cancel_l in E; lia. Qed.

Lemma nodes_snoc p stride k : nodes p stride (S k) = nodes p stride k ++ [p + stride * Z.of_nat k].
Proof. unfold nodes. rewrite seq_S, fmap_app. done. Qed.

Lemma link_loop (lk : Z -> Z) off stride k fuel p m :
  (forall x, lk x = x + off) -> 0 <= off -> off + 8 <= stride -> 0 <= p -> p + stride * (Z.of_nat k + 1) < 2 ^ 64 ->
  mapped m p (stride * (Z.of_nat k + 1)) -> (k < fuel)%nat ->
  (0 < p) ->
  returns (while fuel (fun '(i, p, m) =>
    if 1 <? i then
      let! m := store64 m (lk p) (p + stride) in cont (i - 1, p + stride, m)
    else brk (m, p)) (Z.of_nat k + 1, p, m))
  (fun '(m', e) => e = p + stride * Z.of_nat k /\ unchanged (span_of p (stride * Z.of_nat k)) m m' /\
     lseg lk m' p (nodes p stride k) e).
Proof.
  intros Hlk H1 H2. revert fuel p m. induction k as [|k IH]; intros fuel p m H3 H4 Hm Hf Hp;
    (destruct fuel as [|fuel]; [lia|]); rewrite while_S.
  - apply returns_ok. split; [lia|]. split; [apply unchanged_refl|done].
  - destruct (Z.ltb_spec 1 (Z.of_nat (S k) + 1)); [|lia].
    assert (mapped m (lk p) 8) as Hm0 by (rewrite Hlk; eapply mapped_sub; [exact Hm|lia|nia]).
    destruct (store64_spec m (lk p) (p + stride) Hm0) as (m1 & -> & U1 & E1). cbn [obind]. loop_next.
    rewrite Z.mod_small in E1 by nia.
    replace (Z.of_nat (S k) + 1 - 1) with (Z.of_nat k + 1) by lia.
    eapply returns_mono; [apply IH; [lia|nia| |lia|lia]|].
    { eapply unchanged_mapped; [exact U1|]. eapply mapped_sub; [exact Hm|lia|nia]. }
    rewrite Hlk in U1. intros [m2 e] (-> & U2 & L2). split; [nia|]. split.
    + eapply unchanged_trans; (eapply unchanged_mono; [eassumption|]); unfold span_of; intros x Hx; nia.
    + rewrite nodes_S. split; [done|]. split; [unfold NULL; lia|].
      replace (rdw m2 (lk p)) with (p + stride); [done|]. rewrite <- E1. symmetry.
      eapply (rdn_unchanged 8); [exact U2|]. rewrite Hlk. unfold apart, span_of. lia.
Qed.

(** A list of distinct mapped addresses is shorter than the fuel. *)
Lemma NoDup_fuel (m : mem) (l : list Z) :
  NoDup l -> (forall x, x ∈ l -> is_Some (m !! x)) -> (length l < fuel_of m)%nat.
Proof.
  intros Hnd Hl. unfold fuel_of. rewrite <- size_dom, <- (size_list_to_set (C := gset Z) l Hnd).
  apply Nat.lt_succ_r, subseteq_size. intros x Hx. apply elem_of_dom, Hl. set_solver.
Qed.
