(* ===== verification/Pages.v ===== *)
(** * The page allocator (common/memory.c)

    [mem_map] has one entry per 4 KB page of the heap region that the board
    code reserves at [malloc_base]; [get_free_page] hands out the first free
    one, [free_page] takes a page back and clears it. *)

From S2P Require Import Prelude CMem Str StrFacts StrSafe Console.

Local Open Scope Z_scope.
Local Open Scope c_scope.

Definition CONFIG_MALLOC_F_LEN : Z := 64 * 1024.
Definition PAGING_PAGES : Z := Z.shiftr CONFIG_MALLOC_F_LEN 12.
Definition PAGE_SIZE : Z := 4096.

Record mem_map_struct : Type := MapEntry { mem_addr : Z; use : Z }.

#[export] Instance mem_map_struct_eq_dec : EqDecision mem_map_struct.
Proof. solve_decision. Defined.

Record pages : Type := Pages {
  paging_pages : Z;
  mem_map : list mem_map_struct
}.

(** Access to the C array: an index outside it is a fault. *)
Definition arr_get {A} (l : list A) (i : Z) : outcome A :=
  if i <? 0 then Fault else
  match l !! Z.to_nat i with Some x => Ok x | None => Fault end.

Definition arr_set {A} (l : list A) (i : Z) (x : A) : outcome (list A) :=
  if (0 <=? i) && (i <? Z.of_nat (length l)) then Ok (<[Z.to_nat i := x]> l) else Fault.

(** Before [memory_init]: zeroed. *)
Definition pages0 : pages := Pages 0 (replicate (Z.to_nat PAGING_PAGES) (MapEntry 0 0)).

Definition set_use (e : mem_map_struct) (u : Z) : mem_map_struct := MapEntry (mem_addr e) (u8 u).

Section pages.
(** The fields of the global data the allocator reads. *)
Context (malloc_base malloc_limit : Z).

Definition get_free_page (s : pages) : outcome (pages * Z) :=
  while (S (Z.to_nat (paging_pages s))) (fun i =>
    if i <? paging_pages s then
      let! e := arr_get (mem_map s) i in
      if use e =? 0 then
        let! l := arr_set (mem_map s) i (set_use e (use e + 1)) in
        brk (Pages (paging_pages s) l, mem_addr e)
      else cont (i + 1)
    else brk (s, NULL)) 0.

Definition free_page (addr : Z) (s : pages) (w : world) : outcome (pages * world) :=
  let nr_addr := addr in
  if nr_addr <? malloc_base then Ok (s, w) else
  if u64 (malloc_base + malloc_limit) <=? nr_addr then Ok (s, w) else
  if negb (Z.land nr_addr 4095 =? 0) then Ok (s, pr_warn "trying to free unalign page" [] w) else
  let nr_addr := Z.shiftr (u64 (nr_addr - malloc_base)) 12 in
  let! e := arr_get (mem_map s) nr_addr in
  if negb (use e - 1 =? 0) then Ok (s, pr_emerg "trying to free busy or free page" [] w) else
  let! l := arr_set (mem_map s) nr_addr (set_use e (use e - 1)) in
  let! m := memset (w_mem w) (mem_addr e) 0 4096 in
  Ok (Pages (paging_pages s) l, set_mem m w).

Definition memory_init (s : pages) (w : world) : outcome (pages * world) :=
  let paging_pages := s32 (Z.shiftr malloc_limit 12) in
  while (S (Z.to_nat paging_pages)) (fun '(i, addr, l) =>
    if i <? paging_pages then
      let! l := arr_set l i (MapEntry addr 0) in
      cont (i + 1, addr + 4096, l)
    else brk (Pages paging_pages l, printf "Memory %d page free (4KB)\n" [paging_pages] w))
    (0, malloc_base, mem_map s).
End pages.
