(* ===== verification/Malloc.v ===== *)
(** * The heap (lib/malloc.c)

    [malloc] serves objects of 16 to 4096 bytes from buckets: a page cut into
    slots of one size, whose free slots are linked through their first word.
    A bucket is described by a [struct bucket_desc]; the descriptors in use
    are chained from [bucket_dir], the spare ones from [free_bucket_desc],
    and live in pages of their own.  Layout of a descriptor (40 bytes):
    page +0, next +8, freeptr +16, refcnt (16 bits) +24, bucket_size +32.

    Interrupt masking around the list updates is not modelled: there is one
    thread of control. *)

From S2P Require Import Prelude CMem Str StrFacts StrSafe Console Pages.

Local Open Scope Z_scope.
Local Open Scope c_scope.

Definition SIZEOF_BUCKET_DESC : Z := 40.
Definition bd_page (d : Z) : Z := d.
Definition bd_next (d : Z) : Z := d + 8.
Definition bd_freeptr (d : Z) : Z := d + 16.
Definition bd_refcnt (d : Z) : Z := d + 24.
Definition bd_size (d : Z) : Z := d + 32.

Record _bucket_dir : Type := BDir { bdir_size : Z; bdir_chain : Z }.

(** The static data of the file, and the page allocator's. *)
Record heap : Type := Heap {
  h_pages : pages;
  bucket_dir : list _bucket_dir;
  free_bucket_desc : Z;
  bd_kmap : list Z
}.

Definition bucket_sizes : list Z := [16; 32; 64; 128; 256; 512; 1024; 2048; 4096; 0].

Definition heap0 (p : pages) : heap :=
  Heap p (map (fun n => BDir n 0) bucket_sizes) 0 (replicate (Z.to_nat PAGING_PAGES) 0).

Definition set_pages (p : pages) (h : heap) : heap :=
  Heap p (bucket_dir h) (free_bucket_desc h) (bd_kmap h).
Definition set_free_desc (d : Z) (h : heap) : heap :=
  Heap (h_pages h) (bucket_dir h) d (bd_kmap h).

(** [bdir->chain = d] for the entry [k] of the directory. *)
Definition set_chain (k d : Z) (h : heap) : outcome heap :=
  let! b := arr_get (bucket_dir h) k in
  let! l := arr_set (bucket_dir h) k (BDir (bdir_size b) d) in
  Ok (Heap (h_pages h) l (free_bucket_desc h) (bd_kmap h)).

Definition set_kmap (i v : Z) (h : heap) : outcome heap :=
  let! l := arr_set (bd_kmap h) i (Z.land v 65535) in
  Ok (Heap (h_pages h) (bucket_dir h) (free_bucket_desc h) l).

Section malloc.
Context (malloc_base malloc_limit : Z).

Definition init_bucket_desc (h : heap) (m : mem) : outcome (heap * mem) :=
  let! '(p, first) := get_free_page (h_pages h) in
  if first =? NULL then Panic "Out of memory in init_bucket_desc()\n" else
  let! '(m, bdesc) :=
    while (S (Z.to_nat (PAGE_SIZE / SIZEOF_BUCKET_DESC))) (fun '(i, bdesc, m) =>
      if 1 <? i then
        let! m := store64 m (bd_next bdesc) (bdesc + SIZEOF_BUCKET_DESC) in
        cont (i - 1, bdesc + SIZEOF_BUCKET_DESC, m)
      else brk (m, bdesc)) (PAGE_SIZE / SIZEOF_BUCKET_DESC, first, m) in
  let! m := store64 m (bd_next bdesc) (free_bucket_desc h) in
  Ok (set_free_desc first (set_pages p h), m).

(** [for (bdir = bucket_dir; bdir->size; bdir++) if (bdir->size >= len) break;] *)
Definition find_bdir (len : Z) (h : heap) : outcome (Z * _bucket_dir) :=
  while (S (length (bucket_dir h))) (fun k =>
    let! b := arr_get (bucket_dir h) k in
    if bdir_size b =? 0 then brk (k, b) else
    if len <=? bdir_size b then brk (k, b) else cont (k + 1)) 0.

(** The first descriptor of a chain with a free slot, or NULL. *)
Definition find_bdesc (chain : Z) (m : mem) : outcome Z :=
  while (fuel_of m) (fun bdesc =>
    if bdesc =? NULL then brk NULL else
    let! f := load64 m (bd_freeptr bdesc) in
    if negb (f =? NULL) then brk bdesc else
    let! n := load64 m (bd_next bdesc) in cont n) chain.

(** Links the slots of a fresh page. *)
Definition link_slots (cp size : Z) (m : mem) : outcome mem :=
  let! '(m, cp) :=
    while (S (Z.to_nat (PAGE_SIZE / size))) (fun '(i, cp, m) =>
      if 1 <? i then
        let! m := store64 m cp (cp + size) in cont (i - 1, cp + size, m)
      else brk (m, cp)) (PAGE_SIZE / size, cp, m) in
  store64 m cp 0.

(** The first spare descriptor becomes a bucket of slots of [size] bytes for
    the entry [k] of the directory. *)
Definition setup_bucket (k size : Z) (h : heap) (m : mem) : outcome (heap * mem * Z) :=
  let bdesc := free_bucket_desc h in
  let! next := load64 m (bd_next bdesc) in
  let h := set_free_desc next h in
  let! m := store16 m (bd_refcnt bdesc) 0 in
  let! m := store64 m (bd_size bdesc) size in
  let! '(p, cp) := get_free_page (h_pages h) in
  let h := set_pages p h in
  let! m := store64 m (bd_freeptr bdesc) cp in
  let! m := store64 m (bd_page bdesc) cp in
  if cp =? NULL then Panic "Out of memory in malloc()\n" else
  let! m := link_slots cp size m in
  let! b := arr_get (bucket_dir h) k in
  let! m := store64 m (bd_next bdesc) (bdir_chain b) in
  let! h := set_chain k bdesc h in
  let! page := load64 m (bd_page bdesc) in
  let i := s32 (page - malloc_base) in
  let! h := set_kmap (Z.shiftr i 12) size h in
  Ok (h, m, bdesc).

Definition new_bucket (k size : Z) (h : heap) (m : mem) : outcome (heap * mem * Z) :=
  let! '(h, m) := if free_bucket_desc h =? NULL then init_bucket_desc h m else Ok (h, m) in
  setup_bucket k size h m.

(** The first free slot of a bucket. *)
Definition take_slot (bdesc : Z) (m : mem) : outcome (mem * Z) :=
  let! retval := load64 m (bd_freeptr bdesc) in
  let! next := load64 m retval in
  let! m := store64 m (bd_freeptr bdesc) next in
  let! refcnt := load16 m (bd_refcnt bdesc) in
  let! m := store16 m (bd_refcnt bdesc) (refcnt + 1) in
  Ok (m, retval).

Definition malloc (len : Z) (h : heap) (w : world) : outcome (heap * world * Z) :=
  let! '(k, b) := find_bdir len h in
  if bdir_size b =? 0 then
    Ok (h, pr_warn "malloc called with impossibly largument (%d)\n" [len] w, NULL) else
  let m := w_mem w in
  let! bdesc := find_bdesc (bdir_chain b) m in
  let! '(h, m, bdesc) :=
    if bdesc =? NULL then new_bucket k (bdir_size b) h m else Ok (h, m, bdesc) in
  let! '(m, retval) := take_slot bdesc m in
  Ok (h, set_mem m w, retval).

(** The descriptor of the page [page] in one chain, with its predecessor. *)
Definition find_page (page chain : Z) (m : mem) : outcome (option (Z * Z)) :=
  while (fuel_of m) (fun '(bdesc, prev) =>
    if bdesc =? NULL then brk None else
    let! p := load64 m (bd_page bdesc) in
    if p =? page then brk (Some (bdesc, prev)) else
    let! n := load64 m (bd_next bdesc) in cont (n, bdesc)) (chain, NULL).

(** The search over the directory: the index, the descriptor, its predecessor. *)
Definition find_owner (page size : Z) (h : heap) (m : mem) : outcome (Z * Z * Z) :=
  while (S (length (bucket_dir h))) (fun k =>
    let! b := arr_get (bucket_dir h) k in
    if bdir_size b =? 0 then Panic "Bad address passed to free()\n" else
    if bdir_size b <? size then cont (k + 1) else
    let! r := find_page page (bdir_chain b) m in
    match r with
    | Some (bdesc, prev) => brk (k, bdesc, prev)
    | None => cont (k + 1)
    end) 0.

(** The walk along the free list in search of the freed object. *)
Definition check_double_free (obj freeptr : Z) (m : mem) : outcome unit :=
  if freeptr =? NULL then Ok tt else
  while (fuel_of m) (fun freeptr =>
    let! n := load64 m freeptr in
    if n =? 0 then brk tt else
    let! o := load64 m obj in
    if n =? o then Panic "Trying to repeat free addr\n" else cont n) freeptr.

(** [for (prev = bdir->chain; prev; prev = prev->next) if (prev->next == bdesc) break;] *)
Definition find_prev (bdesc chain : Z) (m : mem) : outcome Z :=
  while (fuel_of m) (fun prev =>
    if prev =? NULL then brk NULL else
    let! n := load64 m (bd_next prev) in
    if n =? bdesc then brk prev else cont n) chain.

(** An empty bucket leaves its chain, its page is freed and its descriptor kept. *)
Definition release_bucket (k bdesc prev : Z) (h : heap) (w : world) : outcome (heap * world) :=
  let m := w_mem w in
  let! b := arr_get (bucket_dir h) k in
  let! stale :=
    if negb (prev =? NULL) then let! n := load64 m (bd_next prev) in Ok (negb (n =? bdesc))
    else Ok (negb (bdir_chain b =? bdesc)) in
  let! prev := if stale then find_prev bdesc (bdir_chain b) m else Ok prev in
  let! next := load64 m (bd_next bdesc) in
  let! '(h, m) :=
    if negb (prev =? NULL) then let! m := store64 m (bd_next prev) next in Ok (h, m)
    else if negb (bdir_chain b =? bdesc) then Panic "Malloc bucket chains corrupted\n"
    else let! h := set_chain k next h in Ok (h, m) in
  let! page := load64 m (bd_page bdesc) in
  let! '(p, w) := free_page malloc_base malloc_limit page (h_pages h) (set_mem m w) in
  let h := set_pages p h in
  let! m := store64 (w_mem w) (bd_next bdesc) (free_bucket_desc h) in
  Ok (set_free_desc bdesc h, set_mem m w).

(** The slot goes to the front of the free list of its bucket. *)
Definition put_slot (obj bdesc : Z) (m : mem) : outcome mem :=
  let! f := load64 m (bd_freeptr bdesc) in
  let! m := store64 m obj f in
  let! m := store64 m (bd_freeptr bdesc) obj in
  let! refcnt := load16 m (bd_refcnt bdesc) in
  store16 m (bd_refcnt bdesc) (refcnt - 1).

Definition free (obj : Z) (h : heap) (w : world) : outcome (heap * world) :=
  let m := w_mem w in
  let page := Z.land obj (Z.lnot 4095) in
  let! size := arr_get (bd_kmap h) (Z.shiftr (u64 (page - malloc_base)) 12) in
  if negb (Z.land obj (size - 1) =? 0) then Panic "Trying to free unalign addr\n" else
  let! '(k, bdesc, prev) := find_owner page size h m in
  let! freeptr := load64 m (bd_freeptr bdesc) in
  let! _ := check_double_free obj freeptr m in
  let! m := put_slot obj bdesc m in
  let w := set_mem m w in
  let! refcnt := load16 m (bd_refcnt bdesc) in
  if refcnt =? 0 then release_bucket k bdesc prev h w else Ok (h, w).
End malloc.
