(* ===== verification/PagesFacts.v ===== *)
(** * The page allocator: which pages are in use

    [map_ok used s] ties the array [mem_map] to the set of pages in use; each
    operation changes that set by one page. *)

From S2P Require Import Prelude CMem Str StrFacts StrSafe Console Words Pages.

Local Open Scope Z_scope.
Local Open Scope c_scope.

Lemma arr_get_nat {A} (l : list A) i x : l !! i = Some x -> arr_get l (Z.of_nat i) = Ok x.
Proof. intros H. unfold arr_get. destruct (Z.ltb_spec (Z.of_nat i) 0); [lia|]. by rewrite Nat2Z.id, H. Qed.

Lemma arr_get_Z {A} (l : list A) i x : 0 <= i -> l !! Z.to_nat i = Some x -> arr_get l i = Ok x.
Proof. intros Hi H. rewrite <- (Z2Nat.id i Hi). by apply arr_get_nat. Qed.

Lemma arr_set_Z {A} (l : list A) i x :
  0 <= i < Z.of_nat (length l) -> arr_set l i x = Ok (<[Z.to_nat i := x]> l).
Proof.
  intros H. unfold arr_set. destruct (Z.leb_spec 0 i); [|lia].
  by destruct (Z.ltb_spec i (Z.of_nat (length l))); [|lia].
Qed.

(** The heap region: [n] pages from [base]. *)
Class Region (base n : Z) : Prop := {
  region_pos : 0 < base;
  region_align : base mod 4096 = 0;
  region_size : 0 <= n <= PAGING_PAGES;
  region_end : base + 4096 * n < 2 ^ 64
}.

Section pages_facts.
Context (base n : Z) `{!Region base n}.

Definition page_at (j : Z) : Z := base + 4096 * j.
Definition is_page (p : Z) : Prop := exists j, 0 <= j < n /\ p = page_at j.

Record map_ok (used : list Z) (s : pages) : Prop := {
  mo_pages : paging_pages s = n;
  mo_length : length (mem_map s) = Z.to_nat PAGING_PAGES;
  mo_entry : forall j, 0 <= j < n ->
    mem_map s !! Z.to_nat j =
      Some (MapEntry (page_at j) (if decide (page_at j ∈ used) then 1 else 0))
}.

Lemma page_at_inj i j : page_at i = page_at j -> i = j.
Proof. unfold page_at. lia. Qed.

Lemma is_page_bounds p : is_page p -> 0 < p /\ base <= p /\ p + 4096 <= base + 4096 * n /\ p mod 4096 = 0.
Proof.
  intros (j & Hj & ->). pose proof Region0 as [H1 H2 H3 H4]. unfold page_at.
  split; [lia|]. split; [lia|]. split; [lia|].
  rewrite Z.mul_comm, Z_mod_plus_full. done.
Qed.

(** Changing one entry to match a set that differs at one page. *)
Lemma map_ok_update used used' s j u0 u :
  map_ok used s -> 0 <= j < n -> u8 u = (if decide (page_at j ∈ used') then 1 else 0) ->
  (forall i, 0 <= i < n -> i <> j -> page_at i ∈ used' <-> page_at i ∈ used) ->
  map_ok used' (Pages (paging_pages s) (<[Z.to_nat j := set_use (MapEntry (page_at j) u0) u]> (mem_map s))).
Proof.
  intros [H1 H2 H3] Hj Hu Hi. destruct Region0. split; simpl; [done|by rewrite length_insert|].
  intros i Hin. destruct (decide (i = j)) as [->|Hne].
  - rewrite list_lookup_insert_eq by (rewrite H2; lia). unfold set_use. simpl. by rewrite Hu.
  - rewrite list_lookup_insert_ne by lia. rewrite H3 by done. do 2 f_equal.
    specialize (Hi i Hin Hne). by destruct (decide (page_at i ∈ used)), (decide (page_at i ∈ used')); tauto.
Qed.

Lemma get_free_page_spec used s :
  map_ok used s ->
  returns (get_free_page s) (fun '(s', p) =>
    (is_page p /\ p ∉ used /\ map_ok (p :: used) s') \/
    (p = NULL /\ forall q, is_page q -> q ∈ used)).
Proof.
  intros Hs. pose proof Hs as [H1 H2 H3]. pose proof Region0 as [R1 R2 R3 R4]. unfold get_free_page.
  apply (returns_while (fun i => 0 <= i <= n /\ forall j, 0 <= j < i -> page_at j ∈ used)
           (fun i => Z.to_nat (n - i))); [| |rewrite H1; lia].
  - intros i [Hi Hall]. rewrite H1. destruct (Z.ltb_spec i n).
    + rewrite (arr_get_Z _ i _ ltac:(lia) (H3 i ltac:(lia))). simpl.
      destruct (decide (page_at i ∈ used)) as [Hu|Hu]; simpl.
      * apply returns_ok. split; [|lia]. split; [lia|]. intros j Hj.
        destruct (decide (j = i)) as [->|]; [done|]. apply Hall. lia.
      * rewrite arr_set_Z by (rewrite H2; lia). simpl. apply returns_ok. left.
        split; [exists i; split; [lia|done]|]. split; [done|]. rewrite <- H1.
        apply (map_ok_update used); [done|lia| |].
        -- destruct (decide _) as [_|Hn]; [done|]. destruct Hn. set_solver.
        -- intros k Hk Hne. rewrite elem_of_cons. pose proof (page_at_inj k i). naive_solver.
    + apply returns_ok. right. split; [done|]. intros q (j & Hj & ->). apply Hall. lia.
  - split; [lia|]. intros j Hj. lia.
Qed.

Lemma land_align k a : 0 <= k -> Z.land a (2 ^ k - 1) = a mod 2 ^ k.
Proof. intros Hk. replace (2 ^ k - 1) with (Z.ones k) by (rewrite Z.ones_equiv; lia). by apply Z.land_ones. Qed.

Lemma page_index p j :
  0 <= j < n -> p = page_at j -> Z.shiftr (u64 (p - base)) 12 = j.
Proof.
  intros Hj ->. destruct Region0. unfold page_at. rewrite u64_small by lia.
  rewrite Z.shiftr_div_pow2 by lia. replace (base + 4096 * j - base) with (j * 2 ^ 12) by lia.
  by apply Z_div_mult.
Qed.

Lemma free_page_spec used used' s w p :
  map_ok used s -> is_page p -> p ∈ used -> p ∉ used' ->
  (forall q, q <> p -> q ∈ used' <-> q ∈ used) ->
  mapped (w_mem w) p 4096 ->
  returns (free_page base (4096 * n) p s w) (fun '(s', w') =>
    map_ok used' s' /\
    w' = set_mem (write_bytes (w_mem w) p (replicate 4096 0)) w).
Proof.
  intros Hs Hp Hu Hu' Hiff Hm. pose proof Hs as [H1 H2 H3].
  pose proof (is_page_bounds p Hp) as (B1 & B2 & B3 & B4). destruct Hp as (j & Hj & ->).
  pose proof Region0 as [R1 R2 R3 R4].
  unfold free_page. destruct (Z.ltb_spec (page_at j) base); [lia|].
  rewrite u64_small by lia. destruct (Z.leb_spec (base + 4096 * n) (page_at j)); [lia|].
  change 4095 with (2 ^ 12 - 1). rewrite (land_align 12) by lia. change (2 ^ 12) with 4096.
  rewrite B4. cbn [negb Z.eqb]. cbv zeta. rewrite (page_index _ j Hj eq_refl).
  rewrite (arr_get_Z _ j _ ltac:(lia) (H3 j Hj)). cbn [obind use mem_addr].
  destruct (decide (page_at j ∈ used)) as [_|]; [|done]. change (negb (1 - 1 =? 0)) with false. cbv iota.
  rewrite arr_set_Z by (rewrite H2; lia). cbn [obind].
  rewrite memset_write by (try lia; done). cbn [obind]. apply returns_ok. split; [|done].
  apply (map_ok_update used used' s j 1 0 Hs Hj).
  - destruct (decide (page_at j ∈ used')); done.
  - intros i Hi Hne. apply Hiff. pose proof (page_at_inj i j). naive_solver.
Qed.

Lemma memory_init_spec s w :
  length (mem_map s) = Z.to_nat PAGING_PAGES ->
  returns (memory_init base (4096 * n) s w) (fun '(s', w') => map_ok [] s' /\ w_mem w' = w_mem w).
Proof.
  intros Hl. pose proof Region0 as [R1 R2 R3 R4]. unfold memory_init.
  rewrite (Z.mul_comm 4096 n), Z.shiftr_div_pow2 by lia. change (2 ^ 12) with 4096.
  rewrite Z_div_mult by lia.
  assert (s32 n = n) as -> by (apply swrap_small; change PAGING_PAGES with 16 in R3; lia).
  apply (returns_while (fun '(i, addr, l) => 0 <= i <= n /\ addr = page_at i /\
      length l = Z.to_nat PAGING_PAGES /\
      forall j, 0 <= j < i -> l !! Z.to_nat j = Some (MapEntry (page_at j) 0))
    (fun '(i, _, _) => Z.to_nat (n - i))); [| |lia].
  - intros [[i addr] l] (Hi & -> & Hlen & Hall). destruct (Z.ltb_spec i n).
    + rewrite arr_set_Z by lia. simpl. apply returns_ok. split; [|lia].
      split; [lia|]. split; [unfold page_at; lia|]. split; [by rewrite length_insert|].
      intros j Hj. destruct (decide (j = i)) as [->|].
      * apply list_lookup_insert_eq. lia.
      * rewrite list_lookup_insert_ne by lia. apply Hall. lia.
    + apply returns_ok. split; [|done]. split; simpl; [done|done|].
      intros j Hj. rewrite Hall by lia. by destruct (decide (page_at j ∈ [])); [set_solver|].
  - split; [lia|]. split; [unfold page_at; lia|]. split; [done|]. intros; lia.
Qed.
End pages_facts.
