(* ===== verification/MallocSpec.v ===== *)
(** * The heap: its invariant

    An abstract heap [aheap] lists the chains of buckets, each with its free
    and its allocated slots, the spare descriptors and the pages that hold
    descriptors.  [heap_ok] ties it to the static data of the file and to the
    memory. *)

From S2P Require Import Prelude CMem Str StrFacts StrSafe Console Words Pages PagesFacts Malloc.

Local Open Scope Z_scope.
Local Open Scope c_scope.

Record bkt : Type := Bkt {
  b_size : Z;
  b_desc : Z;
  b_page : Z;
  b_free : list Z;
  b_live : list Z
}.

Record aheap : Type := AHeap {
  a_chains : list (list bkt);
  a_spare : list Z;
  a_dpages : list Z
}.

Definition a_buckets (H : aheap) : list bkt := concat (a_chains H).
Definition a_descs (H : aheap) : list Z := (b_desc <$> a_buckets H) ++ a_spare H.
Definition a_used (H : aheap) : list Z := a_dpages H ++ (b_page <$> a_buckets H).

(** The objects handed out, with their sizes. *)
Definition a_live (H : aheap) : list (Z * Z) :=
  concat ((fun b => (fun s => (s, b_size b)) <$> b_live b) <$> a_buckets H).

Definition live_byte (H : aheap) (x : Z) : Prop :=
  exists o sz, (o, sz) ∈ a_live H /\ o <= x < o + sz.

Definition nclasses : nat := 9.
Definition class_size (k : nat) : Z := 16 * 2 ^ Z.of_nat k.

Definition is_class (sz : Z) : Prop := exists k, (k < nclasses)%nat /\ sz = class_size k.

Definition slots (b : bkt) : list Z := nodes (b_page b) (b_size b) (Z.to_nat (4096 / b_size b)).

Record bucket_ok (m : mem) (b : bkt) : Prop := {
  bo_class : is_class (b_size b);
  bo_page : rdw m (bd_page (b_desc b)) = b_page b;
  bo_free : linked id m (rdw m (bd_freeptr (b_desc b))) (b_free b);
  bo_refcnt : rdh m (bd_refcnt (b_desc b)) = Z.of_nat (length (b_live b));
  bo_slots : b_free b ++ b_live b ≡ₚ slots b
}.

Definition DESCS : Z := PAGE_SIZE / SIZEOF_BUCKET_DESC.

(** A descriptor lies in a descriptor page, at a multiple of its size. *)
Definition is_desc (dps : list Z) (d : Z) : Prop :=
  exists p i, p ∈ dps /\ 0 <= i < DESCS /\ d = p + SIZEOF_BUCKET_DESC * i.

Definition chain_ok (m : mem) (h : heap) (k : nat) (l : list bkt) : Prop :=
  exists c, bucket_dir h !! k = Some (BDir (class_size k) c) /\
    linked bd_next m c (b_desc <$> l) /\ Forall (fun b => b_size b = class_size k) l.

Section invariant.
Context (base n : Z) `{!Region base n}.

Record heap_ok (H : aheap) (h : heap) (m : mem) : Prop := {
  hk_mapped : mapped m base (4096 * n);
  hk_dir : length (bucket_dir h) = 10%nat /\ bucket_dir h !! nclasses = Some (BDir 0 0);
  hk_classes : length (a_chains H) = nclasses;
  hk_chain : forall k l, a_chains H !! k = Some l -> chain_ok m h k l;
  hk_spare : linked bd_next m (free_bucket_desc h) (a_spare H);
  hk_buckets : Forall (bucket_ok m) (a_buckets H);
  hk_descs : NoDup (a_descs H);
  hk_desc_in : Forall (is_desc (a_dpages H)) (a_descs H);
  hk_pages : NoDup (a_used H);
  hk_page_in : Forall (is_page base n) (a_used H);
  hk_map : map_ok base n (a_used H) (h_pages h);
  hk_kmap_len : length (bd_kmap h) = Z.to_nat PAGING_PAGES;
  hk_kmap : forall b j, b ∈ a_buckets H -> 0 <= j < n -> b_page b = page_at base j ->
    bd_kmap h !! Z.to_nat j = Some (b_size b)
}.

(** Between calls no bucket is empty: a page whose last object is freed goes
    back to the page allocator. *)
Definition heap_inv (H : aheap) (h : heap) (m : mem) : Prop :=
  heap_ok H h m /\ Forall (fun b => b_live b <> []) (a_buckets H).

End invariant.

(** ** Geometry *)

Lemma class_cases sz : is_class sz -> sz ∈ [16; 32; 64; 128; 256; 512; 1024; 2048; 4096].
Proof.
  intros (k & Hk & ->). unfold nclasses in Hk.
  do 9 (destruct k as [|k]; [unfold class_size; simpl; set_solver|]). lia.
Qed.

Lemma class_div sz : is_class sz -> 16 <= sz <= 4096 /\ 4096 = sz * (4096 / sz) /\ 0 < 4096 / sz.
Proof.
  intros Hc%class_cases. rewrite !elem_of_cons in Hc.
  repeat destruct Hc as [->|Hc]; try (split; [lia|split; [done|done]]). by apply elem_of_nil in Hc.
Qed.

(** A slot lies in its page, on the grid of its size. *)
Lemma slot_in b s : is_class (b_size b) -> s ∈ slots b ->
  b_page b <= s /\ s + b_size b <= b_page b + 4096 /\ (s - b_page b) mod b_size b = 0.
Proof.
  intros Hc%class_div Hs. destruct Hc as (H1 & H2 & H3). unfold slots in Hs.
  apply elem_of_nodes in Hs as (i & Hi & ->). rewrite Z2Nat.id in Hi by lia.
  split; [nia|]. split; [nia|].
  replace (b_page b + b_size b * i - b_page b) with (i * b_size b) by lia. by apply Z_mod_mult.
Qed.

Lemma grid_apart a b sz : 0 < sz -> a mod sz = b mod sz -> a <> b -> a + sz <= b \/ b + sz <= a.
Proof.
  intros Hsz Hm Hne. pose proof (Z.div_mod a sz ltac:(lia)) as Ha.
  pose proof (Z.div_mod b sz ltac:(lia)) as Hb. rewrite Hm in Ha.
  assert (a / sz <> b / sz) by (intros E; rewrite E in Ha; lia). nia.
Qed.

Lemma slots_apart b s t :
  is_class (b_size b) -> s ∈ slots b -> t ∈ slots b -> s <> t -> s + b_size b <= t \/ t + b_size b <= s.
Proof.
  intros Hc Hs%slot_in Ht%slot_in Hne; [|done|done]. destruct (class_div _ Hc) as (H1 & _ & _).
  destruct Hs as (_ & _ & Hs), Ht as (_ & _ & Ht).
  pose proof (grid_apart (s - b_page b) (t - b_page b) (b_size b) ltac:(lia) ltac:(lia) ltac:(lia)). lia.
Qed.

Section geometry.
Context (base n : Z).

Lemma pages_apart p q : is_page base n p -> is_page base n q -> p <> q -> p + 4096 <= q \/ q + 4096 <= p.
Proof. unfold is_page, page_at. intros (i & Hi & ->) (j & Hj & ->). lia. Qed.

Lemma desc_in_page dps d :
  is_desc dps d -> exists p, p ∈ dps /\ p <= d /\ d + 40 <= p + 4096.
Proof.
  intros (p & i & Hp & Hi & ->). exists p. unfold DESCS, SIZEOF_BUCKET_DESC, PAGE_SIZE in *.
  change (4096 / 40) with 102 in Hi. split; [done|lia].
Qed.

Lemma descs_apart dps d e :
  Forall (is_page base n) dps -> is_desc dps d -> is_desc dps e -> d <> e -> d + 40 <= e \/ e + 40 <= d.
Proof.
  rewrite list.Forall_forall. intros HF (p & i & Hp & Hi & ->) (q & j & Hq & Hj & ->) Hne.
  unfold DESCS, SIZEOF_BUCKET_DESC, PAGE_SIZE in *. change (4096 / 40) with 102 in *.
  destruct (decide (p = q)) as [->|Hpq]; [lia|].
  destruct (pages_apart p q (HF p Hp) (HF q Hq) Hpq); lia.
Qed.
End geometry.
