(* ===== verification/MallocFacts.v ===== *)
(** * The heap: correctness of malloc and free

    Every step of [malloc] and [free] preserves [heap_ok] and leaves the
    bytes of the objects that stay allocated alone. *)

From S2P Require Import Prelude CMem Str StrFacts StrSafe Console Words Pages PagesFacts Malloc MallocSpec.

Local Open Scope Z_scope.
Local Open Scope c_scope.

(** ** Frames *)

Lemma bucket_ok_frame R m m' b :
  bucket_ok m b -> unchanged R m m' -> apart R (b_desc b) 8 -> apart R (b_desc b + 16) 24 ->
  (forall s, s ∈ b_free b -> apart R s 8) -> bucket_ok m' b.
Proof.
  intros [H1 H2 H3 H4 H5] Hu Hd1 Hd2 Hf. unfold bd_page, bd_freeptr, bd_refcnt in *.
  split; unfold bd_page, bd_freeptr, bd_refcnt; [done| | | |done].
  - by rewrite (rdn_unchanged 8 R m m' _ Hu).
  - rewrite (rdn_unchanged 8 R m m' _ Hu) by (eapply apart_sub; [exact Hd2|lia|lia]).
    eapply linked_unchanged; [exact Hu| |done]. done.
  - by rewrite (rdn_unchanged 2 R m m' _ Hu) by (eapply apart_sub; [exact Hd2|lia|lia]).
Qed.

Lemma bucket_ok_frame_desc R m m' b :
  bucket_ok m b -> unchanged R m m' -> apart R (b_desc b) 40 ->
  (forall s, s ∈ b_free b -> apart R s 8) -> bucket_ok m' b.
Proof.
  intros Ho Hu Hd Hf. apply (bucket_ok_frame R m); [done|done| | |done];
    (eapply apart_sub; [exact Hd|lia|lia]).
Qed.

Lemma chain_ok_frame R m m' h k l :
  chain_ok m h k l -> unchanged R m m' -> (forall b, b ∈ l -> apart R (bd_next (b_desc b)) 8) ->
  chain_ok m' h k l.
Proof.
  intros (c & Hc & Hl & Hs) Hu HR. exists c. split; [done|]. split; [|done].
  eapply linked_unchanged; [exact Hu| |done]. intros d Hd.
  apply list_elem_of_fmap in Hd as (b & -> & Hb). by apply HR.
Qed.

Lemma free_slot m b s : bucket_ok m b -> s ∈ b_free b -> s ∈ slots b.
Proof. intros [] Hs. rewrite <- bo_slots. set_solver. Qed.

Lemma live_slot m b s : bucket_ok m b -> s ∈ b_live b -> s ∈ slots b.
Proof. intros [] Hs. rewrite <- bo_slots. set_solver. Qed.

Lemma bucket_counts m b : bucket_ok m b -> (length (b_free b) + length (b_live b) <= 256)%nat.
Proof.
  intros []. rewrite <- length_app, bo_slots. unfold slots. rewrite length_nodes.
  destruct (class_div _ bo_class) as (H1 & H2 & H3).
  assert (4096 / b_size b <= 256) by (apply Z.div_le_upper_bound; lia). lia.
Qed.

Lemma chain_bucket H k l b : a_chains H !! k = Some l -> b ∈ l -> b ∈ a_buckets H.
Proof.
  intros Hl Hb. unfold a_buckets. apply list_elem_of_In, in_concat. exists l.
  split; apply list_elem_of_In; [|done]. by eapply list_elem_of_lookup_2.
Qed.

(** ** Lists with one element replaced *)

Lemma lookup_middle_ne {A} (pre post : list A) x y k :
  k <> length pre -> (pre ++ x :: post) !! k = (pre ++ y :: post) !! k.
Proof.
  intros Hk. destruct (decide (k < length pre)%nat).
  - by rewrite !lookup_app_l by lia.
  - rewrite !lookup_app_r by lia. destruct (k - length pre)%nat as [|j] eqn:E; [lia|done].
Qed.

Lemma concat_middle {A} (pre post : list (list A)) l :
  concat (pre ++ l :: post) = concat pre ++ l ++ concat post.
Proof. by rewrite concat_app. Qed.

Lemma buckets_middle pre l1 b l2 post sp dps :
  a_buckets (AHeap (pre ++ (l1 ++ b :: l2) :: post) sp dps) =
  (concat pre ++ l1) ++ b :: (l2 ++ concat post).
Proof. unfold a_buckets. simpl. rewrite concat_middle. by rewrite <- !app_assoc. Qed.

(** Storing the free pointer and the count of a descriptor. *)
Lemma bucket_stores m m1 m2 d p c :
  unchanged (span_of (bd_freeptr d) 8) m m1 -> rdw m1 (bd_freeptr d) = p ->
  unchanged (span_of (bd_refcnt d) 2) m1 m2 -> rdh m2 (bd_refcnt d) = c ->
  unchanged (span_of (d + 16) 10) m m2 /\ rdw m2 (bd_freeptr d) = p /\ rdh m2 (bd_refcnt d) = c /\
  rdw m2 (bd_page d) = rdw m (bd_page d) /\ rdh m1 (bd_refcnt d) = rdh m (bd_refcnt d).
Proof.
  unfold bd_freeptr, bd_refcnt, bd_page. intros U1 E1 U2 E2.
  assert (unchanged (span_of (d + 16) 10) m m2) as U.
  { eapply unchanged_trans; (eapply unchanged_mono; [eassumption|]); unfold span_of; intros; lia. }
  split; [done|]. split; [|split; [done|split]].
  - rewrite <- E1. eapply (rdn_unchanged 8); [exact U2|]. apply apart_span. lia.
  - eapply (rdn_unchanged 8); [exact U|]. apply apart_span. lia.
  - eapply (rdn_unchanged 2); [exact U1|]. apply apart_span. lia.
Qed.

Lemma next_small lk m p l : linked lk m p l -> (forall x, x ∈ l -> 0 < x < 2 ^ 64) -> p mod 2 ^ 64 = p.
Proof.
  intros H Hl. apply Z.mod_small. destruct l as [|x l].
  - unfold linked in H. simpl in H. subst. unfold NULL. lia.
  - destruct H as [-> _]. specialize (Hl x ltac:(set_solver)). lia.
Qed.

(** ** Searching *)

(** The descriptors of a chain can be read. *)
Definition readable (m : mem) (l : list bkt) : Prop :=
  forall b, b ∈ l -> bucket_ok m b /\ mapped m (b_desc b) 40.

Lemma readable_load64 m l b o :
  readable m l -> b ∈ l -> 0 <= o <= 32 -> load64 m (b_desc b + o) = Ok (rdw m (b_desc b + o)).
Proof.
  intros Hr Hb Ho. destruct (Hr b Hb) as [_ Hm]. apply load64_rdw. eapply mapped_sub; [exact Hm|lia|lia].
Qed.

Lemma find_bdesc_loop m l fuel p :
  readable m l -> linked bd_next m p (b_desc <$> l) -> (length l < fuel)%nat ->
  returns (while fuel (fun bdesc =>
    if bdesc =? NULL then brk NULL else
    let! f := load64 m (bd_freeptr bdesc) in
    if negb (f =? NULL) then brk bdesc else
    let! n := load64 m (bd_next bdesc) in cont n) p)
  (fun d => (d = NULL /\ forall b, b ∈ l -> b_free b = []) \/
     exists l1 b l2, l = l1 ++ b :: l2 /\ d = b_desc b /\ b_free b <> []).
Proof.
  revert fuel p. induction l as [|b l IH]; intros fuel p Hr Hl Hf; (destruct fuel as [|fuel]; [simpl in Hf; lia|]);
    rewrite while_S.
  - unfold linked in Hl. simpl in Hl. subst p. apply returns_ok. left. split; [done|]. set_solver.
  - destruct Hl as (-> & Hnn & Hl). destruct (Z.eqb_spec (b_desc b) NULL); [done|].
    unfold bd_freeptr, bd_next in *. rewrite (readable_load64 _ _ b 16 Hr) by (first [lia | left]).
    cbn [obind]. destruct (Hr b ltac:(left)) as [[_ _ Hfr _ _] _]. unfold bd_freeptr in Hfr.
    destruct (Z.eqb_spec (rdw m (b_desc b + 16)) NULL) as [E|E]; cbn [negb].
    + rewrite (readable_load64 _ _ b 8 Hr) by (first [lia | left]). cbn [obind]. loop_next.
      rewrite E in Hfr. apply linked_null in Hfr.
      eapply returns_mono; [apply IH; [intros c Hc; apply Hr; set_solver|done|simpl in Hf; lia]|].
      intros d [[-> Hall]|(l1 & c & l2 & -> & -> & Hc)]; [left|right].
      * split; [done|]. intros c Hc. apply elem_of_cons in Hc as [->|Hc]; [done|by apply Hall].
      * by exists (b :: l1), c, l2.
    + apply returns_ok. right. exists [], b, l. split; [done|]. split; [done|].
      intros E'. rewrite E' in Hfr. by unfold linked in Hfr.
Qed.

Lemma find_page_loop m l fuel p prev page :
  readable m l -> linked bd_next m p (b_desc <$> l) -> (length l < fuel)%nat ->
  returns (while fuel (fun '(bdesc, prev) =>
    if bdesc =? NULL then brk None else
    let! p := load64 m (bd_page bdesc) in
    if p =? page then brk (Some (bdesc, prev)) else
    let! n := load64 m (bd_next bdesc) in cont (n, bdesc)) (p, prev))
  (fun r => match r with
     | None => forall b, b ∈ l -> b_page b <> page
     | Some (d, q) => exists l1 b l2, l = l1 ++ b :: l2 /\ d = b_desc b /\ b_page b = page /\
         q = default prev (b_desc <$> list.last l1)
     end).
Proof.
  revert fuel p prev. induction l as [|b l IH]; intros fuel p prev Hr Hl Hf;
    (destruct fuel as [|fuel]; [simpl in Hf; lia|]); rewrite while_S.
  - unfold linked in Hl. simpl in Hl. subst p. apply returns_ok. set_solver.
  - destruct Hl as (-> & Hnn & Hl). destruct (Z.eqb_spec (b_desc b) NULL); [done|].
    destruct (Hr b ltac:(left)) as [[_ Hpg _ _ _] Hm]. unfold bd_page in *.
    rewrite load64_rdw by (eapply mapped_sub; [exact Hm|lia|lia]). cbn [obind]. rewrite Hpg.
    destruct (Z.eqb_spec (b_page b) page) as [E|E].
    + apply returns_ok. by exists [], b, l.
    + unfold bd_next. rewrite (readable_load64 _ _ b 8 Hr) by (first [lia | left]). cbn [obind]. loop_next.
      eapply returns_mono; [apply IH; [intros c Hc; apply Hr; set_solver|done|simpl in Hf; lia]|].
      intros [[d q]|]; [|intros Hall c Hc; apply elem_of_cons in Hc as [->|Hc]; [done|by apply Hall]].
      intros (l1 & c & l2 & -> & -> & Hc & ->). exists (b :: l1), c, l2.
      split; [done|]. split; [done|]. split; [done|]. rewrite last_cons. by destruct (list.last l1).
Qed.

(** The walk of [free] along the free list meets exactly the links of the
    slots, that is, all of its slots but the first. *)
Lemma check_double_free_spec m obj p l :
  linked id m p l -> (forall x, x ∈ obj :: l -> mapped m x 8) -> (length l < fuel_of m)%nat ->
  check_double_free obj p m =
    if decide (rdw m obj ∈ tail l) then Panic "Trying to repeat free addr\n" else Ok tt.
Proof.
  unfold check_double_free. destruct l as [|x l]; intros Hl Hm Hf.
  { unfold linked in Hl. simpl in Hl. subst p. done. }
  destruct Hl as (-> & Hnn & Hl). destruct (Z.eqb_spec x NULL); [done|]. simpl in Hf.
  change (lseg id m (rdw m x) l NULL) in Hl. cbn [tail].
  assert (mapped m x 8) as Hx by (apply Hm; set_solver).
  assert (mapped m obj 8) as Ho by (apply Hm; set_solver).
  assert (forall y, y ∈ l -> mapped m y 8) as Hm' by (intros y Hy; apply Hm; set_solver). clear Hm Hnn n.
  rewrite (load64_rdw m obj Ho). cbn [obind].
  revert x Hx Hl Hf Hm'. generalize (fuel_of m).
  induction l as [|y l IH]; intros fuel x Hx Hl Hf Hm; (destruct fuel as [|fuel]; [simpl in Hf; lia|]);
    rewrite while_S, (load64_rdw m x Hx); cbn [obind]; simpl in Hl.
  - rewrite Hl. destruct (decide (rdw m obj ∈ [])); [set_solver|done].
  - destruct Hl as (-> & Hy & Hl). destruct (Z.eqb_spec y 0); [by subst y|].
    destruct (Z.eqb_spec y (rdw m obj)) as [->|Hne].
    + rewrite decide_True by left. done.
    + loop_next. rewrite IH; [|apply Hm; set_solver|done|simpl in Hf; lia|intros z Hz; apply Hm; set_solver].
      destruct (decide (rdw m obj ∈ l)), (decide (rdw m obj ∈ y :: l)); set_solver.
Qed.

Section heap_facts.
Context (base n : Z) `{!Region base n}.
Local Abbreviation heap_ok := (heap_ok base n).

(** Facts about the members of a good heap. *)
Lemma hk_bucket H h m b : heap_ok H h m -> b ∈ a_buckets H ->
  bucket_ok m b /\ is_desc (a_dpages H) (b_desc b) /\ is_page base n (b_page b) /\ b_page b ∉ a_dpages H.
Proof.
  intros Hk Hb. destruct Hk. rewrite list.Forall_forall in hk_buckets. rewrite list.Forall_forall in hk_desc_in, hk_page_in.
  split; [by apply hk_buckets|]. split; [apply hk_desc_in; unfold a_descs; set_solver|].
  split; [apply hk_page_in; unfold a_used; set_solver|].
  unfold a_used in hk_pages. apply NoDup_app in hk_pages as (_ & Hd & _). intros Hin.
  apply (Hd _ Hin). set_solver.
Qed.

Lemma hk_dpages H h m : heap_ok H h m -> Forall (is_page base n) (a_dpages H).
Proof. intros []. unfold a_used in *. by apply list.Forall_app in hk_page_in as [? _]. Qed.

(** A descriptor and a bucket page do not overlap. *)
Lemma desc_page_apart H h m d p :
  heap_ok H h m -> is_desc (a_dpages H) d -> is_page base n p -> p ∉ a_dpages H ->
  d + 40 <= p \/ p + 4096 <= d.
Proof.
  intros Hk Hd Hp Hn. destruct (desc_in_page _ _ Hd) as (q & Hq & H1 & H2).
  pose proof (hk_dpages _ _ _ Hk) as HF. rewrite list.Forall_forall in HF.
  assert (q <> p) as Hne by congruence.
  destruct (pages_apart base n q p (HF q Hq) Hp Hne); lia.
Qed.

Lemma desc_mapped H h m d : heap_ok H h m -> is_desc (a_dpages H) d -> mapped m d 40 /\ 0 < d < 2 ^ 64.
Proof.
  intros Hk Hd. destruct (desc_in_page _ _ Hd) as (q & Hq & H1 & H2).
  pose proof (hk_dpages _ _ _ Hk) as HF. rewrite list.Forall_forall in HF.
  destruct (is_page_bounds base n q (HF q Hq)) as (B1 & B2 & B3 & _).
  pose proof (region_end (base := base) (n := n)).
  split; [|lia]. eapply mapped_sub; [apply (hk_mapped _ _ _ _ _ Hk)|lia|lia].
Qed.

Lemma slot_mapped H h m b s :
  heap_ok H h m -> b ∈ a_buckets H -> s ∈ slots b ->
  mapped m s (b_size b) /\ 0 < s < 2 ^ 64 /\ mapped m s 8 /\ b_page b <= s /\ s + b_size b <= b_page b + 4096.
Proof.
  intros Hk Hb Hs. destruct (hk_bucket _ _ _ _ Hk Hb) as (Ho & _ & Hp & _).
  destruct (slot_in b s (bo_class _ _ Ho) Hs) as (S1 & S2 & _).
  destruct (class_div _ (bo_class _ _ Ho)) as (C1 & _ & _).
  destruct (is_page_bounds base n _ Hp) as (B1 & B2 & B3 & _).
  pose proof (region_end (base := base) (n := n)).
  pose proof (hk_mapped _ _ _ _ _ Hk) as Hm.
  split; [eapply mapped_sub; [exact Hm|lia|lia]|]. split; [lia|].
  split; [eapply mapped_sub; [exact Hm|lia|lia]|lia].
Qed.

(** Two different buckets share nothing. *)
Lemma buckets_apart H h m l1 b l2 c :
  heap_ok H h m -> a_buckets H = l1 ++ b :: l2 -> c ∈ l1 ++ l2 ->
  (b_desc b + 40 <= b_desc c \/ b_desc c + 40 <= b_desc b) /\
  (b_page b + 4096 <= b_page c \/ b_page c + 4096 <= b_page b).
Proof.
  intros Hk HE Hc.
  assert (b ∈ a_buckets H) as Hb by (rewrite HE; set_solver).
  assert (c ∈ a_buckets H) as Hcb by (rewrite HE; set_solver).
  destruct (hk_bucket _ _ _ _ Hk Hb) as (_ & Db & Pb & _).
  destruct (hk_bucket _ _ _ _ Hk Hcb) as (_ & Dc & Pc & _).
  pose proof (hk_descs _ _ _ _ _ Hk) as ND. unfold a_descs in ND. rewrite HE in ND.
  pose proof (hk_pages _ _ _ _ _ Hk) as NP. unfold a_used in NP. rewrite HE in NP.
  assert (l1 ++ b :: l2 ≡ₚ b :: l1 ++ l2) as HP by by rewrite Permutation_middle.
  rewrite HP in ND, NP. rewrite Permutation_app_comm in NP. simpl in ND, NP.
  apply NoDup_cons in ND as [ND _], NP as [NP _].
  split.
  - apply (descs_apart base n (a_dpages H)); [by eapply hk_dpages|done|done|]. intros E. apply ND.
    rewrite elem_of_app. left. apply list_elem_of_fmap. eauto.
  - apply (pages_apart base n); [done|done|]. intros E. apply NP.
    rewrite elem_of_app. left. apply list_elem_of_fmap. eauto.
Qed.

(** ** One bucket changes its lists *)

Lemma chain_ok_swap m h k l1 b l2 b' :
  b_desc b' = b_desc b -> b_size b' = b_size b ->
  chain_ok m h k (l1 ++ b :: l2) -> chain_ok m h k (l1 ++ b' :: l2).
Proof.
  intros Hd Hs (c & Hc & Hl & HF). exists c. split; [done|]. rewrite fmap_app in *. simpl in *.
  split; [by rewrite Hd|]. apply list.Forall_app in HF as [HF1 HF2].
  apply list.Forall_cons in HF2 as [HF2 HF3]. apply list.Forall_app. split; [done|].
  apply list.Forall_cons. split; [congruence|done].
Qed.

(** Writes to the fields of one descriptor other than its link, or to its page. *)
Definition near (b : bkt) (R : Z -> Prop) : Prop :=
  forall x, R x -> b_desc b + 16 <= x < b_desc b + 26 \/ b_page b <= x < b_page b + 4096.

Lemma near_next H h m b R d :
  heap_ok H h m -> b ∈ a_buckets H -> near b R -> is_desc (a_dpages H) d -> apart R (bd_next d) 8.
Proof.
  intros Hk Hb HR Hd x Hx HRx. destruct (hk_bucket _ _ _ _ Hk Hb) as (_ & Hbd & Hbp & Hbn).
  unfold bd_next in Hx. destruct (HR x HRx) as [Hx'|Hx'].
  - destruct (decide (d = b_desc b)) as [->|Hne]; [lia|].
    destruct (descs_apart base n _ d (b_desc b) (hk_dpages _ _ _ Hk) Hd Hbd Hne); lia.
  - destruct (desc_page_apart _ _ _ d (b_page b) Hk Hd Hbp Hbn); lia.
Qed.

Lemma near_others H h m m' b R l1 l2 c :
  heap_ok H h m -> a_buckets H = l1 ++ b :: l2 -> near b R -> unchanged R m m' ->
  c ∈ l1 ++ l2 -> bucket_ok m' c.
Proof.
  intros Hk HB HR Hu Hc. assert (c ∈ a_buckets H) as Hcin by (rewrite HB; set_solver).
  assert (b ∈ a_buckets H) as Hbin by (rewrite HB; set_solver).
  destruct (hk_bucket _ _ _ _ Hk Hbin) as (_ & Hbd & Hbp & Hbn).
  destruct (hk_bucket _ _ _ _ Hk Hcin) as (Hco & Hcd & Hcp & Hcn).
  destruct (buckets_apart _ _ _ _ _ _ c Hk HB Hc) as [Ad Ap].
  apply (bucket_ok_frame_desc R m); [done|done| |].
  - intros x Hx HRx. destruct (HR x HRx) as [Hx'|Hx']; [lia|].
    destruct (desc_page_apart _ _ _ (b_desc c) (b_page b) Hk Hcd Hbp Hbn); lia.
  - intros s Hs x Hx HRx. apply (free_slot m c s Hco) in Hs.
    destruct (slot_mapped _ _ _ c s Hk Hcin Hs) as (_ & _ & _ & S1 & S2).
    destruct (class_div _ (bo_class _ _ Hco)) as (C1 & _ & _).
    destruct (HR x HRx) as [Hx'|Hx']; [|lia].
    destruct (desc_page_apart _ _ _ (b_desc b) (b_page c) Hk Hbd Hcp Hcn); lia.
Qed.

Lemma desc_of_bucket H h m b : heap_ok H h m -> b ∈ a_buckets H -> is_desc (a_dpages H) (b_desc b).
Proof. intros Hk Hb. by destruct (hk_bucket _ _ _ _ Hk Hb) as (_ & ? & _). Qed.

Lemma desc_of_spare H h m d : heap_ok H h m -> d ∈ a_spare H -> is_desc (a_dpages H) d.
Proof.
  intros [] Hd. rewrite list.Forall_forall in hk_desc_in. apply hk_desc_in. unfold a_descs. set_solver.
Qed.

Lemma heap_swap pre l1 b l2 post sp dps h R m m' b' :
  heap_ok (AHeap (pre ++ (l1 ++ b :: l2) :: post) sp dps) h m ->
  unchanged R m m' -> near b R ->
  b_desc b' = b_desc b -> b_page b' = b_page b -> b_size b' = b_size b -> bucket_ok m' b' ->
  heap_ok (AHeap (pre ++ (l1 ++ b' :: l2) :: post) sp dps) h m'.
Proof.
  intros Hk Hu HR Ed Ep Es Ho. pose proof (buckets_middle pre l1 b l2 post sp dps) as HB.
  pose proof (buckets_middle pre l1 b' l2 post sp dps) as HB'.
  set (H := AHeap (pre ++ (l1 ++ b :: l2) :: post) sp dps) in *.
  set (H' := AHeap (pre ++ (l1 ++ b' :: l2) :: post) sp dps) in *.
  assert (a_descs H' = a_descs H) as Edescs.
  { unfold a_descs. rewrite HB, HB', !fmap_app. simpl. by rewrite Ed. }
  assert (a_used H' = a_used H) as Epages.
  { unfold a_used. rewrite HB, HB', !fmap_app. simpl. by rewrite Ep. }
  assert (b ∈ a_buckets H) as Hbin by (rewrite HB; set_solver).
  assert (forall d, is_desc dps d -> apart R (bd_next d) 8) as Hnext
    by (intros d Hd; by apply (near_next H h m b)).
  pose proof Hk as []. split; rewrite ?Edescs, ?Epages; try done.
  - by eapply unchanged_mapped.
  - rewrite <- hk_classes. unfold H, H'. simpl. by rewrite !length_app.
  - simpl. intros k l Hl. destruct (decide (k = length pre)) as [->|Hne].
    + rewrite list_lookup_middle in Hl by done. injection Hl as <-.
      apply (chain_ok_swap _ _ _ _ b); [done|done|].
      eapply chain_ok_frame; [apply hk_chain; by apply list_lookup_middle|exact Hu|].
      intros c Hc. apply Hnext, (desc_of_bucket H h m); [done|]. rewrite HB. set_solver.
    + rewrite (lookup_middle_ne _ _ _ (l1 ++ b :: l2) k Hne) in Hl.
      eapply chain_ok_frame; [by apply hk_chain|exact Hu|].
      intros c Hc. apply Hnext, (desc_of_bucket H h m); [done|]. by eapply chain_bucket.
  - eapply linked_unchanged; [exact Hu| |done]. intros d Hd. by apply Hnext, (desc_of_spare H h m).
  - rewrite HB'. apply list.Forall_forall. intros c Hc.
    assert (c ∈ (concat pre ++ l1) ++ l2 ++ concat post \/ c = b') as [Hc'| ->] by set_solver; [|done].
    by eapply near_others.
  - intros c j Hc Hj Hp. rewrite HB' in Hc.
    assert (c ∈ a_buckets H \/ c = b') as [Hc'| ->] by (rewrite HB; set_solver).
    + by apply hk_kmap.
    + rewrite Es. apply hk_kmap; [done|done|congruence].
Qed.

(** ** Taking and returning a slot *)

(** The fields of a descriptor can be read and written. *)
Lemma desc_field H h m d o k :
  heap_ok H h m -> is_desc (a_dpages H) d -> 0 <= o -> o + k <= 40 -> mapped m (d + o) k.
Proof.
  intros Hk Hd H1 H2. destruct (desc_mapped _ _ _ _ Hk Hd) as [Hm _].
  eapply mapped_sub; [exact Hm|lia|lia].
Qed.

Lemma take_slot_spec pre l1 b l2 post sp dps h m s fs :
  let b' := Bkt (b_size b) (b_desc b) (b_page b) fs (s :: b_live b) in
  heap_ok (AHeap (pre ++ (l1 ++ b :: l2) :: post) sp dps) h m -> b_free b = s :: fs ->
  returns (take_slot (b_desc b) m) (fun '(m', r) => r = s /\
    heap_ok (AHeap (pre ++ (l1 ++ b' :: l2) :: post) sp dps) h m' /\
    unchanged (span_of (b_desc b + 16) 10) m m' /\ linked id m' (rdw m' s) fs).
Proof.
  intros b' Hk Hfree. set (H := AHeap _ sp dps) in Hk.
  assert (b ∈ a_buckets H) as Hb by (unfold H; rewrite buckets_middle; set_solver).
  destruct (hk_bucket _ _ _ _ Hk Hb) as (Hbo & Hbd & Hbp & Hbn).
  pose proof (desc_page_apart _ _ _ _ _ Hk Hbd Hbp Hbn) as Hap.
  pose proof Hbo as [Hc Hpg Hfr Hrc Hsl]. rewrite Hfree in Hfr. destruct Hfr as (Es & Hs0 & Hfr).
  change (linked id m (rdw m s) fs) in Hfr.
  assert (forall x, x ∈ s :: fs -> x ∈ slots b) as Hslots.
  { intros x Hx. rewrite <- Hsl, Hfree. set_solver. }
  assert (forall x, x ∈ s :: fs -> 0 < x < 2 ^ 64 /\ mapped m x 8 /\ b_page b <= x /\ x + 8 <= b_page b + 4096) as Hin.
  { intros x Hx. destruct (slot_mapped _ _ _ b x Hk Hb (Hslots x Hx)) as (_ & S1 & S2 & S3 & S4).
    destruct (class_div _ Hc). split; [done|]. split; [done|]. lia. }
  unfold take_slot. rewrite load64_rdw by (apply (desc_field H h); [done|done|lia|lia]). cbn [obind].
  rewrite Es, load64_rdw by (apply Hin; set_solver). cbn [obind].
  eapply returns_bind; [apply store64_spec; apply (desc_field H h); [done|done|lia|lia]|].
  intros m1 [U1 E1]. rewrite (next_small id m _ fs Hfr) in E1 by (intros x Hx; apply Hin; set_solver).
  assert (mapped m1 (bd_refcnt (b_desc b)) 2) as Hm1.
  { eapply unchanged_mapped; [exact U1|]. apply (desc_field H h); [done|done|lia|lia]. }
  rewrite load16_rdh by done. cbn [obind].
  eapply returns_bind; [by apply store16_spec|]. intros m2 [U2 E2].
  destruct (bucket_stores _ _ _ _ _ _ U1 E1 U2 E2) as (U & F1 & F2 & F3 & F4).
  assert (linked id m2 (rdw m s) fs) as Hfr'.
  { eapply linked_unchanged; [exact U| |exact Hfr]. intros x Hx. unfold id.
    apply apart_span. specialize (Hin x ltac:(set_solver)). lia. }
  assert (rdw m2 s = rdw m s) as Er.
  { eapply (rdn_unchanged 8); [exact U|]. apply apart_span. specialize (Hin s ltac:(set_solver)). lia. }
  apply returns_ok. split; [done|]. split; [|split; [done|by rewrite Er]].
  apply (heap_swap _ _ b _ _ _ _ _ _ _ _ _ Hk U); [unfold near, span_of; intros; lia|done|done|done|].
  split; simpl; [done|congruence| | |].
  - by rewrite F1.
  - rewrite F2, F4, Hrc. pose proof (bucket_counts _ _ Hbo) as Hcnt. rewrite Hfree in Hcnt. simpl in Hcnt.
    rewrite Z.mod_small by lia. lia.
  - change (slots b') with (slots b). rewrite <- Hsl, Hfree. simpl. by rewrite Permutation_middle.
Qed.

Lemma put_slot_spec pre l1 b l2 post sp dps h m s live :
  let b' := Bkt (b_size b) (b_desc b) (b_page b) (s :: b_free b) live in
  heap_ok (AHeap (pre ++ (l1 ++ b :: l2) :: post) sp dps) h m -> b_live b ≡ₚ s :: live ->
  returns (put_slot s (b_desc b) m) (fun m' =>
    heap_ok (AHeap (pre ++ (l1 ++ b' :: l2) :: post) sp dps) h m' /\
    unchanged (fun x => span_of s 8 x \/ span_of (b_desc b + 16) 10 x) m m').
Proof.
  intros b' Hk Hlive. set (H := AHeap _ sp dps) in Hk.
  assert (b ∈ a_buckets H) as Hb by (unfold H; rewrite buckets_middle; set_solver).
  destruct (hk_bucket _ _ _ _ Hk Hb) as (Hbo & Hbd & Hbp & Hbn).
  pose proof (desc_page_apart _ _ _ _ _ Hk Hbd Hbp Hbn) as Hap.
  pose proof Hbo as [Hc Hpg Hfr Hrc Hsl].
  assert (forall x, x ∈ s :: b_free b -> 0 < x < 2 ^ 64 /\ mapped m x 8 /\ b_page b <= x /\ x + 8 <= b_page b + 4096) as Hin.
  { intros x Hx. assert (x ∈ slots b) as Hxs by (rewrite <- Hsl, Hlive; set_solver).
    destruct (slot_mapped _ _ _ b x Hk Hb Hxs) as (_ & S1 & S2 & S3 & S4).
    destruct (class_div _ Hc). split; [done|]. split; [done|]. lia. }
  assert (NoDup (b_free b ++ s :: live)) as Hnd.
  { rewrite <- Hlive, Hsl. apply NoDup_nodes. destruct (class_div _ Hc). lia. }
  destruct (Hin s ltac:(set_solver)) as (Hs1 & Hs2 & Hs3 & Hs4).
  unfold put_slot. rewrite load64_rdw by (apply (desc_field H h); [done|done|lia|lia]). cbn [obind].
  eapply returns_bind; [by apply store64_spec|]. intros m0 [U0 E0].
  rewrite (next_small _ m _ _ Hfr) in E0 by (intros x Hx; apply Hin; set_solver).
  assert (forall o k, 0 <= o -> o + k <= 40 -> mapped m0 (b_desc b + o) k) as Hm0.
  { intros o k Ho1 Ho2. eapply unchanged_mapped; [exact U0|]. by apply (desc_field H h). }
  eapply returns_bind; [apply store64_spec, Hm0; lia|]. intros m1 [U1 E1].
  rewrite Z.mod_small in E1 by lia.
  assert (mapped m1 (bd_refcnt (b_desc b)) 2) as Hm1.
  { eapply unchanged_mapped; [exact U1|]. apply Hm0; lia. }
  rewrite load16_rdh by done. cbn [obind].
  eapply returns_mono; [by apply store16_spec|]. intros m2 [U2 E2].
  destruct (bucket_stores _ _ _ _ _ _ U1 E1 U2 E2) as (U & F1 & F2 & F3 & F4).
  assert (unchanged (fun x => span_of s 8 x \/ span_of (b_desc b + 16) 10 x) m m2) as UU.
  { eapply unchanged_trans; (eapply unchanged_mono; [eassumption|]); simpl; tauto. }
  split; [|done].
  apply (heap_swap _ _ b _ _ _ _ _ _ _ _ _ Hk UU);
    [unfold near, span_of; intros x [Hx|Hx]; lia|done|done|done|].
  assert (rdw m2 s = rdw m (bd_freeptr (b_desc b))) as Es.
  { rewrite <- E0. eapply (rdn_unchanged 8); [exact U|]. apply apart_span. lia. }
  split; simpl; [done| | | |].
  - rewrite F3, <- Hpg. unfold bd_page. eapply (rdn_unchanged 8); [exact U0|]. apply apart_span. lia.
  - rewrite F1. split; [done|]. split; [unfold NULL; lia|]. change (lseg id m2 (rdw m2 s) (b_free b) NULL). rewrite Es.
    eapply lseg_unchanged; [exact UU| |exact Hfr]. intros x Hx y Hy [Hz|Hz]; unfold id, span_of in *.
    + assert (x <> s) as Hne by (intros ->; apply NoDup_app in Hnd as (_ & Hd & _); by apply (Hd s Hx); set_solver).
      destruct (class_div _ Hc) as (C1 & _ & _).
      destruct (slots_apart b x s Hc ltac:(by eapply free_slot) ltac:(rewrite <- Hsl, Hlive; set_solver) Hne); lia.
    + destruct (Hin x ltac:(set_solver)). lia.
  - rewrite F2, F4.
    replace (rdh m0 (bd_refcnt (b_desc b))) with (rdh m (bd_refcnt (b_desc b))).
    2:{ symmetry. eapply (rdn_unchanged 2); [exact U0|]. apply apart_span. unfold bd_refcnt. lia. }
    rewrite Hrc, Hlive. pose proof (bucket_counts _ _ Hbo) as Hcnt. rewrite Hlive in Hcnt. simpl in *.
    rewrite Z.mod_small by lia. lia.
  - change (slots b') with (slots b). rewrite <- Hsl, Hlive. by rewrite Permutation_middle.
Qed.
End heap_facts.
