(* ===== verification/MallocGrow.v ===== *)
(** * The heap: new and released buckets

    The steps of [malloc] and [free] that move pages and descriptors: a fresh
    page of descriptors, a new bucket, an empty bucket given back. *)

From S2P Require Import Prelude CMem Str StrFacts StrSafe Console Words Pages PagesFacts Malloc MallocSpec MallocFacts.

Local Open Scope Z_scope.
Local Open Scope c_scope.

Lemma map_ok_ext base n used used' s :
  (forall p, is_page base n p -> p ∈ used <-> p ∈ used') -> map_ok base n used s -> map_ok base n used' s.
Proof.
  intros HE [H1 H2 H3]. split; [done|done|]. intros j Hj. rewrite H3 by done. do 2 f_equal.
  specialize (HE (page_at base j) ltac:(by exists j)).
  destruct (decide (page_at base j ∈ used)), (decide (page_at base j ∈ used')); tauto.
Qed.

Section grow.
Context (base n : Z) `{!Region base n}.
Local Abbreviation heap_ok := (heap_ok base n).

(** Writes that miss the descriptors and the free slots do not matter. *)
Lemma heap_frame H h R m m' :
  heap_ok H h m -> unchanged R m m' ->
  (forall d, d ∈ a_descs H -> apart R d 40) ->
  (forall b s, b ∈ a_buckets H -> s ∈ b_free b -> apart R s 8) ->
  heap_ok H h m'.
Proof.
  intros Hk Hu HD HS.
  assert (forall b, b ∈ a_buckets H -> apart R (b_desc b) 40) as HB.
  { intros b Hb. apply HD. unfold a_descs. set_solver. }
  pose proof Hk as []. split; try done.
  - by eapply unchanged_mapped.
  - intros k l Hl. eapply chain_ok_frame; [by apply hk_chain|exact Hu|]. intros b Hb.
    eapply apart_sub; [apply HB; by eapply chain_bucket|unfold bd_next; lia|unfold bd_next; lia].
  - eapply linked_unchanged; [exact Hu| |done]. intros d Hd.
    eapply apart_sub; [apply (HD d); unfold a_descs; set_solver|unfold bd_next; lia|unfold bd_next; lia].
  - rewrite list.Forall_forall in hk_buckets |- *. intros b Hb.
    eapply bucket_ok_frame_desc; [by apply hk_buckets|exact Hu|by apply HB|]. intros s Hs. by eapply HS.
Qed.

(** In particular writes to a page that is not in use. *)
Lemma heap_fresh_page H h p m m' :
  heap_ok H h m -> is_page base n p -> p ∉ a_used H -> unchanged (span_of p 4096) m m' -> heap_ok H h m'.
Proof.
  intros Hk Hp Hn Hu. unfold a_used in Hn. apply not_elem_of_app in Hn as [Hn1 Hn2].
  apply (heap_frame H h (span_of p 4096) m); [done|done| |].
  - intros d Hd. apply apart_span. pose proof (hk_desc_in _ _ _ _ _ Hk) as HF.
    rewrite list.Forall_forall in HF.
    destruct (desc_page_apart base n _ _ _ d p Hk (HF d Hd) Hp Hn1); lia.
  - intros b s Hb Hs. apply apart_span. destruct (hk_bucket _ _ _ _ _ _ Hk Hb) as (Ho & _ & Hbp & _).
    destruct (slot_mapped _ _ _ _ _ b s Hk Hb (free_slot _ _ _ Ho Hs)) as (_ & _ & _ & S1 & S2).
    destruct (class_div _ (bo_class _ _ Ho)).
    assert (b_page b <> p) as Hne by set_solver.
    destruct (pages_apart base n _ p Hbp Hp Hne); lia.
Qed.

(** ** A page of descriptors *)

Lemma heap_add_dpage ch dps h m p pg :
  heap_ok (AHeap ch [] dps) h m -> is_page base n p -> p ∉ a_used (AHeap ch [] dps) ->
  map_ok base n (p :: a_used (AHeap ch [] dps)) pg ->
  linked bd_next m p (nodes p SIZEOF_BUCKET_DESC (Z.to_nat DESCS)) ->
  heap_ok (AHeap ch (nodes p SIZEOF_BUCKET_DESC (Z.to_nat DESCS)) (p :: dps))
          (set_free_desc p (set_pages pg h)) m.
Proof.
  intros Hk Hp Hn Hpg Hl. pose proof Hk as [].
  assert (forall d, is_desc dps d -> is_desc (p :: dps) d) as Hmono.
  { intros d (q & i & Hq & Hi). exists q, i. split; [by right|done]. }
  split; try done.
  - unfold a_descs in *. simpl in *. rewrite app_nil_r in hk_descs, hk_desc_in. apply NoDup_app. split; [done|].
    split; [|apply NoDup_nodes; done]. intros d Hd Hd'. apply elem_of_nodes in Hd' as (i & Hi & ->).
    rewrite list.Forall_forall in hk_desc_in. specialize (hk_desc_in _ Hd).
    unfold a_used in Hn. apply not_elem_of_app in Hn as [Hn1 Hn2].
    destruct (desc_page_apart base n _ _ _ _ p Hk hk_desc_in Hp Hn1);
      unfold DESCS, SIZEOF_BUCKET_DESC, PAGE_SIZE in *; change (4096 / 40) with 102 in *; lia.
  - unfold a_descs in *. simpl in *. rewrite app_nil_r in hk_desc_in. apply list.Forall_app. split.
    + eapply list.Forall_impl; [exact hk_desc_in|done].
    + apply list.Forall_forall. intros d (i & Hi & ->)%elem_of_nodes. exists p, i.
      split; [left|]. split; [|done]. unfold DESCS in *. change (PAGE_SIZE / SIZEOF_BUCKET_DESC) with 102 in *. lia.
  - unfold a_used in *. simpl. apply NoDup_cons. done.
  - unfold a_used in *. simpl. apply list.Forall_cons. done.
Qed.

Lemma init_bucket_desc_spec ch dps h m :
  heap_ok (AHeap ch [] dps) h m ->
  (init_bucket_desc h m = Panic "Out of memory in init_bucket_desc()\n" /\
   forall q, is_page base n q -> q ∈ a_used (AHeap ch [] dps)) \/
  exists p pg m', init_bucket_desc h m = Ok (set_free_desc p (set_pages pg h), m') /\
    is_page base n p /\ p ∉ a_used (AHeap ch [] dps) /\
    unchanged (span_of p 4096) m m' /\
    heap_ok (AHeap ch (nodes p SIZEOF_BUCKET_DESC (Z.to_nat DESCS)) (p :: dps))
            (set_free_desc p (set_pages pg h)) m'.
Proof.
  intros Hk. unfold init_bucket_desc.
  destruct (get_free_page_spec base n _ _ (hk_map _ _ _ _ _ Hk)) as ([pg p] & -> & [(Hp & Hn & Hpg)|[-> Hall]]);
    cbn [obind]; [right|by left].
  destruct (is_page_bounds base n p Hp) as (B1 & B2 & B3 & _). pose proof (region_end (base := base) (n := n)).
  destruct (Z.eqb_spec p NULL); [unfold NULL in *; lia|].
  assert (mapped m p 4096) as Hm.
  { eapply mapped_sub; [apply (hk_mapped _ _ _ _ _ Hk)|lia|lia]. }
  change (PAGE_SIZE / SIZEOF_BUCKET_DESC) with (Z.of_nat 101 + 1).
  destruct (link_loop bd_next 8 40 101 (S (Z.to_nat (Z.of_nat 101 + 1))) p m) as ([m1 e] & E & -> & U1 & L1);
    [done|lia|lia|lia|lia|eapply mapped_sub; [exact Hm|lia|lia]|lia|lia|].
  unfold SIZEOF_BUCKET_DESC. rewrite E. cbn [obind].
  assert (mapped m1 (bd_next (p + 40 * Z.of_nat 101)) 8) as Hm1.
  { unfold bd_next. eapply unchanged_mapped; [exact U1|]. eapply mapped_sub; [exact Hm|lia|lia]. }
  destruct (store64_spec m1 _ (free_bucket_desc h) Hm1) as (m2 & -> & U2 & E2). cbn [obind].
  assert (unchanged (span_of p 4096) m m2) as U.
  { eapply unchanged_trans; (eapply unchanged_mono; [eassumption|]); unfold span_of, bd_next; intros; lia. }
  exists p, pg, m2. split; [done|]. split; [done|]. split; [done|]. split; [done|].
  apply (heap_add_dpage ch dps h m2 p pg); [by eapply heap_fresh_page|done|done|done|].
  unfold linked. change (Z.to_nat DESCS) with 102%nat. change SIZEOF_BUCKET_DESC with 40. rewrite nodes_snoc.
  apply lseg_app. exists (p + 40 * Z.of_nat 101). split.
  - eapply lseg_unchanged; [exact U2| |exact L1]. intros x (i & Hi & ->)%elem_of_nodes.
    unfold bd_next. apply apart_span. lia.
  - split; [done|]. split; [unfold NULL; lia|]. simpl. rewrite E2.
    pose proof (hk_spare _ _ _ _ _ Hk) as Hsp. unfold linked in Hsp. simpl in Hsp. by rewrite Hsp.
Qed.

(** ** A new bucket *)

Lemma add_bucket_descs pre l post d sp dps b :
  b_desc b = d ->
  a_descs (AHeap (pre ++ (b :: l) :: post) sp dps) ≡ₚ a_descs (AHeap (pre ++ l :: post) (d :: sp) dps).
Proof.
  intros <-. unfold a_descs, a_buckets. simpl. rewrite !concat_middle, !fmap_app. simpl.
  solve_Permutation.
Qed.

Lemma add_bucket_used pre l post sp sp' dps b :
  a_used (AHeap (pre ++ (b :: l) :: post) sp dps) ≡ₚ b_page b :: a_used (AHeap (pre ++ l :: post) sp' dps).
Proof.
  unfold a_used, a_buckets. simpl. rewrite !concat_middle, !fmap_app. simpl.
  solve_Permutation.
Qed.

Lemma add_bucket_buckets pre l post sp sp' dps b :
  a_buckets (AHeap (pre ++ (b :: l) :: post) sp dps) ≡ₚ b :: a_buckets (AHeap (pre ++ l :: post) sp' dps).
Proof. unfold a_buckets. simpl. rewrite !concat_middle. simpl. solve_Permutation. Qed.

(** Writes to the first spare descriptor and to a page that is not in use. *)
Lemma fresh_apart ch d sp dps h m p R :
  let H := AHeap ch (d :: sp) dps in
  heap_ok H h m -> is_page base n p -> p ∉ a_used H ->
  (forall x, R x -> d <= x < d + 40 \/ p <= x < p + 4096) ->
  (forall e, e ∈ (b_desc <$> a_buckets H) ++ sp -> apart R e 40) /\
  (forall b s, b ∈ a_buckets H -> s ∈ b_free b -> apart R s 8).
Proof.
  intros H Hk Hp Hn HR. unfold a_used in Hn. apply not_elem_of_app in Hn as [Hn1 Hn2].
  pose proof (hk_desc_in _ _ _ _ _ Hk) as HF. rewrite list.Forall_forall in HF.
  pose proof (hk_descs _ _ _ _ _ Hk) as ND. unfold a_descs in ND, HF. simpl in ND, HF.
  rewrite <- Permutation_middle in ND. apply NoDup_cons in ND as [ND _].
  assert (is_desc dps d) as Hd by (apply HF; set_solver).
  split.
  - intros e He x Hx HRx. assert (is_desc dps e) as Hed by (apply HF; set_solver).
    destruct (HR x HRx) as [Hx'|Hx'].
    + assert (e <> d) as Hne by congruence.
      destruct (descs_apart base n dps e d (hk_dpages _ _ _ _ _ Hk) Hed Hd Hne); lia.
    + destruct (desc_page_apart base n _ _ _ e p Hk Hed Hp Hn1); lia.
  - intros b s Hb Hs x Hx HRx. destruct (hk_bucket _ _ _ _ _ _ Hk Hb) as (Ho & _ & Hbp & Hbn).
    destruct (slot_mapped _ _ _ _ _ b s Hk Hb (free_slot _ _ _ Ho Hs)) as (_ & _ & _ & S1 & S2).
    destruct (class_div _ (bo_class _ _ Ho)). destruct (HR x HRx) as [Hx'|Hx'].
    + destruct (desc_page_apart base n _ _ _ d (b_page b) Hk Hd Hbp Hbn); lia.
    + assert (b_page b <> p) as Hne by set_solver.
      destruct (pages_apart base n _ p Hbp Hp Hne); lia.
Qed.

Lemma heap_add_bucket pre l post d sp dps h m m' j pg c b R :
  let H := AHeap (pre ++ l :: post) (d :: sp) dps in
  let sz := class_size (length pre) in
  heap_ok H h m -> unchanged R m m' ->
  (forall x, R x -> d <= x < d + 40 \/ page_at base j <= x < page_at base j + 4096) ->
  0 <= j < n -> page_at base j ∉ a_used H -> map_ok base n (page_at base j :: a_used H) pg ->
  bucket_dir h !! length pre = Some (BDir sz c) ->
  b_desc b = d -> b_page b = page_at base j -> b_size b = sz -> bucket_ok m' b ->
  rdw m' (bd_next d) = c ->
  heap_ok (AHeap (pre ++ (b :: l) :: post) sp dps)
    (Heap pg (<[length pre := BDir sz d]> (bucket_dir h)) (rdw m (bd_next d))
          (<[Z.to_nat j := sz]> (bd_kmap h))) m'.
Proof.
  intros H sz Hk Hu HR Hj Hn Hpg Hdir Ed Ep Es Ho Hnext.
  assert (is_page base n (page_at base j)) as Hp by by exists j.
  destruct (fresh_apart _ _ _ _ _ _ _ R Hk Hp Hn HR) as [Fd Fs].
  assert (forall e, e ∈ (b_desc <$> a_buckets H) ++ sp -> apart R (bd_next e) 8) as Fn.
  { intros e He. eapply apart_sub; [by apply Fd|unfold bd_next; lia|unfold bd_next; lia]. }
  set (H' := AHeap (pre ++ (b :: l) :: post) sp dps).
  pose proof (add_bucket_descs pre l post d sp dps b Ed : a_descs H' ≡ₚ a_descs H) as Pd.
  pose proof (add_bucket_used pre l post sp (d :: sp) dps b : a_used H' ≡ₚ _ :: a_used H) as Pu.
  pose proof (add_bucket_buckets pre l post sp (d :: sp) dps b : a_buckets H' ≡ₚ b :: a_buckets H) as Pb.
  pose proof (region_size (base := base) (n := n)) as Rs.
  pose proof Hk as []. destruct hk_dir as [Hdl Hd9].
  assert (length pre < 9)%nat as Hpre.
  { unfold H, nclasses in hk_classes. simpl in hk_classes. rewrite length_app in hk_classes. simpl in *. lia. }
  destruct hk_spare as (Hsd & Hdn & Hsp).
  split; simpl; rewrite ?Pd, ?Pu; try done.
  - by eapply unchanged_mapped.
  - rewrite length_insert, list_lookup_insert_ne by (unfold nclasses; lia). done.
  - rewrite <- hk_classes. unfold H. simpl. by rewrite !length_app.
  - intros k l' Hl'. destruct (decide (k = length pre)) as [->|Hne].
    + rewrite list_lookup_middle in Hl' by done. injection Hl' as <-.
      destruct (hk_chain (length pre) l) as (c' & Hc' & Hl & HF); [by apply list_lookup_middle|].
      assert (c' = c) as -> by congruence. exists d. cbn [bucket_dir]. rewrite list_lookup_insert_eq by lia.
      split; [done|]. split; [|by apply list.Forall_cons].
      simpl. rewrite Ed. split; [done|]. split; [done|]. rewrite Hnext.
      eapply linked_unchanged; [exact Hu| |exact Hl]. intros e (b' & -> & Hb')%list_elem_of_fmap. apply Fn.
      apply elem_of_app. left. apply list_elem_of_fmap. exists b'. split; [done|].
      by apply (chain_bucket H (length pre) l); [apply list_lookup_middle|].
    + rewrite (lookup_middle_ne _ _ _ l k Hne) in Hl'.
      destruct (hk_chain k l' Hl') as (c' & Hc' & Hl & HF). exists c'. cbn [bucket_dir].
      rewrite list_lookup_insert_ne by done. split; [done|]. split; [|done].
      eapply linked_unchanged; [exact Hu| |exact Hl]. intros e (b' & -> & Hb')%list_elem_of_fmap. apply Fn.
      apply elem_of_app. left. apply list_elem_of_fmap. exists b'. split; [done|].
      by apply (chain_bucket H k l').
  - eapply linked_unchanged; [exact Hu| |exact Hsp]. intros e He. apply Fn. set_solver.
  - rewrite Pb. apply list.Forall_cons. split; [done|]. rewrite list.Forall_forall in hk_buckets |- *.
    intros b' Hb'. eapply bucket_ok_frame_desc; [by apply hk_buckets|exact Hu| |by intros s; apply Fs].
    apply Fd. set_solver.
  - apply NoDup_cons. by rewrite Ep.
  - apply list.Forall_cons. by rewrite Ep.
  - eapply map_ok_ext; [|exact Hpg]. intros q _. by rewrite Pu, Ep.
  - by rewrite length_insert.
  - intros b' j' Hb' Hj' Hp'. rewrite Pb in Hb'. apply elem_of_cons in Hb' as [->|Hb'].
    + rewrite Ep in Hp'. apply page_at_inj in Hp' as <-. rewrite Es. apply list_lookup_insert_eq. lia.
    + destruct (decide (j' = j)) as [->|Hne].
      * destruct Hn. unfold a_used. apply elem_of_app. right. apply list_elem_of_fmap. eauto.
      * rewrite list_lookup_insert_ne by lia. by apply hk_kmap.
Qed.

Lemma link_slots_spec p sz m :
  is_class sz -> is_page base n p -> mapped m p 4096 ->
  returns (link_slots p sz m) (fun m' => unchanged (span_of p 4096) m m' /\
    linked id m' p (nodes p sz (Z.to_nat (4096 / sz)))).
Proof.
  intros Hc Hp Hm. destruct (class_div sz Hc) as (C1 & C2 & C3).
  destruct (is_page_bounds base n p Hp) as (B1 & B2 & B3 & _). pose proof (region_end (base := base) (n := n)).
  unfold link_slots. change PAGE_SIZE with 4096. set (q := 4096 / sz) in *.
  destruct (Z.to_nat q) as [|k] eqn:Eq; [lia|]. replace q with (Z.of_nat k + 1) in * by lia.
  eapply returns_bind; [apply (link_loop id 0 sz k (S (S k)) p m); [|lia|lia|lia|lia| |lia|lia]|].
  { intros x. unfold id. lia. }
  { eapply mapped_sub; [exact Hm|lia|lia]. }
  intros [m1 e] (-> & U1 & L1). cbv beta iota.
  assert (mapped m1 (p + sz * Z.of_nat k) 8) as Hm1.
  { eapply unchanged_mapped; [exact U1|]. eapply mapped_sub; [exact Hm|nia|lia]. }
  eapply returns_mono; [by apply store64_spec|]. intros m2 [U2 E2]. split.
  - eapply unchanged_trans; (eapply unchanged_mono; [eassumption|]); unfold span_of; intros; nia.
  - unfold linked. rewrite nodes_snoc. apply lseg_app. exists (p + sz * Z.of_nat k). split.
    + eapply lseg_unchanged; [exact U2| |exact L1]. intros x (i & Hi & ->)%elem_of_nodes.
      unfold id. apply apart_span. nia.
    + split; [done|]. split; [unfold NULL; nia|]. simpl. by rewrite E2.
Qed.

Lemma set_chain_ok k b d h :
  bucket_dir h !! k = Some b ->
  set_chain (Z.of_nat k) d h =
    Ok (Heap (h_pages h) (<[k := BDir (bdir_size b) d]> (bucket_dir h)) (free_bucket_desc h) (bd_kmap h)).
Proof.
  intros Hb. unfold set_chain. rewrite (arr_get_nat _ _ _ Hb). cbn [obind].
  apply lookup_lt_Some in Hb. rewrite arr_set_Z by lia. by rewrite Nat2Z.id.
Qed.

Lemma keep k R m m' a v : rdn k m a = v -> unchanged R m m' -> apart R a (Z.of_nat k) -> rdn k m' a = v.
Proof. intros <- Hu HR. by eapply rdn_unchanged. Qed.

Lemma kmap_class sz : is_class sz -> Z.land sz 65535 = sz.
Proof.
  intros Hc. destruct (class_div _ Hc) as (H1 & _). change 65535 with (Z.ones 16).
  rewrite Z.land_ones by lia. apply Z.mod_small. lia.
Qed.

(** The four fields written before the slots are linked. *)
Lemma setup_fields {A} (K : mem -> outcome A) d size p m :
  mapped m d 40 -> 0 <= p < 2 ^ 64 ->
  exists m', (let! m := store16 m (bd_refcnt d) 0 in
              let! m := store64 m (bd_size d) size in
              let! m := store64 m (bd_freeptr d) p in
              let! m := store64 m (bd_page d) p in K m) = K m' /\
    unchanged (span_of d 40) m m' /\
    rdh m' (bd_refcnt d) = 0 /\ rdw m' (bd_freeptr d) = p /\ rdw m' (bd_page d) = p.
Proof.
  intros Hm Hp. unfold bd_refcnt, bd_size, bd_freeptr, bd_page.
  assert (forall m', unchanged (span_of d 40) m m' -> forall o j, 0 <= o -> o + j <= 40 -> mapped m' (d + o) j) as Hd.
  { intros m' U o j H1 H2. eapply unchanged_mapped; [exact U|]. eapply mapped_sub; [exact Hm|lia|lia]. }
  assert (forall m1 m2 o j, unchanged (span_of d 40) m m1 -> 0 <= o -> o + j <= 40 ->
            unchanged (span_of (d + o) j) m1 m2 -> unchanged (span_of d 40) m m2) as Hs.
  { intros m1 m2 o j U Ho Hj V. eapply unchanged_trans; [exact U|]. eapply unchanged_mono; [exact V|].
    unfold span_of. lia. }
  pose proof (unchanged_refl (span_of d 40) m) as V0.
  destruct (store16_spec m (d + 24) 0) as (m1 & -> & U1 & E1); [by apply (Hd m V0)|]. cbn [obind].
  pose proof (Hs _ _ 24 2 V0 ltac:(lia) ltac:(lia) U1) as V1.
  destruct (store64_spec m1 (d + 32) size) as (m2 & -> & U2 & _); [by apply (Hd m1 V1)|]. cbn [obind].
  pose proof (Hs _ _ 32 8 V1 ltac:(lia) ltac:(lia) U2) as V2.
  destruct (store64_spec m2 (d + 16) p) as (m3 & -> & U3 & E3); [by apply (Hd m2 V2)|]. cbn [obind].
  pose proof (Hs _ _ 16 8 V2 ltac:(lia) ltac:(lia) U3) as V3.
  destruct (store64_spec m3 d p) as (m4 & -> & U4 & E4);
    [rewrite <- (Z.add_0_r d); by apply (Hd m3 V3)|]. cbn [obind].
  assert (unchanged (span_of d 40) m m4) as V4.
  { apply (Hs _ _ 0 8 V3); [lia|lia|]. by rewrite Z.add_0_r. }
  rewrite Z.mod_small in E3, E4 by lia.
  exists m4. split; [done|]. split; [done|]. split; [|split; [|done]].
  - eapply (keep 2); [eapply (keep 2); [eapply (keep 2); [exact E1|exact U2|]|exact U3|]|exact U4|];
      apply apart_span; lia.
  - eapply (keep 8); [exact E3|exact U4|]. apply apart_span; lia.
Qed.

(** The bucket that the steps of [setup_bucket] leave behind. *)
Lemma new_bucket_ok m4 m5 m6 k d p :
  is_class (class_size k) -> is_page base n p -> d + 40 <= p \/ p + 4096 <= d ->
  rdh m4 (bd_refcnt d) = 0 -> rdw m4 (bd_freeptr d) = p -> rdw m4 (bd_page d) = p ->
  unchanged (span_of p 4096) m4 m5 -> linked id m5 p (nodes p (class_size k) (Z.to_nat (4096 / class_size k))) ->
  unchanged (span_of (bd_next d) 8) m5 m6 ->
  bucket_ok m6 (Bkt (class_size k) d p (nodes p (class_size k) (Z.to_nat (4096 / class_size k))) []).
Proof.
  intros Hc Hp Hap E1 E2 E3 U5 L5 U6.
  assert (forall j o, 0 <= o -> o + Z.of_nat j <= 40 -> o + Z.of_nat j <= 8 \/ 16 <= o ->
            rdn j m6 (d + o) = rdn j m4 (d + o)) as E.
  { intros j o H1 H2 H3. eapply (keep j); [eapply (keep j); [done|exact U5|]|exact U6|];
      apply apart_span; unfold bd_next; lia. }
  unfold bd_refcnt, bd_freeptr, bd_page in *.
  split; cbn [b_size b_desc b_page b_free b_live]; [done| | | |by rewrite app_nil_r].
  - unfold bd_page. rewrite <- (Z.add_0_r d), E, Z.add_0_r by lia. done.
  - unfold bd_freeptr. rewrite E, E2 by lia.
    eapply linked_unchanged; [exact U6| |exact L5]. intros x Hx. unfold id, bd_next. apply apart_span.
    apply (slot_in (Bkt (class_size k) d p [] [])) in Hx; [|done]. simpl in Hx.
    destruct (class_div _ Hc). lia.
  - unfold bd_refcnt. by rewrite E, E1 by lia.
Qed.

Lemma set_kmap_page j sz h :
  0 <= j < n -> is_class sz -> length (bd_kmap h) = Z.to_nat PAGING_PAGES ->
  set_kmap (Z.shiftr (s32 (page_at base j - base)) 12) sz h =
    Ok (Heap (h_pages h) (bucket_dir h) (free_bucket_desc h) (<[Z.to_nat j := sz]> (bd_kmap h))).
Proof.
  intros Hj Hc Hl. pose proof (region_size (base := base) (n := n)) as Rs. change PAGING_PAGES with 16 in *.
  assert (s32 (page_at base j - base) = j * 2 ^ 12) as ->.
  { unfold page_at, s32. rewrite swrap_small by lia. lia. }
  rewrite Z.shiftr_div_pow2, Z_div_mult by lia. unfold set_kmap.
  rewrite arr_set_Z by (rewrite Hl; lia). cbn [obind]. by rewrite kmap_class.
Qed.

Lemma chain_head_range H h m k l c :
  heap_ok H h m -> a_chains H !! k = Some l -> linked bd_next m c (b_desc <$> l) -> 0 <= c < 2 ^ 64.
Proof.
  intros Hk Hl Hc. destruct l as [|b0 l0]; [unfold linked in Hc; simpl in Hc; unfold NULL in Hc; lia|].
  destruct Hc as [-> _]. destruct (desc_mapped base n H h m (b_desc b0) Hk); [|lia].
  apply (desc_of_bucket base n H h m); [done|]. by apply (chain_bucket H k (b0 :: l0)); [|left].
Qed.

Lemma setup_bucket_spec pre l post d sp dps h m :
  let H := AHeap (pre ++ l :: post) (d :: sp) dps in
  let k := length pre in
  heap_ok H h m ->
  (setup_bucket base (Z.of_nat k) (class_size k) h m = Panic "Out of memory in malloc()\n" /\
   forall q, is_page base n q -> q ∈ a_used H) \/
  exists h' m' p, setup_bucket base (Z.of_nat k) (class_size k) h m = Ok (h', m', d) /\
    is_page base n p /\ p ∉ a_used H /\
    unchanged (fun x => span_of d 40 x \/ span_of p 4096 x) m m' /\
    heap_ok (AHeap (pre ++ (Bkt (class_size k) d p (nodes p (class_size k) (Z.to_nat (4096 / class_size k))) [] :: l)
                        :: post) sp dps) h' m'.
Proof.
  intros H k Hk. unfold setup_bucket. pose proof Hk as [].
  assert (a_chains H !! k = Some l) as Hkl by by apply list_lookup_middle.
  assert (k < nclasses)%nat as Hkn by (apply lookup_lt_Some in Hkl; lia).
  assert (is_class (class_size k)) as Hc by by exists k.
  destruct (hk_chain k l Hkl) as (c & Hdir & Hl & _). destruct hk_spare as (Efd & Hd0 & Hsp). rewrite Efd.
  assert (is_desc dps d) as Hd by (apply (desc_of_spare base n H h m d Hk); simpl; left).
  destruct (desc_mapped base n H h m d Hk Hd) as [Hm Hdr].
  rewrite load64_rdw by (unfold bd_next; eapply mapped_sub; [exact Hm|lia|lia]). cbn [obind].
  destruct (get_free_page_spec base n _ _ hk_map) as ([pg p] & Eg & [(Hp & Hn & Hpg)|[-> Hall]]);
    simpl (h_pages _); rewrite Eg; cbn [obind].
  2:{ left. split; [|done]. by edestruct (setup_fields (A := heap * mem * Z)) as (m4 & -> & _). }
  right. destruct (is_page_bounds base n p Hp) as (B1 & B2 & B3 & _).
  pose proof (region_end (base := base) (n := n)) as Re.
  assert (p ∉ dps) as Hnd by (unfold a_used in Hn; set_solver).
  pose proof (desc_page_apart base n _ _ _ d p Hk Hd Hp Hnd) as Hap.
  edestruct (setup_fields (A := heap * mem * Z)) as (m4 & -> & V4 & E1 & E2 & E3); [exact Hm|lia|].
  destruct (Z.eqb_spec p NULL); [unfold NULL in *; lia|].
  destruct (link_slots_spec p (class_size k) m4 Hc Hp) as (m5 & -> & U5 & L5).
  { eapply unchanged_mapped; [exact V4|]. eapply mapped_sub; [exact hk_mapped|lia|lia]. }
  cbn [obind bucket_dir set_pages set_free_desc]. rewrite (arr_get_nat _ _ _ Hdir). cbn [obind bdir_chain].
  assert (mapped m5 d 40) as Hm5 by (eapply unchanged_mapped; [exact U5|]; by eapply unchanged_mapped).
  destruct (store64_spec m5 (bd_next d) c) as (m6 & -> & U6 & E6);
    [unfold bd_next; eapply mapped_sub; [exact Hm5|lia|lia]|]. cbn [obind].
  rewrite Z.mod_small in E6 by by eapply chain_head_range.
  assert (unchanged (fun x => span_of d 40 x \/ span_of p 4096 x) m m6) as V6.
  { eapply unchanged_trans; [eapply unchanged_mono; [exact V4|tauto]|].
    eapply unchanged_trans; eapply unchanged_mono; [exact U5|tauto|exact U6|unfold span_of, bd_next; intros; lia]. }
  pose proof (new_bucket_ok m4 m5 m6 k d p Hc Hp Hap E1 E2 E3 U5 L5 U6) as Ho.
  rewrite (set_chain_ok _ (BDir (class_size k) c)) by done. cbn [obind].
  rewrite load64_rdw by (eapply unchanged_mapped; [exact V6|]; eapply mapped_sub; [exact Hm|unfold bd_page; lia|unfold bd_page; lia]).
  cbn [obind]. pose proof (bo_page _ _ Ho) as Epg. cbn [b_page b_desc] in Epg. rewrite Epg.
  destruct Hp as (j & Hj & ->).
  rewrite set_kmap_page by done. cbn [obind].
  eexists _, m6, (page_at base j). split; [done|]. split; [by exists j|]. split; [done|]. split; [done|].
  by apply (heap_add_bucket pre l post d sp dps h m m6 j pg c _ _ Hk V6).
Qed.

(** ** An empty bucket is given back *)

(** The words written when a bucket leaves its chain. *)
Definition removal (l1 : list bkt) (b : bkt) (x : Z) : Prop :=
  span_of (bd_next (b_desc b)) 8 x \/ span_of (b_page b) 4096 x \/
  exists q, list.last l1 = Some q /\ span_of (bd_next (b_desc q)) 8 x.

Lemma removal_slots H h m l1 b b0 s :
  heap_ok H h m -> b ∈ a_buckets H -> (forall q, list.last l1 = Some q -> q ∈ a_buckets H) ->
  b0 ∈ a_buckets H -> b_page b0 <> b_page b -> s ∈ b_free b0 -> apart (removal l1 b) s 8.
Proof.
  intros Hk Hb Hl Hb0 Hne Hs x Hx HRx. destruct (hk_bucket _ _ _ _ _ _ Hk Hb) as (_ & Hd & Hp & _).
  destruct (hk_bucket _ _ _ _ _ _ Hk Hb0) as (Ho & _ & Hp0 & Hn0).
  destruct (slot_mapped _ _ _ _ _ b0 s Hk Hb0 (free_slot _ _ _ Ho Hs)) as (_ & _ & _ & S1 & S2).
  destruct (class_div _ (bo_class _ _ Ho)). unfold span_of, bd_next in *.
  destruct HRx as [Hy|[Hy|(q & Hq & Hy)]]; unfold span_of, bd_next in Hy.
  - destruct (desc_page_apart base n _ _ _ _ (b_page b0) Hk Hd Hp0 Hn0); lia.
  - destruct (pages_apart base n _ _ Hp0 Hp Hne); lia.
  - destruct (hk_bucket _ _ _ _ _ _ Hk (Hl q Hq)) as (_ & Hqd & _).
    destruct (desc_page_apart base n _ _ _ _ (b_page b0) Hk Hqd Hp0 Hn0); lia.
Qed.

(** Of the descriptors only the links of the bucket and of its predecessor change. *)
Lemma removal_desc H h m l1 b e o k :
  heap_ok H h m -> b ∈ a_buckets H -> (forall q, list.last l1 = Some q -> q ∈ a_buckets H) ->
  is_desc (a_dpages H) e -> 0 <= o -> o + k <= 40 ->
  (o + k <= 8 \/ 16 <= o \/ e <> b_desc b /\ forall q, list.last l1 = Some q -> e <> b_desc q) ->
  apart (removal l1 b) (e + o) k.
Proof.
  intros Hk Hb Hl He Ho1 Ho2 Ho x Hx HRx. destruct (hk_bucket _ _ _ _ _ _ Hk Hb) as (_ & Hd & Hp & Hn).
  pose proof (hk_dpages _ _ _ _ _ Hk) as HF.
  destruct HRx as [Hy|[Hy|(q & Hq & Hy)]]; unfold span_of, bd_next in Hy.
  - destruct (decide (e = b_desc b)) as [->|Hne]; [lia|].
    destruct (descs_apart base n _ e (b_desc b) HF He Hd Hne); lia.
  - destruct (desc_page_apart base n _ _ _ e (b_page b) Hk He Hp Hn); lia.
  - destruct (hk_bucket _ _ _ _ _ _ Hk (Hl q Hq)) as (_ & Hqd & _).
    destruct (decide (e = b_desc q)) as [->|Hne].
    + destruct Ho as [Ho|[Ho|[_ Ho]]]; [lia|lia|by destruct (Ho q Hq)].
    + destruct (descs_apart base n _ e (b_desc q) HF He Hqd Hne); lia.
Qed.

End grow.

(** The chain without the bucket. *)
Lemma removal_chain m m' l1 b l2 c :
  unchanged (removal l1 b) m m' ->
  (forall e, e ∈ l1 ++ l2 -> (forall q, list.last l1 = Some q -> b_desc e <> b_desc q) ->
     apart (removal l1 b) (bd_next (b_desc e)) 8) ->
  NoDup (b_desc <$> (l1 ++ b :: l2)) ->
  (forall q, list.last l1 = Some q -> rdw m' (bd_next (b_desc q)) = rdw m (bd_next (b_desc b))) ->
  linked bd_next m c (b_desc <$> (l1 ++ b :: l2)) ->
  linked bd_next m' (match l1 with [] => rdw m (bd_next (b_desc b)) | _ => c end) (b_desc <$> (l1 ++ l2)).
Proof.
  intros Hu Ha Hnd Hq Hl. rewrite fmap_app in Hl. unfold linked in Hl.
  apply lseg_app in Hl as (r & L1 & L2). destruct L2 as (-> & Hb0 & L2).
  rewrite !fmap_app in Hnd. apply NoDup_app in Hnd as (ND1 & NDd & ND2). simpl in ND2, NDd.
  assert (lseg bd_next m' (rdw m (bd_next (b_desc b))) (b_desc <$> l2) NULL) as L2'.
  { eapply lseg_unchanged; [exact Hu| |exact L2]. intros x (e & -> & He)%list_elem_of_fmap. apply Ha; [set_solver|].
    intros q Eq%last_Some E. destruct Eq as (l1' & ->). apply (NDd (b_desc q)); [set_solver|].
    rewrite <- E. right. apply list_elem_of_fmap. eauto. }
  destruct l1 as [|x l1 _] using rev_ind; [done|].
  rewrite fmap_app. apply lseg_app. exists (rdw m (bd_next (b_desc b))).
  split; [|done]. rewrite fmap_app in L1 |- *. apply lseg_app in L1 as (r & L0 & ->&Hx0&_).
  apply lseg_app. exists (b_desc x). split.
  - replace (match l1 ++ [x] with [] => _ | _ => c end) with c by by destruct l1.
    eapply lseg_unchanged; [exact Hu| |exact L0]. intros y (e & -> & He)%list_elem_of_fmap. apply Ha; [set_solver|].
    intros q Eq E. rewrite last_snoc in Eq. injection Eq as ->. rewrite fmap_app in ND1.
    apply NoDup_app in ND1 as (_ & ND1 & _). apply (ND1 (b_desc e)); [apply list_elem_of_fmap; eauto|set_solver].
  - split; [done|]. split; [done|]. apply Hq. apply last_snoc.
Qed.
