(* ===== verification/MallocRelease.v ===== *)
(** * The heap: releasing an empty bucket

    [release_bucket] takes an empty bucket out of its chain, gives its page
    back and keeps its descriptor as a spare. *)

From S2P Require Import Prelude CMem Str StrFacts StrSafe Console Words Pages PagesFacts Malloc MallocSpec MallocFacts.
From S2P Require Import MallocGrow.

Local Open Scope Z_scope.
Local Open Scope c_scope.

Section release.
Context (base n : Z) `{!Region base n}.
Local Abbreviation heap_ok := (heap_ok base n).

Lemma remove_descs pre l1 b l2 post sp dps :
  a_descs (AHeap (pre ++ (l1 ++ l2) :: post) (b_desc b :: sp) dps) ≡ₚ
  a_descs (AHeap (pre ++ (l1 ++ b :: l2) :: post) sp dps).
Proof. unfold a_descs, a_buckets. simpl. rewrite !concat_middle, !fmap_app. simpl. solve_Permutation. Qed.

Lemma remove_used pre l1 b l2 post sp sp' dps :
  a_used (AHeap (pre ++ (l1 ++ b :: l2) :: post) sp dps) ≡ₚ
  b_page b :: a_used (AHeap (pre ++ (l1 ++ l2) :: post) sp' dps).
Proof. unfold a_used, a_buckets. simpl. rewrite !concat_middle, !fmap_app. simpl. solve_Permutation. Qed.

Lemma remove_buckets pre l1 b l2 post sp sp' dps :
  a_buckets (AHeap (pre ++ (l1 ++ b :: l2) :: post) sp dps) ≡ₚ
  b :: a_buckets (AHeap (pre ++ (l1 ++ l2) :: post) sp' dps).
Proof. unfold a_buckets. simpl. rewrite !concat_middle. solve_Permutation. Qed.

Lemma bucket_descs_NoDup H h m : heap_ok H h m -> NoDup (b_desc <$> a_buckets H).
Proof. intros []. unfold a_descs in hk_descs. by apply NoDup_app in hk_descs as (? & _). Qed.

(** ** The abstract step *)

Lemma middle_other (pre post : list (list bkt)) x k l e :
  k <> length pre -> (pre ++ x :: post) !! k = Some l -> e ∈ l -> e ∈ concat pre ++ concat post.
Proof.
  intros Hk Hl He.
  assert (l ∈ pre ++ post) as Hin.
  { apply lookup_app_Some in Hl as [Hl|[Hle Hl]]; [apply list_elem_of_lookup_2 in Hl; set_solver|].
    destruct (k - length pre)%nat as [|j] eqn:E; [lia|]. simpl in Hl. apply list_elem_of_lookup_2 in Hl. set_solver. }
  rewrite <- concat_app. apply list_elem_of_In, in_concat. exists l. split; by apply list_elem_of_In.
Qed.

Lemma other_desc pre post l e q :
  NoDup (b_desc <$> concat (pre ++ l :: post)) -> e ∈ concat pre ++ concat post -> q ∈ l ->
  b_desc e <> b_desc q.
Proof.
  rewrite concat_middle.
  assert (concat pre ++ l ++ concat post ≡ₚ l ++ (concat pre ++ concat post)) as -> by solve_Permutation.
  rewrite fmap_app, NoDup_app. intros (_ & Hd & _) He Hq E. apply (Hd (b_desc q)).
  - apply list_elem_of_fmap. eauto.
  - rewrite <- E. apply list_elem_of_fmap. eauto.
Qed.

Section removing.
Context (pre : list (list bkt)) (l1 : list bkt) (b : bkt) (l2 : list bkt) (post : list (list bkt)).
Context (sp dps : list Z) (h : heap) (m m' : mem).
Let H : aheap := AHeap (pre ++ (l1 ++ b :: l2) :: post) sp dps.
Let H' : aheap := AHeap (pre ++ (l1 ++ l2) :: post) (b_desc b :: sp) dps.
Context (Hk : heap_ok H h m) (Hu : unchanged (removal l1 b) m m').
Context (Hprev : forall q, list.last l1 = Some q -> rdw m' (bd_next (b_desc q)) = rdw m (bd_next (b_desc b))).

Lemma removing_buckets : a_buckets H ≡ₚ b :: a_buckets H'.
Proof. apply remove_buckets. Qed.

Lemma removing_last q : list.last l1 = Some q -> q ∈ a_buckets H.
Proof. intros (l1' & ->)%last_Some. unfold H. rewrite buckets_middle. set_solver. Qed.

Lemma removing_old b0 : b0 ∈ a_buckets H' -> b0 ∈ a_buckets H /\ b_desc b0 <> b_desc b /\ b_page b0 <> b_page b.
Proof.
  intros H0. split; [rewrite removing_buckets; by right|]. split; intros E.
  - pose proof (bucket_descs_NoDup _ _ _ Hk) as ND. rewrite removing_buckets in ND. apply NoDup_cons in ND as [ND _].
    apply ND, list_elem_of_fmap. eauto.
  - pose proof (hk_pages _ _ _ _ _ Hk) as ND. unfold a_used in ND. rewrite removing_buckets in ND.
    apply NoDup_app in ND as (_ & _ & ND). apply NoDup_cons in ND as [ND _]. apply ND, list_elem_of_fmap. eauto.
Qed.

Lemma removing_apart b0 :
  b0 ∈ a_buckets H' -> (forall q, list.last l1 = Some q -> b_desc b0 <> b_desc q) ->
  apart (removal l1 b) (bd_next (b_desc b0)) 8.
Proof.
  intros H0 Hq. destruct (removing_old _ H0) as (H1 & H2 & _).
  apply (removal_desc base n H h m); [done|rewrite removing_buckets; left|apply removing_last| |lia|lia|tauto].
  by apply (desc_of_bucket base n H h m).
Qed.

Lemma removing_chain c :
  bucket_dir h !! length pre = Some (BDir (class_size (length pre)) c) ->
  linked bd_next m' (match l1 with [] => rdw m (bd_next (b_desc b)) | _ => c end) (b_desc <$> (l1 ++ l2)).
Proof.
  intros Hdir. destruct (hk_chain _ _ _ _ _ Hk (length pre) (l1 ++ b :: l2)) as (c' & Hc' & Hl & _);
    [by apply list_lookup_middle|]. assert (c' = c) as -> by congruence.
  eapply removal_chain; [exact Hu| | |exact Hprev|exact Hl].
  - intros e He. apply removing_apart. unfold H', a_buckets. simpl. rewrite concat_middle. set_solver.
  - pose proof (bucket_descs_NoDup _ _ _ Hk) as ND. unfold H, a_buckets in ND. simpl in ND.
    rewrite concat_middle, !fmap_app in ND. apply NoDup_app in ND as (_ & _ & ND).
    apply NoDup_app in ND as (ND & _). by rewrite fmap_app.
Qed.

Lemma removing_other k l c :
  k <> length pre -> a_chains H !! k = Some l -> linked bd_next m c (b_desc <$> l) ->
  linked bd_next m' c (b_desc <$> l).
Proof.
  intros Hne Hl Hc. eapply linked_unchanged; [exact Hu| |exact Hc]. intros x (e & -> & He)%list_elem_of_fmap.
  pose proof (middle_other pre post _ k l e Hne Hl He) as Hin. apply removing_apart.
  - unfold H', a_buckets. simpl. rewrite concat_middle. set_solver.
  - intros q (l1' & ->)%last_Some. apply (other_desc pre post ((l1' ++ [q]) ++ b :: l2)); [|exact Hin|set_solver].
    exact (bucket_descs_NoDup _ _ _ Hk).
Qed.

Lemma removing_bucket b0 : b0 ∈ a_buckets H' -> bucket_ok m' b0.
Proof.
  intros H0. destruct (removing_old _ H0) as (H1 & H2 & H3).
  assert (b ∈ a_buckets H) as Hb by (rewrite removing_buckets; left).
  pose proof (desc_of_bucket base n H h m _ Hk H1) as Hd.
  destruct (hk_bucket _ _ _ _ _ _ Hk H1) as (Ho & _).
  apply (bucket_ok_frame (removal l1 b) m); [done|done| | |].
  - rewrite <- (Z.add_0_r (b_desc b0)). eapply removal_desc; try done; [apply removing_last|lia].
  - eapply removal_desc; try done; [apply removing_last|lia].
  - intros s Hs. by eapply (removal_slots base n H h m _ _ b0); [| |apply removing_last| | |].
Qed.

Lemma heap_remove_bucket pg c :
  rdw m' (bd_next (b_desc b)) = free_bucket_desc h ->
  map_ok base n (a_used H') pg ->
  bucket_dir h !! length pre = Some (BDir (class_size (length pre)) c) ->
  heap_ok H'
    (Heap pg (match l1 with
              | [] => <[length pre := BDir (class_size (length pre)) (rdw m (bd_next (b_desc b)))]> (bucket_dir h)
              | _ => bucket_dir h
              end) (b_desc b) (bd_kmap h)) m'.
Proof.
  intros Hnext Hpg Hdir. pose proof (remove_descs pre l1 b l2 post sp dps : a_descs H' ≡ₚ a_descs H) as Pd.
  pose proof (remove_used pre l1 b l2 post sp (b_desc b :: sp) dps : a_used H ≡ₚ _ :: a_used H') as Pu.
  assert (b ∈ a_buckets H) as Hb by (rewrite removing_buckets; left).
  pose proof Hk as []. destruct hk_dir as [Hdl Hd9].
  assert (length pre < nclasses)%nat as Hkn.
  { unfold H in hk_classes. simpl in hk_classes. rewrite length_app in hk_classes. simpl in *. lia. }
  rewrite Pu in hk_pages, hk_page_in. apply NoDup_cons in hk_pages as [_ hk_pages].
  apply list.Forall_cons in hk_page_in as [_ hk_page_in].
  split; cbn [a_dpages a_chains a_spare bucket_dir h_pages free_bucket_desc bd_kmap]; rewrite ?Pd; try done.
  - by eapply unchanged_mapped.
  - destruct l1; [|done]. rewrite length_insert, list_lookup_insert_ne by lia. done.
  - rewrite <- hk_classes. unfold H. simpl. by rewrite !length_app.
  - intros k l Hl. destruct (decide (k = length pre)) as [->|Hne].
    + unfold H' in Hl. simpl in Hl. rewrite list_lookup_middle in Hl by done. injection Hl as <-. eexists.
      split; [|split; [by eapply removing_chain|]]; cbn [bucket_dir].
      * destruct l1; [apply list_lookup_insert_eq; unfold nclasses in *; lia|done].
      * destruct (hk_chain (length pre) (l1 ++ b :: l2)) as (c' & _ & _ & HF); [by apply list_lookup_middle|].
        rewrite list.Forall_app, list.Forall_cons in HF. apply list.Forall_app. tauto.
    + unfold H' in Hl. simpl in Hl. rewrite (lookup_middle_ne _ _ _ (l1 ++ b :: l2) k Hne) in Hl.
      destruct (hk_chain k l Hl) as (c' & Hc' & Hl' & HF). exists c'. cbn [bucket_dir].
      split; [destruct l1; [by rewrite list_lookup_insert_ne by done|done]|].
      split; [by eapply removing_other|done].
  - destruct (desc_mapped base n H h m _ Hk (desc_of_bucket base n H h m _ Hk Hb)) as [_ Hd0].
    split; [done|]. split; [unfold NULL; lia|]. rewrite Hnext.
    eapply lseg_unchanged; [exact Hu| |exact hk_spare]. intros d Hd.
    unfold a_descs in hk_descs. apply NoDup_app in hk_descs as (_ & HD & _).
    apply (removal_desc base n H h m); [done|done|apply removing_last|by apply (desc_of_spare base n H h m)|lia|lia|].
    right; right. split; [|intros q Hq]; intros ->; (eapply HD; [|exact Hd]; apply list_elem_of_fmap); eauto.
    exists q. split; [done|by apply removing_last].
  - apply list.Forall_forall. exact removing_bucket.
  - intros b0 j H0. apply hk_kmap. by apply removing_old.
Qed.
End removing.

(** ** The code *)

Lemma chain_prev m c l1 b l2 :
  linked bd_next m c (b_desc <$> (l1 ++ b :: l2)) ->
  match list.last l1 with
  | None => c = b_desc b
  | Some q => rdw m (bd_next (b_desc q)) = b_desc b /\ b_desc q <> NULL
  end.
Proof.
  rewrite fmap_app. unfold linked. intros (r & L1 & L2)%lseg_app. destruct L2 as (-> & _ & _).
  destruct l1 as [|q l1 _] using rev_ind; [done|]. rewrite last_snoc. rewrite fmap_app in L1.
  apply lseg_app in L1 as (r & _ & L). simpl in L. destruct L as (-> & Hq & E). done.
Qed.

Lemma next_range H h m k l1 b l2 :
  heap_ok H h m -> a_chains H !! k = Some (l1 ++ b :: l2) -> 0 <= rdw m (bd_next (b_desc b)) < 2 ^ 64.
Proof.
  intros Hk Hl. destruct (hk_chain _ _ _ _ _ Hk k _ Hl) as (c & _ & Hc & _).
  rewrite fmap_app in Hc. apply lseg_app in Hc as (r & _ & L2). destruct L2 as (_ & _ & L2).
  destruct l2 as [|b2 l2]; [simpl in L2; unfold NULL in L2; lia|]. destruct L2 as (-> & _).
  destruct (desc_mapped base n H h m (b_desc b2) Hk); [|lia].
  apply (desc_of_bucket base n H h m); [done|]. apply (chain_bucket H k _ _ Hl). set_solver.
Qed.

(** The rest of [release_bucket] once the bucket is out of its chain. *)
Lemma release_page pre l1 b l2 post sp dps h w used' m1 dir :
  let H := AHeap (pre ++ (l1 ++ b :: l2) :: post) sp dps in
  heap_ok H h (w_mem w) -> a_used H ≡ₚ b_page b :: used' ->
  unchanged (fun x => exists q, list.last l1 = Some q /\ span_of (bd_next (b_desc q)) 8 x) (w_mem w) m1 ->
  returns
    (let! page := load64 m1 (bd_page (b_desc b)) in
     let! '(p, w0) := free_page base (4096 * n) page (h_pages h) (set_mem m1 w) in
     let! m := store64 (w_mem w0) (bd_next (b_desc b)) (free_bucket_desc h) in
     Ok (Heap p dir (b_desc b) (bd_kmap h), set_mem m w0))
    (fun '(h', w') => exists pg, h' = Heap pg dir (b_desc b) (bd_kmap h) /\ map_ok base n used' pg /\
       w_io w' = w_io w /\ unchanged (removal l1 b) (w_mem w) (w_mem w') /\
       rdw (w_mem w') (bd_next (b_desc b)) = free_bucket_desc h /\
       forall q, list.last l1 = Some q -> rdw (w_mem w') (bd_next (b_desc q)) = rdw m1 (bd_next (b_desc q))).
Proof.
  intros H Hk Pu U1. pose proof Hk as [].
  assert (b ∈ a_buckets H) as Hb by (unfold H; rewrite buckets_middle; set_solver).
  assert (forall q, list.last l1 = Some q -> q ∈ a_buckets H) as Hlast.
  { intros q (l1' & ->)%last_Some. unfold H. rewrite buckets_middle. set_solver. }
  destruct (hk_bucket _ _ _ _ _ _ Hk Hb) as (Ho & Hd & Hp & Hpn).
  destruct (desc_mapped base n H h _ _ Hk Hd) as [Hdm Hdr].
  assert (unchanged (removal l1 b) (w_mem w) m1) as V1.
  { eapply unchanged_mono; [exact U1|]. intros x Hx. by right; right. }
  assert (mapped m1 (b_desc b) 40) as Hdm1 by by eapply unchanged_mapped.
  rewrite load64_rdw by (eapply mapped_sub; [exact Hdm1|unfold bd_page; lia|unfold bd_page; lia]). cbn [obind].
  assert (rdw m1 (bd_page (b_desc b)) = b_page b) as ->.
  { rewrite <- (bo_page _ _ Ho). unfold bd_page. rewrite <- (Z.add_0_r (b_desc b)). eapply (rdn_unchanged 8); [exact V1|].
    apply (removal_desc base n H h (w_mem w)); try done. lia. }
  rewrite Pu in hk_pages. apply NoDup_cons in hk_pages as [Hn' _].
  destruct (is_page_bounds base n _ Hp) as (B1 & B2 & B3 & _).
  destruct (free_page_spec base n (a_used H) used' (h_pages h) (set_mem m1 w) (b_page b)) as ([pg w'] & -> & Hpg & ->);
    [done|done|rewrite Pu; left|done|intros q Hq; rewrite Pu; set_solver| |].
  { eapply unchanged_mapped; [exact U1|]. eapply mapped_sub; [exact hk_mapped|lia|lia]. }
  cbn [obind]. cbn [w_mem set_mem]. set (m2 := write_bytes m1 (b_page b) (replicate 4096 0)).
  assert (mapped m1 (b_page b) 4096) as Hpm.
  { eapply unchanged_mapped; [exact U1|]. eapply mapped_sub; [exact hk_mapped|lia|lia]. }
  assert (unchanged (span_of (b_page b) 4096) m1 m2) as U2.
  { split; [apply dom_write_bytes; by rewrite length_replicate|]. intros x Hx.
    apply lookup_write_bytes_ne. rewrite length_replicate. unfold span_of in Hx. lia. }
  clearbody m2.
  assert (unchanged (removal l1 b) (w_mem w) m2) as V2.
  { eapply unchanged_trans; [exact V1|]. eapply unchanged_mono; [exact U2|]. unfold removal. tauto. }
  destruct (store64_spec m2 (bd_next (b_desc b)) (free_bucket_desc h)) as (m3 & -> & U3 & E3).
  { eapply unchanged_mapped; [exact V2|]. unfold bd_next. eapply mapped_sub; [exact Hdm|lia|lia]. }
  cbn [obind]. apply returns_ok. exists pg. split; [done|]. split; [done|]. split; [done|]. cbn [w_mem set_mem].
  split; [|split].
  - eapply unchanged_trans; [exact V2|]. eapply unchanged_mono; [exact U3|]. unfold removal. tauto.
  - rewrite E3. apply (next_small bd_next (w_mem w) _ _ hk_spare). intros d Hds.
    destruct (desc_mapped base n H h _ d Hk); [by apply (desc_of_spare base n H h (w_mem w))|done].
  - intros q Hq. destruct (hk_bucket _ _ _ _ _ _ Hk (Hlast q Hq)) as (_ & Hqd & _ & _).
    eapply (keep 8); [eapply (keep 8); [done|exact U2|]|exact U3|]; unfold bd_next; apply apart_span.
    + destruct (desc_page_apart base n _ _ _ _ _ Hk Hqd Hp Hpn); lia.
    + assert (b_desc q <> b_desc b) as Hne.
      { pose proof (bucket_descs_NoDup _ _ _ Hk) as ND. unfold H in ND. rewrite buckets_middle in ND.
        destruct (proj1 (last_Some _ _) Hq) as (l1' & ->). rewrite !fmap_app in ND. simpl in ND.
        apply NoDup_app in ND as (_ & ND & _). intros E. apply (ND (b_desc q)); [set_solver|].
        rewrite E. left. }
      destruct (descs_apart base n _ _ _ (hk_dpages _ _ _ _ _ Hk) Hqd Hd Hne); lia.
Qed.

Lemma release_bucket_spec pre l1 b l2 post sp dps h w :
  let H := AHeap (pre ++ (l1 ++ b :: l2) :: post) sp dps in
  let H' := AHeap (pre ++ (l1 ++ l2) :: post) (b_desc b :: sp) dps in
  heap_ok H h (w_mem w) ->
  returns (release_bucket base (4096 * n) (Z.of_nat (length pre)) (b_desc b)
             (default NULL (b_desc <$> list.last l1)) h w)
    (fun '(h', w') => heap_ok H' h' (w_mem w') /\ w_io w' = w_io w /\
       unchanged (removal l1 b) (w_mem w) (w_mem w')).
Proof.
  intros H H' Hk. pose proof (remove_used pre l1 b l2 post sp (b_desc b :: sp) dps : a_used H ≡ₚ _ :: a_used H') as Pu.
  assert (a_chains H !! length pre = Some (l1 ++ b :: l2)) as Hkl by by apply list_lookup_middle.
  destruct (hk_chain _ _ _ _ _ Hk _ _ Hkl) as (c & Hdir & Hl & _). pose proof (chain_prev _ _ _ _ _ Hl) as Hprev.
  pose proof (next_range _ _ _ _ _ _ _ Hk Hkl) as Hnr.
  assert (b ∈ a_buckets H) as Hb by (apply (chain_bucket H _ _ _ Hkl); set_solver).
  destruct (desc_mapped base n H h _ _ Hk (desc_of_bucket base n H h _ _ Hk Hb)) as [Hdm _].
  assert (mapped (w_mem w) (bd_next (b_desc b)) 8) as Hbm by (unfold bd_next; eapply mapped_sub; [exact Hdm|lia|lia]).
  unfold release_bucket. rewrite (arr_get_nat _ _ _ Hdir). cbn [obind bdir_chain].
  destruct (list.last l1) as [q|] eqn:El.
  - change (default NULL (b_desc <$> Some q)) with (b_desc q). destruct Hprev as [Eq Hq0]. destruct (Z.eqb_spec (b_desc q) NULL); [done|]. cbn [negb].
    assert (q ∈ a_buckets H) as Hqb.
    { apply last_Some in El as (l1' & ->). apply (chain_bucket H _ _ _ Hkl). set_solver. }
    destruct (desc_mapped base n H h _ _ Hk (desc_of_bucket base n H h _ _ Hk Hqb)) as [Hqm _].
    assert (mapped (w_mem w) (bd_next (b_desc q)) 8) as Hqn by (unfold bd_next; eapply mapped_sub; [exact Hqm|lia|lia]).
    rewrite (load64_rdw _ _ Hqn), Eq. cbn [obind]. rewrite Z.eqb_refl. cbn [negb obind]. rewrite (load64_rdw _ _ Hbm). cbn [obind].
    destruct (Z.eqb_spec (b_desc q) NULL); [done|]. cbn [negb].
    destruct (store64_spec _ _ (rdw (w_mem w) (bd_next (b_desc b))) Hqn) as (m1 & -> & U1 & E1). cbn [obind].
    rewrite Z.mod_small in E1 by done.
    eapply returns_mono.
    { apply (release_page pre l1 b l2 post sp dps h w (a_used H') m1 (bucket_dir h) Hk Pu).
      eapply unchanged_mono; [exact U1|]. eauto. }
    intros [h' w'] (pg & -> & Hpg & Hio & U & E2 & E3). split; [|done].
    assert (match l1 with [] => <[length pre := BDir (class_size (length pre)) (rdw (w_mem w) (bd_next (b_desc b)))]> (bucket_dir h)
            | _ => bucket_dir h end = bucket_dir h) as Edir by by destruct l1.
    rewrite <- Edir. eapply heap_remove_bucket; [exact Hk|exact U| |done|done|exact Hdir].
    intros q' Hq'. assert (q' = q) as -> by congruence. rewrite E3, E1 by done. done.
  - change (default NULL (b_desc <$> None)) with NULL. subst c. destruct l1 as [|x l1]; [|by apply last_None in El].
    rewrite Z.eqb_refl. cbn [negb obind]. rewrite (load64_rdw _ _ Hbm). cbn [obind]. rewrite Z.eqb_refl. cbn [negb].
    rewrite (set_chain_ok _ _ _ _ Hdir). cbn [obind bdir_size].
    eapply returns_mono.
    { apply (release_page pre [] b l2 post sp dps h w (a_used H') (w_mem w)
        (<[length pre := BDir (class_size (length pre)) (rdw (w_mem w) (bd_next (b_desc b)))]> (bucket_dir h)) Hk Pu).
      apply unchanged_refl. }
    intros [h' w'] (pg & -> & Hpg & Hio & U & E2 & E3). split; [|done].
    eapply (heap_remove_bucket pre []); [exact Hk|exact U|done|done|done|exact Hdir].
Qed.
End release.
