(* ===== verification/MallocCorrect.v ===== *)
(** * The heap: what malloc and free promise

    Live objects never overlap, are aligned to their size and keep their
    contents; [malloc] adds one, [free] removes one, and the invariant of the
    allocator depends on nothing a client may write. *)

From S2P Require Import Prelude CMem Str StrFacts StrSafe Console Words Pages PagesFacts Malloc MallocSpec MallocFacts.
From S2P Require Import MallocGrow MallocRelease.

Local Open Scope Z_scope.
Local Open Scope c_scope.

(** ** Live objects *)

Lemma elem_of_live H o sz :
  (o, sz) ∈ a_live H <-> exists b, b ∈ a_buckets H /\ o ∈ b_live b /\ sz = b_size b.
Proof.
  unfold a_live. rewrite list_elem_of_In, in_concat. setoid_rewrite <- list_elem_of_In. split.
  - intros (l & (b & -> & Hb)%list_elem_of_fmap & (s & E & Hs)%list_elem_of_fmap).
    injection E as -> ->. eauto.
  - intros (b & Hb & Ho & ->). exists ((fun s => (s, b_size b)) <$> b_live b).
    split; apply list_elem_of_fmap; [by exists b|by exists o].
Qed.

Definition live_of (bs : list bkt) : list (Z * Z) :=
  concat ((fun b => (fun s => (s, b_size b)) <$> b_live b) <$> bs).

Lemma live_of_app l1 l2 : live_of (l1 ++ l2) = live_of l1 ++ live_of l2.
Proof. unfold live_of. by rewrite fmap_app, concat_app. Qed.

Lemma live_of_cons b l : live_of (b :: l) = ((fun s => (s, b_size b)) <$> b_live b) ++ live_of l.
Proof. done. Qed.

(** A live slot appears, or disappears, in one bucket. *)
Lemma live_swap pre l1 b l2 post sp dps b' s :
  b_size b' = b_size b -> b_live b' ≡ₚ s :: b_live b ->
  a_live (AHeap (pre ++ (l1 ++ b' :: l2) :: post) sp dps) ≡ₚ
  (s, b_size b) :: a_live (AHeap (pre ++ (l1 ++ b :: l2) :: post) sp dps).
Proof.
  intros Es Hl. unfold a_live. rewrite !buckets_middle.
  change (live_of ((concat pre ++ l1) ++ b' :: l2 ++ concat post) ≡ₚ
          (s, b_size b) :: live_of ((concat pre ++ l1) ++ b :: l2 ++ concat post)).
  rewrite !live_of_app, !live_of_cons, Hl, Es. simpl. solve_Permutation.
Qed.

Lemma class_size_mono i j : (i < j)%nat -> class_size i < class_size j.
Proof. intros H. unfold class_size. pose proof (Z.pow_lt_mono_r 2 (Z.of_nat i) (Z.of_nat j)). lia. Qed.

Section correct.
Context (base n : Z) `{!Region base n}.
Local Abbreviation heap_ok := (heap_ok base n).
Local Abbreviation heap_inv := (heap_inv base n).

(** The bytes of the region that are the allocator's own. *)
Definition heap_private (H : aheap) (x : Z) : Prop :=
  base <= x < base + 4096 * n /\ ~ live_byte H x.

Lemma desc_private H h m d x :
  heap_ok H h m -> is_desc (a_dpages H) d -> d <= x < d + 40 -> heap_private H x.
Proof.
  intros Hk Hd Hx. destruct (desc_in_page _ _ Hd) as (q & Hq & H1 & H2).
  pose proof (hk_dpages _ _ _ _ _ Hk) as HF. rewrite list.Forall_forall in HF.
  destruct (is_page_bounds base n q (HF q Hq)) as (B1 & B2 & B3 & _). split; [lia|].
  intros (o & sz & (b & Hb & Ho & ->)%elem_of_live & Hox).
  destruct (hk_bucket _ _ _ _ _ _ Hk Hb) as (Hbo & _ & Hp & Hn).
  destruct (slot_mapped _ _ _ _ _ b o Hk Hb (live_slot _ _ _ Hbo Ho)) as (_ & _ & _ & S1 & S2).
  destruct (desc_page_apart base n _ _ _ d (b_page b) Hk Hd Hp Hn); lia.
Qed.

Lemma page_private H h m p x :
  heap_ok H h m -> is_page base n p -> p ∉ a_used H -> p <= x < p + 4096 -> heap_private H x.
Proof.
  intros Hk Hp Hn Hx. destruct (is_page_bounds base n p Hp) as (B1 & B2 & B3 & _). split; [lia|].
  intros (o & sz & (b & Hb & Ho & ->)%elem_of_live & Hox).
  destruct (hk_bucket _ _ _ _ _ _ Hk Hb) as (Hbo & _ & Hbp & _).
  destruct (slot_mapped _ _ _ _ _ b o Hk Hb (live_slot _ _ _ Hbo Ho)) as (_ & _ & _ & S1 & S2).
  assert (b_page b <> p) as Hne by (intros <-; apply Hn; unfold a_used; set_solver).
  destruct (pages_apart base n _ _ Hbp Hp Hne); lia.
Qed.

(** Two buckets of a good heap with the same page are the same. *)
Lemma same_bucket H h m b c :
  heap_ok H h m -> b ∈ a_buckets H -> c ∈ a_buckets H -> b_page b = b_page c -> b = c.
Proof.
  intros Hk Hb Hc E. pose proof (hk_pages _ _ _ _ _ Hk) as ND. unfold a_used in ND.
  apply NoDup_app in ND as (_ & _ & ND).
  apply list_elem_of_lookup in Hb as [i Hi], Hc as [j Hj].
  assert (i = j) as <-; [|congruence].
  eapply (NoDup_lookup (b_page <$> a_buckets H)); [done| |]; rewrite list_lookup_fmap.
  - by rewrite Hi.
  - rewrite Hj. simpl. by rewrite E.
Qed.

Lemma slots_NoDup m b : bucket_ok m b -> NoDup (b_free b ++ b_live b).
Proof. intros []. rewrite bo_slots. apply NoDup_nodes. destruct (class_div _ bo_class). lia. Qed.

(** A free slot holds no live byte. *)
Lemma free_private H h m b s x :
  heap_ok H h m -> b ∈ a_buckets H -> s ∈ b_free b -> s <= x < s + b_size b -> heap_private H x.
Proof.
  intros Hk Hb Hs Hx. destruct (hk_bucket _ _ _ _ _ _ Hk Hb) as (Hbo & _ & Hbp & _).
  destruct (slot_mapped _ _ _ _ _ b s Hk Hb (free_slot _ _ _ Hbo Hs)) as (_ & _ & _ & S1 & S2).
  destruct (is_page_bounds base n _ Hbp) as (B1 & B2 & B3 & _). split; [lia|].
  intros (o & sz & (c & Hc & Ho & ->)%elem_of_live & Hox).
  destruct (hk_bucket _ _ _ _ _ _ Hk Hc) as (Hco & _ & Hcp & _).
  destruct (slot_mapped _ _ _ _ _ c o Hk Hc (live_slot _ _ _ Hco Ho)) as (_ & _ & _ & T1 & T2).
  destruct (decide (b_page b = b_page c)) as [E|Hne]; [|destruct (pages_apart base n _ _ Hbp Hcp Hne); lia].
  pose proof (same_bucket _ _ _ _ _ Hk Hb Hc E) as <-.
  pose proof (slots_NoDup _ _ Hbo) as ND. apply NoDup_app in ND as (_ & ND & _).
  assert (s <> o) as Hso by (intros ->; by apply (ND o)).
  destruct (slots_apart b s o (bo_class _ _ Hbo) ltac:(by eapply free_slot) ltac:(by eapply live_slot) Hso); lia.
Qed.

Lemma live_disjoint H h m o1 s1 o2 s2 :
  heap_ok H h m -> (o1, s1) ∈ a_live H -> (o2, s2) ∈ a_live H -> o1 <> o2 -> o1 + s1 <= o2 \/ o2 + s2 <= o1.
Proof.
  intros Hk (b & Hb & Ho & ->)%elem_of_live (c & Hc & Hoc & ->)%elem_of_live Hne.
  destruct (hk_bucket _ _ _ _ _ _ Hk Hb) as (Hbo & _ & Hbp & _).
  destruct (hk_bucket _ _ _ _ _ _ Hk Hc) as (Hco & _ & Hcp & _).
  destruct (slot_mapped _ _ _ _ _ b o1 Hk Hb (live_slot _ _ _ Hbo Ho)) as (_ & _ & _ & S1 & S2).
  destruct (slot_mapped _ _ _ _ _ c o2 Hk Hc (live_slot _ _ _ Hco Hoc)) as (_ & _ & _ & T1 & T2).
  destruct (decide (b_page b = b_page c)) as [E|Hnp].
  - pose proof (same_bucket _ _ _ _ _ Hk Hb Hc E) as <-.
    exact (slots_apart b o1 o2 (bo_class _ _ Hbo) ltac:(by eapply live_slot) ltac:(by eapply live_slot) Hne).
  - destruct (pages_apart base n _ _ Hbp Hcp Hnp); lia.
Qed.

(** No address is handed out twice. *)
Lemma live_NoDup H h m : heap_ok H h m -> NoDup (a_live H).*1.
Proof.
  intros Hk. assert ((a_live H).*1 = a_buckets H ≫= b_live) as ->.
  { change (a_live H) with (live_of (a_buckets H)). induction (a_buckets H) as [|b l IH]; [done|].
    rewrite live_of_cons, fmap_app, IH, <- list_fmap_compose, bind_cons. f_equal. by apply list_fmap_id. }
  apply NoDup_bind.
  - intros b c o Hb Hc Ho Hoc. apply (same_bucket H h m); [done|done|done|].
    destruct (hk_bucket _ _ _ _ _ _ Hk Hb) as (Hbo & _ & Hbp & _).
    destruct (hk_bucket _ _ _ _ _ _ Hk Hc) as (Hco & _ & Hcp & _).
    destruct (slot_mapped _ _ _ _ _ b o Hk Hb (live_slot _ _ _ Hbo Ho)) as (_ & _ & _ & S1 & S2).
    destruct (slot_mapped _ _ _ _ _ c o Hk Hc (live_slot _ _ _ Hco Hoc)) as (_ & _ & _ & T1 & T2).
    destruct (class_div _ (bo_class _ _ Hbo)), (class_div _ (bo_class _ _ Hco)).
    destruct (decide (b_page b = b_page c)) as [|Hne]; [done|].
    destruct (pages_apart base n _ _ Hbp Hcp Hne); lia.
  - intros b Hb. destruct (hk_bucket _ _ _ _ _ _ Hk Hb) as (Hbo & _).
    pose proof (slots_NoDup _ _ Hbo) as ND. by apply NoDup_app in ND as (_ & _ & ?).
  - eapply NoDup_fmap_1, bucket_descs_NoDup. exact Hk.
Qed.

(** Writes by a client, to live objects or outside the heap, keep the invariant. *)
Lemma heap_client H h R m m' :
  heap_inv H h m -> unchanged R m m' -> (forall x, R x -> ~ heap_private H x) -> heap_inv H h m'.
Proof.
  intros [Hk Hne] Hu HR. split; [|done]. apply (heap_frame base n H h R m); [done|done| |].
  - intros d Hd x Hx HRx. apply (HR x HRx), (desc_private H h m d); [done| |done].
    pose proof (hk_desc_in _ _ _ _ _ Hk) as HF. rewrite list.Forall_forall in HF. by apply HF.
  - intros b s Hb Hs x Hx HRx. destruct (hk_bucket _ _ _ _ _ _ Hk Hb) as (Hbo & _).
    destruct (class_div _ (bo_class _ _ Hbo)). apply (HR x HRx), (free_private H h m b s); [done|done|done|lia].
Qed.

(** ** Searching the directory *)

Lemma hk_entry H h m k :
  heap_ok H h m -> (k < nclasses)%nat -> exists l c, a_chains H !! k = Some l /\
    bucket_dir h !! k = Some (BDir (class_size k) c) /\ linked bd_next m c (b_desc <$> l).
Proof.
  intros Hk Hlt. pose proof (hk_classes _ _ _ _ _ Hk) as Hl.
  destruct (lookup_lt_is_Some_2 (a_chains H) k ltac:(lia)) as [l Hkl].
  destruct (hk_chain _ _ _ _ _ Hk k l Hkl) as (c & Hc & Hlk & _). eauto.
Qed.

Lemma chain_readable H h m k l :
  heap_ok H h m -> a_chains H !! k = Some l -> readable m l /\ (length l < fuel_of m)%nat.
Proof.
  intros Hk Hl.
  assert (readable m l) as Hr.
  { intros b Hb. pose proof (chain_bucket H k l b Hl Hb) as Hin.
    destruct (hk_bucket _ _ _ _ _ _ Hk Hin) as (Ho & Hd & _). split; [done|].
    by apply (desc_mapped base n H h m (b_desc b) Hk Hd). }
  split; [done|]. rewrite <- (length_fmap b_desc). apply NoDup_fuel.
  - pose proof (bucket_descs_NoDup _ _ _ _ _ Hk) as ND. unfold a_buckets in ND.
    apply list_elem_of_split_length in Hl as (pre & post & E & _). rewrite E in ND.
    rewrite concat_middle, !fmap_app in ND. apply NoDup_app in ND as (_ & _ & ND). by apply NoDup_app in ND as (? & _).
  - intros d (b & -> & Hb)%list_elem_of_fmap. destruct (Hr b Hb) as [_ Hm]. apply Hm. lia.
Qed.

(** The smallest class that fits, or the terminator. *)
Lemma find_bdir_spec H h m len :
  heap_ok H h m ->
  returns (find_bdir len h) (fun '(k, b) =>
    (exists j, (j < nclasses)%nat /\ k = Z.of_nat j /\ bucket_dir h !! j = Some b /\
       bdir_size b = class_size j /\ len <= class_size j /\ forall i, (i < j)%nat -> class_size i < len) \/
    (bdir_size b = 0 /\ 4096 < len)).
Proof.
  intros Hk. destruct (hk_dir _ _ _ _ _ Hk) as [Hdl Hd9]. unfold find_bdir. rewrite Hdl.
  apply (returns_while (fun k => exists j, k = Z.of_nat j /\ (j <= nclasses)%nat /\
           forall i, (i < j)%nat -> class_size i < len) (fun k => Z.to_nat (9 - k))).
  - intros k (j & -> & Hj & Hall). destruct (decide (j = nclasses)) as [->|Hne].
    + rewrite (arr_get_nat _ _ _ Hd9). cbn [obind bdir_size]. apply returns_ok. right. split; [done|].
      specialize (Hall 8%nat ltac:(unfold nclasses; lia)). done.
    + destruct (hk_entry _ _ _ j Hk ltac:(lia)) as (l & c & _ & Hc & _).
      rewrite (arr_get_nat _ _ _ Hc). cbn [obind bdir_size].
      assert (0 < class_size j) as Hpos by (unfold class_size; lia).
      destruct (Z.eqb_spec (class_size j) 0); [lia|]. destruct (Z.leb_spec len (class_size j)).
      * apply returns_ok. left. exists j. split; [lia|]. naive_solver.
      * apply returns_ok. unfold nclasses in *. split; [|lia]. exists (S j). split; [lia|]. split; [lia|].
        intros i Hi. destruct (decide (i = j)) as [->|]; [done|]. apply Hall. lia.
  - exists 0%nat. split; [done|]. unfold nclasses. split; [lia|]. intros i Hi. lia.
  - lia.
Qed.

(** At most one page is left. *)
Definition scarce (H : aheap) : Prop :=
  exists p, forall q, is_page base n q -> q = p \/ q ∈ a_used H.

(** The guard of [free] lets the object [p] pass. *)
Definition freeable (H : aheap) (m : mem) (p : Z) : Prop :=
  exists b, b ∈ a_buckets H /\ p ∈ b_live b /\ rdw m p ∉ tail (b_free b).

(** What holds of a heap after a slot [p] of [sz] bytes was handed out: its
    first word still is the link to the slot that is first now. *)
Definition handed_out (H H' : aheap) (m m' : mem) (p sz : Z) : Prop :=
  a_live H' ≡ₚ (p, sz) :: a_live H /\ unchanged (heap_private H) m m' /\ freeable H' m' p.

Lemma linked_head_tail m p l : linked id m p l -> NoDup l -> p ∉ tail l.
Proof. destruct l as [|x l]; [intros _ _ H; by apply elem_of_nil in H|]. intros (-> & _) [? _]%NoDup_cons. done. Qed.

Lemma take_slot_out pre l1 b l2 post sp dps h m s fs :
  let H := AHeap (pre ++ (l1 ++ b :: l2) :: post) sp dps in
  heap_ok H h m -> Forall (fun c => b_live c <> []) (l1 ++ l2 ++ concat pre ++ concat post) ->
  b_free b = s :: fs ->
  exists m' H', take_slot (b_desc b) m = Ok (m', s) /\ heap_inv H' h m' /\ handed_out H H' m m' s (b_size b).
Proof.
  intros H Hk Hne Hf. destruct (take_slot_spec base n pre l1 b l2 post sp dps h m s fs Hk Hf)
    as ([m' r] & E & -> & Hk' & Hu & Hl).
  eexists m', _. split; [exact E|]. split; [split; [exact Hk'|]|split; [|split]].
  - rewrite buckets_middle. rewrite !list.Forall_app in Hne. rewrite !list.Forall_app, list.Forall_cons, list.Forall_app.
    naive_solver.
  - by apply live_swap.
  - eapply unchanged_mono; [exact Hu|]. intros x Hx. apply (desc_private H h m (b_desc b)); [done| |].
    + apply (desc_of_bucket base n H h m); [done|]. unfold H. rewrite buckets_middle. set_solver.
    + unfold span_of in Hx. lia.
  - eexists. split; [rewrite buckets_middle; apply elem_of_app; right; left|]. split; [left|]. cbn [b_free].
    assert (NoDup (b_free b ++ b_live b)) as ND.
    { apply (slots_NoDup m), (hk_bucket _ _ _ _ _ _ Hk). unfold H. rewrite buckets_middle. set_solver. }
    apply linked_head_tail with (m := m'); [done|]. rewrite Hf in ND. apply NoDup_app in ND as (ND & _). by apply NoDup_cons in ND as [_ ND].
Qed.

Lemma setup_private ch d sp dps h m p x :
  let H := AHeap ch (d :: sp) dps in
  heap_ok H h m -> is_page base n p -> p ∉ a_used H ->
  span_of d 40 x \/ span_of p 4096 x -> heap_private H x.
Proof.
  intros H Hk Hp Hn [Hx|Hx].
  - apply (desc_private H h m d); [done|apply (desc_of_spare base n H h m); [done|left]|exact Hx].
  - by apply (page_private H h m p).
Qed.

Lemma new_bucket_out pre l post sp dps h m :
  let H := AHeap (pre ++ l :: post) sp dps in
  let k := length pre in
  heap_ok H h m ->
  (exists msg, new_bucket base (Z.of_nat k) (class_size k) h m = Panic msg /\ scarce H) \/
  exists h' m' b sp' dps', new_bucket base (Z.of_nat k) (class_size k) h m = Ok (h', m', b_desc b) /\
    b_size b = class_size k /\ b_live b = [] /\ b_free b <> [] /\ unchanged (heap_private H) m m' /\
    heap_ok (AHeap (pre ++ (b :: l) :: post) sp' dps') h' m'.
Proof.
  intros H k Hk. subst k. unfold new_bucket. pose proof (hk_spare _ _ _ _ _ Hk) as Hsp. simpl in Hsp.
  assert (length pre < nclasses)%nat as Hkn.
  { pose proof (hk_classes _ _ _ _ _ Hk) as Hl. unfold H in Hl. simpl in Hl. rewrite length_app in Hl. simpl in Hl. lia. }
  assert (forall p, nodes p (class_size (length pre)) (Z.to_nat (4096 / class_size (length pre))) <> []) as Hnn.
  { intros p E%(f_equal length). rewrite length_nodes in E. simpl in E.
    destruct (class_div (class_size (length pre))) as (_ & _ & H3); [by exists (length pre)|]. lia. }
  destruct (Z.eqb_spec (free_bucket_desc h) NULL) as [E|E].
  - rewrite E in Hsp. apply linked_null in Hsp as ->.
    destruct (init_bucket_desc_spec base n _ _ _ _ Hk) as [[-> Hall]|(p1 & pg & m1 & -> & Hp1 & Hn1 & U1 & Hk1)];
      cbn [obind]; [left; eexists; split; [done|]; exists NULL; auto|].
    assert (unchanged (heap_private H) m m1) as V1.
    { eapply unchanged_mono; [exact U1|]. intros x Hx. by apply (page_private H h m p1). }
    change (Z.to_nat DESCS) with (S 101) in Hk1. rewrite nodes_S in Hk1.
    destruct (setup_bucket_spec base n _ _ _ _ _ _ _ _ Hk1) as [[-> Hall]|(h2 & m2 & p & -> & Hp & Hn & U2 & Hk2)].
    + left. eexists. split; [done|]. exists p1. intros q Hq. specialize (Hall q Hq).
      unfold a_used in *. simpl in Hall. apply elem_of_cons in Hall. tauto.
    + right. eexists h2, m2, (Bkt (class_size (length pre)) p1 p (nodes p _ _) []), _, _. split; [done|]. split; [done|]. split; [done|]. split; [apply Hnn|].
      split; [|exact Hk2]. eapply unchanged_trans; [exact V1|]. eapply unchanged_mono; [exact U2|].
      intros x Hx. exact (setup_private _ _ _ _ _ _ p x Hk1 Hp Hn Hx).
  - cbn [obind]. destruct (linked_cons_inv _ _ _ _ E Hsp) as [sp1 ->].
    destruct (setup_bucket_spec base n _ _ _ _ _ _ _ _ Hk) as [[-> Hall]|(h2 & m2 & p & -> & Hp & Hn & U2 & Hk2)].
    + left. eexists. split; [done|]. exists NULL. auto.
    + right. eexists h2, m2, (Bkt (class_size (length pre)) _ p (nodes p _ _) []), _, _. split; [done|]. split; [done|]. split; [done|]. split; [apply Hnn|].
      split; [|exact Hk2]. eapply unchanged_mono; [exact U2|].
      intros x Hx. exact (setup_private _ _ _ _ _ _ p x Hk Hp Hn Hx).
Qed.

(** ** malloc *)

Lemma malloc_spec H h w len :
  heap_inv H h (w_mem w) -> 0 <= len ->
  if 4096 <? len then
    malloc base len h w = Ok (h, pr_warn "malloc called with impossibly largument (%d)\n" [len] w, NULL)
  else
    (exists msg, malloc base len h w = Panic msg /\ scarce H) \/
    exists H' h' m' p j, malloc base len h w = Ok (h', set_mem m' w, p) /\
      heap_inv H' h' m' /\ handed_out H H' (w_mem w) m' p (class_size j) /\
      (j < nclasses)%nat /\ len <= class_size j /\ forall i, (i < j)%nat -> class_size i < len.
Proof.
  intros [Hk Hne] Hlen. unfold malloc.
  destruct (find_bdir_spec H h (w_mem w) len Hk) as ([k bd] & -> & [(j & Hj & -> & Hbd & Hsz & Hle & Hall)|[Hz Hbig]]).
  2:{ destruct (Z.ltb_spec 4096 len); [|lia]. cbn [obind]. by rewrite Hz. }
  assert (class_size j <= 4096) as Hj4.
  { destruct (class_div (class_size j)) as (? & _); [by exists j|]. lia. }
  destruct (Z.ltb_spec 4096 len); [lia|]. cbn [obind]. rewrite Hsz.
  destruct (Z.eqb_spec (class_size j) 0); [unfold class_size in *; lia|].
  destruct (hk_entry _ _ _ j Hk Hj) as (l & c & Hl & Hc & Hlk). assert (bd = BDir (class_size j) c) as -> by congruence.
  destruct (chain_readable _ _ _ _ _ Hk Hl) as [Hr Hf]. cbn [bdir_chain].
  destruct H as [ch sp dps]. simpl in Hl. apply list_elem_of_split_length in Hl as (pre & post & -> & ->).
  unfold find_bdesc. destruct (find_bdesc_loop _ _ _ _ Hr Hlk Hf) as (d & -> & [[-> Hfull]|(l1 & b & l2 & -> & -> & Hbf)]);
    cbn [obind].
  - rewrite Z.eqb_refl.
    destruct (new_bucket_out pre l post sp dps h (w_mem w) Hk)
      as [(msg & -> & Hsc)|(h' & m' & b & sp' & dps' & -> & Es & El & Ef & U & Hk')]; cbn [obind]; [left; eauto|right].
    destruct (b_free b) as [|s fs] eqn:Efs; [done|].
    destruct (take_slot_out pre [] b l post sp' dps' h' m' s fs Hk') as (m2 & H2 & -> & Hi & Hli & Hu2 & Hfr); [|done|].
    { unfold a_buckets in Hne. simpl in Hne. rewrite concat_middle, !list.Forall_app in Hne.
      rewrite !list.Forall_app. naive_solver. }
    cbn [obind]. exists H2, h', m2, s, (length pre). split; [done|]. split; [done|]. split; [|done].
    assert (a_live (AHeap (pre ++ ([] ++ b :: l) :: post) sp' dps') ≡ₚ a_live (AHeap (pre ++ l :: post) sp dps)) as EL.
    { unfold a_live, a_buckets. simpl. rewrite !concat_middle.
      change (live_of (concat pre ++ (b :: l) ++ concat post) ≡ₚ live_of (concat pre ++ l ++ concat post)).
      rewrite !live_of_app, live_of_cons, El. done. }
    split; [by rewrite Hli, EL, Es|]. split; [|done]. eapply unchanged_trans; [exact U|]. eapply unchanged_mono; [exact Hu2|].
    intros x [Hx1 Hx2]. split; [done|]. intros (o & sz & Ho & Hx). apply Hx2. exists o, sz. by rewrite EL.
  - assert (b ∈ a_buckets (AHeap (pre ++ (l1 ++ b :: l2) :: post) sp dps)) as Hb by (rewrite buckets_middle; set_solver).
    destruct (desc_mapped base n _ _ _ _ Hk (desc_of_bucket base n _ _ _ _ Hk Hb)) as [_ Hd].
    destruct (Z.eqb_spec (b_desc b) NULL); [unfold NULL in *; lia|]. cbn [obind].
    destruct (b_free b) as [|s fs] eqn:Efs; [done|]. right.
    destruct (take_slot_out pre l1 b l2 post sp dps h (w_mem w) s fs Hk) as (m2 & H2 & -> & Hi & Ho); [|done|].
    { rewrite buckets_middle, !list.Forall_app, list.Forall_cons, list.Forall_app in Hne.
      rewrite !list.Forall_app. naive_solver. }
    cbn [obind]. exists H2, h, m2, s, (length pre). split; [done|]. split; [done|]. split; [|done].
    destruct (hk_chain _ _ _ _ _ Hk (length pre) (l1 ++ b :: l2)) as (c' & _ & _ & HF); [by apply list_lookup_middle|].
    rewrite list.Forall_app, list.Forall_cons in HF. destruct HF as (_ & <- & _). done.
Qed.

(** ** free *)

Lemma bucket_chain H h m b :
  heap_ok H h m -> b ∈ a_buckets H ->
  exists k l, a_chains H !! k = Some l /\ b ∈ l /\ b_size b = class_size k /\ (k < nclasses)%nat.
Proof.
  intros Hk Hb. unfold a_buckets in Hb. apply list_elem_of_In, in_concat in Hb as (l & Hl & Hb).
  apply list_elem_of_In in Hl, Hb. apply list_elem_of_lookup in Hl as [k Hl]. exists k, l.
  split; [done|]. split; [done|]. destruct (hk_chain _ _ _ _ _ Hk k l Hl) as (_ & _ & _ & HF).
  rewrite list.Forall_forall in HF. split; [by apply HF|]. rewrite <- (hk_classes _ _ _ _ _ Hk).
  by apply lookup_lt_Some in Hl.
Qed.

Lemma find_owner_spec H h m b :
  heap_ok H h m -> b ∈ a_buckets H ->
  exists pre l1 l2 post, H = AHeap (pre ++ (l1 ++ b :: l2) :: post) (a_spare H) (a_dpages H) /\
    find_owner (b_page b) (b_size b) h m =
      Ok (Z.of_nat (length pre), b_desc b, default NULL (b_desc <$> list.last l1)).
Proof.
  intros Hk Hb. destruct (bucket_chain _ _ _ _ Hk Hb) as (k & l & Hl & Hbl & Es & Hkn).
  destruct (hk_dir _ _ _ _ _ Hk) as [Hdl _].
  assert (returns (find_owner (b_page b) (b_size b) h m) (fun r => exists l1 l2, l = l1 ++ b :: l2 /\
            r = (Z.of_nat k, b_desc b, default NULL (b_desc <$> list.last l1)))) as (r & -> & l1 & l2 & -> & ->).
  2:{ destruct H as [ch sp dps]. simpl in *. apply list_elem_of_split_length in Hl as (pre & post & -> & ->).
      by exists pre, l1, l2, post. }
  unfold find_owner. rewrite Hdl, Es.
  apply (returns_while (fun i => exists j, i = Z.of_nat j /\ (j <= k)%nat) (fun i => Z.to_nat (Z.of_nat k - i)));
    [|exists 0%nat; split; [done|lia]|unfold nclasses in Hkn; lia].
  intros i (j & -> & Hj). destruct (hk_entry _ _ _ j Hk ltac:(lia)) as (lj & c & Hlj & Hc & Hlk).
  rewrite (arr_get_nat _ _ _ Hc). cbn [obind bdir_size bdir_chain].
  destruct (Z.eqb_spec (class_size j) 0); [unfold class_size in *; lia|].
  destruct (decide (j = k)) as [->|Hne].
  - destruct (Z.ltb_spec (class_size k) (class_size k)); [lia|]. assert (lj = l) as -> by congruence.
    destruct (chain_readable _ _ _ _ _ Hk Hl) as [Hr Hf]. unfold find_page.
    destruct (find_page_loop _ _ _ _ NULL (b_page b) Hr Hlk Hf) as (r & -> & Hres). cbn [obind].
    destruct r as [[d q]|]; [|by destruct (Hres b Hbl)].
    destruct Hres as (l1 & b' & l2 & -> & -> & Ep & ->). apply returns_ok. exists l1, l2.
    assert (b' = b) as ->; [|done].
    apply (same_bucket H h m); [done| |done|done]. apply (chain_bucket H k _ _ Hl). set_solver.
  - pose proof (class_size_mono j k ltac:(lia)). destruct (Z.ltb_spec (class_size j) (class_size k)); [|lia].
    apply returns_ok. split; [|lia]. exists (S j). split; [lia|lia].
Qed.

Lemma land_page o : Z.land o (Z.lnot 4095) = o - o mod 4096.
Proof.
  change 4095 with (Z.ones 12). rewrite <- Z.ldiff_land, Z.ldiff_ones_r by lia.
  rewrite Z.shiftl_mul_pow2, Z.shiftr_div_pow2 by lia. change (2 ^ 12) with 4096. dlia.
Qed.

Lemma slot_aligned H h m b o : heap_ok H h m -> b ∈ a_buckets H -> o ∈ slots b -> o mod b_size b = 0.
Proof.
  intros Hk Hb Ho. destruct (hk_bucket _ _ _ _ _ _ Hk Hb) as (Hbo & _ & Hp & _).
  destruct (slot_in b o (bo_class _ _ Hbo) Ho) as (_ & _ & S3).
  destruct (class_div _ (bo_class _ _ Hbo)) as (C1 & C2 & C3).
  destruct (is_page_bounds base n _ Hp) as (_ & _ & _ & B4).
  assert (b_page b mod b_size b = 0) as Hpm.
  { apply Z.mod_divide; [lia|]. apply Z.mod_divide in B4; [|lia]. etransitivity; [|exact B4].
    exists (4096 / b_size b). lia. }
  replace o with ((o - b_page b) + b_page b) by lia. rewrite Z.add_mod, S3, Hpm by lia. by rewrite Z.mod_0_l by lia.
Qed.

(** The tests of [free] on the address of a slot succeed. *)
Lemma slot_address H h m b o :
  heap_ok H h m -> b ∈ a_buckets H -> o ∈ slots b ->
  Z.land o (Z.lnot 4095) = b_page b /\ Z.land o (b_size b - 1) = 0 /\
  arr_get (bd_kmap h) (Z.shiftr (u64 (b_page b - base)) 12) = Ok (b_size b).
Proof.
  intros Hk Hb Ho. destruct (hk_bucket _ _ _ _ _ _ Hk Hb) as (Hbo & _ & Hp & _).
  destruct (slot_in b o (bo_class _ _ Hbo) Ho) as (S1 & S2 & S3).
  destruct (class_div _ (bo_class _ _ Hbo)) as (C1 & C2 & C3).
  destruct (is_page_bounds base n _ Hp) as (B1 & B2 & B3 & B4). split; [|split].
  - rewrite land_page. dlia.
  - destruct (bo_class _ _ Hbo) as (k & Hk9 & Ek). unfold class_size in Ek.
    assert (b_size b = 2 ^ (4 + Z.of_nat k)) as Ep by (rewrite Ek, Z.pow_add_r by lia; done).
    rewrite Ep, (land_align (4 + Z.of_nat k)) by lia. rewrite <- Ep.
    by apply (slot_aligned H h m).
  - destruct Hp as (j & Hj & Ep). rewrite (page_index base n _ j Hj Ep). apply arr_get_Z; [lia|].
    by apply (hk_kmap _ _ _ _ _ Hk).
Qed.

(** [free] of a slot, up to the walk along the free list. *)
Lemma free_front H h w b o :
  heap_ok H h (w_mem w) -> b ∈ a_buckets H -> o ∈ slots b ->
  exists pre l1 l2 post, H = AHeap (pre ++ (l1 ++ b :: l2) :: post) (a_spare H) (a_dpages H) /\
    free base (4096 * n) o h w =
      if decide (rdw (w_mem w) o ∈ tail (b_free b)) then Panic "Trying to repeat free addr\n" else
      let! m := put_slot o (b_desc b) (w_mem w) in
      let! refcnt := load16 m (bd_refcnt (b_desc b)) in
      if refcnt =? 0 then
        release_bucket base (4096 * n) (Z.of_nat (length pre)) (b_desc b)
          (default NULL (b_desc <$> list.last l1)) h (set_mem m w)
      else Ok (h, set_mem m w).
Proof.
  intros Hk Hb Ho. destruct (find_owner_spec _ _ _ _ Hk Hb) as (pre & l1 & l2 & post & EH & E).
  exists pre, l1, l2, post. split; [done|].
  destruct (slot_address _ _ _ _ _ Hk Hb Ho) as (A1 & A2 & A3).
  destruct (hk_bucket _ _ _ _ _ _ Hk Hb) as (Hbo & Hd & _).
  unfold free. rewrite A1, A3. cbn [obind]. rewrite A2, E. cbn [negb obind Z.eqb].
  rewrite load64_rdw by (apply (desc_field base n H h); [done|done|lia|lia]). cbn [obind].
  rewrite (check_double_free_spec _ _ _ _ (bo_free _ _ Hbo)).
  - by destruct (decide _).
  - intros x Hx. apply (slot_mapped base n H h (w_mem w) b x Hk Hb).
    apply elem_of_cons in Hx as [->|Hx]; [done|by eapply free_slot].
  - apply NoDup_fuel.
    + pose proof (slots_NoDup _ _ Hbo) as ND. by apply NoDup_app in ND as (? & _).
    + intros x Hx. destruct (slot_mapped base n H h (w_mem w) b x Hk Hb) as (_ & _ & Hm & _); [by eapply free_slot|].
      apply Hm. lia.
Qed.
End correct.
