(* ===== verification/HeapTheorems.v ===== *)
(** * The heap: theorems

    The statements about [memory_init], [malloc] and [free] as a client sees
    them, and about freeing a slot twice. *)

From S2P Require Import Prelude CMem Str StrFacts StrSafe Console Words Pages PagesFacts Malloc MallocSpec MallocFacts.
From S2P Require Import MallocGrow MallocRelease MallocCorrect.

Local Open Scope Z_scope.
Local Open Scope c_scope.

(** The page map around the freeing of an object of the page [page] whose
    live objects were [live]: with the last of them the page becomes free, and
    no other entry changes. *)
Definition page_returned (base n : Z) (live : list Z) (page : Z) (h h' : heap) : Prop :=
  forall j, 0 <= j < n ->
    mem_map (h_pages h') !! Z.to_nat j =
      if decide (length live = 1%nat /\ page_at base j = page) then Some (MapEntry page 0) else mem_map (h_pages h) !! Z.to_nat j.

Section heap_theorems.
Context (base n : Z) `{!Region base n}.
Local Abbreviation heap_ok := (heap_ok base n).
Local Abbreviation heap_inv := (heap_inv base n).

Lemma private_live H H' x : a_live H ≡ₚ a_live H' -> heap_private base n H x -> heap_private base n H' x.
Proof.
  intros E [Hx1 Hx2]. split; [done|]. intros (o & sz & Ho & Hx). apply Hx2. exists o, sz. by rewrite E.
Qed.

(** A live object: mapped, not null, and not the allocator's. *)
Lemma object_facts H h m p sz :
  heap_inv H h m -> (p, sz) ∈ a_live H ->
  mapped m p sz /\ base <= p /\ 0 < p /\ p + sz <= base + 4096 * n /\ 16 <= sz /\ forall x, span_of p sz x -> ~ heap_private base n H x.
Proof.
  intros [Hk _] Hp. pose proof Hp as (b & Hb & Ho & E)%elem_of_live. destruct (hk_bucket _ _ _ _ _ _ Hk Hb) as (Hbo & _ & Hbp & _).
  destruct (slot_mapped _ _ _ _ _ b p Hk Hb (live_slot _ _ _ Hbo Ho)) as (Hm & Hpr & _ & S1 & S2). rewrite <- E in *.
  destruct (is_page_bounds base n _ Hbp) as (B1 & B2 & B3 & _). destruct (class_div _ (bo_class _ _ Hbo)).
  split; [done|]. split; [lia|]. split; [lia|]. split; [lia|]. split; [lia|]. intros x Hx [_ Hn]. apply Hn. by exists p, sz.
Qed.

(** The bytes of a new object were the allocator's. *)
Lemma new_object_private H H' h m p sz :
  heap_inv H' h m -> a_live H' ≡ₚ (p, sz) :: a_live H -> forall x, span_of p sz x -> heap_private base n H x.
Proof.
  intros Hi HL x Hx. assert ((p, sz) ∈ a_live H') as Hin by (rewrite HL; left).
  destruct (object_facts _ _ _ _ _ Hi Hin) as (_ & B1 & _ & B2 & _). destruct Hi as [Hk _]. unfold span_of in Hx.
  split; [lia|]. intros (o & s & Hos & Hox). pose proof (live_NoDup _ _ _ _ _ Hk) as ND. rewrite HL in ND.
  apply NoDup_cons in ND as [ND _]. assert (p <> o) as Hne by (intros ->; apply ND, list_elem_of_fmap; by exists (o, s)).
  destruct (live_disjoint base n H' h m p _ o s Hk Hin ltac:(rewrite HL; by right) Hne); lia.
Qed.

(** The words written on release are the allocator's afterwards. *)
Lemma removal_private pre l1 b l2 post sp dps h m x :
  let H := AHeap (pre ++ (l1 ++ b :: l2) :: post) sp dps in
  let H' := AHeap (pre ++ (l1 ++ l2) :: post) (b_desc b :: sp) dps in
  heap_ok H' h m -> is_page base n (b_page b) -> b_page b ∉ a_used H' -> removal l1 b x ->
  heap_private base n H' x.
Proof.
  intros H H' Hk Hp Hn [Hx|[Hx|(q & Hq & Hx)]]; unfold span_of, bd_next in Hx.
  - apply (desc_private base n H' h m (b_desc b)); [done| |lia]. apply (desc_of_spare base n H' h m); [done|left].
  - by apply (page_private base n H' h m (b_page b)).
  - apply (desc_private base n H' h m (b_desc q)); [done| |lia]. apply (desc_of_bucket base n H' h m); [done|].
    apply last_Some in Hq as (l1' & ->). unfold H', a_buckets. simpl. rewrite concat_middle. set_solver.
Qed.

Lemma page_returned_spec used used' page live h h' :
  map_ok base n used (h_pages h) -> map_ok base n used' (h_pages h') -> length live = 1%nat ->
  used ≡ₚ page :: used' -> page ∉ used' -> page_returned base n live page h h'.
Proof.
  intros [_ _ Hm] [_ _ Hm'] Hl Pu Hn j Hj. rewrite Hm', Hm by done. destruct (decide (_ /\ _)) as [[_ <-]|Hne].
  - by rewrite decide_False.
  - do 2 f_equal. apply decide_ext. rewrite Pu, elem_of_cons. naive_solver.
Qed.

Lemma free_spec H h w b o :
  heap_inv H h (w_mem w) -> b ∈ a_buckets H -> o ∈ b_live b ->
  if decide (rdw (w_mem w) o ∈ tail (b_free b)) then
    free base (4096 * n) o h w = Panic "Trying to repeat free addr\n"
  else
    exists H' h' w', free base (4096 * n) o h w = Ok (h', w') /\ heap_inv H' h' (w_mem w') /\
      w_io w' = w_io w /\ a_live H ≡ₚ (o, b_size b) :: a_live H' /\
      unchanged (heap_private base n H') (w_mem w) (w_mem w') /\
      a_dpages H' = a_dpages H /\ page_returned base n (b_live b) (b_page b) h h'.
Proof.
  intros [Hk Hne] Hb Ho. destruct (hk_bucket _ _ _ _ _ _ Hk Hb) as (Hbo & Hbd & Hbp & Hbn).
  destruct (free_front base n H h w b o Hk Hb (live_slot _ _ _ Hbo Ho)) as (pre & l1 & l2 & post & EH & ->).
  destruct (decide _) as [Hc|Hc]; [done|].
  apply elem_of_Permutation in Ho as [live Hlive].
  set (sp := a_spare H) in *. set (dps := a_dpages H) in *. clearbody sp dps. subst H.
  set (H := AHeap (pre ++ (l1 ++ b :: l2) :: post) sp dps) in *.
  destruct (put_slot_spec base n pre l1 b l2 post sp dps h (w_mem w) o live Hk Hlive) as (m1 & -> & Hk1 & U1).
  cbn [obind]. set (b' := Bkt (b_size b) (b_desc b) (b_page b) (o :: b_free b) live) in *.
  set (H1 := AHeap (pre ++ (l1 ++ b' :: l2) :: post) sp dps) in *.
  assert (b' ∈ a_buckets H1) as Hb1 by (unfold H1; rewrite buckets_middle; set_solver).
  destruct (hk_bucket _ _ _ _ _ _ Hk1 Hb1) as (Ho1 & Hd1 & Hp1 & Hn1).
  rewrite load16_rdh by (apply (desc_field base n H1 h); [done|done|lia|lia]). cbn [obind].
  pose proof (bo_refcnt _ _ Ho1) as Er. cbn [b_desc b_live b'] in Er. rewrite Er.
  assert (a_live H ≡ₚ (o, b_size b) :: a_live H1) as EL by by apply (live_swap pre l1 b' l2 post sp dps b o).
  assert (unchanged (heap_private base n H1) (w_mem w) m1) as V1.
  { eapply unchanged_mono; [exact U1|]. destruct (class_div _ (bo_class _ _ Hbo)).
    intros x [Hx|Hx]; unfold span_of in Hx.
    - apply (free_private base n H1 h m1 b' o); [done|done|left|simpl; lia].
    - apply (desc_private base n H1 h m1 (b_desc b)); [done|exact Hd1|lia]. }
  unfold H in Hne. rewrite buckets_middle, !list.Forall_app, list.Forall_cons, list.Forall_app in Hne.
  destruct (Z.eqb_spec (Z.of_nat (length live)) 0) as [E0|E0].
  - assert (live = []) as -> by (destruct live; [done|simpl in E0; lia]).
    destruct (release_bucket_spec base n pre l1 b' l2 post sp dps h (set_mem m1 w) Hk1) as ([h' w'] & E & Hk' & Hio & U).
    cbn [b_desc b'] in E. rewrite E.
    set (H' := AHeap (pre ++ (l1 ++ l2) :: post) (b_desc b' :: sp) dps) in *.
    assert (a_live H1 ≡ₚ a_live H') as EL'.
    { unfold a_live, H1, H'. rewrite buckets_middle. unfold a_buckets. simpl. rewrite concat_middle.
      change (live_of ((concat pre ++ l1) ++ b' :: l2 ++ concat post) ≡ₚ live_of (concat pre ++ (l1 ++ l2) ++ concat post)).
      rewrite !live_of_app, live_of_cons, live_of_app. simpl. solve_Permutation. }
    pose proof (hk_pages _ _ _ _ _ Hk1) as ND. unfold H1 in ND. rewrite (remove_used pre l1 b' l2 post sp (b_desc b' :: sp) dps) in ND.
    apply NoDup_cons in ND as [ND _].
    exists H', h', w'. split; [done|]. split; [split; [done|]|split; [done|split; [|split; [|split; [done|]]]]].
    + unfold H', a_buckets. simpl. rewrite concat_middle, !list.Forall_app. naive_solver.
    + by rewrite EL, EL'.
    + eapply unchanged_trans; [eapply unchanged_mono; [exact V1|by intros x; apply private_live]|].
      eapply unchanged_mono; [exact U|]. intros x Hx.
      apply (removal_private pre l1 b' l2 post sp dps h' (w_mem w')); done.
    + apply (page_returned_spec (a_used H1) (a_used H')); [apply Hk1|apply Hk'|by rewrite Hlive| |done].
      apply (remove_used pre l1 b' l2 post sp (b_desc b' :: sp) dps).
  - exists H1, h, (set_mem m1 w). split; [done|]. split; [split; [done|]|split; [done|split; [done|split; [done|split; [done|]]]]].
    2: { intros j _. rewrite decide_False; [done|]. rewrite Hlive. intros [E _]. destruct live; [by apply E0|done]. }
    unfold H1. rewrite buckets_middle, !list.Forall_app, list.Forall_cons, list.Forall_app.
    assert (b_live b' <> []) by (by destruct live). naive_solver.
Qed.

(** The heap before the first call. *)
Definition empty_heap : aheap := AHeap (replicate nclasses []) [] [].

Lemma empty_heap_inv pg m :
  map_ok base n [] pg -> mapped m base (4096 * n) -> heap_inv empty_heap (heap0 pg) m.
Proof.
  intros Hpg Hm. split; [|constructor].
  split; try done.
  - intros k l Hl. apply lookup_replicate in Hl as [-> Hk]. exists NULL. split; [|split; [done|constructor]].
    unfold nclasses in Hk. do 9 (destruct k as [|k]; [done|]). lia.
  - constructor.
  - constructor.
  - intros b j Hb. by apply elem_of_nil in Hb.
Qed.
End heap_theorems.

(** ** Concrete heaps for the witnesses *)

Definition region2 : mem := mem_of 4096 (replicate (Z.to_nat 8192) 0).
Definition pages2 : pages := Pages 2 (MapEntry 4096 0 :: MapEntry 8192 0 :: replicate 14 (MapEntry 0 0)).

#[export] Instance region2_region : Region 4096 2.
Proof. split; [lia|done|split; [lia|by vm_compute]|lia]. Qed.

Lemma region2_inv : heap_inv 4096 2 empty_heap (heap0 pages2) region2.
Proof.
  apply empty_heap_inv.
  - split; [done|done|]. intros j Hj. assert (j = 0 \/ j = 1) as [-> | ->] by lia; reflexivity.
  - unfold region2, mem_of. pose proof (bytes_at_mapped _ _ _ (write_bytes_at ∅ 4096 (replicate (Z.to_nat 8192) 0))) as Hm.
    by rewrite length_replicate in Hm.
Qed.

Lemma region2_plenty : ~ scarce 4096 2 empty_heap.
Proof.
  intros [p Hp]. destruct (Hp 4096) as [E|E]; [by exists 0|..]; [|by apply elem_of_nil in E].
  destruct (Hp 8192) as [E'|E']; [by exists 1|lia|by apply elem_of_nil in E'].
Qed.

(** ** Claims *)

(** Initialisation: on a heap region of at most PAGING_PAGES pages, page
    aligned and mapped, [memory_init] returns and establishes the invariant of
    the allocator with no live object. *)
Theorem memory_init_correct (base n : Z) (w : world) :
  Region base n -> mapped (w_mem w) base (4096 * n) ->
  exists pg w', memory_init base (4096 * n) pages0 w = Ok (pg, w') /\
    heap_inv base n empty_heap (heap0 pg) (w_mem w').
Proof.
  intros HR Hm. destruct (memory_init_spec base n pages0 w) as ([pg w'] & E & Hpg & Ew); [done|].
  exists pg, w'. split; [done|]. rewrite Ew. by apply empty_heap_inv.
Qed.

Lemma memory_init_correct_witness :
  exists pg w', memory_init 4096 (4096 * 2) pages0 (World region2 []) = Ok (pg, w') /\
    heap_inv 4096 2 empty_heap (heap0 pg) (w_mem w').
Proof. apply (memory_init_correct 4096 2); [apply region2_region|apply region2_inv]. Defined.

(** C1: malloc: a request above 4096 bytes is refused with a warning and
    changes nothing.  Otherwise, when at least two pages are free the call
    succeeds (it panics only when they are not): the object is new, at least
    as large as asked for and less than twice that (or 16 bytes), aligned to
    its size, inside the region, disjoint from every live object; the
    invariant holds again, and only bytes that belonged to the allocator have
    changed, so every live object keeps its contents. *)
Theorem malloc_correct (base n : Z) (H : aheap) (h : heap) (w : world) (len : Z) :
  Region base n -> heap_inv base n H h (w_mem w) -> 0 <= len ->
  if 4096 <? len then
    malloc base len h w = Ok (h, pr_warn "malloc called with impossibly largument (%d)\n" [len] w, NULL)
  else
    (exists msg, malloc base len h w = Panic msg /\ scarce base n H) \/
    exists H' h' m' p sz, malloc base len h w = Ok (h', set_mem m' w, p) /\
      heap_inv base n H' h' m' /\ a_live H' ≡ₚ (p, sz) :: a_live H /\
      len <= sz /\ sz < Z.max 17 (2 * len) /\ p mod sz = 0 /\
      base <= p /\ p + sz <= base + 4096 * n /\
      (forall o s, (o, s) ∈ a_live H -> p + sz <= o \/ o + s <= p) /\
      unchanged (heap_private base n H) (w_mem w) m'.
Proof.
  intros HR Hi Hlen. pose proof (malloc_spec base n H h w len Hi Hlen) as Hs.
  destruct (Z.ltb_spec 4096 len); [done|].
  destruct Hs as [Hs|(H' & h' & m' & p & j & E & Hi' & (HL & HU & _) & Hj & Hle & Hall)]; [by left|right].
  exists H', h', m', p, (class_size j). split; [done|]. split; [done|]. split; [done|]. split; [done|].
  destruct Hi' as [Hk' _]. pose proof (live_NoDup _ _ _ _ _ Hk') as ND. rewrite HL in ND.
  apply NoDup_cons in ND as [ND _]. simpl in ND.
  assert ((p, class_size j) ∈ a_live H') as Hin by (rewrite HL; left).
  split; [|split; [|split; [|split; [|split]]]].
  - destruct j as [|j]; [unfold class_size; simpl; lia|]. specialize (Hall j ltac:(lia)). unfold class_size in *.
    replace (Z.of_nat (S j)) with (1 + Z.of_nat j) in * by lia. rewrite Z.pow_add_r by lia. lia.
  - apply elem_of_live in Hin as (b & Hb & Ho & ->). destruct (hk_bucket _ _ _ _ _ _ Hk' Hb) as (Hbo & _).
    apply (slot_aligned base n H' h' m'); [done|done|by eapply live_slot].
  - apply elem_of_live in Hin as (b & Hb & Ho & _). destruct (hk_bucket _ _ _ _ _ _ Hk' Hb) as (Hbo & _ & Hp & _).
    destruct (slot_mapped _ _ _ _ _ b p Hk' Hb (live_slot _ _ _ Hbo Ho)) as (_ & _ & _ & S1 & S2).
    destruct (is_page_bounds base n _ Hp). lia.
  - apply elem_of_live in Hin as (b & Hb & Ho & ->). destruct (hk_bucket _ _ _ _ _ _ Hk' Hb) as (Hbo & _ & Hp & _).
    destruct (slot_mapped _ _ _ _ _ b p Hk' Hb (live_slot _ _ _ Hbo Ho)) as (_ & _ & _ & S1 & S2).
    destruct (is_page_bounds base n _ Hp). lia.
  - intros o s Ho. apply (live_disjoint base n H' h' m'); [done|done|rewrite HL; by right|].
    intros ->. apply ND. apply list_elem_of_fmap. by exists (o, s).
  - done.
Qed.

Lemma malloc_correct_witness :
  exists H' h' m' p sz, malloc 4096 100 (heap0 pages2) (World region2 []) = Ok (h', World m' [], p) /\
    heap_inv 4096 2 H' h' m' /\ a_live H' ≡ₚ [(p, sz)] /\ 100 <= sz < 200.
Proof.
  destruct (malloc_correct 4096 2 empty_heap (heap0 pages2) (World region2 []) 100
              region2_region region2_inv ltac:(lia)) as [(msg & _ & Hs)|(H' & h' & m' & p & sz & E & Hi & HL & H1 & H2 & _)].
  - by destruct (region2_plenty Hs).
  - exists H', h', m', p, sz. split; [exact E|]. split; [exact Hi|]. split; [exact HL|]. lia.
Defined.

(** C2: free: freeing a live object takes exactly it out of the live objects
    and restores the invariant; when it was the last one of its page, the
    entry of that page in the page map becomes free, no other entry changes
    and the pages of descriptors stay the same; every other live object keeps
    its contents and nothing is printed.  The
    guard against freeing twice compares the first word of the object with
    the links of the free list: the call panics exactly when the object's
    first word happens to be the address of a free slot of its bucket other
    than the first. *)
Theorem free_correct (base n : Z) (H : aheap) (h : heap) (w : world) (b : bkt) (o : Z) :
  Region base n -> heap_inv base n H h (w_mem w) -> b ∈ a_buckets H -> o ∈ b_live b ->
  if decide (rdw (w_mem w) o ∈ tail (b_free b)) then
    free base (4096 * n) o h w = Panic "Trying to repeat free addr\n"
  else
    exists H' h' w', free base (4096 * n) o h w = Ok (h', w') /\ heap_inv base n H' h' (w_mem w') /\
      w_io w' = w_io w /\ a_live H ≡ₚ (o, b_size b) :: a_live H' /\
      unchanged (heap_private base n H') (w_mem w) (w_mem w') /\
      a_dpages H' = a_dpages H /\ page_returned base n (b_live b) (b_page b) h h'.
Proof. intros HR. by apply free_spec. Qed.

(** A heap with one object of one byte. *)
Lemma one_object : exists H h m p b,
  heap_inv 4096 2 H h m /\ b ∈ a_buckets H /\ p ∈ b_live b /\ (2 <= length (b_free b))%nat /\ length (b_live b) = 1%nat.
Proof.
  destruct (malloc_spec 4096 2 empty_heap (heap0 pages2) (World region2 []) 1 region2_inv ltac:(lia))
    as [(msg & _ & Hs)|(H & h & m & p & j & _ & Hi & [HL _] & _ & _ & Hall)]; [by destruct (region2_plenty Hs)|].
  assert (j = 0%nat) as ->.
  { destruct j as [|j]; [done|]. specialize (Hall 0%nat ltac:(lia)). unfold class_size in Hall. simpl in Hall. lia. }
  assert ((p, class_size 0) ∈ a_live H) as (b & Hb & Ho & Es)%elem_of_live by (rewrite HL; left).
  exists H, h, m, p, b. split; [done|]. split; [done|]. split; [done|].
  destruct Hi as [Hk _]. destruct (hk_bucket _ _ _ _ _ _ Hk Hb) as ([_ _ _ _ Hsl] & _).
  apply Permutation_length in Hsl. rewrite length_app in Hsl. unfold slots in Hsl. rewrite length_nodes, <- Es in Hsl.
  change (Z.to_nat (4096 / class_size 0)) with 256%nat in Hsl.
  assert (length (b_live b) <> 0%nat) by (by intros E%length_zero_iff_nil; rewrite E in Ho; apply elem_of_nil in Ho).
  assert (length (b_live b) <= 1)%nat; [|lia].
  apply elem_of_Permutation in Hb as [bs Hbs]. unfold a_live in HL. rewrite Hbs in HL. simpl in HL.
  apply Permutation_length in HL. rewrite length_app, length_fmap in HL. simpl in HL. lia.
Qed.

(** The same with the object cleared by its owner. *)
Lemma one_cleared_object : exists H h m p b,
  heap_inv 4096 2 H h m /\ b ∈ a_buckets H /\ p ∈ b_live b /\ rdw m p ∉ tail (b_free b) /\ length (b_live b) = 1%nat.
Proof.
  destruct one_object as (H & h & m & p & b & Hi & Hb & Hp & _ & H1). pose proof Hi as [Hk _].
  destruct (hk_bucket _ _ _ _ _ _ Hk Hb) as (Ho & _).
  destruct (slot_mapped _ _ _ _ _ b p Hk Hb (live_slot _ _ _ Ho Hp)) as (_ & _ & Hm & _).
  destruct (store64_spec m p 0 Hm) as (m' & _ & U & E).
  exists H, h, m', p, b. split; [|split; [done|split; [done|split; [|done]]]].
  - apply (heap_client 4096 2 H h (span_of p 8) m); [done|done|]. intros x Hx [_ Hpriv]. apply Hpriv.
    exists p, (b_size b). split; [apply elem_of_live; eauto|].
    destruct (class_div _ (bo_class _ _ Ho)). unfold span_of in Hx. lia.
  - rewrite E. change (0 mod 2 ^ 64) with NULL. intros Hin. pose proof (bo_free _ _ Ho) as Hl.
    apply (lseg_nonnull _ _ _ _ _ NULL Hl); [|done]. destruct (b_free b); [by apply elem_of_nil in Hin|by right].
Qed.

Lemma free_correct_witness : exists H h m p b H' h' w',
  free 4096 (4096 * 2) p h (World m []) = Ok (h', w') /\ heap_inv 4096 2 H' h' (w_mem w') /\
  a_live H ≡ₚ (p, b_size b) :: a_live H' /\ length (b_live b) = 1%nat /\ page_returned 4096 2 (b_live b) (b_page b) h h'.
Proof.
  destruct one_cleared_object as (H & h & m & p & b & Hi & Hb & Hp & Hn & H1).
  pose proof (free_correct 4096 2 H h (World m []) b p region2_region Hi Hb Hp) as Hf.
  cbn [w_mem] in Hf. destruct (decide (rdw m p ∈ tail (b_free b))) as [Hc|_]; [by destruct (Hn Hc)|].
  destruct Hf as (H' & h' & w' & E & Hi' & _ & HL & _ & _ & HP). exists H, h, m, p, b, H', h', w'. done.
Defined.

(** A double free is caught, except that of the last slot of a free list:
    freeing a slot that is free and has a successor in the free list panics
    without touching the heap. *)
Theorem double_free_detected (base n : Z) (H : aheap) (h : heap) (w : world) (b : bkt) (l1 : list Z) (o x : Z) (l2 : list Z) :
  Region base n -> heap_inv base n H h (w_mem w) -> b ∈ a_buckets H -> b_free b = l1 ++ o :: x :: l2 ->
  free base (4096 * n) o h w = Panic "Trying to repeat free addr\n".
Proof.
  intros HR [Hk _] Hb Hf. destruct (hk_bucket _ _ _ _ _ _ Hk Hb) as (Ho & _).
  assert (o ∈ slots b) as Hs by (eapply free_slot; [exact Ho|]; rewrite Hf; set_solver).
  destruct (free_front base n H h w b o Hk Hb Hs) as (pre & q1 & q2 & post & _ & ->).
  pose proof (bo_free _ _ Ho) as Hl. rewrite Hf in Hl. apply lseg_app in Hl as (r & _ & L).
  destruct L as (-> & _ & L). destruct L as (E & _ & _). change (id o) with o in E. rewrite E, Hf.
  rewrite decide_True; [done|]. destruct l1; simpl; set_solver.
Qed.

Lemma double_free_detected_witness : exists h m o,
  free 4096 (4096 * 2) o h (World m []) = Panic "Trying to repeat free addr\n".
Proof.
  destruct one_object as (H & h & m & p & b & Hi & Hb & _ & Hlen & _).
  destruct (b_free b) as [|o [|x l]] eqn:E; [simpl in Hlen; lia|simpl in Hlen; lia|].
  exists h, m, o. apply (double_free_detected 4096 2 H h (World m []) b [] o x l region2_region Hi Hb E).
Defined.


