(* ===== verification/StrDup.v ===== *)
(** * Duplicating strings (strdup and strndup of lib/string.c)

    Clients of the heap.  [Allocator] is what they rely on: the state of the
    allocator, which bytes are its own, and that a new object is made of bytes
    that were its own before and are not afterwards.  The heap of lib/malloc.c
    is an instance. *)

From S2P Require Import Prelude CMem Str StrFacts StrSafe Console Words Pages PagesFacts Malloc MallocSpec MallocFacts.
From S2P Require Import MallocGrow MallocRelease MallocCorrect HeapTheorems.

Local Open Scope Z_scope.
Local Open Scope c_scope.

(** [g] is the abstract state of the allocator whose data is [a]. *)
Class Allocator {A G : Type} (inv : G -> A -> mem -> Prop) (owned : G -> Z -> Prop)
    (alloc : Z -> A -> world -> outcome (A * world * Z)) : Prop := {
  alloc_ok : forall g a w len, inv g a (w_mem w) -> 0 <= len ->
    match alloc len a w with
    | Ok (a', w', p) =>
        if p =? NULL then a' = a /\ w_mem w' = w_mem w
        else exists g', inv g' a' (w_mem w') /\ unchanged (owned g) (w_mem w) (w_mem w') /\
               mapped (w_mem w') p len /\ forall x, p <= x < p + len -> owned g x /\ ~ owned g' x
    | Panic _ => True
    | Fault | OutOfFuel => False
    end;
  alloc_client : forall g a R m m',
    inv g a m -> unchanged R m m' -> (forall x, R x -> ~ owned g x) -> inv g a m'
}.

#[export] Instance heap_allocator (base n : Z) `{!Region base n} :
  Allocator (heap_inv base n) (heap_private base n) (malloc base).
Proof.
  split; [|exact (heap_client base n)]. intros H h w len Hi Hlen.
  pose proof (malloc_spec base n H h w len Hi Hlen) as Hs.
  destruct (4096 <? len); [by rewrite Hs|].
  destruct Hs as [(msg & -> & _)|(H' & h' & m' & p & j & -> & Hi' & (HL & HU & _) & Hj & Hle & Hall)]; [done|].
  assert ((p, class_size j) ∈ a_live H') as Hin by (rewrite HL; left).
  destruct (object_facts base n _ _ _ _ _ Hi' Hin) as (Hm & _ & Hp & _ & _ & Hown). destruct (Z.eqb_spec p NULL); [unfold NULL in *; lia|].
  exists H'. cbn [w_mem set_mem]. split; [done|]. split; [done|]. split; [eapply mapped_sub; [exact Hm|lia|lia]|].
  intros x Hx. assert (span_of p (class_size j) x) as Hsp by (unfold span_of; lia). split; [|by apply Hown].
  by eapply new_object_private.
Qed.

Section strdup.
Context {A G : Type} (inv : G -> A -> mem -> Prop) (owned : G -> Z -> Prop).
Context (malloc : Z -> A -> world -> outcome (A * world * Z)) `{!Allocator inv owned malloc}.

Definition strdup (s : Z) (h : A) (w : world) : outcome (A * world * Z) :=
  if s =? NULL then Ok (h, w, NULL) else
  let! n := strlen (w_mem w) s in
  let! '(h, w, new) := malloc (n + 1) h w in
  if new =? NULL then Ok (h, w, NULL) else
  let! m := strcpy (w_mem w) new s in
  Ok (h, set_mem m w, new).

Definition strndup (s n : Z) (h : A) (w : world) : outcome (A * world * Z) :=
  if s =? NULL then Ok (h, w, NULL) else
  let! len := strlen (w_mem w) s in
  let len := if n <? len then n else len in
  let! '(h, w, new) := malloc (len + 1) h w in
  if new =? NULL then Ok (h, w, NULL) else
  let! m := strncpy (w_mem w) new s len in
  let! m := store8 m (new + len) 0 in
  Ok (h, set_mem m w, new).

(** What a caller gets who asks for a copy of [t], by what the allocator does
    with the request for its length and the terminator: NULL exactly when the
    allocator has no object, with nothing changed, and otherwise that object
    with a terminated copy of [t], the memory that is not the allocator's
    unchanged.  A panic of the allocator is one of the call. *)
Definition copied (g : G) (h : A) (w : world) (t : list Z) (r : outcome (A * world * Z)) : Prop :=
  match malloc (Z.of_nat (length t) + 1) h w with
  | Ok (h', w1, p) =>
      if p =? NULL then r = Ok (h', w1, NULL) /\ h' = h /\ w_mem w1 = w_mem w
      else exists w', r = Ok (h', w', p) /\
             exists g', inv g' h' (w_mem w') /\ unchanged (owned g) (w_mem w) (w_mem w') /\
               cstr (w_mem w') p t /\
               forall x, p <= x <= p + Z.of_nat (length t) -> owned g x /\ ~ owned g' x
  | Panic msg => r = Panic msg
  | Fault | OutOfFuel => False
  end.

Lemma cstr_unchanged R m m' s l :
  cstr m s l -> unchanged R m m' -> (forall x, s <= x <= s + Z.of_nat (length l) -> ~ R x) -> cstr m' s l.
Proof.
  intros [Hb Hn] [_ Hu] HR. split; [|done]. apply bytes_at_intro. intros i b Hi.
  pose proof (lookup_lt_Some _ _ _ Hi) as Hlt. rewrite length_app in Hlt. simpl in Hlt.
  rewrite Hu by (apply HR; lia). by apply (bytes_at_lookup _ _ _ _ _ Hb).
Qed.

Lemma strncpy_take m dest src s k :
  cstr m src s -> (k <= length s)%nat -> mapped m dest (Z.of_nat k) -> dest + Z.of_nat k <= src \/ src + Z.of_nat (length s) < dest ->
  strncpy m dest src (Z.of_nat k) = Ok (write_bytes m dest (take k s)).
Proof.
  intros Hs. assert (length s < fuel_of m)%nat as Hf by (apply cstr_size in Hs; unfold fuel_of; lia).
  unfold strncpy. revert Hf. generalize (fuel_of m) as fuel. revert m dest src k Hs.
  induction s as [|c s IH]; intros m dest src k Hs fuel Hf Hk Hd Ho; (destruct fuel as [|fuel]; [lia|]); rewrite while_S.
  - simpl in Hk. by replace k with 0%nat by lia.
  - destruct k as [|k]; [done|]. destruct (Z.eqb_spec (Z.of_nat (S k)) 0); [lia|].
    destruct (cstr_cons _ _ _ _ Hs) as (Hc & Hr & Hs'). rewrite Hc. cbn [obind].
    rewrite store8_mapped by (apply Hd; lia). cbn [obind]. destruct (Z.eqb_spec c 0); [lia|]. loop_next.
    rewrite u8_small by (unfold byte_range; lia). cbn [length] in Hf, Hk, Ho.
    replace (Z.of_nat (S k) - 1) with (Z.of_nat k) by lia.
    rewrite IH; [done| |lia|lia| |lia].
    + apply cstr_insert_ne; [done|lia].
    + apply mapped_insert. eapply mapped_sub; [exact Hd|lia|lia].
Qed.

(** The copy, given that the new object is disjoint from the string. *)
Lemma strdup_spec g s h w l :
  inv g h (w_mem w) -> s <> NULL -> cstr (w_mem w) s l ->
  (forall x, s <= x <= s + Z.of_nat (length l) -> ~ owned g x) ->
  copied g h w l (strdup s h w).
Proof.
  intros Hi Hs Hl Hno. unfold strdup. destruct (Z.eqb_spec s NULL); [done|].
  rewrite (strlen_cstr _ _ _ Hl). cbn [obind].
  pose proof (alloc_ok g h w (Z.of_nat (length l) + 1) Hi ltac:(lia)) as Ha. unfold copied.
  destruct (malloc _ h w) as [[[h' w'] p]| | |]; cbn [obind]; [|done|done|done].
  destruct (Z.eqb_spec p NULL) as [_|Hp]; [by split|].
  destruct Ha as (g' & Hi' & Hu & Hm & Ho).
  pose proof (cstr_unchanged _ _ _ _ _ Hl Hu Hno) as Hl'.
  assert (p + Z.of_nat (length l) + 1 <= s \/ s + Z.of_nat (length l) + 1 <= p) as Hd.
  { destruct (decide (p + Z.of_nat (length l) + 1 <= s)); [by left|].
    destruct (decide (s + Z.of_nat (length l) + 1 <= p)); [by right|]. exfalso.
    destruct (decide (p <= s)); [apply (Hno s)|apply (Hno p)]; [lia|apply Ho; lia|lia|apply Ho; lia]. }
  rewrite (strcpy_write _ p s l Hl' Hm) by (unfold forward_ok; lia). cbn [obind].
  eexists. split; [reflexivity|]. cbn [w_mem set_mem].
  assert (unchanged (fun x => p <= x < p + (Z.of_nat (length l) + 1)) (w_mem w') (write_bytes (w_mem w') p (l ++ [0]))) as U2.
  { split; [apply dom_write_bytes; rewrite length_app; simpl; by replace (Z.of_nat (length l + 1)) with (Z.of_nat (length l) + 1) by lia|].
    intros x Hx. apply lookup_write_bytes_ne. rewrite length_app. simpl. lia. }
  exists g'. split; [eapply alloc_client; [exact Hi'|exact U2|intros x Hx; by apply Ho]|].
  split; [|split].
  - eapply unchanged_trans; [exact Hu|]. eapply unchanged_mono; [exact U2|]. intros x Hx. by apply Ho.
  - split; [apply write_bytes_at|by destruct Hl].
  - intros x Hx. apply Ho. lia.
Qed.

Lemma strndup_spec g s n h w l :
  inv g h (w_mem w) -> s <> NULL -> 0 <= n -> cstr (w_mem w) s l ->
  (forall x, s <= x <= s + Z.of_nat (length l) -> ~ owned g x) ->
  copied g h w (take (Z.to_nat n) l) (strndup s n h w).
Proof.
  intros Hi Hs Hn Hl Hno. unfold strndup. destruct (Z.eqb_spec s NULL); [done|].
  rewrite (strlen_cstr _ _ _ Hl). cbn [obind]. cbv zeta.
  set (k := Nat.min (Z.to_nat n) (length l)).
  assert ((if n <? Z.of_nat (length l) then n else Z.of_nat (length l)) = Z.of_nat k) as -> by (unfold k; case_cmp; lia).
  assert (take (Z.to_nat n) l = take k l) as ->.
  { unfold k. destruct (decide (Z.to_nat n <= length l)%nat); [by rewrite Nat.min_l by lia|].
    rewrite Nat.min_r by lia. by rewrite !take_ge by lia. }
  assert (length (take k l) = k) as Hk by (rewrite length_take; unfold k; lia).
  pose proof (alloc_ok g h w (Z.of_nat k + 1) Hi ltac:(lia)) as Ha. unfold copied. rewrite Hk.
  destruct (malloc _ h w) as [[[h' w'] p]| | |]; cbn [obind]; [|done|done|done].
  destruct (Z.eqb_spec p NULL) as [_|Hp]; [by split|].
  destruct Ha as (g' & Hi' & Hu & Hm & Ho).
  pose proof (cstr_unchanged _ _ _ _ _ Hl Hu Hno) as Hl'.
  assert (k <= length l)%nat as Hkl by (unfold k; lia).
  assert (p + Z.of_nat k + 1 <= s \/ s + Z.of_nat (length l) + 1 <= p) as Hd.
  { destruct (decide (p + Z.of_nat k + 1 <= s)); [by left|].
    destruct (decide (s + Z.of_nat (length l) + 1 <= p)); [by right|]. exfalso.
    destruct (decide (p <= s)); [apply (Hno s)|apply (Hno p)]; [lia|apply Ho; lia|lia|apply Ho; lia]. }
  rewrite (strncpy_take _ p s l k Hl' Hkl); [|eapply mapped_sub; [exact Hm|lia|lia]|lia]. cbn [obind].
  rewrite store8_mapped by (apply mapped_write_bytes with (q := p + Z.of_nat k) (n := 1); [eapply mapped_sub; [exact Hm|lia|lia]|lia]).
  cbn [obind]. eexists. split; [reflexivity|]. cbn [w_mem set_mem].
  replace (<[p + Z.of_nat k := u8 0]> (write_bytes (w_mem w') p (take k l))) with (write_bytes (w_mem w') p (take k l ++ [0]))
    by (rewrite write_bytes_snoc, Hk; done).
  assert (unchanged (fun x => p <= x < p + (Z.of_nat k + 1)) (w_mem w') (write_bytes (w_mem w') p (take k l ++ [0]))) as U2.
  { split; [apply dom_write_bytes; rewrite length_app, Hk; simpl; by replace (Z.of_nat (k + 1)) with (Z.of_nat k + 1) by lia|].
    intros x Hx. apply lookup_write_bytes_ne. rewrite length_app, Hk. simpl. lia. }
  exists g'. split; [eapply alloc_client; [exact Hi'|exact U2|intros x Hx; by apply Ho]|].
  split; [|split].
  - eapply unchanged_trans; [exact Hu|]. eapply unchanged_mono; [exact U2|]. intros x Hx. by apply Ho.
  - split; [apply write_bytes_at|]. destruct Hl as [_ Hl]. by apply Forall_take.
  - intros x Hx. apply Ho. lia.
Qed.

(** The copy, where the allocator has an object. *)
Lemma copied_object g h w t r h' w1 p :
  malloc (Z.of_nat (length t) + 1) h w = Ok (h', w1, p) -> p <> NULL -> copied g h w t r ->
  exists w', r = Ok (h', w', p) /\ cstr (w_mem w') p t.
Proof.
  intros E Hp. unfold copied. rewrite E. destruct (Z.eqb_spec p NULL); [done|]. intros (w' & -> & g' & _ & _ & C & _). by exists w'.
Qed.
End strdup.

(** C27: strdup and strndup over any allocator that keeps its contract.  For a
    terminated string of which no byte belongs to the allocator they ask the
    allocator for the length of the copy (the whole string, or its first [n]
    characters) and its terminator.  They return NULL exactly when the
    allocator does, with the memory as before; otherwise they return the new
    object, which holds the terminated copy and is made of bytes that were the
    allocator's; the allocator keeps its invariant, and nothing but its own
    bytes has changed.  For the pointer NULL both return NULL at once. *)
Theorem strdup_correct {A G : Type} (inv : G -> A -> mem -> Prop) (owned : G -> Z -> Prop)
    (malloc : Z -> A -> world -> outcome (A * world * Z)) (g : G) (h : A) (w : world) (s n : Z) (l : list Z) :
  Allocator inv owned malloc -> inv g h (w_mem w) -> s <> NULL -> 0 <= n -> cstr (w_mem w) s l ->
  (forall x, s <= x <= s + Z.of_nat (length l) -> ~ owned g x) ->
  copied inv owned malloc g h w l (strdup malloc s h w) /\
  copied inv owned malloc g h w (take (Z.to_nat n) l) (strndup malloc s n h w) /\
  strdup malloc NULL h w = Ok (h, w, NULL) /\ strndup malloc NULL n h w = Ok (h, w, NULL).
Proof. intros HA Hi Hs Hn Hl Hno. split; [by eapply strdup_spec|]. split; [by eapply strndup_spec|done]. Qed.

Definition region2_ab : world := World (write_bytes region2 100 ([97; 98] ++ [0])) [].

Lemma region2_ab_inv : heap_inv 4096 2 empty_heap (heap0 pages2) (w_mem region2_ab).
Proof.
  destruct region2_inv as [Hk _]. apply empty_heap_inv; [apply (hk_map _ _ _ _ _ Hk)|].
  apply mapped_write_bytes, (hk_mapped _ _ _ _ _ Hk).
Qed.

(** The heap of two pages has room for the copies. *)
Lemma region2_ab_room len : 0 <= len <= 4096 ->
  exists h' w' p, malloc 4096 len (heap0 pages2) region2_ab = Ok (h', w', p) /\ p <> NULL.
Proof.
  intros Hl. pose proof (malloc_spec 4096 2 empty_heap (heap0 pages2) region2_ab len region2_ab_inv ltac:(lia)) as Hs.
  destruct (Z.ltb_spec 4096 len); [lia|]. destruct Hs as [(msg & _ & Hs)|(H' & h' & m' & p & j & E & Hi & (HL & _) & _)].
  { by destruct (region2_plenty Hs). }
  exists h', (set_mem m' region2_ab), p. split; [done|].
  assert ((p, class_size j) ∈ a_live H') as Hin by (rewrite HL; left).
  destruct (object_facts 4096 2 _ _ _ _ _ Hi Hin) as (_ & _ & Hp & _). unfold NULL. lia.
Qed.

(** Copies of "ab" and of its first character. *)
Lemma strdup_correct_witness :
  (exists h' w' p, strdup (malloc 4096) 100 (heap0 pages2) region2_ab = Ok (h', w', p) /\ p <> NULL /\ cstr (w_mem w') p [97; 98]) /\
  (exists h' w' p, strndup (malloc 4096) 100 1 (heap0 pages2) region2_ab = Ok (h', w', p) /\ p <> NULL /\ cstr (w_mem w') p [97]).
Proof.
  destruct (strdup_correct (heap_inv 4096 2) (heap_private 4096 2) (malloc 4096) empty_heap (heap0 pages2)
           region2_ab 100 1 [97; 98]) as (H1 & H2 & _); [apply heap_allocator, region2_region|exact region2_ab_inv|done|lia| | |].
  - split; [apply write_bytes_at|]. repeat constructor.
  - intros x Hx [Hp _]. simpl in Hx. lia.
  - split.
    + destruct (region2_ab_room (Z.of_nat (length [97; 98]) + 1) ltac:(simpl; lia)) as (h' & w1 & p & E & Hp).
      destruct (copied_object _ _ _ _ _ _ _ _ _ _ _ E Hp H1) as (w' & R & C). exists h', w', p. split; [exact R|]. split; [exact Hp|exact C].
    + destruct (region2_ab_room (Z.of_nat (length (take (Z.to_nat 1) [97; 98])) + 1) ltac:(simpl; lia)) as (h' & w1 & p & E & Hp).
      destruct (copied_object _ _ _ _ _ _ _ _ _ _ _ E Hp H2) as (w' & R & C). exists h', w', p. split; [exact R|]. split; [exact Hp|exact C].
Defined.
