(* ===== verification/PgTable.v ===== *)
(** * Translation tables (arch/arm64/kernel/cache_v8.c)

    The construction of the ARMv8 stage 1 tables, 4 KB granule: an address is
    translated by up to four levels of tables of 512 descriptors of 8 bytes.
    The tables lie in memory from [tlb_addr]; new ones are taken at
    [tlb_fillptr].  [mem_map], the platform's array of regions, is a
    parameter: the list of its entries. *)

From S2P Require Import Prelude CMem Str StrFacts StrSafe Console Words.

Local Open Scope Z_scope.
Local Open Scope c_scope.

Record mm_region : Type := MMRegion { virt : Z; phys : Z; mm_size : Z; attrs : Z }.

(** The entries the loops over [mem_map] visit: up to the one whose size and
    attributes are zero. *)
Fixpoint active (l : list mm_region) : list mm_region :=
  match l with
  | [] => []
  | r :: l => if negb (mm_size r =? 0) || negb (attrs r =? 0) then r :: active l else []
  end.

(** The fields of [gd->arch] used here. *)
Record arch_gd : Type := ArchGD {
  tlb_addr : Z;
  tlb_size : Z;
  tlb_fillptr : Z;
  tlb_emerg : Z
}.

Definition PTE_TYPE_MASK : Z := 3.
Definition PTE_TYPE_FAULT : Z := 0.
Definition PTE_TYPE_TABLE : Z := 3.
Definition PTE_TYPE_PAGE : Z := 3.
Definition PTE_TYPE_BLOCK : Z := 1.
Definition PTE_BLOCK_AF : Z := Z.shiftl 1 10.
Definition PTE_BLOCK_PXN : Z := Z.shiftl 1 53.
Definition PTE_BLOCK_UXN : Z := Z.shiftl 1 54.
Definition PMD_ATTRINDX (t : Z) : Z := Z.shiftl t 2.
Definition PMD_ATTRINDX_MASK : Z := Z.shiftl 7 2.
Definition PMD_ATTRMASK : Z :=
  Z.lor (Z.lor PTE_BLOCK_PXN PTE_BLOCK_UXN) (Z.lor PMD_ATTRINDX_MASK 1).
Definition MAX_PTE_ENTRIES : Z := 512.
Definition TABLE_ADDR_MASK : Z := 0x0000fffffffff000.

(** [1 << 31] is an [int]: it is negative and converts to 64 bits with its
    sign. *)
Definition INT_BIT31 : Z := u64 (s32 (Z.shiftl 1 31)).
Definition TCR_EL1_RSVD : Z := INT_BIT31.
Definition TCR_EL2_RSVD : Z := Z.lor INT_BIT31 (Z.shiftl 1 23).
Definition TCR_EL3_RSVD : Z := Z.lor INT_BIT31 (Z.shiftl 1 23).
Definition TCR_EPD1_DISABLE : Z := Z.shiftl 1 23.
Definition TCR_TG0_4K : Z := 0.
Definition TCR_SHARED_INNER : Z := Z.shiftl 3 12.
Definition TCR_ORGN_WBWA : Z := Z.shiftl 1 10.
Definition TCR_IRGN_WBWA : Z := Z.shiftl 1 8.
Definition TCR_T0SZ (x : Z) : Z := 64 - x.

Definition level2shift (level : Z) : Z := 12 + 9 * (3 - level).

Definition pte_type (v : Z) : Z := Z.land v PTE_TYPE_MASK.

(** The message of [create_table] when the space for tables is used up. *)
Definition NO_RAM : string :=
  "Insufficient RAM for page table: 0x%lx > 0x%lx. Please increase the size in get_page_table_size()".

Section pgtable.
Context (mem_map : list mm_region).

Definition max_addr : Z :=
  fold_left (fun a r => Z.max a (u64 (virt r + mm_size r))) (active mem_map) 0.

(** The physical address size field and the number of address bits. *)
Definition ips_va_bits : Z * Z :=
  if Z.shiftl 1 44 <? max_addr then (5, 48)
  else if Z.shiftl 1 42 <? max_addr then (4, 44)
  else if Z.shiftl 1 40 <? max_addr then (3, 42)
  else if Z.shiftl 1 36 <? max_addr then (2, 40)
  else if Z.shiftl 1 32 <? max_addr then (1, 36)
  else (0, 32).

(** The value returned, and those stored through [pips] and [pva_bits]. *)
Definition get_tcr (el : Z) : Z * Z * Z :=
  let '(ips, va_bits) := ips_va_bits in
  let tcr :=
    if el =? 1 then Z.lor (Z.lor TCR_EL1_RSVD (Z.shiftl ips 32)) TCR_EPD1_DISABLE
    else if el =? 2 then Z.lor TCR_EL2_RSVD (Z.shiftl ips 16)
    else Z.lor TCR_EL3_RSVD (Z.shiftl ips 16) in
  let tcr := Z.lor tcr (Z.lor (Z.lor (Z.lor TCR_TG0_4K TCR_SHARED_INNER) TCR_ORGN_WBWA) TCR_IRGN_WBWA) in
  let tcr := Z.lor tcr (TCR_T0SZ va_bits) in
  (tcr, ips, va_bits).

Definition start_level : Z := let '(_, _, va_bits) := get_tcr 0 in if va_bits <? 39 then 1 else 0.

Definition pte_index (addr level : Z) : Z := Z.land (Z.shiftr addr (level2shift level)) 511.

Definition find_pte (addr level : Z) (gd : arch_gd) (m : mem) : outcome Z :=
  if level <? start_level then Ok NULL else
  while 5 (fun '(i, pte) =>
    if i <? 4 then
      let pte := pte + 8 * pte_index addr i in
      if i =? level then brk pte else
      let! v := load64 m pte in
      if negb (pte_type v =? PTE_TYPE_TABLE) then brk NULL else
      cont (i + 1, Z.land v TABLE_ADDR_MASK)
    else brk NULL) (start_level, tlb_addr gd).

Definition create_table (gd : arch_gd) (m : mem) : outcome (arch_gd * mem * Z) :=
  let new_table := tlb_fillptr gd in
  let pt_len := MAX_PTE_ENTRIES * 8 in
  let gd := ArchGD (tlb_addr gd) (tlb_size gd) (u64 (tlb_fillptr gd + pt_len)) (tlb_emerg gd) in
  if tlb_size gd <? u64 (tlb_fillptr gd - tlb_addr gd) then
    Panic NO_RAM else
  let! m := memset m new_table 0 pt_len in
  Ok (gd, m, new_table).

Definition set_pte_table (pte table : Z) (m : mem) : outcome mem :=
  store64 m pte (Z.lor PTE_TYPE_TABLE table).

Definition split_block (pte level : Z) (gd : arch_gd) (m : mem) : outcome (arch_gd * mem) :=
  let! old_pte := load64 m pte in
  let levelshift := level2shift (level + 1) in
  if negb (pte_type old_pte =? PTE_TYPE_BLOCK) then
    Panic "PTE %p (%llx) is not a block. Some driver code wants to modify dcache settings for an range not covered in mem_map." else
  let! '(gd, m, new_table) := create_table gd m in
  let! m :=
    while (S (Z.to_nat MAX_PTE_ENTRIES)) (fun '(i, m) =>
      if i <? MAX_PTE_ENTRIES then
        let! m := store64 m (new_table + 8 * i) (Z.lor old_pte (u64 (Z.shiftl i levelshift))) in
        let! m :=
          if level + 1 =? 3 then
            let! v := load64 m (new_table + 8 * i) in
            store64 m (new_table + 8 * i) (Z.lor v PTE_TYPE_TABLE)
          else Ok m in
        cont (i + 1, m)
      else brk m) (0, m) in
  let! m := set_pte_table pte new_table m in
  Ok (gd, m).

(** One round of the inner loop of [add_map], at one level: the descriptor is
    written ([inr]), or the next level is prepared ([inl]). *)
Definition add_map_level (virt phys size attrs level : Z) (gd : arch_gd) (m : mem)
    : outcome (arch_gd * mem * bool) :=
  let! pte := find_pte virt level gd m in
  if pte =? NULL then Panic "pte not found\n" else
  let blocksize := Z.shiftl 1 (level2shift level) in
  if (blocksize <=? size) && (Z.land virt (blocksize - 1) =? 0) then
    let! m :=
      if level =? 3 then store64 m pte (Z.lor (Z.lor phys attrs) PTE_TYPE_PAGE)
      else store64 m pte (Z.lor phys attrs) in
    Ok (gd, m, true)
  else
    let! v := load64 m pte in
    if pte_type v =? PTE_TYPE_FAULT then
      let! '(gd, m, new_table) := create_table gd m in
      let! m := set_pte_table pte new_table m in
      Ok (gd, m, false)
    else if pte_type v =? PTE_TYPE_BLOCK then
      let! '(gd, m) := split_block pte level gd m in
      Ok (gd, m, false)
    else Ok (gd, m, false).

(** The level 0 descriptor, where the tables start there. *)
Definition add_map_root (virt : Z) (gd : arch_gd) (m : mem) : outcome (arch_gd * mem) :=
  let! pte := find_pte virt 0 gd m in
  if pte =? NULL then Ok (gd, m) else
  let! v := load64 m pte in
  if pte_type v =? PTE_TYPE_FAULT then
    let! '(gd, m, new_table) := create_table gd m in
    let! m := set_pte_table pte new_table m in
    Ok (gd, m)
  else Ok (gd, m).

(** One round of the outer loop; the block size is 0 when no level fitted. *)
Definition add_map_step (virt phys size attrs : Z) (gd : arch_gd) (m : mem)
    : outcome (arch_gd * mem * Z) :=
  let! '(gd, m) := add_map_root virt gd m in
  while 4 (fun '(level, gd, m) =>
    if level <? 4 then
      let! '(gd, m, done) := add_map_level virt phys size attrs level gd m in
      if done : bool then brk (gd, m, Z.shiftl 1 (level2shift level)) else cont (level + 1, gd, m)
    else brk (gd, m, 0)) (1, gd, m).

Definition add_map (map : mm_region) (gd : arch_gd) (m : mem) : outcome (arch_gd * mem) :=
  let attrs := Z.lor (Z.lor (attrs map) PTE_TYPE_BLOCK) PTE_BLOCK_AF in
  while (S (Z.to_nat (mm_size map / 4096))) (fun '(virt, phys, size, gd, m) =>
    if size =? 0 then brk (gd, m) else
    let! '(gd, m, blocksize) := add_map_step virt phys size attrs gd m in
    cont (u64 (virt + blocksize), u64 (phys + blocksize), u64 (size - blocksize), gd, m))
    (virt map, phys map, mm_size map, gd, m).

Fixpoint add_maps (l : list mm_region) (gd : arch_gd) (m : mem) : outcome (arch_gd * mem) :=
  match l with
  | [] => Ok (gd, m)
  | r :: l => let! '(gd, m) := add_map r gd m in add_maps l gd m
  end.

(** The message that the loop prints for every region (its index, address and
    size) is not part of this model: the state is the table space alone. *)
Definition setup_pgtables (gd : arch_gd) (m : mem) : outcome (arch_gd * mem) :=
  if (tlb_fillptr gd =? 0) || (tlb_addr gd =? 0) then Panic "Page table pointer not setup." else
  let! '(gd, m, _) := create_table gd m in
  add_maps (active mem_map) gd m.

Definition setup_all_pgtables (gd : arch_gd) (m : mem) : outcome (arch_gd * mem) :=
  let addr := tlb_addr gd in
  let size := tlb_size gd in
  let gd := ArchGD addr size addr (tlb_emerg gd) in
  let! '(gd, m) := setup_pgtables gd m in
  let gd := ArchGD (tlb_fillptr gd) (u64 (tlb_size gd - u64 (tlb_fillptr gd - tlb_addr gd)))
                   (tlb_fillptr gd) (tlb_emerg gd) in
  let! '(gd, m) := setup_pgtables gd m in
  Ok (ArchGD addr size (tlb_fillptr gd) (tlb_addr gd), m).

(** ** The size of the tables *)

Inductive pte_kind : Type := PTE_INVAL | PTE_BLOCK | PTE_LEVEL.

(** The loop over the regions in [count_required_pts]. *)
Fixpoint pts_kind (addr level levelend : Z) (l : list mm_region) (t : pte_kind) : pte_kind :=
  let levelmask := u64 (Z.shiftl 1 (level2shift level)) - 1 in
  match l with
  | [] => t
  | r :: l =>
      let start := virt r in
      let end_ := u64 (start + mm_size r) in
      if Z.max addr start <=? Z.min levelend end_ then
        let start := Z.max addr start in
        let end_ := Z.min levelend end_ in
        if negb (Z.land start levelmask =? 0) || negb (Z.land end_ levelmask =? 0) then PTE_LEVEL
        else if level <=? 0 then PTE_LEVEL
        else pts_kind addr level levelend l PTE_BLOCK
      else pts_kind addr level levelend l t
  end.

(** The recursion goes one level down at a time; [fuel] bounds its depth. *)
Fixpoint count_required_pts (fuel : nat) (addr level maxaddr : Z) : outcome Z :=
  match fuel with
  | O => OutOfFuel
  | S fuel =>
      let levelsize := u64 (Z.shiftl 1 (level2shift level)) in
      let levelend := u64 (addr + levelsize) in
      match pts_kind addr level levelend (active mem_map) PTE_INVAL with
      | PTE_LEVEL =>
          let sublevel := level + 1 in
          let sublevelsize := u64 (Z.shiftl 1 (level2shift sublevel)) in
          while (S (Z.to_nat MAX_PTE_ENTRIES)) (fun '(i, addr, r) =>
            if i <? MAX_PTE_ENTRIES then
              let! c := count_required_pts fuel addr sublevel maxaddr in
              let r := r + c in
              let addr := u64 (addr + sublevelsize) in
              if maxaddr <=? addr then brk r else cont (i + 1, addr, r)
            else brk r) (0, addr, 1)
      | _ => Ok 0
      end
  end.

(** Five levels, -1 to 3. *)
Definition get_page_table_size : outcome Z :=
  let one_pt := MAX_PTE_ENTRIES * 8 in
  let '(_, _, va_bits) := get_tcr 0 in
  let! n := count_required_pts 5 0 (start_level - 1) (Z.shiftl 1 va_bits) in
  let size := u64 (one_pt * n) in
  let size := u64 (size * 2) in
  Ok (u64 (size + one_pt * 4)).
End pgtable.
