(* ===== verification/PgWalk.v ===== *)
(** * Translation tables: the walk and what a store does to it

    [translate] is the translation the hardware performs with the tables in
    memory.  [pt_inv] says that the tables in use form a forest: each has a
    level and covers one aligned range of addresses. *)

From S2P Require Import Prelude CMem Str StrFacts StrSafe Console Words PgTable.

Local Open Scope Z_scope.
Local Open Scope c_scope.

(** ** Fields of a descriptor *)

Lemma pte_type_mod v : pte_type v = v mod 4.
Proof. unfold pte_type, PTE_TYPE_MASK. exact (land_mask 2 v ltac:(lia)). Qed.

(** The address field: bits 47 to 12. *)
Definition pte_addr (v : Z) : Z := (v / 4096) mod 2 ^ 36 * 4096.

Lemma table_addr_mask v : Z.land v TABLE_ADDR_MASK = pte_addr v.
Proof.
  unfold TABLE_ADDR_MASK, pte_addr. change 0x0000fffffffff000 with (Z.shiftl (Z.ones 36) 12).
  apply Z.bits_inj'. intros j Hj. rewrite Z.land_spec, Z.shiftl_spec by lia.
  change 4096 with (2 ^ 12). destruct (decide (j < 12)).
  - rewrite (Z.testbit_neg_r (Z.ones 36)) by lia. rewrite andb_false_r. symmetry. by apply Z.mul_pow2_bits_low.
  - rewrite Z.mul_pow2_bits by lia. destruct (decide (j - 12 < 36)).
    + rewrite Z.mod_pow2_bits_low, Z.div_pow2_bits, Z.ones_spec_low by lia.
      rewrite andb_true_r. f_equal. lia.
    + rewrite Z.mod_pow2_bits_high, Z.ones_spec_high by lia. by rewrite andb_false_r.
Qed.

Definition lsize (l : Z) : Z := 2 ^ level2shift l.

Lemma lsize_pos l : l <= 3 -> 0 < lsize l.
Proof. intros H. apply Z.pow_pos_nonneg; [lia|]. unfold level2shift. lia. Qed.

Lemma lsize_S l : l <= 2 -> lsize l = 512 * lsize (l + 1).
Proof.
  intros H. unfold lsize. replace (level2shift l) with (9 + level2shift (l + 1)) by (unfold level2shift; lia).
  rewrite Z.pow_add_r by (unfold level2shift; lia). done.
Qed.

Lemma lsize_cases l : 0 <= l <= 3 ->
  l = 0 /\ lsize l = 2 ^ 39 \/ l = 1 /\ lsize l = 2 ^ 30 \/ l = 2 /\ lsize l = 2 ^ 21 \/ l = 3 /\ lsize l = 4096.
Proof. intros H. assert (l = 0 \/ l = 1 \/ l = 2 \/ l = 3) as [->|[->|[->| ->]]] by lia; tauto. Qed.

Lemma pte_index_div va l : l <= 3 -> pte_index va l = (va / lsize l) mod 512.
Proof.
  intros H. unfold pte_index. change 511 with (2 ^ 9 - 1). rewrite land_mask by lia.
  rewrite Z.shiftr_div_pow2 by (unfold level2shift; lia). done.
Qed.

Lemma pte_index_range va l : l <= 3 -> 0 <= pte_index va l < 512.
Proof. intros H. rewrite pte_index_div by done. apply Z.mod_pos_bound. lia. Qed.

(** ** The hardware's walk *)

(** From the table [T] of level [l]: the level and the value of the
    descriptor that ends the walk. *)
Fixpoint walk (fuel : nat) (m : mem) (T l va : Z) : Z * Z :=
  let v := rdw m (T + 8 * pte_index va l) in
  match fuel with
  | S fuel => if pte_type v =? PTE_TYPE_TABLE then walk fuel m (pte_addr v) (l + 1) va else (l, v)
  | O => (l, v)
  end.

Definition walk_from (m : mem) (T l va : Z) : Z * Z := walk (Z.to_nat (3 - l)) m T l va.

(** The address bits the level of the descriptor provides, and the attributes:
    bits 11 to 2 and 63 to 48. *)
Definition pte_attrs (v : Z) : Z * Z := ((v / 4) mod 1024, v / 2 ^ 48).

Definition decode (va : Z) (lv : Z * Z) : option (Z * (Z * Z)) :=
  let '(l, v) := lv in
  let valid := if l =? 3 then pte_type v =? PTE_TYPE_PAGE
               else if l =? 0 then false else pte_type v =? PTE_TYPE_BLOCK in
  if valid then Some ((v mod 2 ^ 48) / lsize l * lsize l + va mod lsize l, pte_attrs v) else None.

(** The translation of [va] by the tables at [root], whose level is [start]. *)
Definition translate (start : Z) (m : mem) (root va : Z) : option (Z * (Z * Z)) :=
  decode va (walk_from m root start va).

Lemma walk_from_step m T l va :
  l <= 3 ->
  walk_from m T l va =
    let v := rdw m (T + 8 * pte_index va l) in
    if (l <? 3) && (pte_type v =? PTE_TYPE_TABLE) then walk_from m (pte_addr v) (l + 1) va else (l, v).
Proof.
  intros Hl. unfold walk_from. destruct (Z.ltb_spec l 3).
  - replace (Z.to_nat (3 - l)) with (S (Z.to_nat (3 - (l + 1)))) by lia. done.
  - by replace (Z.to_nat (3 - l)) with 0%nat by lia.
Qed.

Section tables.
(** The root table and its level. *)
Context (root start : Z) (Hstart : 0 <= start <= 1).

(** The table the walk for [va] uses at level [start + k], if it gets there. *)
Fixpoint tbl (m : mem) (va : Z) (k : nat) : option Z :=
  match k with
  | O => Some root
  | S k =>
      T ← tbl m va k;
      let v := rdw m (T + 8 * pte_index va (start + Z.of_nat k)) in
      if pte_type v =? PTE_TYPE_TABLE then Some (pte_addr v) else None
  end.

Definition reach (m : mem) (va T l : Z) : Prop :=
  start <= l <= 3 /\ tbl m va (Z.to_nat (l - start)) = Some T.

(** The addresses the tables cover. *)
Definition va_limit : Z := 512 * lsize start.

Record pt_inv (G : gmap Z (Z * Z)) (fill : Z) (m : mem) : Prop := {
  pi_root : G !! root = Some (start, 0);
  pi_table : forall T l b, G !! T = Some (l, b) ->
    start <= l <= 3 /\ root <= T /\ T + 4096 <= fill /\ T mod 4096 = 0;
  pi_entry : forall T l b i, G !! T = Some (l, b) -> 0 <= i < 512 -> l < 3 ->
    let v := rdw m (T + 8 * i) in
    pte_type v = PTE_TYPE_FAULT \/
    pte_type v = PTE_TYPE_TABLE /\ G !! pte_addr v = Some (l + 1, b + i * lsize l) /\ v < 2 ^ 48 \/
    pte_type v = PTE_TYPE_BLOCK /\ 1 <= l /\ (v / 4096) mod (lsize l / 4096) = 0 /\ 0 <= v < 2 ^ 64;
  pi_range : forall T l b i, G !! T = Some (l, b) -> 0 <= i < 512 -> 0 <= rdw m (T + 8 * i) < 2 ^ 64
}.

Lemma reach_root m va : reach m va root start.
Proof. split; [lia|]. by rewrite Z.sub_diag. Qed.

Lemma reach_det m va T T' l : reach m va T l -> reach m va T' l -> T = T'.
Proof. intros [_ H] [_ H']. congruence. Qed.

Lemma reach_next m va T l :
  reach m va T l -> l < 3 ->
  let v := rdw m (T + 8 * pte_index va l) in
  pte_type v = PTE_TYPE_TABLE -> reach m va (pte_addr v) (l + 1).
Proof.
  intros [Hl H] Hlt v Hv. split; [lia|]. replace (Z.to_nat (l + 1 - start)) with (S (Z.to_nat (l - start))) by lia.
  simpl. rewrite H. simpl. replace (start + Z.of_nat (Z.to_nat (l - start))) with l by lia. fold v.
  by rewrite Hv.
Qed.

Lemma reach_prev m va T l :
  reach m va T l -> start < l -> exists T', reach m va T' (l - 1) /\
    let v := rdw m (T' + 8 * pte_index va (l - 1)) in pte_type v = PTE_TYPE_TABLE /\ T = pte_addr v.
Proof.
  intros [Hl H] Hlt. replace (Z.to_nat (l - start)) with (S (Z.to_nat (l - 1 - start))) in H by lia.
  simpl in H. destruct (tbl m va (Z.to_nat (l - 1 - start))) as [T'|] eqn:E; [|done]. simpl in H.
  replace (start + Z.of_nat (Z.to_nat (l - 1 - start))) with (l - 1) in H by lia.
  exists T'. split; [split; [lia|done]|]. cbv zeta.
  destruct (Z.eqb_spec (pte_type (rdw m (T' + 8 * pte_index va (l - 1)))) PTE_TYPE_TABLE); [|done].
  split; [done|]. congruence.
Qed.

(** On the way to a table, every descriptor points to a table. *)
Lemma reach_table m va T l T' l' :
  reach m va T l -> reach m va T' l' -> l' < l -> pte_type (rdw m (T' + 8 * pte_index va l')) = PTE_TYPE_TABLE.
Proof.
  intros Hr Hr' Hlt. pose proof Hr' as [Hl' _]. remember (Z.to_nat (l - l')) as k eqn:Ek. revert T l Hr Hlt Ek.
  induction k as [|k IH]; intros T l Hr Hlt Ek; [lia|].
  destruct (reach_prev _ _ _ _ Hr ltac:(lia)) as (T2 & Hr2 & Hv & _).
  destruct (decide (l' = l - 1)) as [->|]; [by rewrite (reach_det _ _ _ _ _ Hr' Hr2)|]. apply (IH T2 (l - 1)); [done|lia|lia].
Qed.

(** Induction along the walk. *)
Lemma reach_ind' m va (P : Z -> Z -> Prop) :
  P root start ->
  (forall T l, reach m va T l -> P T l -> l < 3 ->
     let v := rdw m (T + 8 * pte_index va l) in pte_type v = PTE_TYPE_TABLE -> P (pte_addr v) (l + 1)) ->
  forall T l, reach m va T l -> P T l.
Proof.
  intros H0 HS T l Hr. pose proof Hr as [Hl _].
  remember (Z.to_nat (l - start)) as k eqn:Ek. revert T l Hr Hl Ek.
  induction k as [|k IH]; intros T l Hr Hl Ek.
  - assert (l = start) as -> by lia. by rewrite (reach_det _ _ _ _ _ Hr (reach_root m va)).
  - destruct (reach_prev _ _ _ _ Hr ltac:(lia)) as (T' & Hr' & Hv & ->).
    pose proof (HS T' (l - 1) Hr' (IH T' (l - 1) Hr' ltac:(lia) ltac:(lia)) ltac:(lia) Hv) as HP.
    by replace (l - 1 + 1) with l in HP by lia.
Qed.

Lemma reach_walk m va T l : reach m va T l -> walk_from m root start va = walk_from m T l va.
Proof.
  apply (reach_ind' m va (fun T l => walk_from m root start va = walk_from m T l va)); [done|].
  clear T l. intros T l [Hl _] -> Hlt v Hv. rewrite walk_from_step by lia. cbv zeta. fold v.
  destruct (Z.ltb_spec l 3); [|lia]. by rewrite Hv.
Qed.

(** A walk sees only the descriptors of the tables it reaches. *)
Lemma walk_ext m m' va T l :
  reach m va T l ->
  (forall T' l', reach m va T' l' -> l <= l' -> rdw m' (T' + 8 * pte_index va l') = rdw m (T' + 8 * pte_index va l')) ->
  walk_from m' T l va = walk_from m T l va.
Proof.
  intros Hr. pose proof Hr as [Hl _]. remember (Z.to_nat (3 - l)) as k eqn:Ek. revert T l Hr Hl Ek.
  induction k as [|k IH]; intros T l Hr Hl Ek HE; rewrite !walk_from_step by lia; cbv zeta; rewrite (HE T l Hr) by lia.
  - by destruct (Z.ltb_spec l 3); [lia|].
  - destruct (Z.ltb_spec l 3); [|lia]. cbn [andb].
    destruct (Z.eqb_spec (pte_type (rdw m (T + 8 * pte_index va l))) PTE_TYPE_TABLE); [|done].
    apply IH; [by apply reach_next|lia|lia|]. intros T' l' Hr' Hl'. apply HE; [done|lia].
Qed.

Lemma reach_ext m m' va va' T l :
  reach m va T l ->
  (forall T' l', reach m va T' l' -> l' < l -> rdw m' (T' + 8 * pte_index va l') = rdw m (T' + 8 * pte_index va l')) ->
  (forall l', start <= l' < l -> pte_index va' l' = pte_index va l') ->
  reach m' va' T l.
Proof.
  intros Hr. pose proof Hr as [Hl _]. remember (Z.to_nat (l - start)) as k eqn:Ek. revert T l Hr Hl Ek.
  induction k as [|k IH]; intros T l Hr Hl Ek HE HI.
  - assert (l = start) as -> by lia. rewrite (reach_det _ _ _ _ _ Hr (reach_root m va)). apply reach_root.
  - destruct (reach_prev _ _ _ _ Hr ltac:(lia)) as (T' & Hr' & Hv & ->).
    assert (reach m' va' T' (l - 1)) as Hr2.
    { apply IH; [done|lia|lia| |].
      - intros T2 l2 H2 Hl2. apply HE; [done|lia].
      - intros l2 Hl2. apply HI. lia. }
    rewrite <- (HE T' (l - 1) Hr') in Hv |- * by lia. rewrite <- (HI (l - 1)) in Hv |- * by lia.
    pose proof (reach_next m' va' T' (l - 1) Hr2 ltac:(lia) Hv) as HP. by replace (l - 1 + 1) with l in HP by lia.
Qed.

(** ** Ranges *)

Lemma mod_lsize va l : l <= 3 -> va mod (512 * lsize l) = lsize l * pte_index va l + va mod lsize l.
Proof.
  intros Hl. pose proof (lsize_pos l Hl). rewrite pte_index_div by done.
  rewrite (Z.mul_comm 512), Z.rem_mul_r by lia. lia.
Qed.

Lemma reach_G G fill m va T l :
  pt_inv G fill m -> 0 <= va < va_limit -> reach m va T l ->
  G !! T = Some (l, va - va mod (512 * lsize l)).
Proof.
  intros HI Hva. apply (reach_ind' m va (fun T l => G !! T = Some (l, va - va mod (512 * lsize l)))).
  - rewrite (pi_root _ _ _ HI). unfold va_limit in Hva. rewrite Z.mod_small by lia. do 2 f_equal. lia.
  - clear T l. intros T l [Hl _] HG Hlt v Hv.
    destruct (pi_entry _ _ _ HI _ _ _ (pte_index va l) HG (pte_index_range va l ltac:(lia)) Hlt) as [E|[(_ & E & _)|[E _]]].
    + fold v in E. rewrite Hv in E. done.
    + fold v in E. rewrite E. do 2 f_equal. rewrite <- lsize_S by lia. rewrite mod_lsize by lia. lia.
    + fold v in E. rewrite Hv in E. done.
Qed.

(** Two walks that read the same descriptor agree up to its level. *)
Lemma same_entry G fill m va va0 T T0 l l0 :
  pt_inv G fill m -> 0 <= va < va_limit -> 0 <= va0 < va_limit ->
  reach m va T l -> reach m va0 T0 l0 ->
  T + 8 * pte_index va l = T0 + 8 * pte_index va0 l0 ->
  T = T0 /\ l = l0 /\ va / lsize l = va0 / lsize l.
Proof.
  intros HI Hva Hva0 Hr Hr0 Hs. pose proof Hr as [Hl _]. pose proof Hr0 as [Hl0 _].
  pose proof (reach_G _ _ _ _ _ _ HI Hva Hr) as HG. pose proof (reach_G _ _ _ _ _ _ HI Hva0 Hr0) as HG0.
  pose proof (pte_index_range va l ltac:(lia)). pose proof (pte_index_range va0 l0 ltac:(lia)).
  destruct (pi_table _ _ _ HI _ _ _ HG) as (_ & _ & _ & A1). destruct (pi_table _ _ _ HI _ _ _ HG0) as (_ & _ & _ & A2).
  assert (T = T0 /\ pte_index va l = pte_index va0 l0) as [-> Ei] by dlia.
  assert (l = l0) as -> by congruence. split; [done|]. split; [done|].
  assert (va - va mod (512 * lsize l0) = va0 - va0 mod (512 * lsize l0)) as Eb by congruence.
  rewrite !mod_lsize in Eb by lia. rewrite Ei in Eb.
  pose proof (lsize_pos l0 ltac:(lia)) as Hp.
  assert (va - va mod lsize l0 = va0 - va0 mod lsize l0) as E by lia.
  rewrite (Z.mod_eq va), (Z.mod_eq va0) in E by lia. nia.
Qed.

Lemma div_coarse va va0 l l' :
  l' <= l -> l <= 3 -> va / lsize l = va0 / lsize l -> va / lsize l' = va0 / lsize l'.
Proof.
  intros Hle Hl E. unfold lsize in *.
  replace (level2shift l') with (level2shift l + 9 * (l - l')) by (unfold level2shift; lia).
  rewrite Z.pow_add_r by (unfold level2shift; lia).
  rewrite <- !Z.div_div, E; [done|apply Z.pow_nonzero; [lia|unfold level2shift; lia]|apply Z.pow_pos_nonneg; lia
    |apply Z.pow_nonzero; [lia|unfold level2shift; lia]|apply Z.pow_pos_nonneg; lia].
Qed.

Lemma index_coarse va va0 l l' :
  l' <= l -> l <= 3 -> va / lsize l = va0 / lsize l -> pte_index va l' = pte_index va0 l'.
Proof. intros H1 H2 E. rewrite !pte_index_div by lia. by rewrite (div_coarse va va0 l l'). Qed.

Lemma entry_apart T i T0 i0 :
  T mod 4096 = 0 -> T0 mod 4096 = 0 -> T + 8 * i <> T0 + 8 * i0 -> apart (span_of (T0 + 8 * i0) 8) (T + 8 * i) 8.
Proof. intros H1 H2 Hne x Hx. unfold span_of. intros Hy. dlia. Qed.

Section store.
(** A store to the descriptor for [va0] at level [l]. *)
Context (G : gmap Z (Z * Z)) (fill : Z) (m m' : mem) (va0 T l : Z).
Context (HI : pt_inv G fill m) (Hva0 : 0 <= va0 < va_limit) (Hr0 : reach m va0 T l).
Context (Hu : unchanged (span_of (T + 8 * pte_index va0 l) 8) m m').

Lemma table_aligned va T' l' : 0 <= va < va_limit -> reach m va T' l' -> T' mod 4096 = 0.
Proof. intros Hva Hr. eapply pi_table; [exact HI|]. by eapply reach_G. Qed.

Lemma store_keeps va T' l' :
  0 <= va < va_limit -> reach m va T' l' -> l' <> l \/ va / lsize l <> va0 / lsize l ->
  rdw m' (T' + 8 * pte_index va l') = rdw m (T' + 8 * pte_index va l').
Proof.
  intros Hva Hr Hne. eapply (rdn_unchanged 8); [exact Hu|].
  apply entry_apart; [by apply (table_aligned va T' l')|by apply (table_aligned va0 T l)|]. intros E.
  destruct (same_entry _ _ _ _ _ _ _ _ _ HI Hva Hva0 Hr Hr0 E) as (_ & -> & E'). tauto.
Qed.

(** The walks for other addresses do not change. *)
Lemma store_other va :
  0 <= va < va_limit -> va / lsize l <> va0 / lsize l ->
  walk_from m' root start va = walk_from m root start va.
Proof.
  intros Hva Hne. apply walk_ext; [apply reach_root|]. intros T' l' Hr' _. apply store_keeps; [done|done|by right].
Qed.

(** The walks for the addresses of the descriptor get to it as before. *)
Lemma store_same va : va / lsize l = va0 / lsize l -> reach m' va T l.
Proof.
  intros E. pose proof Hr0 as [Hl _]. apply (reach_ext m m' va0 va T l Hr0).
  - intros T' l' Hr' Hlt. apply store_keeps; [done|done|left; lia].
  - intros l' Hl'. apply (index_coarse va va0 l l'); [lia|lia|done].
Qed.

(** A store over a descriptor that is no pointer to a table unlinks nothing. *)
Lemma store_reach va T' l' :
  (l < 3 -> pte_type (rdw m (T + 8 * pte_index va0 l)) <> PTE_TYPE_TABLE) ->
  0 <= va < va_limit -> reach m va T' l' -> reach m' va T' l'.
Proof.
  intros Ht Hva Hr. pose proof Hr0 as [Hl _]. pose proof Hr as [Hl' _]. apply (reach_ext m m' va va T' l' Hr); [|done]. intros T2 l2 Hr2 Hlt.
  apply store_keeps; [done|done|]. destruct (decide (l2 = l)) as [->|]; [right|by left]. intros E. destruct Ht; [lia|].
  assert (reach m va T l) as HrT.
  { apply (reach_ext m m va0 va T l Hr0); [done|]. intros l3 Hl3'. apply (index_coarse va va0 l l3); [lia|lia|done]. }
  rewrite <- (index_coarse va va0 l l) by (lia || done). by apply (reach_table m va T' l').
Qed.

Lemma store_walk va :
  va / lsize l = va0 / lsize l ->
  let v := rdw m' (T + 8 * pte_index va0 l) in
  walk_from m' root start va =
    if (l <? 3) && (pte_type v =? PTE_TYPE_TABLE) then walk_from m' (pte_addr v) (l + 1) va else (l, v).
Proof.
  intros E v. pose proof Hr0 as [Hl _]. rewrite (reach_walk _ _ _ _ (store_same va E)).
  rewrite walk_from_step by lia. by rewrite (index_coarse va va0 l l) by (lia || done).
Qed.

(** The invariant, when the new value is a good descriptor. *)
Lemma store_inv G' fill' :
  G ⊆ G' -> fill <= fill' ->
  (forall T' l' b', G !! T' = None -> G' !! T' = Some (l', b') ->
     (start <= l' <= 3 /\ root <= T' /\ T' + 4096 <= fill' /\ T' mod 4096 = 0) /\
     forall i, 0 <= i < 512 -> let v := rdw m' (T' + 8 * i) in
       0 <= v < 2 ^ 64 /\ (l' < 3 -> pte_type v = PTE_TYPE_FAULT \/
       pte_type v = PTE_TYPE_BLOCK /\ 1 <= l' /\ (v / 4096) mod (lsize l' / 4096) = 0 /\ 0 <= v < 2 ^ 64)) ->
  0 <= rdw m' (T + 8 * pte_index va0 l) < 2 ^ 64 ->
  (l < 3 -> let v := rdw m' (T + 8 * pte_index va0 l) in
     pte_type v = PTE_TYPE_FAULT \/
     pte_type v = PTE_TYPE_TABLE /\ G' !! pte_addr v = Some (l + 1, va0 - va0 mod lsize l) /\ v < 2 ^ 48 \/
     pte_type v = PTE_TYPE_BLOCK /\ 1 <= l /\ (v / 4096) mod (lsize l / 4096) = 0 /\ 0 <= v < 2 ^ 64) ->
  pt_inv G' fill' m'.
Proof.
  intros Hsub Hfill Hnew Hvr Hv. pose proof Hr0 as [Hl _].
  pose proof (reach_G _ _ _ _ _ _ HI Hva0 Hr0) as HG. split.
  - eapply lookup_weaken; [apply (pi_root _ _ _ HI)|done].
  - intros T' l' b' HG'. destruct (G !! T') as [[l2 b2]|] eqn:E; [|by destruct (Hnew _ _ _ E HG')].
    pose proof (lookup_weaken _ _ _ _ E Hsub) as E2. assert ((l2, b2) = (l', b')) as [= -> ->] by congruence.
    destruct (pi_table _ _ _ HI _ _ _ E) as (A1 & A2 & A3 & A4). repeat split; try done; lia.
  - intros T' l' b' i HG' Hi Hlt. destruct (G !! T') as [[l2 b2]|] eqn:E.
    2:{ destruct (Hnew _ _ _ E HG') as [_ Hn]. destruct (Hn i Hi) as [_ Hn2]. destruct (Hn2 Hlt) as [Hf|Hb]; [by left|by right; right]. }
    pose proof (lookup_weaken _ _ _ _ E Hsub) as E2. assert ((l2, b2) = (l', b')) as [= -> ->] by congruence.
    destruct (decide (T' + 8 * i = T + 8 * pte_index va0 l)) as [Ea|Ea].
    + destruct (pi_table _ _ _ HI _ _ _ E) as (_ & _ & _ & A4).
      destruct (pi_table _ _ _ HI _ _ _ HG) as (_ & _ & _ & B4).
      pose proof (pte_index_range va0 l ltac:(lia)).
      assert (T' = T /\ i = pte_index va0 l) as [-> ->] by dlia.
      assert ((l', b') = (l, va0 - va0 mod (512 * lsize l))) as [= -> ->] by congruence.
      destruct (Hv Hlt) as [Hf|[(Ht & Hg & Hs)|Hb]]; [by left| |by right; right].
      right; left. split; [done|]. cbv zeta in Hg. rewrite Hg. split; [|done]. do 2 f_equal. rewrite mod_lsize by lia. lia.
    + assert (rdw m' (T' + 8 * i) = rdw m (T' + 8 * i)) as ->.
      { eapply (rdn_unchanged 8); [exact Hu|]. apply entry_apart; [|by apply (table_aligned va0 T l)|done].
        by destruct (pi_table _ _ _ HI _ _ _ E) as (_ & _ & _ & A4). }
      destruct (pi_entry _ _ _ HI _ _ _ i E Hi Hlt) as [Hf|[(Ht & Hg & Hs)|Hb]]; [by left| |by right; right].
      right; left. split; [done|]. split; [by eapply lookup_weaken|done].
  - intros T' l' b' i HG' Hi. destruct (G !! T') as [[l2 b2]|] eqn:E.
    2:{ destruct (Hnew _ _ _ E HG') as [_ Hn]. by destruct (Hn i Hi). }
    destruct (decide (T' + 8 * i = T + 8 * pte_index va0 l)) as [->|Ea]; [done|].
    assert (rdw m' (T' + 8 * i) = rdw m (T' + 8 * i)) as ->; [|by eapply (pi_range _ _ _ HI)].
    eapply (rdn_unchanged 8); [exact Hu|]. apply entry_apart; [|by apply (table_aligned va0 T l)|done].
    by destruct (pi_table _ _ _ HI _ _ _ E) as (_ & _ & _ & A4).
Qed.
End store.
End tables.
