(* ===== verification/PgMap.v ===== *)
(** * Translation tables: the tables do what the memory map says

    [add_map] turns one region into descriptors, splitting and creating
    tables on the way; the translation of every address outside the region
    stays as it was. *)

From S2P Require Import Prelude CMem Str StrFacts StrSafe Console Words PgTable PgWalk.

Local Open Scope Z_scope.
Local Open Scope c_scope.

(** ** Descriptors *)

(** Upper attributes, address field, lower attributes and type. *)
Definition mkpte (hi a low : Z) : Z := hi * 2 ^ 48 + a * 4096 + low.

Lemma mkpte_eta v : v = mkpte (v / 2 ^ 48) ((v / 4096) mod 2 ^ 36) (v mod 4096).
Proof. unfold mkpte. change (2 ^ 48) with (4096 * 2 ^ 36). rewrite <- Z.div_div by lia. dlia. Qed.

Lemma mkpte_addr hi a low : 0 <= a < 2 ^ 36 -> 0 <= low < 4096 -> pte_addr (mkpte hi a low) = a * 4096.
Proof.
  intros Ha Hl. unfold pte_addr, mkpte.
  replace (hi * 2 ^ 48 + a * 4096 + low) with (low + (a + hi * 2 ^ 36) * 4096) by lia.
  rewrite Z_div_plus_full, (Z.div_small low) by lia.
  replace (0 + (a + hi * 2 ^ 36)) with (a + hi * 2 ^ 36) by lia.
  rewrite Z_mod_plus_full, Z.mod_small by lia. done.
Qed.

Lemma mkpte_type hi a low : pte_type (mkpte hi a low) = low mod 4.
Proof.
  rewrite pte_type_mod. unfold mkpte.
  replace (hi * 2 ^ 48 + a * 4096 + low) with (low + (hi * 2 ^ 46 + a * 1024) * 4) by lia. by rewrite Z_mod_plus_full.
Qed.

Lemma mkpte_attrs hi a low :
  0 <= a < 2 ^ 36 -> 0 <= low < 4096 -> pte_attrs (mkpte hi a low) = (low / 4, hi).
Proof.
  intros Ha Hl. unfold pte_attrs, mkpte. f_equal; [|dlia].
  replace (hi * 2 ^ 48 + a * 4096 + low) with (low + (hi * 2 ^ 46 + a * 1024) * 4) by lia.
  rewrite Z_div_plus_full by lia.
  replace (low / 4 + (hi * 2 ^ 46 + a * 1024)) with (low / 4 + (hi * 2 ^ 36 + a) * 1024) by lia.
  rewrite Z_mod_plus_full. apply Z.mod_small. dlia.
Qed.

(** A level with its block size in pages. *)
Definition lpages (l : Z) : Z := lsize l / 4096.

Lemma lpages_eq l : 1 <= l <= 3 -> lsize l = lpages l * 4096 /\ 0 < lpages l /\ (lpages l | 2 ^ 18).
Proof.
  intros Hl. assert (l = 1 \/ l = 2 \/ l = 3) as [->|[->| ->]] by lia.
  - split; [done|]. split; [done|]. by exists 1.
  - split; [done|]. split; [done|]. by exists 512.
  - split; [done|]. split; [done|]. by exists (2 ^ 18).
Qed.

(** The translation by a valid descriptor of level [l]. *)
Definition valid_leaf (l low : Z) : Prop := l = 3 /\ low mod 4 = 3 \/ (l = 1 \/ l = 2) /\ low mod 4 = 1.

Lemma decode_leaf va l hi a low :
  valid_leaf l low -> 0 <= a < 2 ^ 36 -> 0 <= low < 4096 -> a mod lpages l = 0 ->
  decode va (l, mkpte hi a low) = Some (a * 4096 + va mod lsize l, (low / 4, hi)).
Proof.
  intros Hv Ha Hl Hal. unfold decode. rewrite mkpte_type, mkpte_attrs by done.
  assert (1 <= l <= 3) as Hl3 by (destruct Hv as [[? _]|[? _]]; lia).
  destruct (lpages_eq l Hl3) as (EL & Hp & _).
  assert ((mkpte hi a low mod 2 ^ 48) / lsize l * lsize l = a * 4096) as ->.
  { unfold mkpte. replace (hi * 2 ^ 48 + a * 4096 + low) with ((a * 4096 + low) + hi * 2 ^ 48) by lia.
    rewrite Z_mod_plus_full, Z.mod_small by lia. rewrite EL.
    replace (a * 4096 + low) with (low + a * 4096) by lia.
    rewrite (Z.mul_comm (lpages l)), <- Z.div_div, Z_div_plus_full, (Z.div_small low) by lia.
    replace (0 + a) with a by lia. pose proof (Z.div_mod a (lpages l) ltac:(lia)). lia. }
  unfold PTE_TYPE_PAGE, PTE_TYPE_BLOCK.
  destruct Hv as [[-> Hm]|[[-> | ->] Hm]]; rewrite Hm; done.
Qed.

Lemma decode_invalid va l v : pte_type v = PTE_TYPE_FAULT -> decode va (l, v) = None.
Proof. intros H. unfold decode. rewrite H. by destruct (l =? 3), (l =? 0). Qed.

(** Splitting a block keeps its translation. *)
Lemma decode_split va l old :
  1 <= l <= 2 -> pte_type old = PTE_TYPE_BLOCK -> (old / 4096) mod lpages l = 0 ->
  decode va (l + 1, old + pte_index va (l + 1) * lsize (l + 1) + (if l + 1 =? 3 then 2 else 0)) = decode va (l, old).
Proof.
  intros Hl Ht Ha. rewrite (mkpte_eta old) in *. set (hi := old / 2 ^ 48) in *.
  set (a := (old / 4096) mod 2 ^ 36) in *. set (low := old mod 4096) in *.
  assert (0 <= a < 2 ^ 36) as Hra by (apply Z.mod_pos_bound; lia).
  assert (0 <= low < 4096) as Hrl by (apply Z.mod_pos_bound; lia). clearbody hi a low.
  rewrite mkpte_type in Ht. unfold PTE_TYPE_BLOCK in Ht.
  destruct (lpages_eq l ltac:(lia)) as (EL & Hp & Hdiv). destruct (lpages_eq (l + 1) ltac:(lia)) as (EL' & Hp' & _).
  pose proof (lsize_S l ltac:(lia)) as ES. pose proof (pte_index_range va (l + 1) ltac:(lia)) as Hi.
  set (i := pte_index va (l + 1)) in *.
  assert (a mod lpages l = 0) as Hal.
  { unfold mkpte in Ha. replace (hi * 2 ^ 48 + a * 4096 + low) with (low + (a + hi * 2 ^ 36) * 4096) in Ha by lia.
    rewrite Z_div_plus_full, (Z.div_small low) in Ha by lia. destruct Hdiv as [q Hq].
    assert (hi * 2 ^ 36 = hi * 2 ^ 18 * q * lpages l) as E by (rewrite <- Z.mul_assoc, <- Hq; lia).
    rewrite E, Z.add_0_l in Ha.
    by rewrite Z_mod_plus_full in Ha. }
  assert (a + lpages l <= 2 ^ 36) as Hfit.
  { destruct Hdiv as [q Hq]. pose proof (Z.div_mod a (lpages l) ltac:(lia)) as Hd. rewrite Hal in Hd.
    assert (2 ^ 36 = 2 ^ 18 * q * lpages l) as E by (rewrite <- Z.mul_assoc, <- Hq; lia).
    assert (a / lpages l < 2 ^ 18 * q) by nia. nia. }
  replace (mkpte hi a low + i * lsize (l + 1) + (if l + 1 =? 3 then 2 else 0))
    with (mkpte hi (a + i * lpages (l + 1)) (low + (if l + 1 =? 3 then 2 else 0))) by (unfold mkpte; lia).
  assert (lpages l = 512 * lpages (l + 1)) as EP by lia.
  rewrite decode_leaf; [rewrite decode_leaf; [|right; split; [lia|done]|done|done|done]| | | |].
  - do 2 f_equal; [rewrite ES, mod_lsize by lia; unfold i; lia|].
    f_equal. case_cmp; [dlia|f_equal; lia].
  - case_cmp; [left; split; [lia|dlia]|right; split; [lia|]]. by rewrite Z.add_0_r.
  - nia.
  - case_cmp; dlia.
  - rewrite Z_mod_plus_full. pose proof (Z.div_mod a (lpages l) ltac:(lia)) as Hd. rewrite Hal in Hd.
    replace a with (512 * (a / lpages l) * lpages (l + 1)) by lia. apply Z_mod_mult.
Qed.

(** ** Fresh tables *)

Lemma rdw_zero m a : (forall x, a <= x < a + 8 -> m !! x = Some 0) -> rdw m a = 0.
Proof.
  intros H. unfold rdn. change 8%nat with (length (replicate 8 0)). rewrite bytes_at_read_bytes; [done|].
  apply bytes_at_intro. intros i b Hi. apply lookup_replicate in Hi as [-> Hi]. apply H. lia.
Qed.

(** The memory, size and emergency tables at the start of the construction. *)
Record origin : Type := Origin { og_mem : mem; og_size : Z; og_emerg : Z }.

Section map.
Context (mem_map : list mm_region) (root : Z) (o : origin).
Local Abbreviation start := (start_level mem_map).
Local Abbreviation limit := (va_limit start).

Lemma start_range : 0 <= start <= 1.
Proof. unfold start_level. destruct (get_tcr mem_map 0) as [[? ?] vb]. case_match; lia. Qed.

(** The space for tables: only its bytes have changed since the origin. *)
Record arena (gd : arch_gd) (m : mem) : Prop := {
  po_root : tlb_addr gd = root /\ 0 < root /\ root mod 4096 = 0;
  po_fill : root <= tlb_fillptr gd <= root + tlb_size gd /\ tlb_fillptr gd mod 4096 = 0;
  po_high : root + tlb_size gd < 2 ^ 48;
  po_mapped : mapped m root (tlb_size gd);
  po_frame : unchanged (span_of root (tlb_size gd)) (og_mem o) m;
  po_same : tlb_size gd = og_size o /\ tlb_emerg gd = og_emerg o
}.

(** The state of the tables. *)
Record pg_ok (G : gmap Z (Z * Z)) (gd : arch_gd) (m : mem) : Prop := {
  po_inv : pt_inv root start G (tlb_fillptr gd) m;
  po_arena : arena gd m
}.

Lemma arena_unchanged gd m m' R :
  arena gd m -> unchanged R m m' -> (forall x, R x -> root <= x < root + tlb_size gd) -> arena gd m'.
Proof.
  intros [] Hu HR. split; try done; [by eapply unchanged_mapped|].
  eapply unchanged_trans; [done|]. eapply unchanged_mono; [exact Hu|exact HR].
Qed.

Lemma entry_mapped G gd m T l b i :
  pg_ok G gd m -> G !! T = Some (l, b) -> 0 <= i < 512 -> mapped m (T + 8 * i) 8.
Proof.
  intros Hk HG Hi. destruct (pi_table _ _ _ _ _ (po_inv _ _ _ Hk) _ _ _ HG) as (_ & H1 & H2 & _).
  destruct (po_arena _ _ _ Hk) as [_ [H3 _] _ Hm _ _]. eapply mapped_sub; [exact Hm|lia|lia].
Qed.

Lemma reach_mapped G gd m va T l :
  pg_ok G gd m -> 0 <= va < limit -> reach root start m va T l -> mapped m (T + 8 * pte_index va l) 8.
Proof.
  intros Hk Hva Hr. pose proof Hr as [Hl _]. eapply entry_mapped; [exact Hk| |apply pte_index_range; lia].
  by eapply reach_G; [apply start_range|apply (po_inv _ _ _ Hk)| |].
Qed.

(** [find_pte] follows the walk. *)
Lemma find_pte_reach G gd m va T l :
  pg_ok G gd m -> 0 <= va < limit -> reach root start m va T l ->
  find_pte mem_map va l gd m = Ok (T + 8 * pte_index va l).
Proof.
  intros Hk Hva Hr. pose proof start_range as Hs. pose proof Hr as [Hl _]. unfold find_pte.
  destruct (Z.ltb_spec l start); [lia|].
  destruct (po_root _ _ (po_arena _ _ _ Hk)) as (-> & _ & _).
  eapply (while_eq (fun '(i, p) => start <= i <= l /\ reach root start m va p i) (fun '(i, _) => Z.to_nat (4 - i))).
  - intros [i p] [Hi Hp]. destruct (Z.ltb_spec i 4); [|lia]. cbv zeta.
    destruct (Z.eqb_spec i l) as [->|Hne].
    + by rewrite (reach_det _ _ _ _ _ _ _ Hp Hr).
    + rewrite load64_rdw by (by eapply reach_mapped). cbn [obind].
      destruct (Z.eqb_spec (pte_type (rdw m (p + 8 * pte_index va i))) PTE_TYPE_TABLE) as [E|E]; cbn [negb].
      * rewrite table_addr_mask. split; [|lia]. split; [lia|]. apply reach_next; [done|lia|done].
      * destruct E.
        assert (reach root start m va (default 0 (tbl root start m va (Z.to_nat (i + 1 - start)))) (i + 1)) as Hn.
        { split; [lia|]. destruct Hr as [_ Ht].
          assert (forall k j, (j <= k)%nat -> is_Some (tbl root start m va k) -> is_Some (tbl root start m va j)) as Hmono.
          { intros k. induction k as [|k IH]; intros j Hj Hk'; [by replace j with 0%nat by lia|].
            destruct (decide (j = S k)) as [->|]; [done|]. apply IH; [lia|]. simpl in Hk'.
            destruct (tbl root start m va k); [done|]. by destruct Hk'. }
          destruct (Hmono (Z.to_nat (l - start)) (Z.to_nat (i + 1 - start)) ltac:(lia) ltac:(eauto)) as [x Hx].
          by rewrite Hx. }
        destruct (reach_prev _ _ _ _ _ _ Hn ltac:(lia)) as (T' & HT' & Ht' & _).
        replace (i + 1 - 1) with i in * by lia. by rewrite (reach_det _ _ _ _ _ _ _ HT' Hp) in Ht'.
  - split; [lia|]. apply reach_root. lia.
  - lia.
Qed.

Lemma find_pte_below va l gd m : l < start -> find_pte mem_map va l gd m = Ok NULL.
Proof. intros H. unfold find_pte. by destruct (Z.ltb_spec l start); [|lia]. Qed.

(** [create_table] runs out of space, or gives a table of invalid descriptors. *)
Lemma create_table_spec gd m :
  arena gd m ->
  create_table gd m = Panic NO_RAM \/
  exists m', create_table gd m =
      Ok (ArchGD (tlb_addr gd) (tlb_size gd) (tlb_fillptr gd + 4096) (tlb_emerg gd), m', tlb_fillptr gd) /\
    tlb_fillptr gd + 4096 <= root + tlb_size gd /\
    unchanged (span_of (tlb_fillptr gd) 4096) m m' /\
    forall i, 0 <= i < 512 -> rdw m' (tlb_fillptr gd + 8 * i) = 0.
Proof.
  intros [(Er & H1 & H2) (H3 & H4) H5 Hm _ _]. unfold create_table. change (MAX_PTE_ENTRIES * 8) with 4096.
  cbn [tlb_size tlb_fillptr tlb_addr tlb_emerg]. rewrite Er.
  assert (u64 (tlb_fillptr gd + 4096) = tlb_fillptr gd + 4096) as -> by (apply u64_small; lia).
  rewrite u64_small by lia.
  destruct (Z.ltb_spec (tlb_size gd) (tlb_fillptr gd + 4096 - root)); [by left|right].
  rewrite memset_write by (first [lia | eapply mapped_sub; [exact Hm|lia|lia]]). cbn [obind].
  exists (write_bytes m (tlb_fillptr gd) (replicate (Z.to_nat 4096) (u8 0))).
  split; [done|]. split; [lia|]. split.
  - split; [apply dom_write_bytes; rewrite length_replicate, Z2Nat.id by lia; eapply mapped_sub; [exact Hm|lia|lia]|].
    intros x Hx. apply lookup_write_bytes_ne. rewrite length_replicate, Z2Nat.id by lia. unfold span_of in Hx. lia.
  - intros i Hi. apply rdw_zero. intros x Hx.
    pose proof (write_bytes_at m (tlb_fillptr gd) (replicate (Z.to_nat 4096) (u8 0))) as Hb.
    pose proof (bytes_at_lookup _ _ _ (Z.to_nat (x - tlb_fillptr gd)) 0 Hb) as Hlk.
    rewrite lookup_replicate, Z2Nat.id in Hlk by lia. replace (tlb_fillptr gd + (x - tlb_fillptr gd)) with x in Hlk by lia.
    apply Hlk. split; [done|lia].
Qed.

(** Writes above the tables in use do not matter. *)
Lemma fresh_frame G gd m m' :
  pg_ok G gd m -> unchanged (fun x => tlb_fillptr gd <= x < root + tlb_size gd) m m' ->
  pg_ok G gd m' /\
  (forall va T l, 0 <= va < limit -> reach root start m va T l -> reach root start m' va T l) /\
  (forall va, 0 <= va < limit -> walk_from m' root start va = walk_from m root start va).
Proof.
  intros Hk Hu. pose proof start_range as Hs. pose proof Hk as [HI HA]. pose proof (po_fill _ _ HA) as [HF _].
  assert (forall T l b i, G !! T = Some (l, b) -> 0 <= i < 512 -> rdw m' (T + 8 * i) = rdw m (T + 8 * i)) as HE.
  { intros T l b i HG Hi. eapply (rdn_unchanged 8); [exact Hu|].
    destruct (pi_table _ _ _ _ _ HI _ _ _ HG) as (_ & _ & A & _). intros x Hx. lia. }
  assert (forall va T l, 0 <= va < limit -> reach root start m va T l ->
            rdw m' (T + 8 * pte_index va l) = rdw m (T + 8 * pte_index va l)) as HR.
  { intros va T l Hva Hr. pose proof Hr as [Hl _].
    eapply HE; [by eapply reach_G|apply pte_index_range; lia]. }
  split; [split|split].
  - pose proof HI as []. split; [done|done| |].
    + intros T l b i HG Hi Hlt. rewrite (HE T l b i HG Hi). by apply (pi_entry T).
    + intros T l b i HG Hi. rewrite (HE T l b i HG Hi). by apply (pi_range T l b).
  - eapply arena_unchanged; [exact HA|exact Hu|]. cbv beta. intros; lia.
  - intros va T l Hva Hr. apply (reach_ext root start Hs m m' va va T l Hr); [|done]. intros T' l' Hr' _. by apply HR.
  - intros va Hva. apply (walk_ext root start); [by apply reach_root|]. intros T' l' Hr' _. by apply HR.
Qed.

Definition filled (gd : arch_gd) : arch_gd :=
  ArchGD (tlb_addr gd) (tlb_size gd) (tlb_fillptr gd + 4096) (tlb_emerg gd).

(** Descriptors of a table that does not lead further. *)
Definition flat_entries (m : mem) (N l : Z) : Prop :=
  forall i, 0 <= i < 512 -> let v := rdw m (N + 8 * i) in
    0 <= v < 2 ^ 64 /\ (l < 3 -> pte_type v = PTE_TYPE_FAULT \/
    pte_type v = PTE_TYPE_BLOCK /\ 1 <= l /\ (v / 4096) mod (lsize l / 4096) = 0 /\ 0 <= v < 2 ^ 64).

(** The tables reached before are still reached. *)
Definition reach_kept (m m' : mem) : Prop :=
  forall va T l, 0 <= va < limit -> reach root start m va T l -> reach root start m' va T l.

(** A new table takes the place of the descriptor for [va0] at level [l]. *)
Lemma link_table G gd m m1 va0 T l :
  let N := tlb_fillptr gd in
  pg_ok G gd m -> 0 <= va0 < limit -> reach root start m va0 T l -> l < 3 ->
  N + 4096 <= root + tlb_size gd -> unchanged (span_of N 4096) m m1 -> flat_entries m1 N (l + 1) ->
  returns (set_pte_table (T + 8 * pte_index va0 l) N m1) (fun m2 =>
    pg_ok (<[N := (l + 1, va0 - va0 mod lsize l)]> G) (filled gd) m2 /\
    (reach root start m2 va0 T l /\ reach root start m2 va0 N (l + 1)) /\
    (forall va, 0 <= va < limit -> va / lsize l <> va0 / lsize l ->
       walk_from m2 root start va = walk_from m root start va) /\
    (forall va, va / lsize l = va0 / lsize l ->
       walk_from m2 root start va = (l + 1, rdw m1 (N + 8 * pte_index va (l + 1)))) /\
    (pte_type (rdw m (T + 8 * pte_index va0 l)) <> PTE_TYPE_TABLE -> reach_kept m m2)).
Proof.
  intros N Hk Hva0 Hr Hl3 Hfit HU Hflat. pose proof start_range as Hs. pose proof Hr as [Hl _].
  destruct (fresh_frame G gd m m1 Hk) as (Hk1 & Hreach & Hwalk).
  { eapply unchanged_mono; [exact HU|]. unfold span_of, N. intros; lia. }
  pose proof (Hreach _ _ _ Hva0 Hr) as Hr1. pose proof Hk1 as [HI1 HA1]. pose proof HA1 as [(Er & R1 & R2) (F1 & F2) Hhi Hm1 Hfr1 Hsm1].
  assert (G !! T = Some (l, va0 - va0 mod (512 * lsize l))) as HGT by by eapply reach_G.
  destruct (pi_table _ _ _ _ _ HI1 _ _ _ HGT) as (_ & T1 & T2 & T3).
  pose proof (pte_index_range va0 l ltac:(lia)) as Hi0.
  assert (G !! N = None) as HN.
  { destruct (G !! N) as [[l' b']|] eqn:E; [|done]. destruct (pi_table _ _ _ _ _ HI1 _ _ _ E) as (_ & _ & A & _).
    unfold N in *. lia. }
  unfold set_pte_table.
  assert (Z.lor PTE_TYPE_TABLE N = mkpte 0 (N / 4096) 3) as Ev.
  { unfold PTE_TYPE_TABLE, mkpte. rewrite Z.lor_comm. replace 3 with (3 * 2 ^ 0) at 1 by lia.
    rewrite (lor_field N 3 0 2); [|lia|lia| |lia]; [unfold N; dlia|].
    rewrite Z.pow_0_r, Z.div_1_r. unfold N. change (2 ^ 2) with 4. dlia. }
  rewrite Ev. eapply returns_mono; [apply store64_spec; by eapply reach_mapped|]. intros m2 [U2 E2].
  assert (0 <= N / 4096 < 2 ^ 36) as HNr by (unfold N; dlia).
  rewrite Z.mod_small in E2 by (unfold mkpte; lia).
  assert (forall i, 0 <= i < 512 -> rdw m2 (N + 8 * i) = rdw m1 (N + 8 * i)) as HNe.
  { intros i Hi. eapply (rdn_unchanged 8); [exact U2|]. apply apart_span. unfold N in *. lia. }
  assert (pte_type (mkpte 0 (N / 4096) 3) = PTE_TYPE_TABLE) as Et by by rewrite mkpte_type.
  assert (pte_addr (mkpte 0 (N / 4096) 3) = N) as Ea by (rewrite mkpte_addr by lia; unfold N; dlia).
  assert (forall va, va / lsize l = va0 / lsize l ->
            walk_from m2 root start va = (l + 1, rdw m1 (N + 8 * pte_index va (l + 1)))) as Hsame.
  { intros va E. rewrite (store_walk root start Hs G _ m1 m2 va0 T l HI1 Hva0 Hr1 U2 va E). rewrite E2, Et, Ea.
    destruct (Z.ltb_spec l 3); [|lia]. cbn [andb]. change (PTE_TYPE_TABLE =? PTE_TYPE_TABLE) with true. cbv iota.
    pose proof (pte_index_range va (l + 1) ltac:(lia)) as Hi.
    rewrite walk_from_step by lia. cbv zeta. rewrite HNe by done.
    destruct (Z.ltb_spec (l + 1) 3) as [Hl2|]; [|done]. cbn [andb].
    destruct (Hflat (pte_index va (l + 1)) Hi) as [_ Hf]. destruct (Hf Hl2) as [E'|[E' _]]; cbv zeta in E'; by rewrite E'. }
  split; [|split; [|split; [|split; [exact Hsame|]]]].
  - split; cbn [filled tlb_fillptr tlb_addr tlb_size].
    2:{ destruct (arena_unchanged gd m1 m2 _ HA1 U2) as [A1 A2 A3 A4 A5 A6]; [unfold span_of; intros; lia|].
        split; cbn [filled tlb_fillptr tlb_addr tlb_size]; [done|split; [lia|dlia]|done|done|done|done]. }
    eapply (store_inv root start Hs G _ m1 m2 va0 T l HI1 Hva0 Hr1 U2); [by apply insert_subseteq|lia| |rewrite E2; unfold mkpte; lia|].
    + intros T' l' b' HG' HG2. assert (T' = N) as -> by (destruct (decide (N = T')) as [|Hne]; [done|rewrite lookup_insert_ne in HG2 by done; congruence]).
      rewrite lookup_insert_eq in HG2. injection HG2 as <- <-.
      split; [split; [lia|split; [lia|split; [unfold N; lia|done]]]|].
      intros i Hi. rewrite HNe by done. by apply Hflat.
    + intros _. cbv zeta. rewrite E2, Et, Ea. right; left. split; [done|]. split; [by rewrite lookup_insert_eq|]. unfold mkpte. lia.
  - assert (reach root start m2 va0 T l) as Hr2 by by eapply (store_same root start Hs G _ m1 m2 va0 T l).
    split; [done|]. rewrite <- Ea, <- E2. apply reach_next; [done|lia|by rewrite E2].
  - intros va Hva Hne. rewrite <- (Hwalk va Hva). by eapply (store_other root start Hs G _ m1 m2 va0 T l).
  - intros Hnt va T' l' Hva Hr'. apply (store_reach root start Hs G _ m1 m2 va0 T l HI1 Hva0 Hr1 U2); [|done|by apply Hreach]. intros _.
    assert (rdw m1 (T + 8 * pte_index va0 l) = rdw m (T + 8 * pte_index va0 l)) as ->; [|done].
    eapply (rdn_unchanged 8); [exact HU|]. apply apart_span. unfold N in *. lia.
Qed.

(** ** Steps that keep the translation *)

Definition same_translation (m m' : mem) : Prop :=
  forall va, 0 <= va < limit -> translate start m' root va = translate start m root va.

(** The walks change at most for the addresses under the descriptor of [va0]
    at level [l], where they ended, and end one level further down then. *)
Definition walks_below (m : mem) (va0 l : Z) (m' : mem) : Prop :=
  forall va, 0 <= va < limit -> walk_from m' root start va = walk_from m root start va \/
    va / lsize l = va0 / lsize l /\ (walk_from m root start va).1 = l /\ (walk_from m' root start va).1 = l + 1.

(** The next level for [va0] exists. *)
Definition deepened (gd : arch_gd) (m : mem) (va0 l : Z) (gd' : arch_gd) (m' : mem) : Prop :=
  exists G' T', pg_ok G' gd' m' /\ reach root start m' va0 T' (l + 1) /\ same_translation m m' /\ walks_below m va0 l m' /\
    reach_kept m m' /\ (gd' = gd /\ m' = m \/ gd' = filled gd /\ forall T, ~ reach root start m va0 T (l + 1)).

Lemma walk_at m va0 T l va :
  0 <= va0 < limit -> reach root start m va0 T l -> va / lsize l = va0 / lsize l ->
  l < 3 -> pte_type (rdw m (T + 8 * pte_index va0 l)) <> PTE_TYPE_TABLE ->
  walk_from m root start va = (l, rdw m (T + 8 * pte_index va0 l)).
Proof.
  intros Hva0 Hr E Hl3 Ht. pose proof start_range as Hs. pose proof Hr as [Hl _].
  assert (reach root start m va T l) as Hr'.
  { apply (reach_ext root start Hs m m va0 va T l Hr); [done|]. intros l' Hl'.
    apply (index_coarse va va0 l l'); [lia|lia|done]. }
  rewrite (reach_walk root start Hs _ _ _ _ Hr'), walk_from_step by lia. cbv zeta.
  rewrite (index_coarse va va0 l l) by (lia || done).
  destruct (Z.ltb_spec l 3); [|lia]. cbn [andb]. by destruct (Z.eqb_spec (pte_type (rdw m (T + 8 * pte_index va0 l))) PTE_TYPE_TABLE).
Qed.

(** Where the descriptor is no pointer, there is no next table. *)
Lemma no_table m va0 T l :
  reach root start m va0 T l -> pte_type (rdw m (T + 8 * pte_index va0 l)) <> PTE_TYPE_TABLE ->
  forall T', ~ reach root start m va0 T' (l + 1).
Proof. intros Hr Ht T' Hr'. destruct Ht. apply (reach_table root start m va0 T' (l + 1)); [done|done|lia]. Qed.

Lemma fault_table G gd m va0 T l :
  let pte := T + 8 * pte_index va0 l in
  pg_ok G gd m -> 0 <= va0 < limit -> reach root start m va0 T l -> l < 3 ->
  pte_type (rdw m pte) = PTE_TYPE_FAULT ->
  create_table gd m = Panic NO_RAM \/
  exists m1 m2, create_table gd m = Ok (filled gd, m1, tlb_fillptr gd) /\
    set_pte_table pte (tlb_fillptr gd) m1 = Ok m2 /\ deepened gd m va0 l (filled gd) m2.
Proof.
  intros pte Hk Hva0 Hr Hl3 Ht. pose proof start_range as Hs. pose proof Hr as [Hl _].
  destruct (create_table_spec gd m (po_arena _ _ _ Hk)) as [Hp|(m1 & E1 & Hfit & HU & Hz)]; [by left|right].
  destruct (link_table G gd m m1 va0 T l Hk Hva0 Hr Hl3 Hfit HU) as (m2 & E2 & Hk2 & [Hrl Hr2] & Hother & Hsame & Hkept).
  { intros i Hi. rewrite Hz by done. split; [lia|]. by left. }
  exists m1, m2. split; [done|]. split; [done|]. eexists _, _. split; [exact Hk2|]. split; [exact Hr2|].
  assert (walks_below m va0 l m2) as Hw.
  { intros va Hva. destruct (decide (va / lsize l = va0 / lsize l)) as [E|Hne]; [right|left; by apply Hother].
    rewrite (Hsame va E). split; [done|]. split; [|done].
    by rewrite (walk_at m va0 T l va Hva0 Hr E ltac:(lia)) by (fold pte; by rewrite Ht). }
  split; [|split; [exact Hw|split; [apply Hkept; fold pte; by rewrite Ht|by right; split; [|apply (no_table m va0 T l Hr); fold pte; rewrite Ht]]]]. intros va Hva. unfold translate. destruct (decide (va / lsize l = va0 / lsize l)) as [E|Hne].
  - rewrite (Hsame va E), Hz by (apply pte_index_range; lia).
    rewrite (walk_at m va0 T l va Hva0 Hr E Hl3) by (fold pte; by rewrite Ht).
    fold pte. by rewrite (decode_invalid va l _ Ht), (decode_invalid va (l + 1) 0).
  - by rewrite (Hother va Hva Hne).
Qed.

(** The value of a descriptor of the table that replaces a block. *)
Definition split_value (old l i : Z) : Z := old + i * lsize (l + 1) + (if l + 1 =? 3 then 2 else 0).

Lemma lor_page v : v mod 4 = 1 -> Z.lor v 3 = v + 2.
Proof.
  intros H. change 3 with (Z.lor 1 2). rewrite Z.lor_assoc.
  assert (Z.lor (v - 1) (1 * 2 ^ 0) = v) as E.
  { rewrite (lor_field (v - 1) 1 0 2); [lia|lia|lia| |lia]. rewrite Z.pow_0_r, Z.div_1_r. change (2 ^ 2) with 4. dlia. }
  change (1 * 2 ^ 0) with 1 in E. assert (Z.lor v 1 = v) as ->.
  { rewrite <- E at 1. rewrite <- Z.lor_assoc. change (Z.lor 1 1) with 1. exact E. }
  change 2 with (1 * 2 ^ 1) at 1. rewrite (lor_field v 1 1 1); [done|lia|lia| |lia].
  change (2 ^ 1) with 2. dlia.
Qed.

Lemma split_value_field old l i :
  1 <= l <= 2 -> pte_type old = PTE_TYPE_BLOCK -> (old / 4096) mod lpages l = 0 -> 0 <= old < 2 ^ 64 -> 0 <= i < 512 ->
  Z.lor old (u64 (Z.shiftl i (level2shift (l + 1)))) = old + i * lsize (l + 1) /\
  (0 <= old + i * lsize (l + 1) /\ old + i * lsize (l + 1) + 2 < 2 ^ 64) /\ pte_type (old + i * lsize (l + 1)) = PTE_TYPE_BLOCK /\
  (l + 1 < 3 -> pte_type (split_value old l i) = PTE_TYPE_BLOCK /\ (split_value old l i / 4096) mod lpages (l + 1) = 0).
Proof.
  intros Hl Ht Ha Hr Hi. rewrite pte_type_mod in *. unfold PTE_TYPE_BLOCK, split_value in *.
  assert (l = 1 \/ l = 2) as [-> | ->] by lia.
  - change (1 + 1) with 2. change (2 =? 3) with false. cbv iota. change (level2shift 2) with 21. change (lsize 2) with (2 ^ 21). change (lpages 1) with (2 ^ 18) in Ha.
    rewrite Z.shiftl_mul_pow2, u64_small by lia.
    rewrite (lor_field old i 21 9); [|lia|lia| |lia]; [|dlia].
    rewrite pte_type_mod. change (lpages 2) with 512. repeat split; try dlia.
  - change (2 + 1) with 3. change (3 =? 3) with true. cbv iota. change (level2shift 3) with 12. change (lsize 3) with 4096. change (lpages 2) with 512 in Ha.
    rewrite Z.shiftl_mul_pow2, u64_small by lia.
    rewrite (lor_field old i 12 9); [|lia|lia|exact Ha|lia].
    rewrite pte_type_mod. repeat split; try dlia.
Qed.

Lemma split_loop m N old l :
  1 <= l <= 2 -> pte_type old = PTE_TYPE_BLOCK -> (old / 4096) mod lpages l = 0 -> 0 <= old < 2 ^ 64 ->
  mapped m N 4096 ->
  returns (while (S (Z.to_nat MAX_PTE_ENTRIES)) (fun '(i, m) =>
      if i <? MAX_PTE_ENTRIES then
        let! m := store64 m (N + 8 * i) (Z.lor old (u64 (Z.shiftl i (level2shift (l + 1))))) in
        let! m :=
          if l + 1 =? 3 then
            let! v := load64 m (N + 8 * i) in store64 m (N + 8 * i) (Z.lor v PTE_TYPE_TABLE)
          else Ok m in
        cont (i + 1, m)
      else brk m) (0, m))
    (fun m' => unchanged (span_of N 4096) m m' /\ forall i, 0 <= i < 512 -> rdw m' (N + 8 * i) = split_value old l i).
Proof.
  intros Hl Ht Ha Hr Hm. change MAX_PTE_ENTRIES with 512.
  apply (returns_while (fun '(i, m1) => 0 <= i <= 512 /\ unchanged (span_of N 4096) m m1 /\
           forall j, 0 <= j < i -> rdw m1 (N + 8 * j) = split_value old l j) (fun '(i, _) => Z.to_nat (512 - i)));
    [|split; [lia|split; [apply unchanged_refl|intros; lia]]|lia].
  intros [i m1] (Hi & HU & HE). destruct (Z.ltb_spec i 512); [|apply returns_ok; split; [done|intros j Hj; apply HE; lia]].
  destruct (split_value_field old l i Hl Ht Ha Hr ltac:(lia)) as (-> & [Hrange1 Hrange2] & Htype & _).
  assert (mapped m1 (N + 8 * i) 8) as Hm1 by (eapply unchanged_mapped; [exact HU|]; eapply mapped_sub; [exact Hm|lia|lia]).
  eapply returns_bind; [by apply store64_spec|]. intros m2 [U2 E2].
  eapply (returns_bind _ _ (fun m3 => unchanged (span_of (N + 8 * i) 8) m1 m3 /\ rdw m3 (N + 8 * i) = split_value old l i)).
  - rewrite Z.mod_small in E2 by lia. unfold split_value in *. destruct (Z.eqb_spec (l + 1) 3).
    + assert (mapped m2 (N + 8 * i) 8) as Hm2 by by eapply unchanged_mapped.
      rewrite load64_rdw by done. cbn [obind]. rewrite E2. unfold PTE_TYPE_TABLE.
      rewrite lor_page by (rewrite <- pte_type_mod; exact Htype).
      eapply returns_mono; [by apply store64_spec|]. intros m3 [U3 E3]. rewrite Z.mod_small in E3 by lia.
      split; [by eapply unchanged_trans|done].
    + apply returns_ok. split; [done|]. rewrite E2. lia.
  - intros m3 [U3 E3]. apply returns_ok. split; [|lia]. split; [lia|]. split.
    + eapply unchanged_trans; [exact HU|]. eapply unchanged_mono; [exact U3|]. unfold span_of. intros; lia.
    + intros j Hj. destruct (decide (j = i)) as [->|]; [done|].
      rewrite <- (HE j) by lia. eapply (rdn_unchanged 8); [exact U3|]. apply apart_span. lia.
Qed.

Lemma split_table G gd m va0 T l :
  let pte := T + 8 * pte_index va0 l in
  pg_ok G gd m -> 0 <= va0 < limit -> reach root start m va0 T l -> 1 <= l < 3 ->
  pte_type (rdw m pte) = PTE_TYPE_BLOCK ->
  create_table gd m = Panic NO_RAM /\ split_block pte l gd m = Panic NO_RAM \/
  exists m2, split_block pte l gd m = Ok (filled gd, m2) /\ deepened gd m va0 l (filled gd) m2.
Proof.
  intros pte Hk Hva0 Hr Hl3 Ht. pose proof start_range as Hs. pose proof Hr as [Hl _].
  assert (G !! T = Some (l, va0 - va0 mod (512 * lsize l))) as HGT by (eapply reach_G; [done|apply (po_inv _ _ _ Hk)|done|done]).
  pose proof (pi_entry _ _ _ _ _ (po_inv _ _ _ Hk) _ _ _ (pte_index va0 l) HGT (pte_index_range va0 l ltac:(lia)) ltac:(lia)) as He.
  cbv zeta in He. fold pte in He. rewrite Ht in He. destruct He as [E|[[E _]|(_ & _ & Ha & Hrange)]]; [done|done|].
  unfold split_block. rewrite load64_rdw by (by eapply reach_mapped). cbn [obind]. rewrite Ht.
  change (negb (PTE_TYPE_BLOCK =? PTE_TYPE_BLOCK)) with false. cbv iota.
  destruct (create_table_spec gd m (po_arena _ _ _ Hk)) as [->|(mz & -> & Hfit & HU0 & _)]; [left; by split|right].
  cbn [obind]. fold (filled gd).
  destruct (po_arena _ _ _ Hk) as [_ [Hf1 _] _ Hm _ _].
  destruct (split_loop mz (tlb_fillptr gd) (rdw m pte) l) as (m1 & -> & HU1 & HE); [lia|done|done|done| |].
  { eapply unchanged_mapped; [exact HU0|]. eapply mapped_sub; [exact Hm|lia|lia]. }
  cbn [obind].
  destruct (link_table G gd m m1 va0 T l Hk Hva0 Hr ltac:(lia) Hfit) as (m2 & E2 & Hk2 & [Hrl Hr2] & Hother & Hsame & Hkept).
  { by eapply unchanged_trans. }
  { intros i Hi. rewrite HE by done. split.
    { destruct (split_value_field (rdw m pte) l i ltac:(lia) Ht Ha Hrange Hi) as (_ & R & _). unfold split_value. case_cmp; lia. }
    intros Hlt. right.
    destruct (split_value_field (rdw m pte) l i ltac:(lia) Ht Ha Hrange Hi) as (_ & R & _ & Hb).
    destruct (Hb Hlt) as [B1 B2]. split; [done|]. split; [lia|]. split; [exact B2|]. unfold split_value. case_cmp; lia. }
  fold pte in E2. rewrite E2. cbn [obind]. exists m2. split; [done|]. eexists _, _. split; [exact Hk2|]. split; [exact Hr2|].
  assert (walks_below m va0 l m2) as Hw.
  { intros va Hva. destruct (decide (va / lsize l = va0 / lsize l)) as [E|Hne]; [right|left; by apply Hother].
    rewrite (Hsame va E). split; [done|]. split; [|done].
    by rewrite (walk_at m va0 T l va Hva0 Hr E ltac:(lia)) by (fold pte; by rewrite Ht). }
  split; [|split; [exact Hw|split; [apply Hkept; fold pte; by rewrite Ht|by right; split; [|apply (no_table m va0 T l Hr); fold pte; rewrite Ht]]]]. intros va Hva. unfold translate. destruct (decide (va / lsize l = va0 / lsize l)) as [E|Hne].
  - rewrite (Hsame va E), HE by (apply pte_index_range; lia).
    rewrite (walk_at m va0 T l va Hva0 Hr E ltac:(lia)) by (fold pte; by rewrite Ht). fold pte.
    apply decode_split; [lia|done|done].
  - by rewrite (Hother va Hva Hne).
Qed.
End map.
