(* ===== verification/PgSetup.v ===== *)
(** * Translation tables: correctness of the construction

    [setup_pgtables] builds tables whose translation is the memory map. *)

From S2P Require Import Prelude CMem Str StrFacts StrSafe Console Words PgTable PgWalk PgMap.

Local Open Scope Z_scope.
Local Open Scope c_scope.

(** ** Attributes *)

Definition block_attrs (r : mm_region) : Z := Z.lor (Z.lor (attrs r) PTE_TYPE_BLOCK) PTE_BLOCK_AF.

(** Attributes as [add_map] uses them: type block, no address bits. *)
Record attrs_ok (x : Z) : Prop := {
  ao_addr : pte_addr x = 0;
  ao_type : x mod 4 = 1;
  ao_range : 0 <= x < 2 ^ 64
}.

Lemma block_attrs_ok r :
  pte_addr (attrs r) = 0 -> pte_type (attrs r) = 0 -> 0 <= attrs r < 2 ^ 64 -> attrs_ok (block_attrs r).
Proof.
  intros Ha Ht Hr. unfold block_attrs. split.
  - rewrite <- table_addr_mask in *. by rewrite !Z.land_lor_distr_l, Ha.
  - rewrite <- pte_type_mod. unfold pte_type in *. by rewrite !Z.land_lor_distr_l, Ht.
  - change (2 ^ 64) with (2 ^ 64). apply lor_word; [lia|apply lor_word; [lia|lia|done]|done].
Qed.

(** The descriptor written for a block or a page. *)
Definition leaf_value (phys x l : Z) : Z := phys + x + (if l =? 3 then 2 else 0).

Lemma leaf_value_lor phys x l :
  attrs_ok x -> 0 <= phys < 2 ^ 48 -> phys mod 4096 = 0 ->
  (if l =? 3 then Z.lor (Z.lor phys x) PTE_TYPE_PAGE else Z.lor phys x) = leaf_value phys x l.
Proof.
  intros [H1 H2 H3] Hp Hm. unfold leaf_value.
  assert (Z.lor phys x = phys + x) as ->.
  { rewrite Z.lor_comm. replace phys with (phys / 4096 * 2 ^ 12) by dlia.
    rewrite (lor_field x (phys / 4096) 12 36); [lia|lia|lia| |dlia].
    unfold pte_addr in H1. change (2 ^ 12) with 4096. lia. }
  case_cmp; [|lia]. unfold PTE_TYPE_PAGE. rewrite lor_page; [done|dlia].
Qed.

Lemma leaf_value_mk phys x l :
  attrs_ok x -> phys mod 4096 = 0 ->
  leaf_value phys x l = mkpte (x / 2 ^ 48) (phys / 4096) (x mod 4096 + (if l =? 3 then 2 else 0)).
Proof.
  intros [H1 H2 H3] Hm. unfold leaf_value, mkpte. rewrite (mkpte_eta x) at 1. unfold mkpte, pte_addr in *.
  replace ((x / 4096) mod 2 ^ 36) with 0 by lia. dlia.
Qed.

Section setup.
Context (mem_map : list mm_region) (root : Z) (o : origin).
Local Abbreviation start := (start_level mem_map).
Local Abbreviation limit := (va_limit start).
Local Abbreviation pg_ok := (pg_ok mem_map root o).
Local Abbreviation translation := (fun m va => translate start m root va).

(** The translation after a range has been mapped. *)
Definition mapped_to (virt phys size x : Z) (m m' : mem) : Prop :=
  forall va, 0 <= va < limit -> translation m' va =
    if decide (virt <= va < virt + size) then Some (phys + (va - virt), pte_attrs x) else translation m va.

Lemma in_block va virt l : 1 <= l <= 3 -> virt mod lsize l = 0 ->
  va / lsize l = virt / lsize l <-> virt <= va < virt + lsize l.
Proof.
  intros Hl Hv. pose proof (lsize_pos l ltac:(lia)) as Hp.
  pose proof (Z.div_mod va (lsize l) ltac:(lia)). pose proof (Z.div_mod virt (lsize l) ltac:(lia)) as E. rewrite Hv in E.
  pose proof (Z.mod_pos_bound va (lsize l) Hp). split; [intros Ed; rewrite Ed in *; lia|]. intros Hin.
  assert (va / lsize l < virt / lsize l + 1) by nia. assert (virt / lsize l < va / lsize l + 1) by nia. lia.
Qed.

Lemma leaf_write G gd m virt phys x T l :
  pg_ok G gd m -> 0 <= virt < limit -> reach root start m virt T l -> 1 <= l <= 3 -> attrs_ok x ->
  virt mod lsize l = 0 -> phys mod lsize l = 0 -> 0 <= phys < 2 ^ 48 ->
  returns (store64 m (T + 8 * pte_index virt l) (leaf_value phys x l)) (fun m' =>
    pg_ok G gd m' /\ mapped_to virt phys (lsize l) x m m').
Proof.
  intros Hk Hva Hr Hl Hx Hv Hp Hpr. pose proof (start_range mem_map) as Hs.
  destruct (lpages_eq l Hl) as (EL & HLp & Hdiv).
  assert (phys mod 4096 = 0) as Hp4.
  { rewrite EL in Hp. apply Z.mod_divide; [lia|]. apply Z.mod_divide in Hp; [|lia]. etransitivity; [|exact Hp]. by exists (lpages l). }
  assert ((phys / 4096) mod lpages l = 0) as Hpl.
  { rewrite EL in Hp. apply Z.mod_divide in Hp as [q Hq]; [|lia]. rewrite Hq. replace (q * (lpages l * 4096)) with (q * lpages l * 4096) by lia.
    rewrite Z_div_mult by lia. apply Z_mod_mult. }
  assert (0 <= phys / 4096 < 2 ^ 36) as Hpa by dlia.
  pose proof (leaf_value_mk phys x l Hx Hp4) as Emk. pose proof Hx as [X1 X2 X3].
  set (hi := x / 2 ^ 48) in *. set (low := x mod 4096 + (if l =? 3 then 2 else 0)) in *.
  assert (0 <= hi < 2 ^ 16) as Hhi by (unfold hi; dlia).
  assert (0 <= low < 4096 /\ low mod 4 = (if l =? 3 then 3 else 1) /\ low / 4 = x mod 4096 / 4) as (Hlow & Hlt & Hl4).
  { unfold low. clear -X2. case_cmp; repeat split; dlia. }
  assert (valid_leaf l low) as Hvl.
  { unfold valid_leaf. rewrite Hlt. destruct (Z.eqb_spec l 3); [by left|right; split; [lia|done]]. }
  eapply returns_mono; [apply store64_spec; by eapply reach_mapped|]. intros m' [HU E].
  rewrite Z.mod_small in E by (rewrite Emk; unfold mkpte; lia).
  pose proof Hk as [HI HA]. split.
  - pose proof (pte_index_range virt l ltac:(lia)) as Hi. destruct (po_fill _ _ _ _ HA) as [Hf _].
    assert (G !! T = Some (l, virt - virt mod (512 * lsize l))) as HGT by by eapply reach_G.
    destruct (pi_table _ _ _ _ _ HI _ _ _ HGT) as (_ & T1 & T2 & _).
    split; [|eapply arena_unchanged; [exact HA|exact HU|unfold span_of; intros; lia]].
    eapply (store_inv root start Hs G _ m m' virt T l HI Hva Hr HU); [done|lia|congruence|rewrite E, Emk; unfold mkpte; lia|].
    intros Hlt3. cbv zeta. rewrite E, Emk. right; right. rewrite mkpte_type, Hlt.
    destruct (Z.eqb_spec l 3); [lia|]. split; [done|]. split; [lia|]. split; [|unfold mkpte; lia].
    fold (lpages l). unfold mkpte.
    replace (hi * 2 ^ 48 + phys / 4096 * 4096 + low) with (low + (phys / 4096 + hi * 2 ^ 36) * 4096) by lia.
    rewrite Z_div_plus_full, (Z.div_small low), Z.add_0_l by lia. destruct Hdiv as [q Hq].
    assert (hi * 2 ^ 36 = hi * 2 ^ 18 * q * lpages l) as -> by (rewrite <- Z.mul_assoc, <- Hq; lia).
    by rewrite Z_mod_plus_full.
  - intros va Hva'. unfold translate. destruct (decide (virt <= va < virt + lsize l)) as [Hin|Hout].
    + apply (in_block va virt l Hl Hv) in Hin.
      rewrite (store_walk root start Hs G _ m m' virt T l HI Hva Hr HU va Hin). cbv zeta. rewrite E, Emk.
      replace ((l <? 3) && (pte_type (mkpte hi (phys / 4096) low) =? PTE_TYPE_TABLE)) with false.
      2:{ rewrite mkpte_type, Hlt. destruct (Z.ltb_spec l 3); [|done]. by destruct (Z.eqb_spec l 3); [lia|]. }
      rewrite decode_leaf by done. apply (in_block va virt l Hl Hv) in Hin.
      apply (f_equal Some), (f_equal2 pair);
        [|unfold pte_attrs; apply (f_equal2 pair); [rewrite Hl4; dlia|done]].
      assert (va mod lsize l = va - virt) as ->.
      { pose proof (lsize_pos l ltac:(lia)) as HL. pose proof (Z.div_mod virt (lsize l) ltac:(lia)) as Ed. rewrite Hv in Ed.
        replace va with ((va - virt) + virt / lsize l * lsize l) at 1 by lia. rewrite Z_mod_plus_full. apply Z.mod_small. lia. }
      dlia.
    + rewrite (store_other root start Hs G _ m m' virt T l HI Hva Hr HU va Hva'); [done|].
      by rewrite (in_block va virt l Hl Hv).
Qed.

(** What remains to be mapped. *)
Record todo (virt phys size x : Z) : Prop := {
  td_virt : 0 <= virt /\ virt mod 4096 = 0;
  td_size : 0 <= size /\ size mod 4096 = 0 /\ virt + size <= limit;
  td_phys : 0 <= phys /\ phys + size <= 2 ^ 48 /\ (phys - virt) mod 2 ^ 30 = 0;
  td_attrs : attrs_ok x
}.

Lemma lsize_div l : 1 <= l <= 3 -> (lsize l | 2 ^ 30) /\ (4096 | lsize l).
Proof.
  intros Hl. assert (l = 1 \/ l = 2 \/ l = 3) as [->|[->| ->]] by lia; split.
  - by exists 1.
  - by exists (2 ^ 18).
  - by exists 512.
  - by exists 512.
  - by exists (2 ^ 18).
  - by exists 1.
Qed.

Lemma phys_aligned virt phys l :
  1 <= l <= 3 -> (phys - virt) mod 2 ^ 30 = 0 -> virt mod lsize l = 0 -> phys mod lsize l = 0.
Proof.
  intros Hl Hd Hv. pose proof (lsize_pos l ltac:(lia)). destruct (lsize_div l Hl) as [Hdiv _].
  apply Z.mod_divide in Hd, Hv; [|lia|lia]. apply Z.mod_divide; [lia|].
  replace phys with ((phys - virt) + virt) by lia. apply Z.divide_add_r; [|done]. by etransitivity.
Qed.

Lemma shiftl_lsize l : l <= 3 -> Z.shiftl 1 (level2shift l) = lsize l.
Proof. intros Hl. unfold lsize. rewrite Z.shiftl_mul_pow2 by (unfold level2shift; lia). lia. Qed.

(** The part of [add_map_level] that prepares the next level. *)
Lemma add_map_level_deeper G gd m virt T l :
  let pte := T + 8 * pte_index virt l in
  pg_ok G gd m -> 0 <= virt < limit -> reach root start m virt T l -> 1 <= l <= 3 -> l < 3 ->
  returns_or NO_RAM
    (let! v := load64 m pte in
     if pte_type v =? PTE_TYPE_FAULT then
       let! '(gd, m, new_table) := create_table gd m in
       let! m := set_pte_table pte new_table m in
       Ok (gd, m, false)
     else if pte_type v =? PTE_TYPE_BLOCK then
       let! '(gd, m) := split_block pte l gd m in
       Ok (gd, m, false)
     else Ok (gd, m, false))
    (fun '(gd', m', fits) => fits = false /\ deepened mem_map root o gd m virt l gd' m').
Proof.
  intros pte Hk Hva Hr Hl Hl3.
  pose proof (reach_mapped mem_map root o _ _ _ _ _ _ Hk Hva Hr) as Hm. fold pte in Hm. rewrite (load64_rdw _ _ Hm). cbn [obind].
  destruct (Z.eqb_spec (pte_type (rdw m pte)) PTE_TYPE_FAULT) as [Et|Et].
  { destruct (fault_table mem_map root o G gd m virt T l Hk Hva Hr Hl3 Et) as [->|(m1 & m2 & -> & E2 & Hd)]; [by left|].
    cbn [obind]. fold pte in E2. rewrite E2. by apply returns_or_ok. }
  destruct (Z.eqb_spec (pte_type (rdw m pte)) PTE_TYPE_BLOCK) as [Eb|Eb].
  { destruct (split_table mem_map root o G gd m virt T l Hk Hva Hr ltac:(lia) Eb) as [[_ E2]|(m2 & E2 & Hd)]; fold pte in E2; rewrite E2;
      [by left|]. by apply returns_or_ok. }
  apply returns_or_ok. split; [done|].
  assert (G !! T = Some (l, virt - virt mod (512 * lsize l))) as HGT
    by (eapply reach_G; [apply start_range|apply (po_inv _ _ _ _ _ _ Hk)|done|done]).
  pose proof (pi_entry _ _ _ _ _ (po_inv _ _ _ _ _ _ Hk) _ _ _ _ HGT (pte_index_range virt l ltac:(lia)) Hl3) as He.
  cbv zeta in He. fold pte in He. destruct He as [E|[[E _]|[E _]]]; [done| |done].
  exists G, (pte_addr (rdw m pte)). split; [done|]. split; [by apply reach_next|]. split; [by intros va Hva'|]. split; [|split; [by intros ? ? ?|by left]].
  intros va Hva'. by left.
Qed.

(** One level of [add_map]. *)
Lemma add_map_level_spec G gd m virt phys size x T l :
  pg_ok G gd m -> todo virt phys size x -> 0 < size -> reach root start m virt T l -> 1 <= l <= 3 ->
  returns_or NO_RAM (add_map_level mem_map virt phys size x l gd m) (fun '(gd', m', fits) =>
    if fits : bool then (exists G', pg_ok G' gd' m') /\ lsize l <= size /\ mapped_to virt phys (lsize l) x m m'
    else l < 3 /\ deepened mem_map root o gd m virt l gd' m').
Proof.
  intros Hk [(V1 & V2) (S1 & S2 & S3) (P1 & P2 & P3) Hx] Hsz Hr Hl.
  assert (0 <= virt < limit) as Hva by lia. unfold add_map_level.
  rewrite (find_pte_reach mem_map root o G gd m virt T l Hk Hva Hr). cbn [obind].
  pose proof (reach_mapped mem_map root o _ _ _ _ _ _ Hk Hva Hr) as Hm.
  assert (G !! T = Some (l, virt - virt mod (512 * lsize l))) as HGT
    by (eapply reach_G; [apply start_range|apply (po_inv _ _ _ _ _ _ Hk)|done|done]).
  destruct (pi_table _ _ _ _ _ (po_inv _ _ _ _ _ _ Hk) _ _ _ HGT) as (_ & HT & _).
  destruct (po_root _ _ _ _ (po_arena _ _ _ _ _ _ Hk)) as (_ & Hroot & _). pose proof (pte_index_range virt l ltac:(lia)) as Hi.
  destruct (Z.eqb_spec (T + 8 * pte_index virt l) NULL); [unfold NULL in *; lia|].
  rewrite shiftl_lsize by lia. unfold lsize at 2. rewrite land_mask by (unfold level2shift; lia). fold (lsize l).
  destruct (Z.leb_spec (lsize l) size); cbn [andb]; [destruct (Z.eqb_spec (virt mod lsize l) 0) as [Ea|Ea]|].
  - right. pose proof (phys_aligned virt phys l Hl P3 Ea) as Hpa.
    assert (phys mod 4096 = 0) as Hp4.
    { apply Z.mod_divide; [lia|]. apply Z.mod_divide in Hpa; [|pose proof (lsize_pos l ltac:(lia)); lia].
      etransitivity; [apply lsize_div; exact Hl|exact Hpa]. }
    pose proof (leaf_value_lor phys x l Hx ltac:(lia) Hp4) as Ev.
    destruct (leaf_write G gd m virt phys x T l Hk Hva Hr Hl Hx Ea Hpa ltac:(lia)) as (m' & E & Hk' & Hmap).
    exists (gd, m', true). split; [|split; [by exists G|done]].
    rewrite <- Ev in E. destruct (l =? 3); rewrite E; done.
  - assert (l < 3) as Hl3 by (destruct (decide (l = 3)) as [->|]; [change (lsize 3) with 4096 in Ea; lia|lia]).
    eapply returns_or_mono; [exact (add_map_level_deeper G gd m virt T l Hk Hva Hr Hl Hl3)|].
    intros [[gd' m'] fits] [-> Hd]. done.
  - assert (l < 3) as Hl3 by (destruct (decide (l = 3)) as [->|]; [change (lsize 3) with 4096 in *; dlia|lia]).
    eapply returns_or_mono; [exact (add_map_level_deeper G gd m virt T l Hk Hva Hr Hl Hl3)|].
    intros [[gd' m'] fits] [-> Hd]. done.
Qed.

(** The level 0 table, where there is one. *)
Lemma add_map_root_spec G gd m virt :
  pg_ok G gd m -> 0 <= virt < limit ->
  returns_or NO_RAM
    (add_map_root mem_map virt gd m)
    (fun '(gd1, m1) => exists G1 T1, pg_ok G1 gd1 m1 /\
       reach root start m1 virt T1 1 /\ same_translation mem_map root m m1).
Proof.
  intros Hk Hva. unfold add_map_root. pose proof (start_range mem_map) as Hs.
  assert (reach root start m virt root start) as Hr by by apply reach_root.
  destruct (decide (start = 1)) as [E1|E1].
  { rewrite find_pte_below by lia. cbn [obind]. apply returns_or_ok. exists G, root. split; [done|].
    split; [|by intros va]. by rewrite E1 in Hr at 2. }
  assert (start = 0) as E0 by lia. rewrite E0 in Hr at 2.
  rewrite (find_pte_reach mem_map root o G gd m virt root 0 Hk Hva Hr). cbn [obind].
  pose proof (reach_mapped mem_map root o _ _ _ _ _ _ Hk Hva Hr) as Hm.
  destruct (po_root _ _ _ _ (po_arena _ _ _ _ _ _ Hk)) as (_ & Hroot & _). pose proof (pte_index_range virt 0 ltac:(lia)) as Hi.
  set (pte := root + 8 * pte_index virt 0) in *.
  destruct (Z.eqb_spec pte NULL); [unfold pte, NULL in *; lia|]. rewrite (load64_rdw _ _ Hm). cbn [obind].
  destruct (Z.eqb_spec (pte_type (rdw m pte)) PTE_TYPE_FAULT) as [Et|Et].
  { destruct (fault_table mem_map root o G gd m virt root 0 Hk Hva Hr ltac:(lia) Et) as [->|(m1 & m2 & -> & E2 & Hd)]; [by left|].
    cbn [obind]. fold pte in E2. rewrite E2. cbn [obind]. apply returns_or_ok.
    destruct Hd as (G' & T' & H1 & H2 & H3 & _). by exists G', T'. }
  apply returns_or_ok.
  assert (G !! root = Some (0, virt - virt mod (512 * lsize 0))) as HGT
    by (eapply reach_G; [exact Hs|apply (po_inv _ _ _ _ _ _ Hk)|done|done]).
  pose proof (pi_entry _ _ _ _ _ (po_inv _ _ _ _ _ _ Hk) _ _ _ _ HGT Hi ltac:(lia)) as He.
  cbv zeta in He. fold pte in He. destruct He as [E|[[E _]|(_ & E & _)]]; [done| |lia].
  exists G, (pte_addr (rdw m pte)). split; [done|]. split; [|by intros va].
  change 1 with (0 + 1). by apply reach_next.
Qed.

(** One block. *)
Lemma add_map_step_spec G gd m virt phys size x :
  pg_ok G gd m -> todo virt phys size x -> 0 < size ->
  returns_or NO_RAM (add_map_step mem_map virt phys size x gd m) (fun '(gd', m', bs) =>
    (exists G', pg_ok G' gd' m') /\ 4096 <= bs <= size /\ (4096 | bs) /\ mapped_to virt phys bs x m m').
Proof.
  intros Hk Htd Hsz. pose proof (start_range mem_map) as Hs. pose proof Htd as [(V1 & V2) (S1 & S2 & S3) _ _].
  assert (0 <= virt < limit) as Hva by lia. unfold add_map_step.
  eapply (returns_or_bind _ _ _ (fun '(gd1, m1) => exists G1 T1, pg_ok G1 gd1 m1 /\
            reach root start m1 virt T1 1 /\ same_translation mem_map root m m1)).
  - exact (add_map_root_spec G gd m virt Hk Hva).
  - intros [gd1 m1] (G1 & T1 & Hk1 & Hr1 & Hsame).
    apply (returns_or_while _ (fun '(l, gd2, m2) => 1 <= l <= 3 /\ exists G2 T2, pg_ok G2 gd2 m2 /\
             reach root start m2 virt T2 l /\ same_translation mem_map root m m2) (fun '(l, _, _) => Z.to_nat (4 - l)));
      [|split; [lia|eauto]|lia].
    intros [[l gd2] m2] (Hl & G2 & T2 & Hk2 & Hr2 & Hsame2). destruct (Z.ltb_spec l 4); [|lia].
    eapply returns_or_bind; [exact (add_map_level_spec G2 gd2 m2 virt phys size x T2 l Hk2 Htd Hsz Hr2 Hl)|].
    intros [[gd3 m3] [|]].
    + intros (HG & Hfit & Hmap). apply returns_or_ok. rewrite shiftl_lsize by lia.
      split; [done|]. split; [pose proof (lsize_cases l ltac:(lia)); lia|].
      split; [by apply lsize_div|]. intros va Hva'. rewrite (Hmap va Hva'). case_decide; [done|by apply Hsame2].
    + intros (Hl3 & G3 & T3 & Hk3 & Hr3 & Hsame3 & _). apply returns_or_ok. split; [|lia]. split; [lia|].
      exists G3, T3. split; [done|]. split; [done|]. intros va Hva'. by rewrite Hsame3, Hsame2.
Qed.

(** One region. *)
Lemma add_map_spec G gd m r :
  pg_ok G gd m -> todo (virt r) (phys r) (mm_size r) (block_attrs r) ->
  returns_or NO_RAM (add_map mem_map r gd m) (fun '(gd', m') =>
    (exists G', pg_ok G' gd' m') /\ mapped_to (virt r) (phys r) (mm_size r) (block_attrs r) m m').
Proof.
  intros Hk Htd. unfold add_map. fold (block_attrs r).
  pose proof Htd as [(V1 & V2) (S1 & S2 & S3) (P1 & P2 & P3) Hx].
  assert (limit <= 2 ^ 48) as Hlim.
  { unfold va_limit. pose proof (start_range mem_map). destruct (lsize_cases start ltac:(lia)) as [[? ->]|[[? ->]|[[? ?]|[? ?]]]]; lia. }
  apply (returns_or_while _ (fun '(v, p, s, gd1, m1) => todo v p s (block_attrs r) /\ v + s = virt r + mm_size r /\
           virt r <= v /\ p - v = phys r - virt r /\ (exists G1, pg_ok G1 gd1 m1) /\
           mapped_to (virt r) (phys r) (v - virt r) (block_attrs r) m m1)
         (fun '(_, _, s, _, _) => Z.to_nat (s / 4096))).
  - intros [[[[v p] s] gd1] m1] (Htd1 & Ev & Hv & Ep & (G1 & Hk1) & Hmap).
    destruct (Z.eqb_spec s 0) as [->|Hs0].
    { apply returns_or_ok. split; [eauto|]. replace (mm_size r) with (v - virt r) by lia. exact Hmap. }
    pose proof Htd1 as [(A1 & A2) (A3 & A4 & A5) (A6 & A7 & A8) _].
    eapply returns_or_bind; [apply (add_map_step_spec G1 gd1 m1 v p s (block_attrs r) Hk1 Htd1); lia|].
    intros [[gd2 m2] bs] (HG2 & Hbs & Hdiv & Hmap2). apply returns_or_ok.
    assert (bs mod 4096 = 0) as Hbm by (apply Z.mod_divide; [lia|done]).
    rewrite !u64_small by lia. split; [|dlia].
    split; [split; [split; [lia|dlia]|split; [lia|split; [dlia|lia]]|split; [lia|split; [lia|]]|done]|].
    { by replace (p + bs - (v + bs)) with (p - v) by lia. }
    split; [lia|]. split; [lia|]. split; [lia|]. split; [done|].
    intros va Hva. rewrite (Hmap2 va Hva). destruct (decide (v <= va < v + bs)).
    + rewrite decide_True by lia. do 2 f_equal. lia.
    + rewrite (Hmap va Hva). destruct (decide (virt r <= va < virt r + (v - virt r))).
      * by rewrite decide_True by lia.
      * by rewrite decide_False by lia.
  - split; [done|]. split; [done|]. split; [lia|]. split; [done|]. split; [eauto|].
    intros va Hva. by rewrite decide_False by lia.
  - lia.
Qed.

(** The translation the memory map asks for: the last region wins. *)
Definition map_translate (l : list mm_region) (va : Z) : option (Z * (Z * Z)) :=
  fold_left (fun t r => if decide (virt r <= va < virt r + mm_size r)
                        then Some (phys r + (va - virt r), pte_attrs (block_attrs r)) else t) l None.

Lemma map_translate_snoc l r va :
  map_translate (l ++ [r]) va =
    if decide (virt r <= va < virt r + mm_size r) then Some (phys r + (va - virt r), pte_attrs (block_attrs r))
    else map_translate l va.
Proof. unfold map_translate. by rewrite fold_left_app. Qed.

Lemma add_maps_spec done l G gd m :
  pg_ok G gd m -> Forall (fun r => todo (virt r) (phys r) (mm_size r) (block_attrs r)) l ->
  (forall va, 0 <= va < limit -> translation m va = map_translate done va) ->
  returns_or NO_RAM (add_maps mem_map l gd m) (fun '(gd', m') =>
    (exists G', pg_ok G' gd' m') /\ forall va, 0 <= va < limit -> translation m' va = map_translate (done ++ l) va).
Proof.
  revert done G gd m. induction l as [|r l IH]; intros dn G gd m Hk HF HT; simpl.
  - apply returns_or_ok. rewrite app_nil_r. eauto.
  - apply list.Forall_cons in HF as [Hr HF].
    eapply returns_or_bind; [by apply (add_map_spec G)|]. intros [gd1 m1] ((G1 & Hk1) & Hmap).
    replace (dn ++ r :: l) with ((dn ++ [r]) ++ l) by by rewrite <- app_assoc.
    apply (IH (dn ++ [r]) G1); [done|done|]. intros va Hva.
    rewrite (Hmap va Hva), map_translate_snoc. case_decide; [done|by apply HT].
Qed.
End setup.

(** ** The whole map *)

(** A region that [add_map] can map: everything page aligned, physical and
    virtual address congruent modulo 1 GB, attributes without address and type
    bits. *)
Record region_ok (limit : Z) (r : mm_region) : Prop := {
  ro_virt : 0 <= virt r /\ virt r mod 4096 = 0;
  ro_size : 0 <= mm_size r /\ mm_size r mod 4096 = 0 /\ virt r + mm_size r <= limit;
  ro_phys : 0 <= phys r /\ phys r + mm_size r <= 2 ^ 48 /\ (phys r - virt r) mod 2 ^ 30 = 0;
  ro_attrs : pte_addr (attrs r) = 0 /\ pte_type (attrs r) = 0 /\ 0 <= attrs r < 2 ^ 64
}.

Lemma region_todo mem_map r :
  region_ok (va_limit (start_level mem_map)) r ->
  todo mem_map (virt r) (phys r) (mm_size r) (block_attrs r).
Proof. intros [? ? ? (A & B & C)]. split; [done|done|done|by apply block_attrs_ok]. Qed.

Section whole.
Context (mem_map : list mm_region).
Local Abbreviation start := (start_level mem_map).
Local Abbreviation limit := (va_limit start).
Context (Hmap : Forall (region_ok limit) (active mem_map)).

(** The space for tables as the caller sets it up. *)
Record space (gd : arch_gd) (m : mem) : Prop := {
  sp_addr : 0 < tlb_addr gd /\ tlb_addr gd mod 4096 = 0;
  sp_fill : tlb_fillptr gd = tlb_addr gd;
  sp_size : 0 <= tlb_size gd /\ tlb_addr gd + tlb_size gd < 2 ^ 48;
  sp_mapped : mapped m (tlb_addr gd) (tlb_size gd)
}.

Lemma empty_table_inv root fill m :
  (forall i, 0 <= i < 512 -> rdw m (root + 8 * i) = 0) -> root mod 4096 = 0 -> root + 4096 <= fill ->
  pt_inv root start {[root := (start, 0)]} fill m.
Proof.
  intros Hz Hr Hf. pose proof (start_range mem_map) as Hs. split.
  - by rewrite lookup_singleton_eq.
  - intros T l b [-> [= <- <-]]%lookup_singleton_Some. split; [lia|]. split; [lia|]. done.
  - intros T l b i [-> _]%lookup_singleton_Some Hi _. left. by rewrite Hz.
  - intros T l b i [-> _]%lookup_singleton_Some Hi. rewrite Hz by done. lia.
Qed.

Lemma empty_table_translate root m va :
  (forall i, 0 <= i < 512 -> rdw m (root + 8 * i) = 0) -> translate start m root va = None.
Proof.
  intros Hz. pose proof (start_range mem_map) as Hs. unfold translate. rewrite walk_from_step by lia. cbv zeta.
  rewrite Hz by (apply pte_index_range; lia). change (pte_type 0 =? PTE_TYPE_TABLE) with false.
  rewrite andb_false_r. by apply decode_invalid.
Qed.

Lemma setup_pgtables_spec gd m :
  space gd m ->
  returns_or NO_RAM (setup_pgtables mem_map gd m) (fun '(gd', m') =>
    (exists G, pg_ok mem_map (tlb_addr gd) (Origin m (tlb_size gd) (tlb_emerg gd)) G gd' m') /\
    tlb_size gd' = tlb_size gd /\ tlb_emerg gd' = tlb_emerg gd /\ tlb_addr gd < tlb_fillptr gd' /\
    forall va, 0 <= va < limit -> translate start m' (tlb_addr gd) va = map_translate (active mem_map) va).
Proof.
  intros [(A1 & A2) Ef (S1 & S2) Hm]. unfold setup_pgtables. rewrite Ef.
  destruct (Z.eqb_spec (tlb_addr gd) 0); [lia|]. cbn [orb].
  set (o := Origin m (tlb_size gd) (tlb_emerg gd)).
  assert (arena (tlb_addr gd) o gd m) as Har.
  { split; [done|split; [lia|congruence]|done|done|apply unchanged_refl|done]. }
  destruct (create_table_spec _ _ gd m Har) as [->|(m1 & -> & Hfit & HU & Hz)]; [by left|].
  cbn [obind]. rewrite Ef in *.
  eapply returns_or_mono.
  { eapply (add_maps_spec mem_map (tlb_addr gd) o [] (active mem_map)).
    - split.
      + cbn [tlb_fillptr]. apply empty_table_inv; [exact Hz|done|lia].
      + destruct (arena_unchanged _ _ gd m m1 _ Har HU) as [B1 B2 B3 B4 B5 B6]; [unfold span_of; intros; lia|].
        split; cbn [tlb_addr tlb_fillptr tlb_size]; [done|split; [lia|dlia]|done|done|done|done].
    - eapply list.Forall_impl; [exact Hmap|]. apply region_todo.
    - intros va Hva. by apply empty_table_translate. }
  intros [gd' m'] ((G' & Hk') & HT). split; [by exists G'|]. pose proof Hk' as [HI' HA'].
  destruct (po_same _ _ _ _ HA') as [E1 E2]. split; [done|]. split; [done|]. split; [|exact HT].
  destruct (pi_table _ _ _ _ _ HI' _ _ _ (pi_root _ _ _ _ _ HI')) as (_ & _ & Hle & _). lia.
Qed.

(** Both copies of the tables. *)
Lemma setup_all_pgtables_spec gd m :
  0 < tlb_addr gd -> tlb_addr gd mod 4096 = 0 -> 0 <= tlb_size gd -> tlb_addr gd + tlb_size gd < 2 ^ 48 ->
  mapped m (tlb_addr gd) (tlb_size gd) ->
  returns_or NO_RAM (setup_all_pgtables mem_map gd m) (fun '(gd', m') =>
    tlb_addr gd' = tlb_addr gd /\ tlb_size gd' = tlb_size gd /\
    tlb_addr gd < tlb_emerg gd' < tlb_fillptr gd' /\ tlb_fillptr gd' <= tlb_addr gd + tlb_size gd /\
    unchanged (span_of (tlb_addr gd) (tlb_size gd)) m m' /\
    forall va, 0 <= va < limit ->
      translate start m' (tlb_addr gd') va = map_translate (active mem_map) va /\
      translate start m' (tlb_emerg gd') va = map_translate (active mem_map) va).
Proof.
  intros A1 A2 S1 S2 Hm. unfold setup_all_pgtables.
  eapply returns_or_bind; [apply setup_pgtables_spec; by split|].
  intros [gd1 m1] ((G1 & Hk1) & Es & Ee & Hgrow & HT1). cbn [tlb_addr tlb_size tlb_emerg] in *.
  pose proof Hk1 as [HI1 [(Ea & _ & _) (F1 & F2) _ Hm1 Hfr1 _]]. rewrite Ea, Es in *.
  rewrite (u64_small (tlb_fillptr gd1 - tlb_addr gd)), u64_small by lia.
  eapply returns_or_bind.
  { apply setup_pgtables_spec. split; cbn [tlb_addr tlb_size tlb_fillptr]; [split; [lia|done]|done|lia|].
    eapply mapped_sub; [exact Hm1|lia|lia]. }
  intros [gd2 m2] ((G2 & Hk2) & Es2 & Ee2 & Hgrow2 & HT2). cbn [tlb_addr tlb_size tlb_emerg tlb_fillptr] in *.
  pose proof Hk2 as [HI2 [(Ea2 & _ & _) (G3 & _) _ _ Hfr2 _]]. rewrite Es2 in *. cbn [og_mem] in *.
  assert (unchanged (fun x => tlb_fillptr gd1 <= x < tlb_addr gd + tlb_size gd1) m1 m2) as U2.
  { eapply unchanged_mono; [exact Hfr2|]. unfold span_of. rewrite Es. intros; lia. }
  destruct (fresh_frame _ _ _ G1 gd1 m1 m2 Hk1 U2) as (_ & _ & Hwalk).
  apply returns_or_ok. cbn [tlb_addr tlb_size tlb_emerg tlb_fillptr]. rewrite Ea2.
  split; [done|]. split; [done|]. split; [lia|]. split; [lia|]. split.
  - eapply unchanged_trans; [exact Hfr1|]. eapply unchanged_mono; [exact Hfr2|]. unfold span_of. intros; lia.
  - intros va Hva. split; [|by apply HT2]. rewrite <- HT1 by done. unfold translate. by rewrite Hwalk.
Qed.
End whole.
