(* ===== verification/PgCount.v ===== *)
(** * Translation tables: what [count_required_pts] counts

    [pts] lists the tables [count_required_pts] accounts for, each as its
    level and the first address it covers.  Every table that a region of the
    memory map needs is among them. *)

From S2P Require Import Prelude CMem Str StrFacts StrSafe Console Words PgTable PgWalk PgMap PgSetup.

Local Open Scope Z_scope.
Local Open Scope c_scope.

(** The start of the block of level [l] that contains [va]. *)
Definition block_base (va l : Z) : Z := va - va mod lsize l.

Lemma block_base_spec va l : l <= 3 ->
  (lsize l | block_base va l) /\ block_base va l <= va < block_base va l + lsize l.
Proof.
  intros Hl. pose proof (lsize_pos l Hl) as Hp. unfold block_base. split.
  - exists (va / lsize l). rewrite Z.mod_eq by lia. lia.
  - pose proof (Z.mod_pos_bound va (lsize l) Hp). lia.
Qed.

Lemma block_base_unique va l b : l <= 3 -> (lsize l | b) -> b <= va < b + lsize l -> b = block_base va l.
Proof.
  intros Hl [k ->] Hb. pose proof (lsize_pos l Hl) as Hp. unfold block_base.
  replace (va mod lsize l) with (va - k * lsize l); [lia|]. apply (Z.mod_unique va (lsize l) k (va - k * lsize l)); lia.
Qed.

Lemma block_base_eq va va' l : l <= 3 -> block_base va l = block_base va' l <-> va / lsize l = va' / lsize l.
Proof.
  intros Hl. pose proof (lsize_pos l Hl) as Hp. unfold block_base. rewrite !Z.mod_eq by lia. split; [|intros E; rewrite E; lia].
  intros E. nia.
Qed.

Lemma lsize_divide l l' : l <= l' -> l' <= 3 -> (lsize l' | lsize l).
Proof.
  intros H1 H2. unfold lsize. exists (2 ^ (9 * (l' - l))). rewrite <- Z.pow_add_r by (unfold level2shift; lia).
  f_equal. unfold level2shift. lia.
Qed.

(** A block inside a larger one. *)
Lemma block_nest B L A l :
  l <= L -> L <= 3 -> (lsize L | B) -> (lsize l | A) -> A <= B < A + lsize l -> B + lsize L <= A + lsize l.
Proof.
  intros H1 H2 [b ->] [a ->] HB. pose proof (lsize_pos L H2) as Hp. destruct (lsize_divide l L H1 H2) as [k Hk].
  rewrite Hk in *. assert (b < a * k + k) by nia. nia.
Qed.

(** ** The tables a region needs *)

(** [r] makes the block of level [L] at [B] a table: it begins or ends strictly
    inside; at level 0 and above there are no blocks. *)
Definition splits (r : mm_region) (L B : Z) : Prop :=
  let e := virt r + mm_size r in
  0 < mm_size r /\ virt r < B + lsize L /\ B < e /\ (L <= 0 \/ B < virt r \/ e < B + lsize L).

Lemma splits_up r L B l A :
  splits r L B -> l <= L -> L <= 3 -> (lsize L | B) -> (lsize l | A) -> A <= B < A + lsize l -> splits r l A.
Proof.
  intros (Hs & H1 & H2 & H3) Hl HL HB HA Hin. pose proof (block_nest B L A l Hl HL HB HA Hin).
  split; [done|]. split; [lia|]. split; [lia|]. lia.
Qed.

Lemma aligned_mod x l b : l <= 3 -> (lsize l | b) -> b < x < b + lsize l -> x mod lsize l <> 0.
Proof.
  intros Hl [k ->] Hx. pose proof (lsize_pos l Hl) as Hp. rewrite <- (Z.mod_unique x (lsize l) k (x - k * lsize l)); lia.
Qed.

Section count.
Context (mem_map : list mm_region).
Local Abbreviation start := (start_level mem_map).
Local Abbreviation limit := (va_limit start).
Context (Hmap : Forall (region_ok limit) (active mem_map)).

Lemma limit_48 : limit <= 2 ^ 48.
Proof.
  unfold va_limit. pose proof (start_range mem_map). assert (start = 0 \/ start = 1) as [-> | ->] by lia; vm_compute; congruence.
Qed.

Lemma region_bounds r : r ∈ active mem_map ->
  0 <= virt r /\ 0 <= mm_size r /\ virt r + mm_size r <= 2 ^ 48 /\ virt r mod 4096 = 0 /\ mm_size r mod 4096 = 0.
Proof.
  intros Hr. pose proof limit_48. apply (proj1 (list.Forall_forall _ _) Hmap) in Hr as [[] (? & ? & ?) _ _]. lia.
Qed.

(** Blocks as [count_required_pts] enumerates them. *)
Record cblock (A l : Z) : Prop := {
  cb_level : -1 <= l <= 3;
  cb_base : 0 <= A /\ (lsize l | A) /\ A + lsize l <= 2 ^ 48
}.

Lemma cblock_size A l : cblock A l ->
  u64 (Z.shiftl 1 (level2shift l)) = lsize l /\ u64 (A + u64 (Z.shiftl 1 (level2shift l))) = A + lsize l.
Proof.
  intros [Hl (H1 & _ & H2)]. rewrite shiftl_lsize by lia. pose proof (lsize_pos l ltac:(lia)) as Hp.
  rewrite !u64_small; try done; try lia.
Qed.

(** A region that splits the block makes it count. *)
Lemma pts_kind_level A l L t r :
  cblock A l -> L ⊆ active mem_map -> r ∈ L -> splits r l A -> pts_kind A l (A + lsize l) L t = PTE_LEVEL.
Proof.
  intros Hb HL Hr Hsp. pose proof Hb as [Hl (Hb1 & Hb2 & Hb3)]. pose proof (lsize_pos l ltac:(lia)) as Hp.
  destruct (cblock_size A l Hb) as [Es _]. revert t. induction L as [|r' L IH]; intros t; [by apply elem_of_nil in Hr|].
  cbn [pts_kind]. rewrite Es. destruct (region_bounds r' ltac:(set_solver)) as (B1 & B2 & B3 & _). rewrite u64_small by lia.
  unfold lsize at 2 4. rewrite !land_mask by (unfold level2shift; lia). fold (lsize l).
  apply elem_of_cons in Hr as [->|Hr].
  - destruct Hsp as (H0 & H1 & H2 & H3).
    destruct (Z.leb_spec (Z.max A (virt r')) (Z.min (A + lsize l) (virt r' + mm_size r'))); [|lia].
    destruct (Z.eqb_spec (Z.max A (virt r') mod lsize l) 0) as [E1|]; [|done]. cbn [negb orb].
    destruct (Z.eqb_spec (Z.min (A + lsize l) (virt r' + mm_size r') mod lsize l) 0) as [E2|]; [|done]. cbn [negb orb].
    destruct (Z.leb_spec l 0); [done|]. exfalso. destruct H3 as [H3|[H3|H3]]; [lia| |].
    + rewrite Z.max_r in E1 by lia. revert E1. by apply (aligned_mod _ _ A); [lia| |].
    + rewrite Z.min_r in E2 by lia. revert E2. by apply (aligned_mod _ _ A); [lia| |].
  - specialize (IH ltac:(set_solver) Hr). repeat case_match; done.
Qed.

(** At level 3 nothing counts: regions consist of pages. *)
Lemma pts_kind_page A L t :
  cblock A 3 -> L ⊆ active mem_map -> t <> PTE_LEVEL -> pts_kind A 3 (A + lsize 3) L t <> PTE_LEVEL.
Proof.
  intros Hb HL. pose proof Hb as [Hl (Hb1 & Hb2 & Hb3)]. destruct (cblock_size A 3 Hb) as [Es _].
  revert t. induction L as [|r' L IH]; intros t Ht; [done|].
  cbn [pts_kind]. rewrite Es. destruct (region_bounds r' ltac:(set_solver)) as (B1 & B2 & B3 & B4 & B5). rewrite u64_small by lia.
  specialize (IH ltac:(set_solver)). case_match; [|by apply IH].
  change (lsize 3) with 4096 in *. change (4096 - 1) with (2 ^ 12 - 1). rewrite !land_mask by lia. change (2 ^ 12) with 4096.
  apply Z.mod_divide in Hb2; [|lia].
  assert (Z.max A (virt r') mod 4096 = 0) as -> by dlia. assert (Z.min (A + 4096) (virt r' + mm_size r') mod 4096 = 0) as -> by dlia.
  cbn. by apply IH.
Qed.

(** ** The list *)

(** The children visited: up to 512, until the end of the address space. *)
Fixpoint kids {X} (f : Z -> list X) (k : nat) (a sub maxaddr : Z) : list X :=
  match k with
  | O => []
  | S k => f a ++ (if maxaddr <=? a + sub then [] else kids f k (a + sub) sub maxaddr)
  end.

Fixpoint pts (fuel : nat) (A l maxaddr : Z) : list (Z * Z) :=
  match fuel with
  | O => []
  | S fuel =>
      match pts_kind A l (A + lsize l) (active mem_map) PTE_INVAL with
      | PTE_LEVEL => (l + 1, A) :: kids (fun a => pts fuel a (l + 1) maxaddr) 512 A (lsize (l + 1)) maxaddr
      | _ => []
      end
  end.

Lemma in_kids {X} (f : Z -> list X) (k : nat) a sub maxaddr j x :
  0 < sub -> 0 <= j < Z.of_nat k -> a + j * sub < maxaddr -> x ∈ f (a + j * sub) -> x ∈ kids f k a sub maxaddr.
Proof.
  intros Hsub. revert a j. induction k as [|k IH]; intros a j Hj Hlt Hx; [lia|]. cbn [kids]. apply elem_of_app.
  destruct (decide (j = 0)) as [->|Hne]; [left; by rewrite Z.mul_0_l, Z.add_0_r in Hx|right].
  destruct (Z.leb_spec maxaddr (a + sub)); [nia|]. apply (IH _ (j - 1)); [lia|lia|].
  by replace (a + sub + (j - 1) * sub) with (a + j * sub) by lia.
Qed.

Lemma cblock_child A l j : cblock A l -> l < 3 -> 0 <= j < 512 -> cblock (A + j * lsize (l + 1)) (l + 1).
Proof.
  intros [Hl (H1 & H2 & H3)] Hlt Hj. pose proof (lsize_S l ltac:(lia)) as Es. pose proof (lsize_pos (l + 1) ltac:(lia)) as Hp.
  split; [lia|]. split; [nia|]. split; [|nia]. apply Z.divide_add_r; [|apply Z.divide_factor_r].
  etransitivity; [|exact H2]. apply lsize_divide; lia.
Qed.

(** Every table a region needs is in the list. *)
Lemma pts_complete fuel A l maxaddr r L B :
  cblock A l -> l <= L -> L <= 2 -> (L - l < Z.of_nat fuel) -> r ∈ active mem_map ->
  (lsize L | B) -> A <= B < A + lsize l -> B < maxaddr -> splits r L B ->
  (L + 1, B) ∈ pts fuel A l maxaddr.
Proof.
  revert A l. induction fuel as [|fuel IH]; intros A l Hb Hl HL Hf Hr HB Hin Hmax Hsp; [lia|]. cbn [pts].
  pose proof Hb as [Hbl (Hb1 & Hb2 & Hb3)].
  rewrite (pts_kind_level A l (active mem_map) _ r Hb); [|done|done|by apply (splits_up r L B); [| |lia| | |]].
  apply elem_of_cons. destruct (decide (l = L)) as [->|Hne].
  { left. f_equal. rewrite (block_base_unique B L A) by (done || lia).
    apply block_base_unique; [lia|done|]. pose proof (lsize_pos L ltac:(lia)). lia. }
  right. pose proof (lsize_S l ltac:(lia)) as Es. pose proof (lsize_pos (l + 1) ltac:(lia)) as Hp.
  set (j := (B - A) / lsize (l + 1)).
  pose proof (Z.div_mod (B - A) (lsize (l + 1)) ltac:(lia)) as Ed. pose proof (Z.mod_pos_bound (B - A) (lsize (l + 1)) Hp) as Em.
  fold j in Ed. assert (0 <= j < 512) as Hj by (unfold j; split; [apply Z.div_pos; lia|apply Z.div_lt_upper_bound; lia]).
  apply (in_kids _ 512 A (lsize (l + 1)) maxaddr j); [done|lia|lia|].
  apply IH; [by apply cblock_child; [|lia|]|lia|done|lia|done|done|lia|done|done].
Qed.

(** The function counts the list. *)
Lemma count_kids fuel A l maxaddr :
  cblock A l -> l < 3 ->
  (forall a, cblock a (l + 1) -> count_required_pts mem_map fuel a (l + 1) maxaddr = Ok (Z.of_nat (length (pts fuel a (l + 1) maxaddr)))) ->
  (while (S (Z.to_nat MAX_PTE_ENTRIES)) (fun '(i, addr, r) =>
      if i <? MAX_PTE_ENTRIES then
        let! c := count_required_pts mem_map fuel addr (l + 1) maxaddr in
        let r := r + c in
        let addr := u64 (addr + lsize (l + 1)) in
        if maxaddr <=? addr then brk r else cont (i + 1, addr, r)
      else brk r) (0, A, 1)) =
    Ok (1 + Z.of_nat (length (kids (fun a => pts fuel a (l + 1) maxaddr) 512 A (lsize (l + 1)) maxaddr))).
Proof.
  intros Hb Hl IH. change MAX_PTE_ENTRIES with 512. set (sub := lsize (l + 1)).
  assert (0 < sub) as Hp by (apply lsize_pos; lia). set (f := fun a => pts fuel a (l + 1) maxaddr).
  remember (kids f 512 A sub maxaddr) as K eqn:EK.
  eapply (while_eq (fun '(i, a, r) => 0 <= i <= 512 /\ a = A + i * sub /\
            r + Z.of_nat (length (kids f (Z.to_nat (512 - i)) a sub maxaddr)) = 1 + Z.of_nat (length K))
          (fun '(i, _, _) => Z.to_nat (512 - i))).
  - intros [[i a] r] (Hi & Ea & Er). destruct (Z.ltb_spec i 512) as [Hlt|].
    + pose proof (cblock_child A l i Hb Hl ltac:(lia)) as Hc. fold sub in Hc. rewrite <- Ea in Hc. rewrite (IH a Hc). cbn [obind].
      pose proof Hc as [_ (C1 & _ & C2)]. fold sub in C2. cbv zeta. rewrite u64_small by lia.
      replace (Z.to_nat (512 - i)) with (S (Z.to_nat (512 - (i + 1)))) in Er by lia. cbn [kids] in Er.
      rewrite length_app in Er. fold (f a). destruct (Z.leb_spec maxaddr (a + sub)); cbn.
      * simpl in Er. lia.
      * split; [|lia]. split; [lia|]. split; [lia|]. lia.
    + replace (Z.to_nat (512 - i)) with 0%nat in Er by lia. simpl in Er. cbn. lia.
  - split; [lia|]. split; [lia|]. change (Z.to_nat (512 - 0)) with 512%nat. rewrite EK. lia.
  - lia.
Qed.

Lemma count_pts fuel A l maxaddr :
  cblock A l -> 3 - l < Z.of_nat fuel ->
  count_required_pts mem_map fuel A l maxaddr = Ok (Z.of_nat (length (pts fuel A l maxaddr))).
Proof.
  revert A l. induction fuel as [|fuel IH]; intros A l Hb Hf; [destruct Hb; lia|]. cbn [count_required_pts pts].
  destruct (cblock_size A l Hb) as [E1 E2]. cbv zeta. rewrite E2. pose proof Hb as [Hl (Hb1 & Hb2 & Hb3)].
  destruct (decide (l = 3)) as [->|Hl3].
  { pose proof (pts_kind_page A (active mem_map) PTE_INVAL Hb ltac:(done) ltac:(done)) as Hp.
    destruct (pts_kind A 3 (A + lsize 3) (active mem_map) PTE_INVAL); done. }
  destruct (pts_kind A l (A + lsize l) (active mem_map) PTE_INVAL); [done|done|].
  pose proof (cblock_child A l 0 Hb ltac:(lia) ltac:(lia)) as Hc. destruct (cblock_size _ _ Hc) as [E3 _]. rewrite E3.
  etransitivity; [apply (count_kids fuel A l maxaddr Hb ltac:(lia)); intros a Ha; apply IH; [done|lia]|].
  f_equal. cbn [length]. lia.
Qed.
End count.
