(* ===== verification/PgTheorems.v ===== *)
(** * Translation tables: the theorems

    The tables [setup_all_pgtables] builds are the memory map, and the control
    value [get_tcr] computes covers it. *)

From S2P Require Import Prelude CMem Str StrFacts StrSafe Console Words PgTable PgWalk PgMap PgSetup.

Local Open Scope Z_scope.
Local Open Scope c_scope.

(** ** The control value *)

(** [n] bits of [v] from bit [k]. *)
Definition bits (v k n : Z) : Z := Z.shiftr v k mod 2 ^ n.

Lemma max_addr_fold l a : a <= fold_left (fun a r => Z.max a (u64 (virt r + mm_size r))) l a.
Proof. revert a. induction l as [|r l IH]; intros a; simpl; [done|]. specialize (IH (Z.max a (u64 (virt r + mm_size r)))). lia. Qed.

Lemma max_addr_ge mem_map r : r ∈ active mem_map -> u64 (virt r + mm_size r) <= max_addr mem_map.
Proof.
  unfold max_addr. generalize 0. induction (active mem_map) as [|r' l IH]; intros a Hin; [by apply elem_of_nil in Hin|].
  simpl. apply elem_of_cons in Hin as [->|Hin]; [|by apply IH].
  pose proof (max_addr_fold l (Z.max a (u64 (virt r' + mm_size r')))). lia.
Qed.

Lemma max_addr_le mem_map b :
  Forall (fun r => 0 <= virt r + mm_size r <= b) (active mem_map) -> 0 <= b < 2 ^ 64 -> max_addr mem_map <= b.
Proof.
  intros HF Hb. assert (forall l a, Forall (fun r => 0 <= virt r + mm_size r <= b) l -> a <= b ->
    fold_left (fun a r => Z.max a (u64 (virt r + mm_size r))) l a <= b) as H; [|by apply H; [done|lia]].
  clear HF. induction l as [|r l IH]; intros a HF Ha; [done|]. apply list.Forall_cons in HF as [H1 H2].
  apply IH; [done|]. rewrite u64_small; lia.
Qed.

(** The pairs [get_tcr] chooses from. *)
Lemma ips_va_bits_cases mem_map :
  In (ips_va_bits mem_map) [(5, 48); (4, 44); (3, 42); (2, 40); (1, 36); (0, 32)].
Proof. unfold ips_va_bits. repeat case_match; simpl; tauto. Qed.

Lemma ips_va_bits_cover mem_map : max_addr mem_map <= 2 ^ 48 -> max_addr mem_map <= 2 ^ (ips_va_bits mem_map).2.
Proof.
  unfold ips_va_bits. intros H. change (Z.shiftl 1 44) with (2 ^ 44). change (Z.shiftl 1 42) with (2 ^ 42).
  change (Z.shiftl 1 40) with (2 ^ 40). change (Z.shiftl 1 36) with (2 ^ 36). change (Z.shiftl 1 32) with (2 ^ 32).
  repeat (case_cmp; [simpl; lia|]). simpl. lia.
Qed.

(** The size of the address space tables starting at [start_level] cover. *)
Lemma start_level_bits mem_map : 2 ^ (ips_va_bits mem_map).2 <= va_limit (start_level mem_map).
Proof.
  unfold start_level, get_tcr. pose proof (ips_va_bits_cases mem_map) as H.
  destruct (ips_va_bits mem_map) as [ips vb]. simpl in H.
  repeat (destruct H as [[= <- <-]|H]; [vm_compute; congruence|]). done.
Qed.

(** ** Claims *)

(** C3: what the memory map says is what the hardware sees.  Let the regions of
    [mem_map] be page aligned, within the address space, with physical and
    virtual addresses congruent modulo 1 GB, and let the space for tables be
    page aligned, mapped and below 2^48.  Then [setup_all_pgtables] ends; it
    either stops with the panic of [create_table] that the space is too small,
    or returns two tables, the normal and the emergency one, in the space,
    having written nowhere else, such that the table walk of either translates
    every virtual address as [mem_map] says: to the address and attributes of
    the last region that contains it, or not at all. *)
Theorem setup_all_pgtables_correct (mem_map : list mm_region) (gd : arch_gd) (m : mem) :
  Forall (region_ok (va_limit (start_level mem_map))) (active mem_map) ->
  0 < tlb_addr gd -> tlb_addr gd mod 4096 = 0 ->
  0 <= tlb_size gd -> tlb_addr gd + tlb_size gd < 2 ^ 48 ->
  mapped m (tlb_addr gd) (tlb_size gd) ->
  returns_or NO_RAM (setup_all_pgtables mem_map gd m) (fun '(gd', m') =>
    tlb_addr gd' = tlb_addr gd /\ tlb_size gd' = tlb_size gd /\
    tlb_addr gd < tlb_emerg gd' < tlb_fillptr gd' /\ tlb_fillptr gd' <= tlb_addr gd + tlb_size gd /\
    unchanged (span_of (tlb_addr gd) (tlb_size gd)) m m' /\
    forall va, 0 <= va < va_limit (start_level mem_map) ->
      translate (start_level mem_map) m' (tlb_addr gd') va = map_translate (active mem_map) va /\
      translate (start_level mem_map) m' (tlb_emerg gd') va = map_translate (active mem_map) va).
Proof. intros H. apply (setup_all_pgtables_spec mem_map H). Qed.

(** A map of RAM and a device page, and a space of eight tables. *)
Definition small_map : list mm_region :=
  [MMRegion 0x40000000 0x40000000 0x200000 0x710; MMRegion 0x8000000 0x8000000 0x1000 0x60000000000000;
   MMRegion 0 0 0 0].

Definition small_space : mem := write_bytes ∅ 0x10000 (replicate (Z.to_nat 0x8000) 0).
Definition small_gd : arch_gd := ArchGD 0x10000 0x8000 0 0.

Lemma small_space_mapped : mapped small_space 0x10000 0x8000.
Proof.
  unfold small_space. generalize (∅ : mem). intros m0.
  pose proof (bytes_at_mapped _ _ _ (write_bytes_at m0 0x10000 (replicate (Z.to_nat 0x8000) 0))) as H.
  rewrite length_replicate in H. exact H.
Qed.

Lemma small_map_ok : Forall (region_ok (va_limit (start_level small_map))) (active small_map).
Proof.
  change (active small_map) with (take 2 small_map). change (va_limit (start_level small_map)) with (2 ^ 39).
  repeat (constructor; [split; vm_compute; intuition congruence|]). constructor.
Qed.

Lemma small_translate off :
  0 <= off < 0x200000 -> map_translate (active small_map) (0x40000000 + off) = Some (0x40000000 + off, (0x1c4, 0)).
Proof.
  intros Hoff. unfold map_translate. change (active small_map) with (take 2 small_map). cbn [fold_left take small_map virt mm_size phys].
  rewrite decide_False by lia. rewrite decide_True by lia.
  change (pte_attrs (block_attrs (MMRegion 0x40000000 0x40000000 0x200000 0x710))) with (0x1c4, 0).
  by replace (0x40000000 + (0x40000000 + off - 0x40000000)) with (0x40000000 + off) by lia.
Qed.

Lemma setup_all_pgtables_correct_witness :
  returns_or NO_RAM (setup_all_pgtables small_map small_gd small_space) (fun '(gd', m') =>
    forall off, 0 <= off < 0x200000 ->
      translate 1 m' (tlb_addr gd') (0x40000000 + off) = Some (0x40000000 + off, (0x1c4, 0))).
Proof.
  eapply returns_or_mono.
  - apply (setup_all_pgtables_correct small_map small_gd small_space);
      [exact small_map_ok|done|done|done|done|exact small_space_mapped].
  - intros [gd' m'] (_ & _ & _ & _ & _ & H) off Hoff.
    change (start_level small_map) with 1 in H. change (va_limit 1) with (2 ^ 39) in H.
    destruct (H (0x40000000 + off) ltac:(lia)) as [-> _]. by apply small_translate.
Defined.

(** One region on top of any well-formed tables.  [add_map] ends; unless the
    space for tables runs out, the tables are well formed again, the region's
    addresses translate with a constant offset and the region's attributes,
    and every other address translates as before, also where a block had to be
    split. *)
Theorem add_map_correct (mem_map : list mm_region) (root : Z) (o : origin) (G : gmap Z (Z * Z))
    (gd : arch_gd) (m : mem) (r : mm_region) :
  pg_ok mem_map root o G gd m -> region_ok (va_limit (start_level mem_map)) r ->
  returns_or NO_RAM (add_map mem_map r gd m) (fun '(gd', m') =>
    (exists G', pg_ok mem_map root o G' gd' m') /\
    forall va, 0 <= va < va_limit (start_level mem_map) ->
      translate (start_level mem_map) m' root va =
        if decide (virt r <= va < virt r + mm_size r)
        then Some (phys r + (va - virt r), pte_attrs (block_attrs r))
        else translate (start_level mem_map) m root va).
Proof. intros Hk Hr. by apply (add_map_spec mem_map root o G), region_todo. Qed.

(** The small space with an empty root table. *)
Definition one_table_gd : arch_gd := ArchGD 0x10000 0x8000 0x11000 0.

Lemma small_space_zero i : 0 <= i < 512 -> rdw small_space (0x10000 + 8 * i) = 0.
Proof.
  intros Hi. apply rdw_zero. intros x Hx. unfold small_space. generalize (∅ : mem). intros m0.
  pose proof (write_bytes_at m0 0x10000 (replicate (Z.to_nat 0x8000) 0)) as Hb.
  apply (bytes_at_lookup _ _ _ (Z.to_nat (x - 0x10000)) 0) in Hb; [|apply lookup_replicate; split; [done|lia]].
  by replace (0x10000 + Z.of_nat (Z.to_nat (x - 0x10000))) with x in Hb by lia.
Qed.

Lemma empty_tables_ok :
  pg_ok small_map 0x10000 (Origin small_space 0x8000 0) {[0x10000 := (1, 0)]} one_table_gd small_space.
Proof.
  split.
  - apply (empty_table_inv small_map); [exact small_space_zero|done|cbn; lia].
  - split; cbn [tlb_addr tlb_size tlb_fillptr tlb_emerg one_table_gd];
      [done|done|done|exact small_space_mapped|apply unchanged_refl|done].
Qed.

Lemma add_map_correct_witness :
  returns_or NO_RAM (add_map small_map (MMRegion 0x40000000 0x40000000 0x200000 0x710) one_table_gd small_space)
    (fun '(gd', m') => translate 1 m' 0x10000 0x40001234 = Some (0x40001234, (0x1c4, 0)) /\
                       translate 1 m' 0x10000 0x3fffffff = None).
Proof.
  eapply returns_or_mono.
  - apply (add_map_correct small_map 0x10000 _ _ one_table_gd small_space _ empty_tables_ok).
    pose proof small_map_ok as H. change (active small_map) with (take 2 small_map) in H.
    apply list.Forall_cons in H as [H _]. exact H.
  - intros [gd' m'] (_ & H). change (start_level small_map) with 1 in H. split.
    + rewrite H by done. reflexivity.
    + rewrite H by done. apply (empty_table_translate small_map).
      exact small_space_zero.
Defined.

(** The control value.  When every region of the map ends at or below 2^48,
    [get_tcr] chooses an address size that reaches the end of every region and
    that the tables' start level covers; T0SZ is 64 minus that size, walks are
    inner shareable and write-back cacheable with 4 KB granule.  At EL2 and EL3
    the physical size field is the one chosen; at EL1 it reads 7 for any
    memory map, because the reserved bit 31 is converted from a negative
    [int]. *)
Theorem get_tcr_correct (mem_map : list mm_region) (el : Z) :
  Forall (fun r => 0 <= virt r + mm_size r <= 2 ^ 48) (active mem_map) ->
  let '(tcr, ips, va_bits) := get_tcr mem_map el in
  Forall (fun r => virt r + mm_size r <= 2 ^ va_bits) (active mem_map) /\
  2 ^ va_bits <= va_limit (start_level mem_map) /\
  bits tcr 0 6 = 64 - va_bits /\ bits tcr 8 2 = 1 /\ bits tcr 10 2 = 1 /\ bits tcr 12 2 = 3 /\ bits tcr 14 2 = 0 /\
  (if el =? 1 then bits tcr 32 3 = 7 else bits tcr 16 3 = ips /\ In (ips, va_bits) [(5, 48); (4, 44); (3, 42); (2, 40); (1, 36); (0, 32)]).
Proof.
  intros HF. pose proof (start_level_bits mem_map) as Hsl.
  assert (max_addr mem_map <= 2 ^ 48 -> Forall (fun r => virt r + mm_size r <= 2 ^ (ips_va_bits mem_map).2) (active mem_map)) as Hc.
  { intros Hm. pose proof (ips_va_bits_cover mem_map Hm). apply list.Forall_forall. intros r Hr.
    pose proof (max_addr_ge mem_map r Hr) as Hge. apply (proj1 (list.Forall_forall _ _) HF) in Hr. rewrite u64_small in Hge; lia. }
  specialize (Hc (max_addr_le mem_map (2 ^ 48) HF ltac:(lia))).
  unfold get_tcr. pose proof (ips_va_bits_cases mem_map) as H.
  destruct (ips_va_bits mem_map) as [ips vb]. cbn [snd] in *. split; [done|]. split; [done|]. clear -H.
  simpl in H. destruct (el =? 1), (el =? 2);
    repeat (destruct H as [[= <- <-]|H]; [vm_compute; tauto|]); done.
Qed.

Lemma get_tcr_correct_witness :
  let '(tcr, ips, va_bits) := get_tcr small_map 3 in
  tcr = 0xffffffff80803520 /\ bits tcr 0 6 = 64 - va_bits /\ bits tcr 16 3 = ips.
Proof.
  assert (Forall (fun r => 0 <= virt r + mm_size r <= 2 ^ 48) (active small_map)) as H.
  { change (active small_map) with (take 2 small_map). repeat (constructor; [cbn; lia|]). constructor. }
  pose proof (get_tcr_correct small_map 3 H) as (_ & _ & H1 & _ & _ & _ & _ & H2 & _).
  split; [reflexivity|]. split; [exact H1|exact H2].
Defined.
