(* ===== verification/PgAttr.v ===== *)
(** * Attributes of mapped regions (arch/arm64/kernel/cache_v8.c)

    Changing the attributes of a range of addresses in tables that are in use:
    [mmu_set_region_dcache_behaviour] and [mmu_change_region_attr].  The
    routines in assembly they call have no effect on memory; a run lists
    their calls, with the memory the tables are in when the cached
    translations are discarded. *)

From S2P Require Import Prelude CMem Str StrFacts StrSafe Console Words PgTable.

Local Open Scope Z_scope.
Local Open Scope c_scope.

Inductive mmu_event : Type :=
  | SwitchTTBR (table : Z)
  | FlushDcacheRange (from to : Z)
  | InvalidateTLB (tables : mem).

(** enum dcache_option, asm/system.h *)
Definition DCACHE_OFF : Z := Z.shiftl 0 2.
Definition DCACHE_WRITETHROUGH : Z := Z.shiftl 3 2.
Definition DCACHE_WRITEBACK : Z := Z.shiftl 4 2.
Definition DCACHE_WRITEALLOC : Z := Z.shiftl 4 2.

Definition is_aligned (addr size align : Z) : bool :=
  (Z.land addr (align - 1) =? 0) && (Z.land size (align - 1) =? 0).

Section attr.
Context (mem_map : list mm_region).

(** The bytes covered, 0 when the next level has to be tried. *)
Definition set_one_region (start size attrs : Z) (flag : bool) (level : Z) (gd : arch_gd) (m : mem)
    : outcome (arch_gd * mem * Z) :=
  let levelshift := level2shift level in
  let levelsize := Z.shiftl 1 levelshift in
  let! pte := find_pte mem_map start level gd m in
  if is_aligned start size levelsize then
    let mask := if flag then PMD_ATTRMASK else PMD_ATTRINDX_MASK in
    let! v := load64 m pte in
    let! m := store64 m pte (Z.ldiff v mask) in
    let! v := load64 m pte in
    let! m := store64 m pte (Z.lor v (Z.land attrs mask)) in
    Ok (gd, m, levelsize)
  else
    let! v := load64 m pte in
    let! '(gd, m) := if pte_type v =? PTE_TYPE_BLOCK then split_block pte level gd m else Ok (gd, m) in
    let! v := load64 m pte in
    if negb (pte_type v =? PTE_TYPE_TABLE) then Panic "PTE %p (%llx) for addr=%llx should be a table" else
    Ok (gd, m, 0).

(** The inner loop: the first level that fits. *)
Definition set_region_step (start size attrs : Z) (flag : bool) (gd : arch_gd) (m : mem)
    : outcome (arch_gd * mem * Z) :=
  while 4 (fun '(level, gd, m) =>
    if level <? 4 then
      let! '(gd, m, r) := set_one_region start size attrs flag level gd m in
      if negb (r =? 0) then brk (gd, m, r) else cont (level + 1, gd, m)
    else brk (gd, m, 0)) (1, gd, m).

(** The outer loop. *)
Definition set_region (start size attrs : Z) (flag : bool) (gd : arch_gd) (m : mem) : outcome (arch_gd * mem) :=
  while (S (Z.to_nat (size / 4096))) (fun '(start, size, gd, m) =>
    if 0 <? size then
      let! '(gd, m, r) := set_region_step start size attrs flag gd m in
      cont (u64 (start + r), u64 (size - r), gd, m)
    else brk (gd, m)) (start, size, gd, m).

Definition mmu_set_region_dcache_behaviour (start size option : Z) (gd : arch_gd) (m : mem)
    : outcome (arch_gd * mem * list mmu_event) :=
  let attrs := PMD_ATTRINDX option in
  let real_start := start in
  let real_size := size in
  if tlb_emerg gd =? 0 then Panic "Emergency page table not setup." else
  let! '(gd, m) := set_region start size attrs false gd m in
  Ok (gd, m, [SwitchTTBR (tlb_emerg gd); SwitchTTBR (tlb_addr gd);
              FlushDcacheRange real_start (u64 (real_start + real_size))]).

Definition mmu_change_region_attr (addr siz attrs : Z) (gd : arch_gd) (m : mem)
    : outcome (arch_gd * mem * list mmu_event) :=
  let! '(gd, m1) := set_region addr siz PTE_TYPE_FAULT true gd m in
  let flush := FlushDcacheRange (tlb_addr gd) (u64 (tlb_addr gd + tlb_size gd)) in
  let! '(gd, m2) := set_region addr siz attrs true gd m1 in
  Ok (gd, m2, [flush; InvalidateTLB m1; flush; InvalidateTLB m2]).
End attr.
