(* ===== verification/PgAttrFacts.v ===== *)
(** * Attributes of mapped regions: one descriptor, one chunk, one pass

    The code covers a region with chunks, each the largest aligned block that
    the rest of the region starts and ends on, and changes one descriptor per
    chunk, splitting larger blocks first. *)

From S2P Require Import Prelude CMem Str StrFacts StrSafe Console Words PgTable PgWalk PgMap PgSetup PgAttr.

Local Open Scope Z_scope.
Local Open Scope c_scope.

(** ** The new value of a descriptor *)

Definition attr_mask (flag : bool) : Z := if flag then PMD_ATTRMASK else PMD_ATTRINDX_MASK.

Definition upd (flag : bool) (attrs v : Z) : Z :=
  Z.lor (Z.ldiff v (attr_mask flag)) (Z.land attrs (attr_mask flag)).

Lemma mod_pow2_bitwise (f : Z -> Z -> Z) (g : bool -> bool -> bool) k a b :
  (forall a b i, 0 <= i -> Z.testbit (f a b) i = g (Z.testbit a i) (Z.testbit b i)) -> g false false = false -> 0 <= k ->
  f a b mod 2 ^ k = f (a mod 2 ^ k) (b mod 2 ^ k).
Proof.
  intros Hf Hg Hk. apply Z.bits_inj'. intros i Hi. rewrite Hf by done. destruct (Z.lt_ge_cases i k).
  - rewrite !Z.mod_pow2_bits_low by lia. by apply Hf.
  - by rewrite !Z.mod_pow2_bits_high by lia.
Qed.

Lemma mod_lor k a b : 0 <= k -> Z.lor a b mod 2 ^ k = Z.lor (a mod 2 ^ k) (b mod 2 ^ k).
Proof. intros Hk. apply (mod_pow2_bitwise Z.lor orb); [intros; apply Z.lor_spec|done|done]. Qed.
Lemma mod_land k a b : 0 <= k -> Z.land a b mod 2 ^ k = Z.land (a mod 2 ^ k) (b mod 2 ^ k).
Proof. intros Hk. apply (mod_pow2_bitwise Z.land andb); [intros; apply Z.land_spec|done|done]. Qed.
Lemma mod_ldiff k a b : 0 <= k -> Z.ldiff a b mod 2 ^ k = Z.ldiff (a mod 2 ^ k) (b mod 2 ^ k).
Proof. intros Hk. apply (mod_pow2_bitwise Z.ldiff (fun a b => a && negb b)); [intros; apply Z.ldiff_spec|done|done]. Qed.

(** A field of the new value is the field of the old one, updated under the field of the mask. *)
Lemma upd_div flag attrs v k : 0 <= k ->
  upd flag attrs v / 2 ^ k = Z.lor (Z.ldiff (v / 2 ^ k) (attr_mask flag / 2 ^ k)) (Z.land (attrs / 2 ^ k) (attr_mask flag / 2 ^ k)).
Proof. intros Hk. unfold upd. rewrite <- !Z.shiftr_div_pow2 by done. by rewrite Z.shiftr_lor, Z.shiftr_ldiff, Z.shiftr_land. Qed.

Lemma upd_mod flag attrs v k : 0 <= k ->
  upd flag attrs v mod 2 ^ k = Z.lor (Z.ldiff (v mod 2 ^ k) (attr_mask flag mod 2 ^ k)) (Z.land (attrs mod 2 ^ k) (attr_mask flag mod 2 ^ k)).
Proof. intros Hk. unfold upd. by rewrite mod_lor, mod_ldiff, mod_land. Qed.

(** The attributes of the new value. *)
Definition upd_attrs (flag : bool) (attrs : Z) (a : Z * Z) : Z * Z :=
  (Z.lor (Z.ldiff a.1 7) (Z.land (attrs / 4) 7),
   if flag then Z.lor (Z.ldiff a.2 0x60) (Z.land (attrs / 2 ^ 48) 0x60) else a.2).

Lemma upd_pte_attrs flag attrs v : pte_attrs (upd flag attrs v) = upd_attrs flag attrs (pte_attrs v).
Proof.
  unfold pte_attrs, upd_attrs. cbn [fst snd]. f_equal.
  - change 4 with (2 ^ 2). rewrite upd_div by lia. change 1024 with (2 ^ 10). rewrite mod_lor, mod_ldiff, mod_land by lia.
    replace ((attr_mask flag / 2 ^ 2) mod 2 ^ 10) with 7 by (by destruct flag). f_equal.
    change 7 with (Z.ones 3). rewrite !Z.land_ones by lia. rewrite Z.mod_mod_divide; [done|]. by exists (2 ^ 7).
  - rewrite upd_div by lia. destruct flag; [done|]. change (attr_mask false / 2 ^ 48) with 0. by rewrite Z.ldiff_0_r, Z.land_0_r, Z.lor_0_r.
Qed.

Lemma upd_page flag attrs v : upd flag attrs v / 4096 mod 2 ^ 36 = v / 4096 mod 2 ^ 36.
Proof.
  change 4096 with (2 ^ 12). rewrite upd_div by lia. rewrite mod_lor, mod_ldiff, mod_land by lia.
  replace ((attr_mask flag / 2 ^ 12) mod 2 ^ 36) with 0 by (by destruct flag). by rewrite Z.ldiff_0_r, Z.land_0_r, Z.lor_0_r.
Qed.

Lemma upd_type flag attrs v : pte_type (upd flag attrs v) =
  if flag then 2 * (pte_type v / 2) + attrs mod 2 else pte_type v.
Proof.
  rewrite !pte_type_mod. change 4 with (2 ^ 2). rewrite upd_mod by lia. destruct flag.
  - change (attr_mask true mod 2 ^ 2) with (Z.ones 1). change (2 ^ 2) with 4.
    rewrite Z.land_ones by lia. change (2 ^ 1) with 2. replace (attrs mod 4 mod 2) with (attrs mod 2) by dlia.
    assert (0 <= v mod 4 < 4) as H by (apply Z.mod_pos_bound; lia). pose proof (Z.mod_pos_bound attrs 2 ltac:(lia)).
    set (x := v mod 4) in *. clearbody x. assert (attrs mod 2 = 0 \/ attrs mod 2 = 1) as [-> | ->] by lia;
    assert (x = 0 \/ x = 1 \/ x = 2 \/ x = 3) as [->|[->|[->| ->]]] by lia; reflexivity.
  - change (attr_mask false mod 2 ^ 2) with 0. by rewrite Z.ldiff_0_r, Z.land_0_r, Z.lor_0_r.
Qed.

Lemma upd_range flag attrs v : 0 <= v < 2 ^ 64 -> 0 <= upd flag attrs v < 2 ^ 64.
Proof.
  intros Hv. unfold upd. split; [apply Z.lor_nonneg; split; [apply Z.ldiff_nonneg; lia|apply Z.land_nonneg; right; by destruct flag]|].
  assert (Z.lor (Z.ldiff v (attr_mask flag)) (Z.land attrs (attr_mask flag)) =
    Z.lor (Z.ldiff v (attr_mask flag)) (Z.land attrs (attr_mask flag)) mod 2 ^ 64) as ->; [|apply Z.mod_pos_bound; lia].
  rewrite mod_lor, mod_ldiff, mod_land by lia. rewrite (Z.mod_small v) by lia. rewrite (Z.mod_small (attr_mask flag)) by (by destruct flag).
  f_equal. symmetry. apply Z.bits_inj'. intros i Hi. rewrite !Z.land_spec. destruct (Z.lt_ge_cases i 64).
  - by rewrite Z.mod_pow2_bits_low by lia.
  - assert (Z.testbit (attr_mask flag) i = false) as ->; [|by rewrite !andb_false_r].
    rewrite <- (Z.mod_small (attr_mask flag) (2 ^ 64)) by (by destruct flag). by rewrite Z.mod_pow2_bits_high by lia.
Qed.

(** Setting after clearing. *)
Lemma upd_upd attrs v : upd true attrs (upd true PTE_TYPE_FAULT v) = upd true attrs v.
Proof.
  unfold upd, PTE_TYPE_FAULT. rewrite Z.land_0_l, Z.lor_0_r. f_equal. apply Z.bits_inj'. intros i Hi. rewrite !Z.ldiff_spec.
  by destruct (Z.testbit v i), (Z.testbit (attr_mask true) i).
Qed.

(** ** Translation by the new value *)

Lemma page_base v l : 1 <= l <= 3 -> (v mod 2 ^ 48) / lsize l = (v / 4096 mod 2 ^ 36) / lpages l.
Proof.
  intros Hl. destruct (lpages_eq l Hl) as (EL & Hp & _). rewrite EL, (Z.mul_comm (lpages l)), <- Z.div_div by lia. f_equal.
  change (2 ^ 48) with (4096 * 2 ^ 36). rewrite Z.rem_mul_r by lia. dlia.
Qed.

Lemma decode_upd va l flag attrs v p a :
  1 <= l <= 3 -> decode va (l, v) = Some (p, a) ->
  decode va (l, upd flag attrs v) = if flag && (attrs mod 2 =? 0) then None else Some (p, upd_attrs flag attrs a).
Proof.
  intros Hl. unfold decode. rewrite upd_pte_attrs, !page_base, upd_page, upd_type by done.
  unfold PTE_TYPE_PAGE, PTE_TYPE_BLOCK.
  assert (attrs mod 2 = 0 \/ attrs mod 2 = 1) as Ha by dlia. destruct (Z.eqb_spec l 0); [lia|].
  destruct (l =? 3); destruct (Z.eqb_spec (pte_type v) 3) as [E3|E3], (Z.eqb_spec (pte_type v) 1) as [E1|E1];
    try lia; try (intros [=]; fail); intros [= <- <-]; destruct flag, Ha as [-> | ->]; cbn [andb]; rewrite ?E1, ?E3; reflexivity.
Qed.

(** A descriptor of level [l] that is not a table. *)
Definition good_leaf (l v : Z) : Prop :=
  0 <= v < 2 ^ 64 /\ (l < 3 -> pte_type v < 2 /\ (v / 4096) mod lpages l = 0).

Lemma page_mod v l : 1 <= l <= 3 -> (v / 4096) mod lpages l = (v / 4096 mod 2 ^ 36) mod lpages l.
Proof.
  intros Hl. destruct (lpages_eq l Hl) as (_ & Hp & Hd). rewrite Z.mod_mod_divide; [done|].
  etransitivity; [exact Hd|]. by exists (2 ^ 18).
Qed.

Lemma upd_leaf l flag attrs v : 1 <= l <= 3 -> good_leaf l v -> good_leaf l (upd flag attrs v).
Proof.
  intros Hl [Hr Hv]. split; [by apply upd_range|]. intros Hl3. destruct (Hv Hl3) as [Ht Ha].
  rewrite page_mod, upd_page, <- page_mod by done. split; [|done]. rewrite upd_type. destruct flag; [|done].
  pose proof (Z.mod_pos_bound v 4 ltac:(lia)). rewrite pte_type_mod in *. dlia.
Qed.

(** ** Chunks *)

(** The level of the block that starts at [s] when [z] bytes are left. *)
Definition clevel (s z : Z) : Z :=
  if is_aligned s z (lsize 1) then 1 else if is_aligned s z (lsize 2) then 2 else 3.

Lemma is_aligned_mod s z l : l <= 3 -> is_aligned s z (lsize l) = (s mod lsize l =? 0) && (z mod lsize l =? 0).
Proof. intros Hl. unfold is_aligned, lsize. by rewrite !land_mask by (unfold level2shift; lia). Qed.

Lemma clevel_spec s z :
  s mod 4096 = 0 -> z mod 4096 = 0 -> let l := clevel s z in
  1 <= l <= 3 /\ is_aligned s z (lsize l) = true /\ (forall l', 1 <= l' < l -> is_aligned s z (lsize l') = false) /\
  s mod lsize l = 0 /\ z mod lsize l = 0.
Proof.
  intros Hs Hz l. unfold clevel in l. subst l. rewrite !is_aligned_mod by lia.
  destruct ((s mod lsize 1 =? 0) && (z mod lsize 1 =? 0)) eqn:E1; [|destruct ((s mod lsize 2 =? 0) && (z mod lsize 2 =? 0)) eqn:E2].
  - rewrite is_aligned_mod, E1 by lia. apply andb_true_iff in E1 as [A B]. apply Z.eqb_eq in A, B.
    split; [lia|]. split; [done|]. split; [lia|done].
  - rewrite is_aligned_mod, E2 by lia. apply andb_true_iff in E2 as [A B]. apply Z.eqb_eq in A, B.
    split; [lia|]. split; [done|]. split; [|done]. intros l' Hl'. replace l' with 1 by lia. by rewrite is_aligned_mod.
  - rewrite is_aligned_mod by lia. change (lsize 3) with 4096. rewrite Hs, Hz. split; [lia|]. split; [done|]. split; [|done].
    intros l' Hl'. assert (l' = 1 \/ l' = 2) as [-> | ->] by lia; by rewrite is_aligned_mod.
Qed.

Section attr.
Context (mem_map : list mm_region) (root : Z) (o : origin).
Local Abbreviation start := (start_level mem_map).
Local Abbreviation limit := (va_limit start).
Local Abbreviation pg_ok := (pg_ok mem_map root o).
Local Abbreviation W m va := (walk_from m root start va).

(** Changing the descriptor for [s] at level [l]. *)
Lemma attr_store G gd m s T l flag attrs :
  let pte := T + 8 * pte_index s l in
  pg_ok G gd m -> 0 <= s < limit -> reach root start m s T l -> 1 <= l <= 3 -> good_leaf l (rdw m pte) ->
  returns (let! v := load64 m pte in
           let! m := store64 m pte (Z.ldiff v (attr_mask flag)) in
           let! v := load64 m pte in
           store64 m pte (Z.lor v (Z.land attrs (attr_mask flag)))) (fun m' =>
    pg_ok G gd m' /\
    (forall va, va / lsize l = s / lsize l -> W m' va = (l, upd flag attrs (rdw m pte))) /\
    (forall va, 0 <= va < limit -> va / lsize l <> s / lsize l -> W m' va = W m va)).
Proof.
  intros pte Hk Hs Hr Hl Hg. pose proof (start_range mem_map) as Hst.
  pose proof (reach_mapped mem_map root o _ _ _ _ _ _ Hk Hs Hr) as Hm. fold pte in Hm.
  rewrite (load64_rdw _ _ Hm). cbn [obind]. eapply returns_bind; [by apply store64_spec|]. intros m1 [U1 E1].
  assert (mapped m1 pte 8) as Hm1 by by eapply unchanged_mapped.
  rewrite (load64_rdw _ _ Hm1). cbn [obind]. eapply returns_mono; [by apply store64_spec|]. intros m' [U2 E2].
  assert (unchanged (span_of pte 8) m m') as HU by by eapply unchanged_trans.
  pose proof (upd_leaf l flag attrs _ Hl Hg) as Hg'. destruct Hg' as [Hr' Hv'].
  assert (rdw m' pte = upd flag attrs (rdw m pte)) as E.
  { rewrite E2, E1. rewrite (Z.mod_small (Z.ldiff _ _)), Z.mod_small; [done|exact Hr'|].
    pose proof (upd_range flag 0 (rdw m pte) (proj1 Hg)) as H0. unfold upd in H0. by rewrite Z.land_0_l, Z.lor_0_r in H0. }
  pose proof Hk as [HI HA]. destruct (po_fill _ _ _ _ HA) as [Hf _].
  assert (G !! T = Some (l, s - s mod (512 * lsize l))) as HGT by by eapply reach_G.
  destruct (pi_table _ _ _ _ _ HI _ _ _ HGT) as (_ & T1 & T2 & _). pose proof (pte_index_range s l ltac:(lia)) as Hi.
  split; [split|split].
  - eapply (store_inv root start Hst G _ m m' s T l HI Hs Hr HU); [done|lia|congruence|fold pte; by rewrite E|].
    intros Hl3. cbv zeta. fold pte. rewrite E. destruct (Hv' Hl3) as [Ht Ha].
    assert (0 <= pte_type (upd flag attrs (rdw m pte))) as H0 by (rewrite pte_type_mod; apply Z.mod_pos_bound; lia).
    destruct (decide (pte_type (upd flag attrs (rdw m pte)) = 0)) as [Ez|Ez]; [by left|right; right].
    split; [unfold PTE_TYPE_BLOCK; lia|]. split; [lia|]. done.
  - eapply arena_unchanged; [exact HA|exact HU|]. unfold span_of, pte. intros; lia.
  - intros va Hva. rewrite (store_walk root start Hst G _ m m' s T l HI Hs Hr HU va Hva). cbv zeta. fold pte. rewrite E.
    destruct (Z.ltb_spec l 3) as [Hl3|]; [|done]. cbn [andb]. destruct (Hv' Hl3) as [Ht _].
    destruct (Z.eqb_spec (pte_type (upd flag attrs (rdw m pte))) PTE_TYPE_TABLE) as [Et|]; [unfold PTE_TYPE_TABLE in Et; lia|done].
  - intros va Hva Hne. by apply (store_other root start Hst G _ m m' s T l HI Hs Hr HU).
Qed.

(** ** The end of a walk *)

Lemma walk_end_from m va T l :
  reach root start m va T l -> let '(lw, v) := walk_from m T l va in
  l <= lw <= 3 /\ exists T', reach root start m va T' lw /\ v = rdw m (T' + 8 * pte_index va lw) /\ (lw < 3 -> pte_type v <> PTE_TYPE_TABLE).
Proof.
  intros Hr. pose proof (start_range mem_map) as Hs. pose proof Hr as [Hl _].
  remember (Z.to_nat (3 - l)) as k eqn:Ek. revert T l Hr Hl Ek.
  induction k as [|k IH]; intros T l Hr Hl Ek; rewrite walk_from_step by lia; cbv zeta.
  - destruct (Z.ltb_spec l 3); [lia|]. cbn [andb]. split; [lia|]. exists T. split; [done|]. split; [done|lia].
  - destruct (Z.ltb_spec l 3); [|lia]. cbn [andb].
    destruct (Z.eqb_spec (pte_type (rdw m (T + 8 * pte_index va l))) PTE_TYPE_TABLE) as [E|E].
    + pose proof (reach_next _ _ _ _ _ _ Hr ltac:(lia) E) as Hn. specialize (IH _ _ Hn ltac:(lia) ltac:(lia)).
      destruct (walk_from m _ (l + 1) va) as [lw v]. destruct IH as [Hlw H']. split; [lia|exact H'].
    + split; [lia|]. exists T. done.
Qed.

Lemma walk_end m va : exists T, start <= (W m va).1 <= 3 /\ reach root start m va T (W m va).1 /\
  (W m va).2 = rdw m (T + 8 * pte_index va (W m va).1) /\ ((W m va).1 < 3 -> pte_type (W m va).2 <> PTE_TYPE_TABLE).
Proof.
  pose proof (start_range mem_map) as Hs. pose proof (walk_end_from m va root start (reach_root root start Hs m va)) as H.
  destruct (walk_from m root start va) as [lw v]. destruct H as (Hl & T & H). by exists T.
Qed.

Lemma reach_level m va T l : reach root start m va T l -> l <= (W m va).1.
Proof.
  intros Hr. pose proof (start_range mem_map) as Hs. rewrite (reach_walk root start Hs _ _ _ _ Hr).
  pose proof (walk_end_from m va T l Hr) as H. destruct (walk_from m T l va) as [lw v]. cbn [fst]. destruct H as [H _]. lia.
Qed.

(** A walk passes all levels above its end. *)
Lemma reach_le m va T l l' : reach root start m va T l -> start <= l' <= l -> exists T', reach root start m va T' l'.
Proof.
  intros Hr Hl'. remember (Z.to_nat (l - l')) as k eqn:Ek. revert T l Hr Hl' Ek.
  induction k as [|k IH]; intros T l Hr Hl' Ek.
  - assert (l = l') as -> by lia. by exists T.
  - destruct (reach_prev _ _ _ _ _ _ Hr ltac:(lia)) as (T' & Hr' & _). apply (IH T' (l - 1)); [done|lia|lia].
Qed.

Lemma path_table m va T l : reach root start m va T l -> l < (W m va).1 -> pte_type (rdw m (T + 8 * pte_index va l)) = PTE_TYPE_TABLE.
Proof.
  intros Hr Hlt. destruct (walk_end m va) as (T1 & Hl1 & Hr1 & _). pose proof Hr as [Hl _].
  destruct (reach_le m va T1 _ (l + 1) Hr1 ltac:(lia)) as (T2 & Hr2).
  destruct (reach_prev _ _ _ _ _ _ Hr2 ltac:(lia)) as (T3 & Hr3 & Ht & _). replace (l + 1 - 1) with l in * by lia.
  by rewrite (reach_det _ _ _ _ _ _ _ Hr3 Hr) in Ht.
Qed.

Lemma path_end m va T : reach root start m va T (W m va).1 -> rdw m (T + 8 * pte_index va (W m va).1) = (W m va).2.
Proof.
  intros Hr. destruct (walk_end m va) as (T1 & _ & Hr1 & E & _). by rewrite (reach_det _ _ _ _ _ _ _ Hr Hr1).
Qed.

(** The descriptor of a translated address. *)
Lemma valid_good G gd m va :
  pg_ok G gd m -> 0 <= va < limit -> translate start m root va <> None ->
  1 <= (W m va).1 <= 3 /\ good_leaf (W m va).1 (W m va).2 /\ ((W m va).1 < 3 -> pte_type (W m va).2 = PTE_TYPE_BLOCK).
Proof.
  intros Hk Hva Ht. pose proof (start_range mem_map) as Hs. destruct (walk_end m va) as (T & Hl & Hr & Ev & Hnt).
  unfold translate in Ht. destruct (walk_from m root start va) as [l v]. cbn [fst snd] in *.
  assert (1 <= l) as Hl1 by (destruct (decide (l = 0)) as [->|]; [by destruct Ht|lia]).
  pose proof Hk as [HI _]. assert (G !! T = Some (l, va - va mod (512 * lsize l))) as HGT by by eapply reach_G.
  pose proof (pte_index_range va l ltac:(lia)) as Hi.
  pose proof (pi_range _ _ _ _ _ HI _ _ _ _ HGT Hi) as Hrange. rewrite <- Ev in Hrange.
  assert (l < 3 -> pte_type v = PTE_TYPE_BLOCK) as Hb.
  { intros Hl3. destruct (Z.eqb_spec (pte_type v) PTE_TYPE_BLOCK) as [|Hne]; [done|]. destruct Ht. unfold decode.
    destruct (Z.eqb_spec l 3); [lia|]. destruct (l =? 0); [done|]. by destruct (Z.eqb_spec (pte_type v) PTE_TYPE_BLOCK). }
  split; [lia|]. split; [|done]. split; [done|]. intros Hl3.
  pose proof (pi_entry _ _ _ _ _ HI _ _ _ _ HGT Hi Hl3) as He. cbv zeta in He. rewrite <- Ev, (Hb Hl3) in He.
  destruct He as [E|[[E _]|(_ & _ & Ha & _)]]; [done|done|]. split; [by rewrite (Hb Hl3)|exact Ha].
Qed.

(** ** One chunk *)

(** A chunk does not cross the end of the address space. *)
Lemma chunk_limit va s l : 0 <= s < limit -> 1 <= l <= 3 -> s mod lsize l = 0 -> s <= va < s + lsize l -> 0 <= va < limit.
Proof.
  intros Hs Hl Hsa Hva. split; [lia|]. pose proof (start_range mem_map) as Hst. pose proof (lsize_pos l ltac:(lia)) as Hp.
  assert ((lsize l | limit)) as [k Hk].
  { unfold va_limit. destruct (lsize_div l Hl) as [Hd _]. etransitivity; [exact Hd|].
    assert (start = 0 \/ start = 1) as [-> | ->] by lia; [by exists (2 ^ 18)|by exists 512]. }
  pose proof (Z.div_mod s (lsize l) ltac:(lia)) as E. rewrite Hsa in E. rewrite Hk in *.
  set (q := s / lsize l) in *. assert (q < k) by nia. nia.
Qed.

(** What may change outside the chunk: walks that end further down. *)
Definition walks_finer (m : mem) (s l0 : Z) (m' : mem) : Prop :=
  forall va, 0 <= va < limit -> W m' va = W m va \/
    exists l', 1 <= l' < l0 /\ va / lsize l' = s / lsize l' /\ (W m va).1 <= l' /\ (W m' va).1 = l' + 1.

(** On the way to level [l0]: the table of level [l] for [s] exists. *)
Record going (m : mem) (s l0 l : Z) (gd2 : arch_gd) (m2 : mem) : Prop := {
  go_tables : exists G2 T2, pg_ok G2 gd2 m2 /\ reach root start m2 s T2 l;
  go_trans : same_translation mem_map root m m2;
  go_walks : walks_finer m s l m2;
  go_straight : (W m s).1 = l0 -> m2 = m;
  go_level : (W m2 s).1 <= l0
}.

(** A level that does not fit is passed. *)
Lemma set_one_deeper m s z attrs flag l0 l gd2 m2 :
  0 <= s < limit -> 1 <= l < l0 -> l0 <= 3 -> is_aligned s z (lsize l) = false ->
  translate start m root s <> None \/ (W m s).1 = l0 -> going m s l0 l gd2 m2 ->
  returns_or NO_RAM (set_one_region mem_map s z attrs flag l gd2 m2) (fun '(gd3, m3, r) => r = 0 /\ going m s l0 (l + 1) gd3 m3).
Proof.
  intros Hs Hl Hl0 Hal Hok [(G2 & T2 & Hk & Hr) Htr Hw Hst Hlev]. unfold set_one_region.
  rewrite (find_pte_reach mem_map root o G2 gd2 m2 s T2 l Hk Hs Hr). cbn [obind]. rewrite shiftl_lsize by lia. rewrite Hal.
  pose proof (reach_mapped mem_map root o _ _ _ _ _ _ Hk Hs Hr) as Hm. set (pte := T2 + 8 * pte_index s l) in *.
  rewrite (load64_rdw _ _ Hm). cbn [obind]. pose proof (reach_level m2 s T2 l Hr) as Hge.
  destruct (decide (l = (W m2 s).1)) as [El|El].
  - assert (translate start m2 root s <> None) as Ht2.
    { rewrite Htr by done. destruct Hok as [|E]; [done|]. rewrite (Hst E) in El. lia. }
    destruct (valid_good G2 gd2 m2 s Hk Hs Ht2) as (_ & _ & Hb). rewrite <- El in Hb. specialize (Hb ltac:(lia)).
    pose proof (path_end m2 s T2) as Hpe. rewrite <- El in Hpe. specialize (Hpe Hr). fold pte in Hpe. rewrite <- Hpe in Hb.
    rewrite Hb. change (PTE_TYPE_BLOCK =? PTE_TYPE_BLOCK) with true. cbv iota.
    destruct (split_table mem_map root o G2 gd2 m2 s T2 l Hk Hs Hr ltac:(lia) Hb) as [[_ E]|(m3 & E & Hd)]; fold pte in E; rewrite E; [by left|].
    cbn [obind]. destruct Hd as (G3 & T3 & Hk3 & Hr3 & Htr3 & Hw3 & Hkeep & _).
    pose proof (reach_mapped mem_map root o _ _ _ _ _ _ Hk3 Hs (Hkeep s _ _ Hs Hr)) as Hm3. fold pte in Hm3. rewrite (load64_rdw _ _ Hm3). cbn [obind].
    pose proof (path_table m3 s T2 l (Hkeep s _ _ Hs Hr) ltac:(pose proof (reach_level m3 s T3 _ Hr3); lia)) as Ht3. fold pte in Ht3. rewrite Ht3.
    apply returns_or_ok. split; [done|]. split; [by exists G3, T3| | | |].
    + intros va Hva. by rewrite Htr3, Htr.
    + intros va Hva. destruct (Hw3 va Hva) as [->|(Eb & E1 & E2)].
      * destruct (Hw va Hva) as [->|(l' & Hl' & H)]; [by left|right]. exists l'. split; [lia|done].
      * right. exists l. split; [lia|]. split; [done|]. split; [|done].
        destruct (Hw va Hva) as [Ew|(l' & Hl' & _ & H1 & H2)]; [by rewrite <- Ew, E1|lia].
    + intros E0. rewrite (Hst E0) in El. lia.
    + destruct (Hw3 s Hs) as [E3|(_ & _ & ->)]; [|lia]. rewrite E3. lia.
  - pose proof (path_table m2 s T2 l Hr ltac:(lia)) as Ht. fold pte in Ht. rewrite Ht.
    change (PTE_TYPE_TABLE =? PTE_TYPE_BLOCK) with false. cbv iota. cbn [obind]. rewrite (load64_rdw _ _ Hm). cbn [obind].
    rewrite Ht. apply returns_or_ok. split; [done|]. split; [|done| |done|done].
    + exists G2, (pte_addr (rdw m2 pte)). split; [done|]. by apply reach_next; [|lia|].
    + intros va Hva. destruct (Hw va Hva) as [->|(l' & Hl' & H)]; [by left|right]. exists l'. split; [lia|done].
Qed.

Lemma walk_leaf m s T l va :
  reach root start m s T l -> va / lsize l = s / lsize l -> (l < 3 -> pte_type (rdw m (T + 8 * pte_index s l)) <> PTE_TYPE_TABLE) ->
  W m va = (l, rdw m (T + 8 * pte_index s l)).
Proof.
  intros Hr E Ht. pose proof (start_range mem_map) as Hs. pose proof Hr as [Hl _].
  assert (reach root start m va T l) as Hr'.
  { apply (reach_ext root start Hs m m s va T l Hr); [done|]. intros l' Hl'. apply (index_coarse va s l l'); [lia|lia|done]. }
  rewrite (reach_walk root start Hs _ _ _ _ Hr'), walk_from_step by lia. cbv zeta. rewrite (index_coarse va s l l) by (lia || done).
  destruct (Z.ltb_spec l 3) as [Hl3|]; [|done]. cbn [andb].
  by destruct (Z.eqb_spec (pte_type (rdw m (T + 8 * pte_index s l))) PTE_TYPE_TABLE) as [Et|]; [destruct (Ht Hl3)|].
Qed.

(** The descriptor of a chunk may be changed: it is in use, or it was reached before. *)
Definition settable (m : mem) (s l0 : Z) : Prop :=
  translate start m root s <> None /\ (W m s).1 <= l0 \/ (W m s).1 = l0 /\ good_leaf l0 (W m s).2.

(** What changing the chunk of level [l0] at [s] does. *)
Record chunk_set (flag : bool) (attrs : Z) (m : mem) (s l0 : Z) (m' : mem) : Prop := {
  cs_in : exists v, good_leaf l0 v /\ ((W m s).1 = l0 -> v = (W m s).2) /\
    forall va, s <= va < s + lsize l0 -> W m' va = (l0, upd flag attrs v) /\ decode va (l0, v) = translate start m root va;
  cs_out : forall va, 0 <= va < limit -> ~ s <= va < s + lsize l0 -> translate start m' root va = translate start m root va /\
    (W m' va = W m va \/ (W m s).1 <> l0 /\ exists l', 1 <= l' < l0 /\ va / lsize l' = s / lsize l' /\ (W m va).1 <= l' /\ (W m' va).1 = l' + 1)
}.

(** A level that fits. *)
Lemma set_one_here m s z attrs flag l0 gd2 m2 :
  0 <= s < limit -> 1 <= l0 <= 3 -> s mod lsize l0 = 0 -> is_aligned s z (lsize l0) = true ->
  settable m s l0 -> going m s l0 l0 gd2 m2 ->
  returns_or NO_RAM (set_one_region mem_map s z attrs flag l0 gd2 m2) (fun '(gd3, m3, r) =>
    r = lsize l0 /\ (exists G3, pg_ok G3 gd3 m3) /\ chunk_set flag attrs m s l0 m3).
Proof.
  intros Hs Hl0 Hsa Hal Hok [(G2 & T2 & Hk & Hr) Htr Hw Hst Hlev]. unfold set_one_region.
  rewrite (find_pte_reach mem_map root o G2 gd2 m2 s T2 l0 Hk Hs Hr). cbn [obind]. rewrite shiftl_lsize by lia. rewrite Hal.
  pose proof (reach_level m2 s T2 l0 Hr) as Hge. assert ((W m2 s).1 = l0) as El by lia.
  pose proof (path_end m2 s T2) as Hv. rewrite El in Hv. specialize (Hv Hr). set (pte := T2 + 8 * pte_index s l0) in *.
  assert (good_leaf l0 (rdw m2 pte)) as Hg.
  { rewrite Hv. destruct Hok as [[Ht _]|[E Hg]]; [|by rewrite (Hst E)].
    rewrite <- Htr in Ht by done. destruct (valid_good G2 gd2 m2 s Hk Hs Ht) as (_ & Hg & _). by rewrite El in Hg. }
  right. destruct (attr_store G2 gd2 m2 s T2 l0 flag attrs Hk Hs Hr Hl0 Hg) as (m3 & E3 & Hk3 & Hin & Hout). fold pte in E3, Hin.
  exists (gd2, m3, lsize l0). split.
  { fold (attr_mask flag). revert E3. destruct (load64 m2 pte) as [w| | |]; cbn [obind]; try done.
    destruct (store64 m2 pte _) as [m4| | |]; cbn [obind]; try done. destruct (load64 m4 pte) as [w'| | |]; cbn [obind]; try done.
    by intros ->. }
  split; [done|]. split; [by exists G2|]. split.
  - exists (rdw m2 pte). split; [done|]. split; [intros E; rewrite Hv; by rewrite (Hst E)|]. intros va Hva.
    apply (in_block va s l0 Hl0 Hsa) in Hva as Hb. split; [by apply Hin|]. rewrite <- Htr.
    + unfold translate. rewrite (walk_leaf m2 s T2 l0 va Hr Hb); [done|]. intros Hl3. destruct Hg as [_ Hg]. destruct (Hg Hl3) as [Hty _].
      fold pte. unfold PTE_TYPE_TABLE. lia.
    + apply (chunk_limit va s l0); done.
  - intros va Hva Hn. rewrite <- (in_block va s l0 Hl0 Hsa) in Hn. rewrite <- Htr by done. unfold translate. rewrite (Hout va Hva Hn).
    split; [done|]. destruct (Hw va Hva) as [->|H]; [by left|]. destruct (decide ((W m s).1 = l0)) as [E|E]; [left; by rewrite (Hst E)|by right].
Qed.

(** What is left of a region. *)
Record rest (s z : Z) : Prop := {
  rs_start : 0 <= s /\ s mod 4096 = 0;
  rs_size : 0 <= z /\ z mod 4096 = 0 /\ s + z <= limit
}.

Lemma chunk_fits s z : rest s z -> 0 < z -> 4096 <= lsize (clevel s z) <= z /\ (4096 | lsize (clevel s z)).
Proof.
  intros [[S1 S2] (Z1 & Z2 & Z3)] Hz. destruct (clevel_spec s z S2 Z2) as (Hl & _ & _ & _ & Hm).
  pose proof (lsize_pos (clevel s z) ltac:(lia)) as Hp. split; [|by apply lsize_div]. split.
  - destruct (lsize_cases (clevel s z) ltac:(lia)) as [[? ->]|[[? ->]|[[? ->]|[? ->]]]]; lia.
  - apply Z.divide_pos_le; [done|]. apply Z.mod_divide; [lia|done].
Qed.

Lemma rest_next s z : rest s z -> 0 < z -> rest (s + lsize (clevel s z)) (z - lsize (clevel s z)).
Proof.
  intros Hr Hz. destruct (chunk_fits s z Hr Hz) as [Hf [k Hk]]. destruct Hr as [[S1 S2] (Z1 & Z2 & Z3)].
  split; [split; [lia|]|split; [lia|split; [|lia]]]; rewrite Hk; dlia.
Qed.

Lemma set_region_step_spec G gd m s z attrs flag :
  pg_ok G gd m -> rest s z -> 0 < z -> settable m s (clevel s z) ->
  returns_or NO_RAM (set_region_step mem_map s z attrs flag gd m) (fun '(gd', m', r) =>
    r = lsize (clevel s z) /\ (exists G', pg_ok G' gd' m') /\ chunk_set flag attrs m s (clevel s z) m').
Proof.
  intros Hk Hrest Hz Hok. pose proof (start_range mem_map) as Hst. pose proof Hrest as [[S1 S2] (Z1 & Z2 & Z3)].
  assert (0 <= s < limit) as Hs by lia. destruct (clevel_spec s z S2 Z2) as (Hl & Hal & Hnal & Hsa & _).
  set (l0 := clevel s z) in *. unfold set_region_step.
  apply (returns_or_while _ (fun '(l, gd2, m2) => 1 <= l <= l0 /\ going m s l0 l gd2 m2) (fun '(l, _, _) => Z.to_nat (4 - l))).
  - intros [[l gd2] m2] [Hlr Hg]. destruct (Z.ltb_spec l 4); [|lia]. destruct (decide (l = l0)) as [->|Hne].
    + eapply returns_or_bind; [exact (set_one_here m s z attrs flag l0 gd2 m2 Hs Hl Hsa Hal Hok Hg)|].
      intros [[gd3 m3] r] (-> & HG & Hc). pose proof (lsize_pos l0 ltac:(lia)).
      destruct (Z.eqb_spec (lsize l0) 0); [lia|]. by apply returns_or_ok.
    + assert (translate start m root s <> None \/ (W m s).1 = l0) as Hok' by (destruct Hok as [[? _]|[? _]]; auto).
      eapply returns_or_bind; [exact (set_one_deeper m s z attrs flag l0 l gd2 m2 Hs ltac:(lia) ltac:(lia) (Hnal l ltac:(lia)) Hok' Hg)|].
      intros [[gd3 m3] r] (-> & Hg3). apply returns_or_ok. split; [|lia]. split; [lia|done].
  - split; [lia|]. destruct (walk_end m s) as (T & HlT & HrT & _).
    assert (1 <= (W m s).1 <= l0) as Hlw.
    { destruct Hok as [[Ht Hle]|[E _]]; [|lia]. destruct (valid_good G gd m s Hk Hs Ht) as [Hv _]. lia. }
    destruct (reach_le m s T _ 1 HrT ltac:(lia)) as (T1 & Hr1). split; [by exists G, T1|by intros va|by left|done|lia].
  - lia.
Qed.

(** The chunks of a region: where each starts, and its level. *)
Fixpoint chunks (n : nat) (s z : Z) : list (Z * Z) :=
  match n with
  | O => []
  | S n => if z <=? 0 then [] else let l := clevel s z in (s, l) :: chunks n (s + lsize l) (z - lsize l)
  end.

Definition region_chunks (s z : Z) : list (Z * Z) := chunks (Z.to_nat (z / 4096)) s z.

Lemma region_chunks_step s z : rest s z -> 0 < z ->
  region_chunks s z = (s, clevel s z) :: region_chunks (s + lsize (clevel s z)) (z - lsize (clevel s z)).
Proof.
  intros Hr Hz. destruct (chunk_fits s z Hr Hz) as [Hf [k Hk]]. destruct Hr as [[S1 S2] (Z1 & Z2 & Z3)].
  assert (forall n n' s z, z mod 4096 = 0 -> s mod 4096 = 0 -> z / 4096 <= Z.of_nat n -> z / 4096 <= Z.of_nat n' -> chunks n s z = chunks n' s z) as Hn.
  { clear. induction n as [|n IH]; intros [|n'] s z Hm Hsm H1 H2; cbn [chunks]; [done| | |]; destruct (Z.leb_spec z 0); try done; try dlia.
    destruct (clevel_spec s z Hsm Hm) as (Hl & _). destruct (lsize_div (clevel s z) ltac:(lia)) as [_ [k Hk]].
    pose proof (lsize_pos (clevel s z) ltac:(lia)). f_equal. apply IH; rewrite Hk; dlia. }
  unfold region_chunks at 1. destruct (Z.to_nat (z / 4096)) as [|n] eqn:En; [dlia|]. cbn [chunks]. destruct (Z.leb_spec z 0); [lia|].
  f_equal. apply Hn; rewrite ?Hk; dlia.
Qed.

(** Every address of the region is in exactly one chunk; the others come later. *)
Lemma region_chunks_in n s z c l :
  rest s z -> (c, l) ∈ chunks n s z -> s <= c /\ c + lsize l <= s + z /\ 1 <= l <= 3 /\ c mod lsize l = 0.
Proof.
  revert s z. induction n as [|n IH]; intros s z Hr Hin; cbn [chunks] in Hin; [by apply elem_of_nil in Hin|].
  destruct (Z.leb_spec z 0); [by apply elem_of_nil in Hin|]. destruct (chunk_fits s z Hr ltac:(lia)) as [Hf _].
  pose proof Hr as [[S1 S2] (Z1 & Z2 & Z3)]. destruct (clevel_spec s z S2 Z2) as (Hl & _ & _ & Hsa & _).
  apply elem_of_cons in Hin as [[= -> ->]|Hin]; [repeat split; lia|].
  destruct (IH _ _ (rest_next s z Hr ltac:(lia)) Hin) as (A & B & C & D). split; [lia|]. split; [lia|done].
Qed.
End attr.
