(* ===== verification/PgSpace.v ===== *)
(** * Translation tables: the space reserved for them is enough

    The tables in use are accounted for by a list of nodes, a level and a
    first address each.  When the regions of the map do not overlap, every
    table created is needed by a region and is created once, so that the list
    is contained in the one [count_required_pts] counts and [create_table]
    never finds the space used up. *)

From S2P Require Import Prelude CMem Str StrFacts StrSafe Console Words PgTable PgWalk PgMap PgSetup PgCount PgTheorems PgAttr PgAttrFacts.

Local Open Scope Z_scope.
Local Open Scope c_scope.

(** Regions without common addresses. *)
Definition apart_regions (r r' : mm_region) : Prop :=
  virt r + mm_size r <= virt r' \/ virt r' + mm_size r' <= virt r.

Fixpoint regions_apart (l : list mm_region) : Prop :=
  match l with
  | [] => True
  | r :: l => Forall (apart_regions r) l /\ regions_apart l
  end.

(** ** Where the construction of one region stands *)

(** A level fits when a block of it can be written at [v]. *)
Definition fits (v size l : Z) : Prop := lsize l <= size /\ v mod lsize l = 0.

(** [v] lies inside a block only if the region begins or ends in that block. *)
Definition steady (S E v : Z) : Prop :=
  forall l, 1 <= l <= 3 -> v mod lsize l = 0 \/ block_base v l < S \/ E < block_base v l + lsize l.

Lemma steady_start S E : steady S E S.
Proof.
  intros l Hl. pose proof (block_base_spec S l ltac:(lia)) as [_ H]. unfold block_base in *. lia.
Qed.

Lemma steady_next S E v k :
  steady S E v -> 1 <= k <= 3 -> v mod lsize k = 0 -> v + lsize k <= E ->
  (forall l, 1 <= l < k -> ~ fits v (E - v) l) -> steady S E (v + lsize k).
Proof.
  intros Hst Hk Hv Hfit Hno l Hl. pose proof (lsize_pos k ltac:(lia)) as Hpk. pose proof (lsize_pos l ltac:(lia)) as Hpl.
  apply Z.mod_divide in Hv; [|lia]. destruct (decide (k <= l)) as [Hkl|Hkl].
  { left. apply Z.mod_divide; [lia|]. pose proof (lsize_divide k l Hkl ltac:(lia)) as Hd.
    apply Z.divide_add_r; [by etransitivity|done]. }
  destruct (block_base_spec v l ltac:(lia)) as [Hb Hin]. set (B := block_base v l) in *.
  assert (v + lsize k <= B + lsize l) as Hle.
  { apply (block_nest v k B l); [lia|lia|done|done|lia]. }
  destruct (decide (v + lsize k = B + lsize l)) as [E'|Hne].
  { left. rewrite E'. apply Z.mod_divide; [lia|]. apply Z.divide_add_r; [done|apply Z.divide_refl]. }
  right. rewrite <- (block_base_unique (v + lsize k) l B) by (done || lia).
  specialize (Hno l ltac:(lia)). unfold fits in Hno.
  destruct (Hst l Hl) as [Ha|Hr]; [|by fold B in Hr]. right. assert (B = v) by (unfold B, block_base; lia). lia.
Qed.

(** A level that does not fit needs a table. *)
Lemma misfit_splits r v size l :
  steady (virt r) (virt r + mm_size r) v -> virt r <= v -> v + size = virt r + mm_size r -> 0 < size -> 1 <= l <= 3 ->
  ~ fits v size l -> splits r l (block_base v l).
Proof.
  intros Hst H1 H2 H3 Hl Hno. destruct (block_base_spec v l ltac:(lia)) as [_ Hin].
  split; [lia|]. split; [lia|]. split; [lia|]. unfold fits in Hno. destruct (Hst l Hl) as [Ha|Hr]; [|lia].
  assert (block_base v l = v) by (unfold block_base; lia). lia.
Qed.

Lemma root_splits r v : virt r <= v < virt r + mm_size r -> splits r 0 (block_base v 0).
Proof. intros H. destruct (block_base_spec v 0 ltac:(lia)) as [_ Hin]. split; [lia|]. split; [lia|]. split; [lia|]. lia. Qed.

(** Where a block fits, no region before splits it. *)
Lemma fits_unsplit r r' v l :
  virt r <= v -> v + lsize l <= virt r + mm_size r -> r' = r \/ apart_regions r' r -> 1 <= l -> ~ splits r' l v.
Proof. intros H1 H2 H3 Hl (H4 & H5 & H6 & H7). destruct H3 as [->|H3]; [lia|]. unfold apart_regions in H3. lia. Qed.

Section space.
Context (mem_map : list mm_region) (root : Z) (o : origin) (Need : list (Z * Z)).
Local Abbreviation start := (start_level mem_map).
Local Abbreviation limit := (va_limit start).
Local Abbreviation pg_ok := (pg_ok mem_map root o).
Local Abbreviation W m va := (walk_from m root start va).

(** The space holds all tables that may be needed. *)
Context (Hneed : forall r L va, r ∈ active mem_map -> start <= L <= 2 -> 0 <= va < limit ->
                   splits r L (block_base va L) -> (L + 1, block_base va L) ∈ Need).
Context (Hroom : 4096 * Z.of_nat (length Need) <= og_size o).

(** The tables in use, one node each: the node of [va] at level [l] is in the
    list exactly when the walk for [va] gets to that level. *)
Record acct (dn : list mm_region) (nodes : list (Z * Z)) (gd : arch_gd) (m : mem) : Prop := {
  ac_fill : tlb_fillptr gd = root + 4096 * Z.of_nat (length nodes);
  ac_nodup : NoDup nodes;
  ac_walk : forall va l, 0 <= va < limit -> start <= l <= 3 ->
    (l, block_base va (l - 1)) ∈ nodes <-> l <= (W m va).1;
  ac_need : forall l b, (l, b) ∈ nodes -> (l, b) ∈ Need /\ ((l, b) = (start, 0) \/ exists r, r ∈ dn /\ splits r (l - 1) b)
}.

Lemma acct_room dn nodes gd m n :
  acct dn nodes gd m -> n ∈ Need -> n ∉ nodes -> tlb_fillptr gd + 4096 <= root + og_size o.
Proof.
  intros [Hf Hn _ Hd] Hin Hout. rewrite Hf.
  assert (n :: nodes ⊆+ Need) as Hsub.
  { apply NoDup_submseteq; [by apply NoDup_cons|]. intros [l b] [->|H]%elem_of_cons; [done|by apply Hd]. }
  apply submseteq_length in Hsub. simpl in Hsub. lia.
Qed.

(** [create_table] with room. *)
Lemma create_table_room gd m msg :
  arena root o gd m -> tlb_fillptr gd + 4096 <= root + og_size o -> create_table gd m <> Panic msg.
Proof.
  clear Hneed Hroom Need. intros Ha Hle. pose proof Ha as [(Er & H1 & H2) (H3 & H4) H5 Hm _ [Es _]]. rewrite Es in *.
  unfold create_table. change (MAX_PTE_ENTRIES * 8) with 4096. cbn [tlb_size tlb_fillptr tlb_addr tlb_emerg]. rewrite Er, Es.
  assert (u64 (tlb_fillptr gd + 4096) = tlb_fillptr gd + 4096) as -> by (apply u64_small; lia). rewrite u64_small by lia.
  destruct (Z.ltb_spec (og_size o) (tlb_fillptr gd + 4096 - root)); [lia|].
  rewrite memset_write by (first [lia | eapply mapped_sub; [exact Hm|lia|lia]]). done.
Qed.

(** The node a new table at level [l + 1] gets is new and needed. *)
Lemma acct_fresh dn nodes gd m va T l :
  acct dn nodes gd m -> 0 <= va < limit -> reach root start m va T l -> l < 3 ->
  pte_type (rdw m (T + 8 * pte_index va l)) <> PTE_TYPE_TABLE -> (l + 1, block_base va l) ∉ nodes.
Proof.
  intros Ha Hva Hr Hl Ht Hin. pose proof Hr as [Hl' _]. replace l with (l + 1 - 1) in Hin at 2 by lia.
  apply (ac_walk _ _ _ _ Ha va (l + 1) Hva ltac:(lia)) in Hin.
  destruct Ht. apply (path_table mem_map root m va T l Hr). lia.
Qed.

(** Making a table for the descriptor of [va0] at level [l]. *)
Lemma acct_deepened dn nodes gd m va0 l gd' m' r :
  acct dn nodes gd m -> deepened mem_map root o gd m va0 l gd' m' -> 0 <= va0 < limit -> start <= l < 3 ->
  r ∈ active mem_map -> r ∈ dn -> splits r l (block_base va0 l) -> exists nodes', acct dn nodes' gd' m'.
Proof.
  intros Ha (G' & T' & Hk' & Hr' & _ & Hw & _ & Hgd) Hva0 Hl Hr Hdn Hsp. pose proof (start_range mem_map) as Hs.
  destruct Hgd as [[-> ->]|[-> Hnot]]; [by exists nodes|].
  set (n := (l + 1, block_base va0 l)).
  assert (forall va, 0 <= va < limit -> va / lsize l = va0 / lsize l -> (W m va).1 <= l /\ (W m' va).1 = l + 1) as Hin.
  { intros va Hva E. assert (l + 1 <= (W m' va).1) as Hge.
    { apply (reach_level mem_map root m' va T'), (reach_ext root start Hs m' m' va0 va T' (l + 1) Hr'); [done|].
      intros l' Hl'. apply (index_coarse va va0 l l'); [lia|lia|done]. }
    assert ((W m va).1 <= l) as Hle.
    { destruct (decide ((W m va).1 <= l)) as [|Hgt]; [done|]. destruct (walk_end mem_map root m va) as (T1 & Hl1 & Hr1 & _).
      destruct (reach_le mem_map root m va T1 _ (l + 1) Hr1 ltac:(lia)) as (T2 & Hr2). destruct (Hnot T2).
      apply (reach_ext root start Hs m m va va0 T2 (l + 1) Hr2); [done|]. intros l' Hl'. apply (index_coarse va0 va l l'); [lia|lia|done]. }
    split; [done|]. destruct (Hw va Hva) as [E'|(_ & _ & E')]; [rewrite E' in Hge; lia|done]. }
  assert (n ∉ nodes) as Hn.
  { unfold n. intros Hc. replace l with (l + 1 - 1) in Hc at 2 by lia.
    apply (ac_walk _ _ _ _ Ha va0 (l + 1) Hva0 ltac:(lia)) in Hc. destruct (Hin va0 Hva0 eq_refl). lia. }
  exists (n :: nodes). split.
  - cbn [filled tlb_fillptr length]. rewrite (ac_fill _ _ _ _ Ha). lia.
  - apply NoDup_cons. split; [done|apply (ac_nodup _ _ _ _ Ha)].
  - intros va l' Hva Hl'. rewrite elem_of_cons, (ac_walk _ _ _ _ Ha va l' Hva Hl'). unfold n.
    destruct (decide (va / lsize l = va0 / lsize l)) as [E|E].
    + destruct (Hin va Hva E) as [H1 H2]. rewrite H2. split; [intros [[= -> _]|]; lia|]. intros Hle.
      destruct (decide (l' = l + 1)) as [->|]; [left; replace (l + 1 - 1) with l by lia; f_equal; by apply block_base_eq; [lia|]|right].
      destruct (Hw va Hva) as [E'|(_ & E' & _)]; [rewrite E' in H2|]; lia.
    + destruct (Hw va Hva) as [->|(E' & _)]; [|done]. split; [|by right]. intros [[= -> E']|]; [|done].
      replace (l + 1 - 1) with l in E' by lia. apply block_base_eq in E'; [done|lia].
  - intros l' b [[= -> ->]|Hc]%elem_of_cons; [|by apply (ac_need _ _ _ _ Ha)].
    split; [by apply (Hneed r); [|lia|done|]|]. right. exists r. split; [done|]. by replace (l + 1 - 1) with l by lia.
Qed.

(** Walks that end at the same levels. *)
Lemma acct_same_levels dn nodes gd m m' :
  acct dn nodes gd m -> (forall va, 0 <= va < limit -> (W m' va).1 = (W m va).1) -> acct dn nodes gd m'.
Proof. intros [H1 H2 H3 H4] Hw. split; [done|done| |done]. intros va l Hva Hl. rewrite (Hw va Hva). by apply H3. Qed.

(** Writing a block or a page where there was no table. *)
Lemma acct_leaf G dn nodes gd m m' v T l :
  pg_ok G gd m -> acct dn nodes gd m -> 0 <= v < limit -> reach root start m v T l -> 1 <= l <= 3 ->
  (l < 3 -> pte_type (rdw m (T + 8 * pte_index v l)) <> PTE_TYPE_TABLE) ->
  (l < 3 -> pte_type (rdw m' (T + 8 * pte_index v l)) <> PTE_TYPE_TABLE) ->
  unchanged (span_of (T + 8 * pte_index v l) 8) m m' -> acct dn nodes gd m'.
Proof.
  intros Hk Ha Hv Hr Hl Ht Ht' HU. pose proof (start_range mem_map) as Hs. pose proof Hk as [HI _].
  apply (acct_same_levels dn nodes gd m m' Ha). intros va Hva.
  destruct (decide (va / lsize l = v / lsize l)) as [E|E].
  - rewrite (walk_leaf mem_map root m v T l va Hr E Ht).
    rewrite (walk_leaf mem_map root m' v T l va); [done| |done|done].
    by apply (store_same root start Hs G _ m m' v T l HI Hv Hr HU).
  - by rewrite (store_other root start Hs G _ m m' v T l HI Hv Hr HU).
Qed.

(** ** The construction of one region *)

Section region.
(** [r] is being mapped, after the other regions of [dn]. *)
Context (dn : list mm_region) (r : mm_region).
Context (Hact : r ∈ active mem_map) (Hdn : r ∈ dn) (Hapart : forall r', r' ∈ dn -> r' = r \/ apart_regions r' r).

(** [v] is the next address. *)
Record underway (v phys size x : Z) : Prop := {
  uw_todo : todo mem_map v phys size x;
  uw_end : virt r <= v /\ v + size = virt r + mm_size r;
  uw_steady : steady (virt r) (virt r + mm_size r) v
}.

Lemma fits_no_table nodes gd m v size T l :
  acct dn nodes gd m -> 0 <= v < limit -> virt r <= v -> v + size = virt r + mm_size r -> fits v size l ->
  reach root start m v T l -> 1 <= l -> l < 3 -> pte_type (rdw m (T + 8 * pte_index v l)) <> PTE_TYPE_TABLE.
Proof.
  intros Ha Hv H1 H2 [Hf1 Hf2] Hr Hl Hl3 Ht. pose proof (start_range mem_map) as Hs.
  pose proof (reach_level mem_map root m v _ _ (reach_next root start m v T l Hr Hl3 Ht)) as Hge.
  assert (block_base v l = v) as Eb by (unfold block_base; lia).
  apply (ac_walk _ _ _ _ Ha v (l + 1) Hv ltac:(lia)) in Hge. replace (l + 1 - 1) with l in Hge by lia. rewrite Eb in Hge.
  destruct (ac_need _ _ _ _ Ha _ _ Hge) as [_ [[= E _]|(r' & Hr' & Hsp)]]; [lia|].
  replace (l + 1 - 1) with l in Hsp by lia. revert Hsp. apply (fits_unsplit r r' v l); [lia|lia|by apply Hapart|lia].
Qed.

(** A new table for a descriptor that is no pointer. *)
Lemma table_room G nodes gd m v T l :
  pg_ok G gd m -> acct dn nodes gd m -> 0 <= v < limit -> reach root start m v T l -> l < 3 ->
  pte_type (rdw m (T + 8 * pte_index v l)) <> PTE_TYPE_TABLE -> splits r l (block_base v l) ->
  create_table gd m <> Panic NO_RAM.
Proof.
  intros Hk Ha Hv Hr Hl3 Ht Hsp. pose proof Hr as [Hl _]. apply create_table_room; [apply (po_arena _ _ _ _ _ _ Hk)|].
  apply (acct_room dn nodes gd m (l + 1, block_base v l)); [done|by apply (Hneed r); [|lia|done|]|by apply (acct_fresh dn nodes gd m v T)].
Qed.

Lemma deeper_room G nodes gd m v T l :
  let pte := T + 8 * pte_index v l in
  pg_ok G gd m -> acct dn nodes gd m -> 0 <= v < limit -> reach root start m v T l -> 1 <= l < 3 ->
  splits r l (block_base v l) ->
  returns
    (let! w := load64 m pte in
     if pte_type w =? PTE_TYPE_FAULT then
       let! '(gd, m, new_table) := create_table gd m in
       let! m := set_pte_table pte new_table m in
       Ok (gd, m, false)
     else if pte_type w =? PTE_TYPE_BLOCK then
       let! '(gd, m) := split_block pte l gd m in
       Ok (gd, m, false)
     else Ok (gd, m, false))
    (fun '(gd', m', b) => b = false /\ exists nodes', acct dn nodes' gd' m').
Proof.
  intros pte Hk Ha Hv Hr Hl Hsp.
  destruct (add_map_level_deeper mem_map root o G gd m v T l Hk Hv Hr ltac:(lia) ltac:(lia)) as [Hp|H].
  - exfalso. revert Hp. fold pte. pose proof (reach_mapped mem_map root o _ _ _ _ _ _ Hk Hv Hr) as Hm. fold pte in Hm.
    rewrite (load64_rdw _ _ Hm). cbn [obind].
    destruct (Z.eqb_spec (pte_type (rdw m pte)) PTE_TYPE_FAULT) as [Et|Et].
    { assert (create_table gd m <> Panic NO_RAM) as Hc by (apply (table_room G nodes gd m v T l); try done; [lia|by fold pte; rewrite Et]).
      destruct (fault_table mem_map root o G gd m v T l Hk Hv Hr ltac:(lia) Et) as [|(m1 & m2 & -> & E2 & _)]; [done|].
      fold pte in E2. cbn [obind]. by rewrite E2. }
    destruct (Z.eqb_spec (pte_type (rdw m pte)) PTE_TYPE_BLOCK) as [Eb|Eb]; [|done].
    assert (create_table gd m <> Panic NO_RAM) as Hc by (apply (table_room G nodes gd m v T l); try done; [lia|by fold pte; rewrite Eb]).
    destruct (split_table mem_map root o G gd m v T l Hk Hv Hr ltac:(lia) Eb) as [[E2 _]|(m2 & E2 & _)]; [done|]. fold pte in E2. by rewrite E2.
  - eapply returns_mono; [exact H|]. intros [[gd' m'] b] [-> Hd]. split; [done|]. pose proof Hr as [Hl' _].
    by apply (acct_deepened dn nodes gd m v l gd' m' r Ha Hd Hv ltac:(lia)).
Qed.

(** One level. *)
Lemma add_map_level_room G nodes gd m v phys size x T l :
  pg_ok G gd m -> acct dn nodes gd m -> underway v phys size x -> 0 < size -> reach root start m v T l -> 1 <= l <= 3 ->
  returns (add_map_level mem_map v phys size x l gd m) (fun '(gd', m', b) =>
    (if b : bool then fits v size l else ~ fits v size l) /\ exists nodes', acct dn nodes' gd' m').
Proof.
  intros Hk Ha [Htd [Hv1 Hv2] Hst] Hsz Hr Hl. pose proof Htd as [(V1 & V2) (S1 & S2 & S3) (P1 & P2 & P3) Hx].
  assert (0 <= v < limit) as Hva by lia. unfold add_map_level.
  rewrite (find_pte_reach mem_map root o G gd m v T l Hk Hva Hr). cbn [obind].
  pose proof (reach_mapped mem_map root o _ _ _ _ _ _ Hk Hva Hr) as Hm.
  destruct (Z.eqb_spec (T + 8 * pte_index v l) NULL) as [E0|_].
  { exfalso. destruct (add_map_level_spec mem_map root o G gd m v phys size x T l Hk Htd Hsz Hr Hl) as [Hp|(? & Hp & _)];
      revert Hp; unfold add_map_level; rewrite (find_pte_reach mem_map root o G gd m v T l Hk Hva Hr), E0; done. }
  rewrite shiftl_lsize by lia. unfold lsize at 2. rewrite land_mask by (unfold level2shift; lia). fold (lsize l).
  assert (~ fits v size l -> l < 3) as Hl3.
  { intros Hn. destruct (decide (l = 3)) as [->|]; [|lia]. destruct Hn. unfold fits. change (lsize 3) with 4096. dlia. }
  assert (~ fits v size l -> splits r l (block_base v l)) as Hsp by by apply misfit_splits.
  destruct (decide (fits v size l)) as [Hf|Hf].
  - pose proof Hf as [F1 F2]. destruct (Z.leb_spec (lsize l) size); [|lia]. destruct (Z.eqb_spec (v mod lsize l) 0); [|lia]. cbn [andb].
    assert (phys mod 4096 = 0) as Hp4.
    { apply Z.mod_divide; [lia|]. pose proof (phys_aligned v phys l Hl P3 F2) as Hpa. apply Z.mod_divide in Hpa; [|pose proof (lsize_pos l ltac:(lia)); lia].
      etransitivity; [apply lsize_div; exact Hl|exact Hpa]. }
    pose proof (leaf_value_lor phys x l Hx ltac:(lia) Hp4) as Ev.
    eapply (returns_bind _ _ (fun m' => acct dn nodes gd m')); [|intros m' Ha'; apply returns_ok; split; [done|by exists nodes]].
    assert (returns (store64 m (T + 8 * pte_index v l) (leaf_value phys x l)) (fun m' => acct dn nodes gd m')) as (m' & E & H');
      [|exists m'; split; [|done]; rewrite <- Ev in E; by destruct (l =? 3)].
    eapply returns_mono; [by apply store64_spec|]. intros m' [HU E'].
    apply (acct_leaf G dn nodes gd m m' v T l); try done.
    + intros Hlt. by apply (fits_no_table nodes gd m v size T l); [| | | | | |lia|].
    + intros Hlt. rewrite E', pte_type_mod. unfold leaf_value, PTE_TYPE_TABLE. destruct (Z.eqb_spec l 3); [lia|].
      destruct Hx as [_ Hx2 _]. dlia.
  - replace ((lsize l <=? size) && (v mod lsize l =? 0)) with false.
    + eapply returns_mono; [apply (deeper_room G nodes gd m v T l Hk Ha Hva Hr); [specialize (Hl3 Hf); lia|by apply Hsp]|].
      by intros [[gd' m'] b] [-> H].
    + symmetry. apply andb_false_iff. unfold fits in Hf. destruct (Z.leb_spec (lsize l) size); [right|by left].
      apply Z.eqb_neq. tauto.
Qed.

(** The level 0 table. *)
Lemma add_map_root_room G nodes gd m v :
  pg_ok G gd m -> acct dn nodes gd m -> 0 <= v < limit -> virt r <= v < virt r + mm_size r ->
  returns (add_map_root mem_map v gd m) (fun '(gd', m') => exists nodes', acct dn nodes' gd' m').
Proof.
  intros Hk Ha Hva Hin. unfold add_map_root. pose proof (start_range mem_map) as Hs.
  assert (reach root start m v root start) as Hr by by apply reach_root.
  destruct (decide (start = 1)) as [E1|E1].
  { rewrite find_pte_below by lia. cbn [obind]. apply returns_ok. by exists nodes. }
  assert (start = 0) as E0 by lia. rewrite E0 in Hr at 2.
  rewrite (find_pte_reach mem_map root o G gd m v root 0 Hk Hva Hr). cbn [obind].
  pose proof (reach_mapped mem_map root o _ _ _ _ _ _ Hk Hva Hr) as Hm.
  set (pte := root + 8 * pte_index v 0) in *. destruct (pte =? NULL); [apply returns_ok; by exists nodes|].
  rewrite (load64_rdw _ _ Hm). cbn [obind].
  destruct (Z.eqb_spec (pte_type (rdw m pte)) PTE_TYPE_FAULT) as [Et|Et]; [|apply returns_ok; by exists nodes].
  assert (create_table gd m <> Panic NO_RAM) as Hc.
  { apply (table_room G nodes gd m v root 0); try done; [by fold pte; rewrite Et|by apply root_splits]. }
  destruct (fault_table mem_map root o G gd m v root 0 Hk Hva Hr ltac:(lia) Et) as [|(m1 & m2 & -> & E2 & Hd)]; [done|].
  fold pte in E2. cbn [obind]. rewrite E2. cbn [obind]. apply returns_ok.
  by apply (acct_deepened dn nodes gd m v 0 (filled gd) m2 r Ha Hd Hva); [lia| | |apply root_splits].
Qed.

(** One block: the largest that fits. *)
Lemma add_map_step_room G nodes gd m v phys size x :
  pg_ok G gd m -> acct dn nodes gd m -> underway v phys size x -> 0 < size ->
  returns (add_map_step mem_map v phys size x gd m) (fun '(gd', m', bs) =>
    (exists k, 1 <= k <= 3 /\ bs = lsize k /\ fits v size k /\ forall l, 1 <= l < k -> ~ fits v size l) /\
    exists nodes', acct dn nodes' gd' m').
Proof.
  intros Hk Ha Huw Hsz. pose proof Huw as [Htd [Hv1 Hv2] Hst]. pose proof Htd as [(V1 & V2) (S1 & S2 & S3) _ _].
  assert (0 <= v < limit) as Hva by lia. unfold add_map_step.
  eapply returns_bind.
  { eapply returns_or_returns; [exact (add_map_root_spec mem_map root o G gd m v Hk Hva)|].
    by apply (add_map_root_room G nodes); [| | |lia]. }
  intros [gd1 m1] [(G1 & T1 & Hk1 & Hr1 & _) [n1 Ha1]].
  apply (returns_while (fun '(l, gd2, m2) => 1 <= l <= 3 /\ (forall l', 1 <= l' < l -> ~ fits v size l') /\
           exists G2 T2, pg_ok G2 gd2 m2 /\ reach root start m2 v T2 l /\ exists n2, acct dn n2 gd2 m2) (fun '(l, _, _) => Z.to_nat (4 - l)));
    [|split; [lia|split; [intros; lia|eauto 10]]|lia].
  intros [[l gd2] m2] (Hl & Hno & G2 & T2 & Hk2 & Hr2 & n2 & Ha2). destruct (Z.ltb_spec l 4); [|lia].
  eapply returns_bind.
  { eapply returns_or_returns; [exact (add_map_level_spec mem_map root o G2 gd2 m2 v phys size x T2 l Hk2 Htd Hsz Hr2 Hl)|].
    by apply (add_map_level_room G2 n2 gd2 m2 v phys size x T2 l). }
  intros [[gd3 m3] [|]] [H3 [Hf Ha3]]; apply returns_ok.
  - rewrite shiftl_lsize by lia. split; [by exists l|done].
  - destruct H3 as (Hl3 & G3 & T3 & Hk3 & Hr3 & _). split; [|lia]. split; [lia|]. split; [|eauto 10].
    intros l' Hl'. destruct (decide (l' = l)) as [->|]; [done|]. apply Hno. lia.
Qed.

(** The region. *)
Lemma add_map_room G nodes gd m :
  pg_ok G gd m -> acct dn nodes gd m -> todo mem_map (virt r) (phys r) (mm_size r) (block_attrs r) ->
  returns (add_map mem_map r gd m) (fun '(gd', m') => exists nodes', acct dn nodes' gd' m').
Proof.
  intros Hk Ha Htd. unfold add_map. fold (block_attrs r).
  pose proof (limit_48 mem_map) as Hlim. pose proof Htd as [_ (_ & S2 & _) _ _].
  apply (returns_while (fun '(v, p, s, gd1, m1) => underway v p s (block_attrs r) /\
           exists G1 n1, pg_ok G1 gd1 m1 /\ acct dn n1 gd1 m1)
         (fun '(_, _, s, _, _) => Z.to_nat (s / 4096))).
  - intros [[[[v p] s] gd1] m1] (Huw & G1 & n1 & Hk1 & Ha1).
    destruct (Z.eqb_spec s 0) as [->|Hs0]; [apply returns_ok; by exists n1|].
    pose proof Huw as [Htd1 [Hv1 Hv2] Hst]. pose proof Htd1 as [(A1 & A2) (A3 & A4 & A5) (A6 & A7 & A8) Hx].
    eapply returns_bind.
    { eapply returns_or_returns; [apply (add_map_step_spec mem_map root o G1 gd1 m1 v p s (block_attrs r) Hk1 Htd1); lia|].
      apply (add_map_step_room G1 n1 gd1 m1 v p s (block_attrs r) Hk1 Ha1 Huw). lia. }
    intros [[gd2 m2] bs] [((G2 & HG2) & Hbs & Hdiv & _) [(k & Hk3 & -> & [F1 F2] & Hno) [n2 Hn2]]]. apply returns_ok.
    apply Z.mod_divide in Hdiv; [|lia]. rewrite !u64_small by lia. split; [|dlia]. split; [|eauto].
    split; [split; [split; [lia|dlia]|split; [lia|split; [dlia|lia]]|split; [lia|split; [lia|]]|done]|lia|].
    + by replace (p + lsize k - (v + lsize k)) with (p - v) by lia.
    + apply steady_next; [done|done|done|lia|]. intros l Hl. replace (virt r + mm_size r - v) with s by lia. by apply Hno.
  - split; [split; [done|lia|apply steady_start]|eauto].
  - lia.
Qed.
End region.

Lemma acct_more dn dn' nodes gd m : acct dn nodes gd m -> dn ⊆ dn' -> acct dn' nodes gd m.
Proof.
  intros [H1 H2 H3 H4] Hs. split; [done|done|done|]. intros l b Hin. destruct (H4 l b Hin) as [A [E|(r & Hr & Hsp)]].
  - split; [done|by left].
  - split; [done|right]. exists r. split; [by apply Hs|done].
Qed.

(** All regions. *)
Lemma add_maps_room dn l G nodes gd m :
  pg_ok G gd m -> acct dn nodes gd m -> dn ++ l ⊆ active mem_map ->
  Forall (fun r => todo mem_map (virt r) (phys r) (mm_size r) (block_attrs r)) l ->
  regions_apart l -> (forall r r', r ∈ l -> r' ∈ dn -> apart_regions r' r) ->
  returns (add_maps mem_map l gd m) (fun '(gd', m') => exists nodes', acct (dn ++ l) nodes' gd' m').
Proof.
  revert dn G nodes gd m. induction l as [|r l IH]; intros dn G nodes gd m Hk Ha Hsub HF Hap Hx; simpl.
  - apply returns_ok. rewrite app_nil_r. by exists nodes.
  - apply list.Forall_cons in HF as [Hr HF]. destruct Hap as [Hr2 Hap].
    assert (acct (dn ++ [r]) nodes gd m) as Ha' by (apply (acct_more dn); [done|set_solver]).
    eapply returns_bind.
    { eapply returns_or_returns; [by apply (add_map_spec mem_map root o G)|].
      apply (add_map_room (dn ++ [r]) r) with (G := G) (nodes := nodes); try done; [set_solver|set_solver|].
      intros r' [Hr'|Hr']%elem_of_app; [right; apply Hx; set_solver|left; set_solver]. }
    intros [gd1 m1] [((G1 & Hk1) & _) (n1 & Ha1)].
    replace (dn ++ r :: l) with ((dn ++ [r]) ++ l) by by rewrite <- app_assoc.
    apply (IH (dn ++ [r]) G1 n1); try done; [set_solver|]. intros r2 r' H2 [Hr'|Hr']%elem_of_app; [apply Hx; set_solver|].
    apply list_elem_of_singleton in Hr' as ->. by apply (proj1 (list.Forall_forall _ _) Hr2).
Qed.
End space.

(** ** The size computed in advance *)

Section whole.
Context (mem_map : list mm_region).
Local Abbreviation start := (start_level mem_map).
Local Abbreviation limit := (va_limit start).
Context (Hmap : Forall (region_ok limit) (active mem_map)).
Context (Hap : regions_apart (active mem_map)) (Hne : active mem_map <> []).

(** The tables [get_page_table_size] counts. *)
Definition required_pts : list (Z * Z) := pts mem_map 5 0 (start - 1) (Z.shiftl 1 (ips_va_bits mem_map).2).

Lemma top_block : cblock 0 (start - 1) /\ lsize (start - 1) = limit.
Proof.
  pose proof (start_range mem_map) as Hs. assert (lsize (start - 1) = limit) as E.
  { unfold va_limit. rewrite lsize_S by lia. by replace (start - 1 + 1) with start by lia. }
  split; [|done]. split; [lia|]. split; [lia|]. split; [apply Z.divide_0_r|]. rewrite E. apply limit_48.
Qed.

Lemma region_below_max r : r ∈ active mem_map -> virt r + mm_size r <= Z.shiftl 1 (ips_va_bits mem_map).2.
Proof.
  intros Hr. pose proof (max_addr_ge mem_map r Hr) as H1. destruct (region_bounds mem_map Hmap r Hr) as (B1 & B2 & B3 & _).
  rewrite u64_small in H1 by lia.
  assert (max_addr mem_map <= 2 ^ 48) as Hm.
  { apply max_addr_le; [|lia]. apply list.Forall_forall. intros r' Hr'. destruct (region_bounds mem_map Hmap r' Hr') as (? & ? & ? & _). lia. }
  pose proof (ips_va_bits_cover mem_map Hm). rewrite Z.shiftl_mul_pow2; [lia|].
  pose proof (ips_va_bits_cases mem_map) as Hc. simpl in Hc. destruct (ips_va_bits mem_map) as [ips vb].
  repeat (destruct Hc as [[= <- <-]|Hc]; [simpl; lia|]). done.
Qed.

Lemma required_complete r L va :
  r ∈ active mem_map -> start <= L <= 2 -> 0 <= va < limit -> splits r L (block_base va L) -> (L + 1, block_base va L) ∈ required_pts.
Proof.
  intros Hr HL Hva Hsp. pose proof (start_range mem_map) as Hs. destruct top_block as [Hb Eb].
  destruct (block_base_spec va L ltac:(lia)) as [Hd Hin]. pose proof (region_below_max r Hr). pose proof Hsp as (_ & _ & He & _).
  assert (0 <= block_base va L).
  { destruct Hd as [q Hq]. rewrite Hq in *. pose proof (lsize_pos L ltac:(lia)). assert (-1 < q) by nia. nia. }
  apply (pts_complete mem_map Hmap 5 0 (start - 1) _ r L); try done; lia.
Qed.

Lemma required_root : (start, 0) ∈ required_pts.
Proof.
  pose proof (start_range mem_map) as Hs. destruct top_block as [Hb Eb]. unfold required_pts. cbn [pts].
  assert (pts_kind 0 (start - 1) (0 + lsize (start - 1)) (active mem_map) PTE_INVAL = PTE_LEVEL) as ->.
  { pose proof (region_bounds mem_map Hmap) as HB. pose proof Hmap as HF. revert HB HF Hne. destruct (active mem_map) as [|r l]; [done|].
    intros HB HF _. cbn [pts_kind]. destruct (HB r) as (B1 & B2 & B3 & _); [set_solver|]. rewrite u64_small by lia. rewrite Eb. assert (virt r + mm_size r <= limit).
    { apply list.Forall_cons in HF as [[_ (_ & _ & ?) _ _] _]. done. }
    destruct (Z.leb_spec (Z.max 0 (virt r)) (Z.min (0 + limit) (virt r + mm_size r))); [|lia].
    case_match; [done|]. by destruct (Z.leb_spec (start - 1) 0); [|lia]. }
  apply elem_of_cons. left. f_equal. lia.
Qed.

Lemma kids_length {X} (f : Z -> list X) n k a sub maxaddr :
  (forall a, (length (f a) <= n)%nat) -> (length (kids f k a sub maxaddr) <= k * n)%nat.
Proof.
  intros Hf. revert a. induction k as [|k IH]; intros a; cbn [kids]; [simpl; lia|]. rewrite length_app. specialize (Hf a).
  case_match; [simpl; lia|]. specialize (IH (a + sub)). lia.
Qed.

Lemma pts_length fuel A l maxaddr : Z.of_nat (length (pts mem_map fuel A l maxaddr)) <= 513 ^ Z.of_nat fuel.
Proof.
  revert A l. induction fuel as [|fuel IH]; intros A l; [simpl; lia|]. cbn [pts].
  rewrite Nat2Z.inj_succ, Z.pow_succ_r by lia. pose proof (Z.pow_pos_nonneg 513 (Z.of_nat fuel) ltac:(lia) ltac:(lia)) as Hp.
  case_match; [simpl; lia|simpl; lia|]. cbn [length].
  pose proof (kids_length (fun a => pts mem_map fuel a (l + 1) maxaddr) (Z.to_nat (513 ^ Z.of_nat fuel)) 512 A (lsize (l + 1)) maxaddr) as Hk.
  assert (length (kids (fun a => pts mem_map fuel a (l + 1) maxaddr) 512 A (lsize (l + 1)) maxaddr) <= 512 * Z.to_nat (513 ^ Z.of_nat fuel))%nat as H'
    by (apply Hk; intros a; specialize (IH a (l + 1)); lia).
  remember (kids _ _ _ _ _) as K. lia.
Qed.

Lemma page_table_size : get_page_table_size mem_map = Ok (8192 * Z.of_nat (length required_pts) + 16384).
Proof.
  unfold get_page_table_size, get_tcr, required_pts. destruct (ips_va_bits mem_map) as [ips vb]. cbn [snd].
  destruct top_block as [Hb _]. pose proof (start_range mem_map) as Hs. rewrite (count_pts mem_map Hmap 5 0 (start - 1) _ Hb) by lia. cbn [obind].
  pose proof (pts_length 5 0 (start - 1) (Z.shiftl 1 vb)) as Hlen. change (513 ^ Z.of_nat 5) with 35529314273793 in Hlen.
  change (MAX_PTE_ENTRIES * 8) with 4096. f_equal. remember (Z.of_nat (length _)) as n.
  rewrite (u64_small (4096 * n)), (u64_small (4096 * n * 2)), u64_small; lia.
Qed.

Lemma setup_pgtables_room gd m :
  space gd m -> 4096 * Z.of_nat (length required_pts) <= tlb_size gd ->
  returns (setup_pgtables mem_map gd m) (fun '(gd', m') =>
    tlb_fillptr gd' <= tlb_addr gd + 4096 * Z.of_nat (length required_pts)).
Proof.
  intros [(A1 & A2) Ef (S1 & S2) Hm] Hroom. unfold setup_pgtables. rewrite Ef.
  destruct (Z.eqb_spec (tlb_addr gd) 0); [lia|]. cbn [orb]. pose proof (start_range mem_map) as Hs.
  set (o := Origin m (tlb_size gd) (tlb_emerg gd)).
  assert (arena (tlb_addr gd) o gd m) as Har.
  { split; [done|split; [lia|congruence]|done|done|apply unchanged_refl|done]. }
  assert (create_table gd m <> Panic NO_RAM) as Hc.
  { apply (create_table_room (tlb_addr gd) o); [done|]. cbn [o og_size]. pose proof required_root as Hin.
    apply list_elem_of_lookup in Hin as [i Hi]. apply lookup_lt_Some in Hi. lia. }
  destruct (create_table_spec _ _ gd m Har) as [|(m1 & -> & Hfit & HU & Hz)]; [done|].
  cbn [obind]. rewrite Ef in *. set (gd1 := ArchGD (tlb_addr gd) (tlb_size gd) (tlb_addr gd + 4096) (tlb_emerg gd)).
  assert (pg_ok mem_map (tlb_addr gd) o {[tlb_addr gd := (start, 0)]} gd1 m1) as Hk1.
  { split.
    - cbn [gd1 tlb_fillptr]. apply empty_table_inv; [exact Hz|done|lia].
    - destruct (arena_unchanged _ _ gd m m1 _ Har HU) as [B1 B2 B3 B4 B5 B6]; [unfold span_of; intros; lia|].
      split; cbn [gd1 tlb_addr tlb_fillptr tlb_size]; [done|split; [lia|dlia]|done|done|done|done]. }
  assert (acct mem_map (tlb_addr gd) required_pts [] [(start, 0)] gd1 m1) as Ha1.
  { split.
    - cbn. lia.
    - apply NoDup_singleton.
    - intros va l Hva Hl. rewrite walk_from_step by lia. cbv zeta. rewrite Hz by (apply pte_index_range; lia).
      change (pte_type 0 =? PTE_TYPE_TABLE) with false. rewrite andb_false_r. cbn [fst]. rewrite list_elem_of_singleton.
      split; [intros [= -> _]; lia|]. intros Hle. assert (l = start) as -> by lia. f_equal.
      destruct top_block as [_ Et]. unfold block_base. rewrite Et, Z.mod_small by done. lia.
    - intros l b [= -> ->]%list_elem_of_singleton. split; [apply required_root|by left]. }
  eapply returns_mono.
  { apply (add_maps_room mem_map (tlb_addr gd) o required_pts required_complete Hroom [] (active mem_map)) with (1 := Hk1) (2 := Ha1);
      [done| |done|set_solver]. eapply list.Forall_impl; [exact Hmap|]. apply region_todo. }
  intros [gd' m'] (nodes & [Hf Hn _ Hd]). rewrite Hf.
  assert (nodes ⊆+ required_pts) as Hsub by (apply NoDup_submseteq; [done|]; intros [l b] Hin; by apply Hd).
  apply submseteq_length in Hsub. lia.
Qed.

Lemma setup_all_room gd m :
  0 < tlb_addr gd -> tlb_addr gd mod 4096 = 0 -> tlb_addr gd + tlb_size gd < 2 ^ 48 -> mapped m (tlb_addr gd) (tlb_size gd) ->
  8192 * Z.of_nat (length required_pts) <= tlb_size gd ->
  returns (setup_all_pgtables mem_map gd m) (fun '(gd', m') =>
    tlb_fillptr gd' <= tlb_addr gd + 8192 * Z.of_nat (length required_pts)).
Proof.
  intros A1 A2 S2 Hm Hroom. unfold setup_all_pgtables.
  assert (space (ArchGD (tlb_addr gd) (tlb_size gd) (tlb_addr gd) (tlb_emerg gd)) m) as Hsp by (split; cbn [tlb_addr tlb_size tlb_fillptr]; try done; lia).
  eapply returns_bind.
  { eapply returns_or_returns; [apply (setup_pgtables_spec mem_map Hmap _ _ Hsp)|apply (setup_pgtables_room _ _ Hsp); cbn [tlb_size]; lia]. }
  intros [gd1 m1] [((G1 & Hk1) & Es & Ee & Hgrow & _) Hf1]. cbn [tlb_addr tlb_size tlb_emerg] in *.
  pose proof Hk1 as [_ [(Ea & _ & _) (F1 & F2) _ Hm1 _ _]]. rewrite Ea, Es in *.
  rewrite (u64_small (tlb_fillptr gd1 - tlb_addr gd)), u64_small by lia.
  eapply returns_bind.
  { apply setup_pgtables_room; [|cbn [tlb_size]; lia]. split; cbn [tlb_addr tlb_size tlb_fillptr]; [split; [lia|done]|done|lia|].
    eapply mapped_sub; [exact Hm1|lia|lia]. }
  intros [gd2 m2] Hf2. apply returns_ok. cbn [tlb_fillptr tlb_addr] in *. lia.
Qed.
(** Both sets of tables fit, with four tables to spare. *)
Lemma setup_all_fits gd m :
  0 < tlb_addr gd -> tlb_addr gd mod 4096 = 0 -> 8192 * Z.of_nat (length required_pts) + 16384 <= tlb_size gd ->
  tlb_addr gd + tlb_size gd < 2 ^ 48 -> mapped m (tlb_addr gd) (tlb_size gd) ->
  returns (setup_all_pgtables mem_map gd m) (fun '(gd', m') =>
    tlb_addr gd' = tlb_addr gd /\ tlb_size gd' = tlb_size gd /\
    tlb_addr gd < tlb_emerg gd' < tlb_fillptr gd' /\
    tlb_fillptr gd' + 4 * 4096 <= tlb_addr gd + tlb_size gd /\
    unchanged (span_of (tlb_addr gd) (tlb_size gd)) m m' /\
    forall va, 0 <= va < limit ->
      translate start m' (tlb_addr gd') va = map_translate (active mem_map) va /\
      translate start m' (tlb_emerg gd') va = map_translate (active mem_map) va).
Proof.
  intros A1 A2 Hsz S2 Hm. eapply returns_mono.
  - eapply returns_or_returns; [apply (setup_all_pgtables_spec mem_map Hmap); [done|done|lia|done|done]|].
    apply setup_all_room; [done|done|done|done|lia].
  - intros [gd' m'] [(H1 & H2 & H3 & H4 & H5 & H6) Hf]. repeat (split; [first [done|lia]|]). done.
Qed.
End whole.

(** ** Claim *)

(** C4: the size computed in advance is enough.  Let the regions of [mem_map] be
    as [add_map] requires them, at least one, and no two of them overlap.  Then
    [get_page_table_size] returns a size; and when the space for tables has at
    least that size (and is page aligned, mapped and below 2^48),
    [setup_all_pgtables] never stops for lack of space: it returns the normal
    and the emergency table, each translating every address as [mem_map] says,
    and leaves at least the four tables free that the size reserves for
    splitting blocks later. *)
Theorem page_table_space_enough (mem_map : list mm_region) :
  Forall (region_ok (va_limit (start_level mem_map))) (active mem_map) ->
  regions_apart (active mem_map) -> active mem_map <> [] ->
  exists size, get_page_table_size mem_map = Ok size /\
  forall gd m, 0 < tlb_addr gd -> tlb_addr gd mod 4096 = 0 -> size <= tlb_size gd ->
    tlb_addr gd + tlb_size gd < 2 ^ 48 -> mapped m (tlb_addr gd) (tlb_size gd) ->
    returns (setup_all_pgtables mem_map gd m) (fun '(gd', m') =>
      tlb_addr gd' = tlb_addr gd /\ tlb_size gd' = tlb_size gd /\
      tlb_addr gd < tlb_emerg gd' < tlb_fillptr gd' /\
      tlb_fillptr gd' + 4 * 4096 <= tlb_addr gd + tlb_size gd /\
      unchanged (span_of (tlb_addr gd) (tlb_size gd)) m m' /\
      forall va, 0 <= va < va_limit (start_level mem_map) ->
        translate (start_level mem_map) m' (tlb_addr gd') va = map_translate (active mem_map) va /\
        translate (start_level mem_map) m' (tlb_emerg gd') va = map_translate (active mem_map) va).
Proof.
  intros Hmap Hap Hne. eexists. split; [apply (page_table_size mem_map Hmap)|]. intros gd m A1 A2 Hsz S2 Hm.
  by apply (setup_all_fits mem_map Hmap Hap Hne).
Qed.

(** The small map again: four tables for each of the two sets and four spare ones. *)
Definition small_size_gd : arch_gd := ArchGD 0x10000 0xc000 0 0.

Lemma page_table_space_enough_witness :
  get_page_table_size small_map = Ok 0xc000 /\
  returns (setup_all_pgtables small_map small_size_gd (write_bytes ∅ 0x10000 (replicate (Z.to_nat 0xc000) 0)))
    (fun '(gd', m') => tlb_fillptr gd' <= 0x18000 /\
      forall off, 0 <= off < 0x200000 ->
        translate 1 m' (tlb_addr gd') (0x40000000 + off) = Some (0x40000000 + off, (0x1c4, 0))).
Proof.
  assert (Forall (region_ok (va_limit (start_level small_map))) (active small_map)) as Hok by exact small_map_ok.
  destruct (page_table_space_enough small_map Hok) as (size & Es & H); [|done|].
  { change (active small_map) with (take 2 small_map). split; [constructor; [right; cbn; lia|constructor]|]. split; [constructor|done]. }
  assert (get_page_table_size small_map = Ok 0xc000) as E by (vm_compute; reflexivity).
  split; [exact E|]. rewrite E in Es. injection Es as <-.
  eapply returns_mono; [apply H; [done|done|done|done|]|].
  { generalize (∅ : mem). intros m0.
    pose proof (bytes_at_mapped _ _ _ (write_bytes_at m0 0x10000 (replicate (Z.to_nat 0xc000) 0))) as Hb.
    rewrite length_replicate in Hb. exact Hb. }
  intros [gd' m'] (_ & _ & _ & Hf & _ & HT). cbn [small_size_gd tlb_addr tlb_size] in Hf. split; [lia|]. intros off Hoff.
  change (start_level small_map) with 1 in HT. change (va_limit 1) with (2 ^ 39) in HT.
  destruct (HT (0x40000000 + off) ltac:(lia)) as [-> _]. by apply small_translate.
Defined.
