(* ===== verification/PgAttrTheorems.v ===== *)
(** * Attributes of mapped regions: the theorems

    Both passes over a region, and the two operations built from them. *)

From S2P Require Import Prelude CMem Str StrFacts StrSafe Console Words PgTable PgWalk PgMap PgSetup PgTheorems PgAttr PgAttrFacts.

Local Open Scope Z_scope.
Local Open Scope c_scope.

Section pass.
Context (mem_map : list mm_region) (root : Z) (o : origin).
Local Abbreviation start := (start_level mem_map).
Local Abbreviation limit := (va_limit start).
Local Abbreviation pg_ok := (pg_ok mem_map root o).
Local Abbreviation W m va := (walk_from m root start va).
Local Abbreviation tr m va := (translate start m root va).
Local Abbreviation rest := (rest mem_map).

Lemma limit_range : limit <= 2 ^ 48.
Proof.
  unfold va_limit. pose proof (start_range mem_map).
  destruct (lsize_cases start ltac:(lia)) as [[? ->]|[[? ->]|[[? ?]|[? ?]]]]; lia.
Qed.

(** A pass over a region, chunk by chunk. *)
Lemma set_region_pass (flag : bool) (attrs : Z) (Pre : mem -> Z -> Z -> Prop) (Post : mem -> Z -> Z -> mem -> Prop) G gd m s z :
  (forall m s z, rest s z -> 0 < z -> Pre m s z -> settable mem_map root m s (clevel s z)) ->
  (forall m s z m1 m2, rest s z -> 0 < z -> Pre m s z -> chunk_set mem_map root flag attrs m s (clevel s z) m1 ->
     let l0 := clevel s z in Pre m1 (s + lsize l0) (z - lsize l0) /\
       (Post m1 (s + lsize l0) (z - lsize l0) m2 -> Post m s z m2)) ->
  (forall m s z, rest s z -> z = 0 -> Post m s z m) ->
  pg_ok G gd m -> rest s z -> Pre m s z ->
  returns_or NO_RAM (set_region mem_map s z attrs flag gd m) (fun '(gd', m') => (exists G', pg_ok G' gd' m') /\ Post m s z m').
Proof.
  intros Hset Hstep Hend Hk Hr Hp. unfold set_region. assert ((Z.to_nat (z / 4096) < S (Z.to_nat (z / 4096)))%nat) as Hn by lia.
  revert Hn. generalize (S (Z.to_nat (z / 4096))) as n. intros n. revert G gd m s z Hk Hr Hp.
  induction n as [|n IH]; intros G gd m s z Hk Hr Hp Hn; [lia|]. cbn [while]. pose proof Hr as [[S1 S2] (Z1 & Z2 & Z3)].
  destruct (Z.ltb_spec 0 z) as [Hz|Hz]; [|apply returns_or_ok; split; [by exists G|apply Hend; [done|lia]]].
  destruct (chunk_fits mem_map s z Hr Hz) as [Hf [k Hd]]. pose proof limit_range. pose proof (rest_next mem_map s z Hr Hz) as Hr'.
  eapply (returns_or_bind _ _ _ (fun r => exists gd1 m1, r = inl (s + lsize (clevel s z), z - lsize (clevel s z), gd1, m1) /\
    (exists G1, pg_ok G1 gd1 m1) /\ chunk_set mem_map root flag attrs m s (clevel s z) m1)).
  - eapply returns_or_bind; [exact (set_region_step_spec mem_map root o G gd m s z attrs flag Hk Hr Hz (Hset m s z Hr Hz Hp))|].
    intros [[gd1 m1] r] (-> & HG & Hc). apply returns_or_ok. exists gd1, m1. rewrite !u64_small by lia. done.
  - intros r (gd1 & m1 & -> & (G1 & Hk1) & Hc). destruct (Hstep m s z m1 m1 Hr Hz Hp Hc) as [Hp1 _].
    eapply returns_or_mono; [apply (IH G1 gd1 m1 _ _ Hk1 Hr' Hp1); rewrite Hd; dlia|].
    intros [gd2 m2] [HG2 Hfp]. split; [done|]. by apply (Hstep m s z m1 m2 Hr Hz Hp Hc).
Qed.

Lemma no_chunks s z c l : z = 0 -> (c, l) ∈ region_chunks s z -> False.
Proof. intros -> H. by apply elem_of_nil in H. Qed.

(** A region whose addresses are all translated, no chunk of it by tables
    finer than the chunk. *)
Record ready (m : mem) (s z : Z) : Prop := {
  rd_mapped : forall va, s <= va < s + z -> tr m va <> None;
  rd_coarse : forall c l va, (c, l) ∈ region_chunks s z -> c <= va < c + lsize l -> (W m va).1 <= l
}.

(** The first pass: descriptors of the chunks are changed. *)
Record first_pass (flag : bool) (attrs : Z) (m : mem) (s z : Z) (m' : mem) : Prop := {
  fp_in : forall c l, (c, l) ∈ region_chunks s z -> exists v, good_leaf l v /\
    forall va, c <= va < c + lsize l -> W m' va = (l, upd flag attrs v) /\ decode va (l, v) = tr m va;
  fp_out : forall va, 0 <= va < limit -> ~ s <= va < s + z -> tr m' va = tr m va /\
    (W m' va = W m va \/ exists c l', s <= c < s + z /\ 1 <= l' <= 3 /\ va / lsize l' = c / lsize l' /\ (W m va).1 <= l')
}.

Lemma same_block_chunk va c l l' : 1 <= l <= l' -> l' <= 3 -> c mod lsize l = 0 -> forall x, x / lsize l' = va / lsize l' ->
  c <= va < c + lsize l -> c <= x < c + lsize l.
Proof.
  intros Hl Hl' Hc x E Hva. apply (in_block x c l ltac:(lia) Hc). apply (in_block va c l ltac:(lia) Hc) in Hva.
  rewrite <- Hva. by apply (div_coarse x va l' l); [lia|lia|].
Qed.

Lemma first_pass_step flag attrs m s z m1 m2 :
  rest s z -> 0 < z -> ready m s z -> chunk_set mem_map root flag attrs m s (clevel s z) m1 ->
  let l0 := clevel s z in
  ready m1 (s + lsize l0) (z - lsize l0) /\
  (first_pass flag attrs m1 (s + lsize l0) (z - lsize l0) m2 -> first_pass flag attrs m s z m2).
Proof.
  intros Hr Hz [Hmap Hco] [Hin Hout] l0. pose proof (start_range mem_map) as Hst. pose proof Hr as [[S1 S2] (Z1 & Z2 & Z3)].
  destruct (clevel_spec s z S2 Z2) as (Hl & _ & _ & Hsa & _). destruct (chunk_fits mem_map s z Hr Hz) as [Hf _].
  pose proof (region_chunks_step mem_map s z Hr Hz) as Hch. pose proof (rest_next mem_map s z Hr Hz) as Hr'. fold l0 in Hl, Hsa, Hf, Hch, Hr', Hin, Hout.
  split; [split|].
  - intros va Hva. destruct (Hout va ltac:(lia) ltac:(lia)) as [-> _]. apply Hmap. lia.
  - intros c l va Hc Hva. destruct (region_chunks_in mem_map _ _ _ _ _ Hr' Hc) as (C1 & C2 & C3 & C4).
    destruct (Hout va ltac:(lia) ltac:(lia)) as [_ [->|(_ & l' & Hl' & Eb & _ & E)]]; [apply (Hco c l); [rewrite Hch; by right|done]|].
    destruct (Z.lt_ge_cases l' l); [lia|].
    pose proof (same_block_chunk va c l l' ltac:(lia) ltac:(lia) C4 s ltac:(done) Hva). lia.
  - intros [Fin Fout]. split.
    + intros c l Hc. rewrite Hch in Hc. apply elem_of_cons in Hc as [[= -> ->]|Hc].
      * destruct Hin as (v & Hg & _ & Hv). exists v. split; [done|]. intros va Hva. destruct (Hv va Hva) as [E1 E2]. split; [|done].
        assert (0 <= va < limit) as Hlim by lia.
        destruct (Fout va Hlim ltac:(lia)) as [_ [->|(c & l' & Hc & Hl' & Eb & Hle)]]; [done|]. rewrite E1 in Hle. cbn [fst] in Hle.
        pose proof (same_block_chunk va s l0 l' ltac:(lia) ltac:(lia) Hsa c ltac:(done) Hva). lia.
      * destruct (Fin c l Hc) as (v & Hg & Hv). exists v. split; [done|]. intros va Hva. destruct (Hv va Hva) as [E1 E2]. split; [done|].
        destruct (region_chunks_in mem_map _ _ _ _ _ Hr' Hc) as (C1 & C2 & C3 & C4). rewrite E2. apply Hout; lia.
    + intros va Hva Hn. destruct (Fout va Hva ltac:(lia)) as [E1 H1]. destruct (Hout va Hva ltac:(lia)) as [E2 H2].
      split; [by rewrite E1, E2|].
      assert (W m1 va = W m va \/ exists l', 1 <= l' <= 3 /\ va / lsize l' = s / lsize l' /\ (W m va).1 <= l') as H2'.
      { destruct H2 as [|(_ & l' & Hl' & A & B & _)]; [by left|right]. exists l'. split; [lia|done]. }
      destruct H2' as [H2'|(l' & Hl' & A & B)]; [|right; exists s, l'; repeat split; (done || lia)].
      destruct H1 as [->|(c & l' & Hc & Hl' & A & B)]; [by left|right]. exists c, l'. rewrite <- H2'. repeat split; (done || lia).
Qed.

Lemma set_region_first G gd m s z attrs flag :
  pg_ok G gd m -> rest s z -> ready m s z ->
  returns_or NO_RAM (set_region mem_map s z attrs flag gd m) (fun '(gd', m') =>
    (exists G', pg_ok G' gd' m') /\ first_pass flag attrs m s z m').
Proof.
  apply (set_region_pass flag attrs ready (first_pass flag attrs)).
  - clear. intros m s z Hr Hz Hrd. destruct (chunk_fits mem_map s z Hr Hz) as [Hf _]. left. split; [apply Hrd; lia|].
    apply (rd_coarse _ _ _ Hrd s); [rewrite (region_chunks_step mem_map) by done; by left|lia].
  - intros. by apply first_pass_step.
  - clear. intros m s z Hr Hz. split; [intros c l Hc; by apply no_chunks in Hc|]. intros va Hva _. split; [done|by left].
Qed.

(** The second pass, over descriptors the first has reached. *)
Record reached (m : mem) (s z : Z) : Prop := {
  re_leaf : forall c l, (c, l) ∈ region_chunks s z -> exists v, good_leaf l v /\ forall va, c <= va < c + lsize l -> W m va = (l, v)
}.

Record second_pass (flag : bool) (attrs : Z) (m : mem) (s z : Z) (m' : mem) : Prop := {
  sp_in : forall c l va, (c, l) ∈ region_chunks s z -> c <= va < c + lsize l -> W m' va = (l, upd flag attrs (W m va).2);
  sp_out : forall va, 0 <= va < limit -> ~ s <= va < s + z -> W m' va = W m va
}.

Lemma second_pass_step flag attrs m s z m1 m2 :
  rest s z -> 0 < z -> reached m s z -> chunk_set mem_map root flag attrs m s (clevel s z) m1 ->
  let l0 := clevel s z in
  reached m1 (s + lsize l0) (z - lsize l0) /\
  (second_pass flag attrs m1 (s + lsize l0) (z - lsize l0) m2 -> second_pass flag attrs m s z m2).
Proof.
  intros Hr Hz [Hre] [Hin Hout] l0. pose proof Hr as [[S1 S2] (Z1 & Z2 & Z3)].
  destruct (clevel_spec s z S2 Z2) as (Hl & _). destruct (chunk_fits mem_map s z Hr Hz) as [Hf _].
  pose proof (region_chunks_step mem_map s z Hr Hz) as Hch. pose proof (rest_next mem_map s z Hr Hz) as Hr'.
  fold l0 in Hl, Hf, Hch, Hr', Hin, Hout.
  destruct (Hre s l0 ltac:(rewrite Hch; by left)) as (v0 & Hg0 & Hv0). pose proof (Hv0 s ltac:(lia)) as Es.
  assert (forall va, 0 <= va < limit -> ~ s <= va < s + lsize l0 -> W m1 va = W m va) as Hout'.
  { intros va Hva Hn. destruct (Hout va Hva Hn) as [_ [|[Hne _]]]; [done|]. by rewrite Es in Hne. }
  destruct Hin as (v & _ & Ev & Hv). rewrite Es in Ev. cbn [fst snd] in Ev. rewrite (Ev eq_refl) in Hv. clear v Ev.
  assert (forall c l va, (c, l) ∈ region_chunks (s + lsize l0) (z - lsize l0) -> c <= va < c + lsize l -> W m1 va = W m va) as Hlater.
  { intros c l va Hc Hva. destruct (region_chunks_in mem_map _ _ _ _ _ Hr' Hc) as (C1 & C2 & _). apply Hout'; lia. }
  split; [split|].
  - intros c l Hc. destruct (Hre c l ltac:(rewrite Hch; by right)) as (v & Hg & Hw). exists v. split; [done|].
    intros va Hva. rewrite (Hlater c l va Hc Hva). by apply Hw.
  - intros [Fin Fout]. split.
    + intros c l va Hc Hva. rewrite Hch in Hc. apply elem_of_cons in Hc as [[= -> ->]|Hc].
      * rewrite Fout by lia. destruct (Hv va Hva) as [-> _]. by rewrite (Hv0 va Hva).
      * rewrite (Fin c l va Hc Hva). by rewrite (Hlater c l va Hc Hva).
    + intros va Hva Hn. rewrite Fout by lia. apply Hout'; [done|lia].
Qed.

Lemma set_region_second G gd m s z attrs flag :
  pg_ok G gd m -> rest s z -> reached m s z ->
  returns_or NO_RAM (set_region mem_map s z attrs flag gd m) (fun '(gd', m') =>
    (exists G', pg_ok G' gd' m') /\ second_pass flag attrs m s z m').
Proof.
  apply (set_region_pass flag attrs reached (second_pass flag attrs)).
  - clear. intros m s z Hr Hz [Hre]. destruct (chunk_fits mem_map s z Hr Hz) as [Hf _]. right.
    destruct (Hre s (clevel s z)) as (v & Hg & Hw); [rewrite (region_chunks_step mem_map) by done; by left|].
    by rewrite (Hw s ltac:(lia)).
  - intros. by apply second_pass_step.
  - clear. intros m s z Hr Hz. split; [intros c l va Hc; by apply no_chunks in Hc|done].
Qed.

(** Every address of a region lies in a chunk. *)
Lemma chunks_cover n s z va :
  rest s z -> z / 4096 <= Z.of_nat n -> s <= va < s + z -> exists c l, (c, l) ∈ chunks n s z /\ c <= va < c + lsize l.
Proof.
  revert s z. induction n as [|n IH]; intros s z Hr Hn Hva; [pose proof Hr as [_ (Z1 & Z2 & _)]; dlia|].
  cbn [chunks]. destruct (Z.leb_spec z 0); [lia|]. destruct (chunk_fits mem_map s z Hr ltac:(lia)) as [Hf [k Hk]].
  destruct (Z.lt_ge_cases va (s + lsize (clevel s z))); [exists s, (clevel s z); split; [by left|lia]|].
  destruct (IH _ _ (rest_next mem_map s z Hr ltac:(lia)) ltac:(rewrite Hk; dlia) ltac:(lia)) as (c & l & Hc & Hin).
  exists c, l. split; [by right|done].
Qed.

Lemma first_pass_translate flag attrs m s z m' va p a :
  rest s z -> first_pass flag attrs m s z m' -> s <= va < s + z -> tr m va = Some (p, a) ->
  tr m' va = if flag && (attrs mod 2 =? 0) then None else Some (p, upd_attrs flag attrs a).
Proof.
  intros Hr [Hin _] Hva Ht. pose proof Hr as [_ (Z1 & Z2 & _)].
  destruct (chunks_cover (Z.to_nat (z / 4096)) s z va Hr ltac:(dlia) Hva) as (c & l & Hc & Hcva).
  destruct (region_chunks_in mem_map _ _ _ _ _ Hr Hc) as (_ & _ & Hl & _).
  destruct (Hin c l Hc) as (v & _ & Hv). destruct (Hv va Hcva) as [Ew Ed]. unfold translate at 1. rewrite Ew.
  apply decode_upd; [done|]. by rewrite Ed.
Qed.
End pass.

(** ** A table with one block of 1 GB *)

Definition block_pte : Z := 0x40000711.
Definition block_space : mem := write_bytes small_space 0x10008 (le_bytes 8 block_pte).
Definition block_gd : arch_gd := ArchGD 0x10000 0x8000 0x11000 0x14000.
Definition block_origin : origin := Origin block_space 0x8000 0x14000.

Lemma write_word m a v : mapped m a 8 ->
  unchanged (span_of a 8) m (write_bytes m a (le_bytes 8 v)) /\ rdw (write_bytes m a (le_bytes 8 v)) a = v mod 2 ^ 64.
Proof.
  intros Hm. destruct (store64_spec m a v Hm) as (m' & E & H). unfold store64 in E.
  rewrite (store_le_write 8 m a v Hm) in E. injection E as <-. exact H.
Qed.

Lemma block_space_store : unchanged (span_of 0x10008 8) small_space block_space /\ rdw block_space 0x10008 = block_pte.
Proof. apply (write_word small_space 0x10008 block_pte). eapply mapped_sub; [exact small_space_mapped|lia|lia]. Qed.

Lemma block_space_entry i : 0 <= i < 512 -> rdw block_space (0x10000 + 8 * i) = if i =? 1 then block_pte else 0.
Proof.
  intros Hi. destruct block_space_store as [HU Hv]. destruct (Z.eqb_spec i 1) as [->|Hne]; [exact Hv|].
  rewrite <- (small_space_zero i Hi). eapply (rdn_unchanged 8); [exact HU|]. apply apart_span. lia.
Qed.

Lemma block_tables_ok : pg_ok small_map 0x10000 block_origin {[0x10000 := (1, 0)]} block_gd block_space.
Proof.
  split; [split|].
  - by rewrite lookup_singleton_eq.
  - intros T l b [<- [= <- <-]]%lookup_singleton_Some. cbn. split; [vm_compute; intuition congruence|]. split; [lia|]. split; [lia|done].
  - intros T l b i [<- [= <- <-]]%lookup_singleton_Some Hi _. cbv zeta. rewrite block_space_entry by done.
    destruct (i =? 1); [right; right|by left]. vm_compute. intuition congruence.
  - intros T l b i [<- _]%lookup_singleton_Some Hi. rewrite block_space_entry by done. by destruct (i =? 1).
  - split; cbn [tlb_addr tlb_size tlb_fillptr tlb_emerg block_gd]; [done|done|done| |apply unchanged_refl|done].
    eapply unchanged_mapped; [apply block_space_store|exact small_space_mapped].
Qed.

Lemma block_walk va : 0x40000000 <= va < 0x80000000 -> walk_from block_space 0x10000 1 va = (1, block_pte).
Proof.
  intros Hva. rewrite walk_from_step by lia. cbv zeta. rewrite pte_index_div by lia.
  change (lsize 1) with (2 ^ 30). replace ((va / 2 ^ 30) mod 512) with 1 by dlia. rewrite block_space_entry by lia. reflexivity.
Qed.

Lemma small_start : start_level small_map = 1.
Proof. reflexivity. Qed.

Lemma block_translate va : 0x40000000 <= va < 0x80000000 -> translate 1 block_space 0x10000 va = Some (va, (0x1c4, 0)).
Proof.
  intros Hva. unfold translate. rewrite block_walk by done. unfold decode. change (lsize 1) with (2 ^ 30).
  change (1 =? 3) with false. change (1 =? 0) with false. change (pte_type block_pte =? PTE_TYPE_BLOCK) with true. cbv iota.
  change ((block_pte mod 2 ^ 48) / 2 ^ 30 * 2 ^ 30) with 0x40000000. change (pte_attrs block_pte) with (0x1c4, 0).
  do 2 f_equal. dlia.
Qed.

Lemma block_ready : ready small_map 0x10000 block_space 0x40200000 0x200000.
Proof.
  split.
  - intros va Hva. rewrite small_start, block_translate by lia. done.
  - intros c l va Hc Hva. change (region_chunks 0x40200000 0x200000) with [(0x40200000, 2)] in Hc.
    apply list_elem_of_singleton in Hc as [= -> ->]. change (lsize 2) with 0x200000 in Hva.
    rewrite small_start, block_walk by lia. done.
Qed.

Lemma block_rest : rest small_map 0x40200000 0x200000.
Proof. split; [done|]. vm_compute. intuition congruence. Qed.

(** C14: changing the attributes of mapped addresses, break before make.  Let
    the tables be well formed, the region page aligned and fully translated,
    and no chunk of it mapped by tables finer than the chunk; let the new
    attributes have the valid bit.  Unless the space for tables runs out,
    [mmu_change_region_attr] ends.  When it discards the cached translations
    for the first time, no address of the region is translated and all others
    are as before; at the end the region's addresses translate to the same
    physical addresses with the memory type and execute-never bits replaced,
    and all others are still as before, where blocks had to be split too. *)
Theorem mmu_change_region_attr_correct (mem_map : list mm_region) (root : Z) (o : origin) (G : gmap Z (Z * Z))
    (gd : arch_gd) (m : mem) (addr siz attrs : Z) :
  let start := start_level mem_map in
  pg_ok mem_map root o G gd m -> rest mem_map addr siz -> ready mem_map root m addr siz -> attrs mod 2 = 1 ->
  returns_or NO_RAM (mmu_change_region_attr mem_map addr siz attrs gd m) (fun '(gd', m2, events) =>
    exists m1, (let flush := FlushDcacheRange root (u64 (root + og_size o)) in
                events = [flush; InvalidateTLB m1; flush; InvalidateTLB m2]) /\
    (exists G', pg_ok mem_map root o G' gd' m2) /\
    forall va, 0 <= va < va_limit start ->
      if decide (addr <= va < addr + siz) then
        translate start m1 root va = None /\
        exists p a, translate start m root va = Some (p, a) /\ translate start m2 root va = Some (p, upd_attrs true attrs a)
      else translate start m1 root va = translate start m root va /\ translate start m2 root va = translate start m root va).
Proof.
  intros start Hk Hr Hrd Ha. subst start. unfold mmu_change_region_attr.
  eapply returns_or_bind; [exact (set_region_first mem_map root o G gd m addr siz PTE_TYPE_FAULT true Hk Hr Hrd)|].
  intros [gd1 m1] [(G1 & Hk1) Hf].
  assert (reached mem_map root m1 addr siz) as Hre.
  { split. intros c l Hc. destruct (fp_in _ _ _ _ _ _ _ _ Hf c l Hc) as (v & Hg & Hv). exists (upd true PTE_TYPE_FAULT v).
    destruct (region_chunks_in mem_map _ _ _ _ _ Hr Hc) as (_ & _ & Hl & _).
    split; [by apply upd_leaf|]. intros va Hva. by apply Hv. }
  eapply returns_or_bind; [exact (set_region_second mem_map root o G1 gd1 m1 addr siz attrs true Hk1 Hr Hre)|].
  intros [gd2 m2] [HG2 Hs]. apply returns_or_ok. exists m1. pose proof Hk1 as [_ [(-> & _) _ _ _ _ (-> & _)]].
  split; [done|]. split; [done|]. intros va Hva. case_decide as Hin.
  - pose proof Hr as [_ (Z1 & Z2 & _)].
    destruct (translate (start_level mem_map) m root va) as [[p a]|] eqn:Et; [|by destruct (rd_mapped _ _ _ _ _ Hrd va Hin)].
    split; [by rewrite (first_pass_translate mem_map root true PTE_TYPE_FAULT m addr siz m1 va p a Hr Hf Hin Et)|].
    exists p, a. split; [done|].
    destruct (chunks_cover mem_map (Z.to_nat (siz / 4096)) addr siz va Hr ltac:(dlia) Hin) as (c & l & Hc & Hcva).
    destruct (region_chunks_in mem_map _ _ _ _ _ Hr Hc) as (_ & _ & Hl & _).
    destruct (fp_in _ _ _ _ _ _ _ _ Hf c l Hc) as (v & _ & Hv). destruct (Hv va Hcva) as [Ew Ed].
    unfold translate at 1. rewrite (sp_in _ _ _ _ _ _ _ _ Hs c l va Hc Hcva), Ew. cbn [snd]. rewrite upd_upd.
    rewrite (decode_upd va l true attrs v p a Hl) by by rewrite Ed. by rewrite Ha.
  - destruct (fp_out _ _ _ _ _ _ _ _ Hf va Hva Hin) as [E1 _]. split; [exact E1|]. rewrite <- E1. unfold translate.
    by rewrite (sp_out _ _ _ _ _ _ _ _ Hs va Hva Hin).
Qed.

Lemma mmu_change_region_attr_correct_witness :
  returns_or NO_RAM (mmu_change_region_attr small_map 0x40200000 0x200000 0x60000000000005 block_gd block_space) (fun '(_, m2, _) =>
    translate 1 m2 0x10000 0x40234567 = Some (0x40234567, (0x1c1, 0x60)) /\
    translate 1 m2 0x10000 0x40134567 = Some (0x40134567, (0x1c4, 0))).
Proof.
  eapply returns_or_mono.
  - apply (mmu_change_region_attr_correct small_map 0x10000 block_origin _ block_gd block_space 0x40200000 0x200000 0x60000000000005
      block_tables_ok block_rest block_ready). reflexivity.
  - intros [[gd' m2] ev] (m1 & _ & _ & H). rewrite small_start in H. split.
    + destruct (H 0x40234567 ltac:(by vm_compute)) as (_ & p & a & E & E').
      rewrite block_translate in E by lia. injection E as <- <-. exact E'.
    + destruct (H 0x40134567 ltac:(by vm_compute)) as [_ E]. rewrite E. apply block_translate. lia.
Defined.

(** The caching of mapped addresses.  Under the same conditions on tables
    and region, [mmu_set_region_dcache_behaviour] panics when there are no
    emergency tables; otherwise, unless the space for tables runs out, it ends
    and replaces the memory type of exactly the region's addresses, having
    switched to the emergency tables and back.  The new type is the option
    modulo 8: the options are defined already shifted, so that write-back
    (4 << 2) selects type 0. *)
Theorem dcache_behaviour_correct (mem_map : list mm_region) (root : Z) (o : origin) (G : gmap Z (Z * Z))
    (gd : arch_gd) (m : mem) (addr siz option : Z) :
  let start := start_level mem_map in
  pg_ok mem_map root o G gd m -> rest mem_map addr siz -> ready mem_map root m addr siz ->
  (og_emerg o = 0 -> mmu_set_region_dcache_behaviour mem_map addr siz option gd m = Panic "Emergency page table not setup.") /\
  (og_emerg o <> 0 -> returns_or NO_RAM (mmu_set_region_dcache_behaviour mem_map addr siz option gd m) (fun '(gd', m', events) =>
    events = [SwitchTTBR (og_emerg o); SwitchTTBR root; FlushDcacheRange addr (u64 (addr + siz))] /\
    (exists G', pg_ok mem_map root o G' gd' m') /\
    forall va, 0 <= va < va_limit start ->
      if decide (addr <= va < addr + siz) then
        exists p lo hi, translate start m root va = Some (p, (lo, hi)) /\
          translate start m' root va = Some (p, (lo / 8 * 8 + option mod 8, hi))
      else translate start m' root va = translate start m root va)).
Proof.
  intros start Hk Hr Hrd. subst start. unfold mmu_set_region_dcache_behaviour. pose proof Hk as [_ [_ _ _ _ _ (_ & ->)]]. split.
  { intros ->. done. }
  intros He. destruct (Z.eqb_spec (og_emerg o) 0); [done|].
  eapply returns_or_bind; [exact (set_region_first mem_map root o G gd m addr siz (PMD_ATTRINDX option) false Hk Hr Hrd)|].
  intros [gd1 m1] [(G1 & Hk1) Hf]. apply returns_or_ok. pose proof Hk1 as [_ [(-> & _) _ _ _ _ (_ & ->)]].
  split; [done|]. split; [by exists G1|]. intros va Hva. case_decide as Hin.
  - destruct (translate (start_level mem_map) m root va) as [[p [lo hi]]|] eqn:Et; [|by destruct (rd_mapped _ _ _ _ _ Hrd va Hin)].
    exists p, lo, hi. split; [done|].
    rewrite (first_pass_translate mem_map root false _ m addr siz m1 va p (lo, hi) Hr Hf Hin Et). cbn [andb]. unfold upd_attrs. cbn [fst snd].
    do 3 f_equal. unfold PMD_ATTRINDX. rewrite Z.shiftl_mul_pow2 by lia. change (2 ^ 2) with 4. rewrite Z.div_mul by lia.
    change 7 with (Z.ones 3). rewrite Z.land_ones, Z.ldiff_ones_r, Z.shiftl_mul_pow2, Z.shiftr_div_pow2 by lia.
    apply lor_above; [lia|apply Z.mod_pos_bound; lia].
  - by apply (fp_out _ _ _ _ _ _ _ _ Hf).
Qed.

Lemma dcache_behaviour_correct_witness :
  returns_or NO_RAM (mmu_set_region_dcache_behaviour small_map 0x40200000 0x200000 DCACHE_WRITEBACK block_gd block_space) (fun '(_, m', _) =>
    translate 1 m' 0x10000 0x40234567 = Some (0x40234567, (0x1c0, 0))).
Proof.
  destruct (dcache_behaviour_correct small_map 0x10000 block_origin _ block_gd block_space 0x40200000 0x200000 DCACHE_WRITEBACK
    block_tables_ok block_rest block_ready) as [_ H].
  eapply returns_or_mono; [apply H; discriminate|]. intros [[gd' m'] ev] (_ & _ & Hv).
  rewrite small_start in Hv. destruct (Hv 0x40234567 ltac:(by vm_compute)) as (p & lo & hi & E & E').
  rewrite block_translate in E by lia. injection E as <- <- <-. exact E'.
Defined.
