(* ===== verification/Mmu.v ===== *)
(** * MMU and cache control (arch/arm64/kernel/cache_v8.c, asm/mmu.h, asm/system.h)

    The system registers of a core that the control of the MMU and of the
    caches uses, one bank per exception level, and the code that reads and
    writes them.  A register write, a barrier and a call of a maintenance
    routine in assembly are [Asm] events in the core's log, in program order.
    An access to a register of EL3 from a lower level is undefined: it traps.

    The tables and the memory they are in are those of [PgTable]; the cores of
    a system share them and the two variables core 0 leaves for the others. *)

From S2P Require Import Prelude CMem Str Console PgTable.
From stdpp Require Import strings.

Local Open Scope string_scope.
Local Open Scope Z_scope.
Local Open Scope c_scope.

Definition CR_M : Z := Z.shiftl 1 0.
Definition CR_A : Z := Z.shiftl 1 1.
Definition CR_C : Z := Z.shiftl 1 2.
Definition CR_SA : Z := Z.shiftl 1 3.
Definition CR_I : Z := Z.shiftl 1 12.
Definition SCR_EL3_SIF : Z := Z.shiftl 1 9.
Definition HCR_EL2_E2H_BIT : Z := 34.

Definition MT_DEVICE_NGNRNE : Z := 0.
Definition MT_DEVICE_NGNRE : Z := 1.
Definition MT_DEVICE_GRE : Z := 2.
Definition MT_NORMAL_NC : Z := 3.
Definition MT_NORMAL : Z := 4.
Definition MT_DEVICE_NGRE : Z := 5.
Definition MT_IGNORE : Z := 0xff.
Definition MEMORY_NS_IGNORE : Z := 2.

Definition MEMORY_ATTRIBUTES : Z :=
  Z.lor (Z.lor (Z.lor (Z.lor (Z.lor (Z.shiftl 0x00 (MT_DEVICE_NGNRNE * 8)) (Z.shiftl 0x04 (MT_DEVICE_NGNRE * 8)))
    (Z.shiftl 0x0c (MT_DEVICE_GRE * 8))) (Z.shiftl 0x44 (MT_NORMAL_NC * 8))) (Z.shiftl 0xff (MT_NORMAL * 8)))
    (Z.shiftl 0x8 (MT_DEVICE_NGRE * 8)).

(** ** A core *)

Record el_regs : Type := ElRegs { sctlr : Z; ttbr0 : Z; tcr : Z; mair : Z }.

Record core : Type := Core {
  CurrentEL : Z;
  regs_el1 : el_regs;
  regs_el2 : el_regs;
  regs_el3 : el_regs;
  hcr_el2 : Z;
  scr_el3 : Z;
  x18 : Z;
  c_log : list event
}.

(** CurrentEL has the level in bits 3 and 2. *)
Definition current_el (c : core) : Z := Z.land 3 (Z.shiftr (CurrentEL c) 2).

(** The bank the [if] chains select, and the suffix of its registers. *)
Definition bank (el : Z) (c : core) : el_regs :=
  if el =? 1 then regs_el1 c else if el =? 2 then regs_el2 c else regs_el3 c.

Definition reg_name (r : string) (el : Z) : string :=
  r ++ (if el =? 1 then "_el1" else if el =? 2 then "_el2" else "_el3").

Definition set_bank (el : Z) (r : el_regs) (c : core) : core :=
  Core (CurrentEL c) (if el =? 1 then r else regs_el1 c)
    (if (negb (el =? 1)) && (el =? 2) then r else regs_el2 c)
    (if (negb (el =? 1)) && negb (el =? 2) then r else regs_el3 c) (hcr_el2 c) (scr_el3 c) (x18 c) (c_log c).

Definition asm (routine : string) (args : list Z) (c : core) : core :=
  Core (CurrentEL c) (regs_el1 c) (regs_el2 c) (regs_el3 c) (hcr_el2 c) (scr_el3 c) (x18 c) (c_log c ++ [Asm routine args]).

Definition tell (e : event) (c : core) : core :=
  Core (CurrentEL c) (regs_el1 c) (regs_el2 c) (regs_el3 c) (hcr_el2 c) (scr_el3 c) (x18 c) (c_log c ++ [e]).

Definition set_scr (v : Z) (c : core) : core :=
  Core (CurrentEL c) (regs_el1 c) (regs_el2 c) (regs_el3 c) (hcr_el2 c) v (x18 c) (c_log c).

Definition set_x18 (v : Z) (c : core) : core :=
  Core (CurrentEL c) (regs_el1 c) (regs_el2 c) (regs_el3 c) (hcr_el2 c) (scr_el3 c) v (c_log c).

(** The value is an [unsigned int]. *)
Definition get_sctlr (c : core) : Z := u32 (sctlr (bank (current_el c) c)).

Definition set_sctlr (val : Z) (c : core) : core :=
  let el := current_el c in
  let r := bank el c in
  asm "isb" [] (asm ("msr " ++ reg_name "sctlr" el) [u32 val]
    (set_bank el (ElRegs (u32 val) (ttbr0 r) (tcr r) (mair r)) c)).

Definition HANG : string := "### ERROR ### Please RESET the board ###\n".

Definition set_ttbr_tcr_mair (el table tcr attr : Z) (c : core) : outcome core :=
  let c := asm "dsb sy" [] c in
  if (el =? 1) || (el =? 2) || (el =? 3) then
    let r := bank el c in
    let c := asm ("msr " ++ reg_name "ttbr0" el) [table] c in
    let c := asm ("msr " ++ reg_name "tcr" el) [tcr] c in
    let c := asm ("msr " ++ reg_name "mair" el) [attr] c in
    Ok (asm "isb" [] (set_bank el (ElRegs (sctlr r) table tcr attr) c))
  else Panic HANG.

Definition get_effective_el (c : core) : Z :=
  let el := current_el c in
  if (el =? 2) && negb (Z.land (hcr_el2 c) (Z.shiftl 1 HCR_EL2_E2H_BIT) =? 0) then 1 else el.

(** [~(SCR_EL3_SIF)] is a negative [int]: only the bit is cleared. *)
Definition set_secure_instruction_fetch (c : core) : outcome core :=
  if current_el c <? 3 then Fault else
  let v := Z.ldiff (scr_el3 c) SCR_EL3_SIF in
  Ok (asm "msr scr_el3" [v] (set_scr v c)).

Definition __asm_invalidate_tlb_all : core -> core := asm "__asm_invalidate_tlb_all" [].

Definition invalidate_dcache_all (c : core) : core :=
  asm "__asm_invalidate_l3_dcache" [] (asm "__asm_invalidate_dcache_all" [] c).

Definition flush_dcache_all (c : core) : core :=
  asm "__asm_flush_l3_dcache" [] (asm "__asm_flush_dcache_all" [] c).

Definition invalidate_dcache_range (start stop : Z) (c : core) : core := asm "__asm_invalidate_dcache_range" [start; stop] c.
Definition flush_dcache_range (start stop : Z) (c : core) : core := asm "__asm_flush_dcache_range" [start; stop] c.

Definition invalidate_icache_all (c : core) : core :=
  asm "__asm_invalidate_l3_icache" [] (asm "__asm_invalidate_icache_all" [] c).

Definition icache_enable (c : core) : core :=
  let c := invalidate_icache_all c in set_sctlr (Z.lor (get_sctlr c) CR_I) c.

Definition icache_disable (c : core) : core := set_sctlr (Z.ldiff (get_sctlr c) CR_I) c.

Definition icache_status (c : core) : Z := if negb (Z.land (get_sctlr c) CR_I =? 0) then 1 else 0.

Definition dcache_disable (c : core) : core :=
  let sctlr := get_sctlr c in
  if Z.land sctlr CR_C =? 0 then c else
  let c := set_sctlr (Z.ldiff sctlr (Z.lor CR_C CR_M)) c in
  __asm_invalidate_tlb_all (flush_dcache_all c).

Definition dcache_status (c : core) : Z := if negb (Z.land (get_sctlr c) CR_C =? 0) then 1 else 0.

Definition arch_get_page_table (c : core) : core * Z := (tell (PutsLit "No page table offset defined\n") c, NULL).

Definition get_current_ttbr (c : core) : outcome (core * Z) :=
  let el := current_el c in
  let c := asm "dsb sy" [] c in
  if (el =? 1) || (el =? 2) || (el =? 3) then Ok (asm "isb" [] c, ttbr0 (bank el c)) else Panic HANG.

(** ** The system *)

Record sys : Type := Sys {
  s_core : core;
  s_gd : arch_gd;
  s_mem : mem;
  g_core0_ttbr0_el3 : Z;
  g_gd : Z
}.

Definition on_core (f : core -> core) (s : sys) : sys :=
  Sys (f (s_core s)) (s_gd s) (s_mem s) (g_core0_ttbr0_el3 s) (g_gd s).

Section mmu.
Context (mem_map : list mm_region).

(** The value of [get_tcr]. *)
Definition tcr_value (el : Z) : Z := (get_tcr mem_map el).1.1.

Definition mmu_setup (s : sys) : outcome sys :=
  let! c := set_secure_instruction_fetch (s_core s) in
  let! '(gd, m) :=
    if tlb_fillptr (s_gd s) =? 0 then setup_all_pgtables mem_map (s_gd s) (s_mem s) else Ok (s_gd s, s_mem s) in
  let el := current_el c in
  let! c := set_ttbr_tcr_mair el (tlb_addr gd) (tcr_value el) MEMORY_ATTRIBUTES c in
  let c := set_sctlr (Z.lor (get_sctlr c) CR_M) c in
  if current_el c <? 3 then Fault else
  Ok (Sys c gd m (ttbr0 (regs_el3 c)) (x18 c)).

Definition dcache_enable (s : sys) : outcome sys :=
  let! s :=
    if Z.land (get_sctlr (s_core s)) CR_M =? 0 then
      mmu_setup (on_core (fun c => __asm_invalidate_tlb_all (invalidate_dcache_all c)) s)
    else Ok s in
  Ok (on_core (fun c => set_sctlr (Z.lor (get_sctlr c) CR_C) c) s).

(** [CONFIG_ARMV8_CACHE] decides. *)
Definition enable_caches (CONFIG_ARMV8_CACHE : bool) (s : sys) : outcome sys :=
  if CONFIG_ARMV8_CACHE then let! s := dcache_enable s in Ok (on_core icache_enable s) else Ok s.

(** The end of both functions that switch the MMU on for another core. *)
Definition enable_with_core0_tables (s : sys) (c : core) : outcome (sys * bool) :=
  let el := current_el c in
  if g_core0_ttbr0_el3 s =? 0 then
    Ok (on_core (fun _ => tell (Printk 3 "\n g_core0_ttbr0_el3 is not init \n" []) c) s, false)
  else
    let! c := set_ttbr_tcr_mair el (g_core0_ttbr0_el3 s) (tcr_value el) MEMORY_ATTRIBUTES c in
    let c := set_sctlr (Z.lor (get_sctlr c) CR_M) c in
    let c := set_sctlr (Z.lor (get_sctlr c) CR_C) c in
    Ok (on_core (fun _ => icache_enable c) s, true).

Definition enable_other_cores_cache (s : sys) : outcome sys :=
  let c := invalidate_dcache_all (s_core s) in
  let c := set_sctlr (Z.ldiff (get_sctlr c) (Z.lor CR_SA CR_A)) c in
  let! c := set_secure_instruction_fetch c in
  let! '(s, done) := enable_with_core0_tables s c in
  Ok (if done : bool then on_core (fun c => asm "mov x18" [g_gd s] (set_x18 (g_gd s) c)) s else s).

Definition enable_cache_at_el2_el1 (s : sys) : outcome sys :=
  let c := invalidate_dcache_all (s_core s) in
  let c := set_sctlr (Z.ldiff (get_sctlr c) (Z.lor CR_SA CR_A)) c in
  let! '(s, _) := enable_with_core0_tables s c in Ok s.
End mmu.

(** ** Changing one descriptor in use *)

Definition PTE_BLOCK_MEMTYPE (x : Z) : Z := Z.shiftl x 2.

(** [~0xfff] is an [int]: the mask keeps all bits above it. *)
Definition change_memory_attr (va memory_type is_non_secure : Z) (s : sys) : outcome sys :=
  let! '(c, ttbr) := get_current_ttbr (s_core s) in
  let! '(c, m) :=
    while 4 (fun '(i, pte, c, m) =>
      if i <? 4 then
        let idx := Z.land (Z.shiftr va (level2shift i)) 0x1ff in
        let pte := pte + 8 * idx in
        let! v := load64 m pte in
        let c := tell (Printk 6 "idx=%llx PTE %p at level %d: %llx\n" [idx; pte; i; v]) c in
        if pte_type v =? PTE_TYPE_TABLE then cont (i + 1, Z.ldiff v 0xfff, c, m) else
        let! m :=
          if negb (memory_type =? MT_IGNORE) then
            let! v := load64 m pte in
            store64 m pte (Z.lor (PTE_BLOCK_MEMTYPE (Z.land memory_type 7)) (Z.ldiff v (Z.shiftl 7 2)))
          else Ok m in
        let! m :=
          if negb (memory_type =? MEMORY_NS_IGNORE) then
            let! v := load64 m pte in
            store64 m pte (Z.lor (Z.shiftl (Z.land is_non_secure 1) 5) (Z.ldiff v (Z.shiftl 1 5)))
          else Ok m in
        let! v := load64 m pte in
        brk (tell (Printk 6 "\n set attr [%p]:%llx\n" [pte; v]) c, m)
      else brk (c, m)) (1, Z.ldiff ttbr 0xfff, c, s_mem s) in
  let c := __asm_invalidate_tlb_all (asm "dsb" [] c) in
  Ok (Sys c (s_gd s) m (g_core0_ttbr0_el3 s) (g_gd s)).
