(* ===== verification/MmuFacts.v ===== *)
(** * MMU and cache control: the registers

    What the operations on a core do to the bank of registers of the level it
    runs at. *)

From S2P Require Import Prelude CMem Str StrFacts StrSafe Console Words PgTable PgWalk PgMap PgSetup PgTheorems PgSpace Mmu.
From stdpp Require Import strings.

Local Open Scope string_scope.
Local Open Scope Z_scope.
Local Open Scope c_scope.

(** The bank in use. *)
Definition regs (c : core) : el_regs := bank (current_el c) c.

(** The core runs at EL1, EL2 or EL3. *)
Definition runs (c : core) : Prop := 1 <= current_el c <= 3.

Lemma bank_set_bank el r c : 1 <= el <= 3 -> bank el (set_bank el r c) = r.
Proof. intros H. assert (el = 1 \/ el = 2 \/ el = 3) as [->|[->| ->]] by lia; done. Qed.

(** Operations that leave the level alone. *)
Lemma current_el_set_sctlr v c : current_el (set_sctlr v c) = current_el c.
Proof. done. Qed.

Lemma regs_set_sctlr v c :
  runs c -> regs (set_sctlr v c) = ElRegs (u32 v) (ttbr0 (regs c)) (tcr (regs c)) (mair (regs c)).
Proof. intros Hr. exact (bank_set_bank (current_el c) _ c Hr). Qed.

Lemma get_sctlr_set v c : runs c -> get_sctlr (set_sctlr v c) = u32 v.
Proof.
  intros Hr. change (get_sctlr (set_sctlr v c)) with (u32 (sctlr (regs (set_sctlr v c)))). rewrite regs_set_sctlr by done.
  apply u32_small, Z.mod_pos_bound. lia.
Qed.

Lemma get_sctlr_range c : 0 <= get_sctlr c < 2 ^ 32.
Proof. apply Z.mod_pos_bound. lia. Qed.

(** The three bits. *)
Definition mmu_on (c : core) : bool := Z.testbit (get_sctlr c) 0.
Definition dcache_on (c : core) : bool := Z.testbit (get_sctlr c) 2.
Definition icache_on (c : core) : bool := Z.testbit (get_sctlr c) 12.

Lemma set_bits_word v k : 0 <= k < 32 -> 0 <= v < 2 ^ 32 -> u32 (Z.lor v (Z.shiftl 1 k)) = Z.lor v (Z.shiftl 1 k).
Proof.
  intros Hk Hv. apply u32_small, lor_word; [lia|done|]. rewrite Z.shiftl_1_l. split; [lia|]. apply Z.pow_lt_mono_r; lia.
Qed.

Lemma clear_bits_word v b : 0 <= v < 2 ^ 32 -> u32 (Z.ldiff v b) = Z.ldiff v b.
Proof. intros Hv. apply u32_small, ldiff_word; [lia|done]. Qed.

Lemma lor_testbit v k j : 0 <= k -> 0 <= j -> Z.testbit (Z.lor v (Z.shiftl 1 k)) j = Z.testbit v j || (k =? j).
Proof. intros Hk Hj. by rewrite Z.lor_spec, Z.shiftl_1_l, Z.pow2_bits_eqb. Qed.

Lemma regs_asm r a c : regs (asm r a c) = regs c.
Proof. done. Qed.

Lemma get_sctlr_asm r a c : get_sctlr (asm r a c) = get_sctlr c.
Proof. done. Qed.

Lemma set_ttbr_regs el table t a c :
  runs c -> el = current_el c ->
  exists c', set_ttbr_tcr_mair el table t a c = Ok c' /\ current_el c' = el /\
    regs c' = ElRegs (sctlr (regs c)) table t a /\ scr_el3 c' = scr_el3 c /\ x18 c' = x18 c /\
    c_log c' = (c_log c ++ [Asm "dsb sy" []; Asm ("msr " ++ reg_name "ttbr0" el) [table];
      Asm ("msr " ++ reg_name "tcr" el) [t]; Asm ("msr " ++ reg_name "mair" el) [a]; Asm "isb" []])%list.
Proof.
  intros Hr ->. unfold set_ttbr_tcr_mair. replace ((current_el c =? 1) || (current_el c =? 2) || (current_el c =? 3)) with true.
  2:{ symmetry. unfold runs in Hr. destruct (Z.eqb_spec (current_el c) 1), (Z.eqb_spec (current_el c) 2), (Z.eqb_spec (current_el c) 3); done || lia. }
  eexists. split; [reflexivity|]. split; [done|]. split; [|split; [done|split; [done|]]].
  - exact (bank_set_bank (current_el c) _ _ Hr).
  - cbn. by rewrite <- !app_assoc.
Qed.
