(* ===== verification/MmuTheorems.v ===== *)
(** * MMU and cache control: the theorems

    Any sequence of enabling and disabling the caches keeps the promise that
    the MMU is only on with the tables of the memory map, and a second core
    joins the address space of the first. *)

From S2P Require Import Prelude CMem Str StrFacts StrSafe Console Words PgTable PgWalk PgMap PgSetup PgTheorems PgSpace Mmu MmuFacts.
From stdpp Require Import strings.

Local Open Scope string_scope.
Local Open Scope Z_scope.
Local Open Scope c_scope.

(** The registers say: translate with the tables at [table]. *)
Definition translating (mem_map : list mm_region) (table : Z) (c : core) : Prop :=
  ttbr0 (regs c) = table /\ tcr (regs c) = tcr_value mem_map (current_el c) /\ mair (regs c) = MEMORY_ATTRIBUTES.

Section control.
Context (mem_map : list mm_region).
Local Abbreviation start := (start_level mem_map).
Local Abbreviation limit := (va_limit start).
Context (Hmap : Forall (region_ok limit) (active mem_map)).
Context (Hap : regions_apart (active mem_map)) (Hne : active mem_map <> []).

(** The tables at [root] are the memory map. *)
Definition maps (m : mem) (root : Z) : Prop :=
  forall va, 0 <= va < limit -> translate start m root va = map_translate (active mem_map) va.

(** The tables are built, or their space is ready. *)
Definition tables_ok (gd : arch_gd) (m : mem) : Prop :=
  if decide (tlb_fillptr gd = 0) then
    0 < tlb_addr gd /\ tlb_addr gd mod 4096 = 0 /\ (exists size, get_page_table_size mem_map = Ok size /\ size <= tlb_size gd) /\
    tlb_addr gd + tlb_size gd < 2 ^ 48 /\ mapped m (tlb_addr gd) (tlb_size gd)
  else maps m (tlb_addr gd).

Lemma setup_once gd m :
  tables_ok gd m ->
  returns (if tlb_fillptr gd =? 0 then setup_all_pgtables mem_map gd m else Ok (gd, m)) (fun '(gd', m') =>
    tlb_addr gd' = tlb_addr gd /\ tlb_size gd' = tlb_size gd /\ tlb_fillptr gd' <> 0 /\ maps m' (tlb_addr gd) /\
    (tlb_fillptr gd <> 0 -> gd' = gd /\ m' = m) /\
    unchanged (span_of (tlb_addr gd) (tlb_size gd)) m m').
Proof.
  unfold tables_ok. destruct (Z.eqb_spec (tlb_fillptr gd) 0) as [E|E].
  - rewrite decide_True by done. intros (A1 & A2 & (size & Es & Hsz) & A3 & Hm).
    rewrite (page_table_size mem_map Hmap) in Es. injection Es as <-.
    eapply returns_mono; [apply (setup_all_fits mem_map Hmap Hap Hne gd m A1 A2 Hsz A3 Hm)|].
    intros [gd' m'] (H1 & H2 & H3 & _ & H5 & H6). split; [done|]. split; [done|]. split; [lia|].
    split; [intros va Hva; rewrite <- H1; by apply H6|]. split; [lia|done].
  - rewrite decide_False by done. intros Hm. apply returns_ok. split; [done|]. split; [done|]. split; [done|]. split; [done|].
    split; [done|apply unchanged_refl].
Qed.

(** What [mmu_setup] writes, in order. *)
Definition setup_events (scr table v : Z) : list event :=
  [Asm "msr scr_el3" [Z.ldiff scr SCR_EL3_SIF]; Asm "dsb sy" []; Asm "msr ttbr0_el3" [table];
   Asm "msr tcr_el3" [tcr_value mem_map 3]; Asm "msr mair_el3" [MEMORY_ATTRIBUTES]; Asm "isb" [];
   Asm "msr sctlr_el3" [v]; Asm "isb" []].

Lemma mmu_setup_spec s :
  current_el (s_core s) = 3 -> tables_ok (s_gd s) (s_mem s) ->
  let v := Z.lor (get_sctlr (s_core s)) CR_M in
  returns (mmu_setup mem_map s) (fun s' =>
    current_el (s_core s') = 3 /\ get_sctlr (s_core s') = v /\
    translating mem_map (tlb_addr (s_gd s)) (s_core s') /\
    c_log (s_core s') = (c_log (s_core s) ++ setup_events (scr_el3 (s_core s)) (tlb_addr (s_gd s)) v)%list /\
    (tlb_addr (s_gd s') = tlb_addr (s_gd s) /\ tlb_size (s_gd s') = tlb_size (s_gd s) /\ tlb_fillptr (s_gd s') <> 0) /\
    maps (s_mem s') (tlb_addr (s_gd s)) /\ unchanged (span_of (tlb_addr (s_gd s)) (tlb_size (s_gd s))) (s_mem s) (s_mem s') /\
    g_core0_ttbr0_el3 s' = tlb_addr (s_gd s) /\ g_gd s' = x18 (s_core s)).
Proof.
  intros Hel Ht v. unfold mmu_setup, set_secure_instruction_fetch. rewrite Hel. change (3 <? 3) with false. cbn [obind].
  eapply returns_bind; [exact (setup_once (s_gd s) (s_mem s) Ht)|].
  intros [gd m] (H1 & H2 & H3 & H4 & _ & H5). set (c1 := asm "msr scr_el3" _ _).
  change (current_el c1) with (current_el (s_core s)). rewrite Hel, H1.
  destruct (set_ttbr_regs 3 (tlb_addr (s_gd s)) (tcr_value mem_map 3) MEMORY_ATTRIBUTES c1) as (c2 & -> & El2 & Er2 & Es2 & Ex2 & Elog);
    [unfold runs; change (current_el c1) with (current_el (s_core s)); lia|by symmetry|]. cbn [obind].
  assert (get_sctlr c2 = get_sctlr (s_core s)) as Eg.
  { change (get_sctlr c2) with (u32 (sctlr (regs c2))). by rewrite Er2. }
  rewrite current_el_set_sctlr, El2. change (3 <? 3) with false. cbv iota. apply returns_ok. cbn [s_core s_gd s_mem g_core0_ttbr0_el3 g_gd].
  assert (runs c2) as Hr2 by (unfold runs; lia). pose proof (regs_set_sctlr (Z.lor (get_sctlr c2) CR_M) c2 Hr2) as Er3.
  assert (u32 v = v) as Ev by (apply set_bits_word; [lia|apply get_sctlr_range]).
  split; [done|]. split; [rewrite get_sctlr_set, Eg by done; exact Ev|].
  split; [unfold translating; rewrite Er3, Er2, current_el_set_sctlr, El2; done|].
  split.
  { unfold set_sctlr. cbn [asm set_bank c_log]. rewrite El2, Elog, Eg. fold v. rewrite Ev. cbn [c1 asm set_scr c_log reg_name].
    rewrite <- !app_assoc. done. }
  split; [done|]. split; [done|]. split; [done|]. split.
  - transitivity (ttbr0 (regs (set_sctlr (Z.lor (get_sctlr c2) CR_M) c2))); [|by rewrite Er3, Er2].
    unfold regs. rewrite current_el_set_sctlr, El2. done.
  - exact Ex2.
Qed.

(** ** Sequences of operations *)

Inductive cache_op : Type := DcacheEnable | DcacheDisable | IcacheEnable | IcacheDisable.

Definition cache_do (op : cache_op) (s : sys) : outcome sys :=
  match op with
  | DcacheEnable => dcache_enable mem_map s
  | DcacheDisable => Ok (on_core dcache_disable s)
  | IcacheEnable => Ok (on_core icache_enable s)
  | IcacheDisable => Ok (on_core icache_disable s)
  end.

Fixpoint cache_run (ops : list cache_op) (s : sys) : outcome sys :=
  match ops with
  | [] => Ok s
  | op :: ops => let! s := cache_do op s in cache_run ops s
  end.

(** What the operations say last about the data and the instruction cache. *)
Definition data_after (b : bool) (op : cache_op) : bool :=
  match op with DcacheEnable => true | DcacheDisable => false | _ => b end.
Definition instr_after (b : bool) (op : cache_op) : bool :=
  match op with IcacheEnable => true | IcacheDisable => false | _ => b end.

(** The promise: at EL3 the MMU is on only with the tables of the memory map,
    and the data cache only with the MMU. *)
Record mmu_inv (s : sys) : Prop := {
  mi_el : current_el (s_core s) = 3;
  mi_tables : tables_ok (s_gd s) (s_mem s);
  mi_on : mmu_on (s_core s) = true ->
    tlb_fillptr (s_gd s) <> 0 /\ translating mem_map (tlb_addr (s_gd s)) (s_core s);
  mi_data : dcache_on (s_core s) = true -> mmu_on (s_core s) = true
}.

(** What changes from one state to the next. *)
Record evolves (s s' : sys) : Prop := {
  ev_gd : tlb_addr (s_gd s') = tlb_addr (s_gd s) /\ tlb_size (s_gd s') = tlb_size (s_gd s);
  ev_mem : unchanged (span_of (tlb_addr (s_gd s)) (tlb_size (s_gd s))) (s_mem s) (s_mem s')
}.

Lemma evolves_trans s1 s2 s3 : evolves s1 s2 -> evolves s2 s3 -> evolves s1 s3.
Proof.
  intros [[A1 A2] A3] [[B1 B2] B3]. split; [split; congruence|]. rewrite A1, A2 in B3. by eapply unchanged_trans.
Qed.

Lemma evolves_core f s : evolves s (on_core f s).
Proof. split; [done|apply unchanged_refl]. Qed.

(** Writing the control register with the bits of the MMU and the data cache
    kept or cleared. *)
Lemma set_sctlr_inv s v :
  mmu_inv s -> 0 <= v < 2 ^ 32 -> (Z.testbit v 0 = true -> mmu_on (s_core s) = true) ->
  (Z.testbit v 2 = true -> Z.testbit v 0 = true) -> mmu_inv (on_core (set_sctlr v) s).
Proof.
  intros [E1 E2 E3 E4] Hv H0 H2. assert (runs (s_core s)) as Hr by (unfold runs; lia).
  split; cbn [on_core s_core s_gd s_mem]; [done|done| |]; unfold mmu_on, dcache_on; rewrite (get_sctlr_set v _ Hr), (u32_small v Hv).
  - intros Hm. destruct (E3 (H0 Hm)) as (F & T1 & T2 & T3). split; [done|]. unfold translating. by rewrite regs_set_sctlr.
  - exact H2.
Qed.

Lemma icache_enable_inv s :
  mmu_inv s -> mmu_inv (on_core icache_enable s) /\ dcache_on (icache_enable (s_core s)) = dcache_on (s_core s) /\
    icache_on (icache_enable (s_core s)) = true.
Proof.
  intros Hi. pose proof Hi as [E1 _ _ Hd]. assert (runs (s_core s)) as Hr by (unfold runs; lia).
  pose proof (get_sctlr_range (s_core s)) as Hw. pose proof (set_bits_word (get_sctlr (s_core s)) 12 ltac:(lia) Hw) as Ew.
  split; [|unfold dcache_on, icache_on, icache_enable; rewrite get_sctlr_set by done;
           change (get_sctlr (invalidate_icache_all (s_core s))) with (get_sctlr (s_core s)); unfold CR_I; rewrite Ew, !lor_testbit by lia;
           cbn [Z.eqb]; by rewrite orb_false_r, orb_true_r].
  set (s1 := on_core invalidate_icache_all s). assert (mmu_inv s1) as H1 by (destruct Hi; by split).
  apply (set_sctlr_inv s1 (Z.lor (get_sctlr (s_core s)) CR_I) H1).
  - unfold CR_I. rewrite <- Ew. apply Z.mod_pos_bound. lia.
  - unfold CR_I. rewrite lor_testbit by lia. by rewrite orb_false_r.
  - unfold CR_I. rewrite !lor_testbit by lia. rewrite !orb_false_r. exact Hd.
Qed.

Lemma icache_disable_inv s :
  mmu_inv s -> mmu_inv (on_core icache_disable s) /\ dcache_on (icache_disable (s_core s)) = dcache_on (s_core s) /\
    icache_on (icache_disable (s_core s)) = false.
Proof.
  intros Hi. pose proof Hi as [E1 _ _ Hd]. assert (runs (s_core s)) as Hr by (unfold runs; lia).
  pose proof (get_sctlr_range (s_core s)) as Hw. pose proof (clear_bits_word (get_sctlr (s_core s)) CR_I Hw) as Ew.
  split; [|unfold dcache_on, icache_on, icache_disable; rewrite get_sctlr_set, Ew, !Z.ldiff_spec by done;
           change (Z.testbit CR_I 2) with false; change (Z.testbit CR_I 12) with true; by rewrite andb_true_r, andb_false_r].
  apply (set_sctlr_inv s (Z.ldiff (get_sctlr (s_core s)) CR_I) Hi).
  - rewrite <- Ew. apply Z.mod_pos_bound. lia.
  - rewrite Z.ldiff_spec. change (Z.testbit CR_I 0) with false. by rewrite andb_true_r.
  - rewrite !Z.ldiff_spec. change (Z.testbit CR_I 0) with false. change (Z.testbit CR_I 2) with false. rewrite !andb_true_r. exact Hd.
Qed.

Lemma dcache_disable_eq c :
  dcache_disable c = if dcache_on c
    then __asm_invalidate_tlb_all (flush_dcache_all (set_sctlr (Z.ldiff (get_sctlr c) (Z.lor CR_C CR_M)) c)) else c.
Proof. unfold dcache_disable, dcache_on. change CR_C with (Z.shiftl 1 2) at 1. rewrite land_bit by lia. by destruct (Z.testbit (get_sctlr c) 2). Qed.

Lemma dcache_disable_inv s :
  mmu_inv s -> mmu_inv (on_core dcache_disable s) /\ dcache_on (dcache_disable (s_core s)) = false /\
    icache_on (dcache_disable (s_core s)) = icache_on (s_core s).
Proof.
  intros Hi. pose proof Hi as [E1 _ _ Hd]. assert (runs (s_core s)) as Hr by (unfold runs; lia).
  unfold on_core. rewrite dcache_disable_eq.
  destruct (dcache_on (s_core s)) eqn:Eon; [|split; [by destruct s|by split]].
  pose proof (get_sctlr_range (s_core s)) as Hw. set (v := Z.ldiff (get_sctlr (s_core s)) (Z.lor CR_C CR_M)).
  pose proof (clear_bits_word (get_sctlr (s_core s)) (Z.lor CR_C CR_M) Hw) as Ew. fold v in Ew.
  assert (Z.testbit v 0 = false /\ Z.testbit v 2 = false /\ Z.testbit v 12 = icache_on (s_core s)) as (B0 & B2 & B12).
  { unfold v. rewrite !Z.ldiff_spec. change (Z.testbit (Z.lor CR_C CR_M) 0) with true. change (Z.testbit (Z.lor CR_C CR_M) 2) with true.
    change (Z.testbit (Z.lor CR_C CR_M) 12) with false. by rewrite !andb_false_r, andb_true_r. }
  split; [|unfold dcache_on, icache_on; change (get_sctlr (__asm_invalidate_tlb_all (flush_dcache_all (set_sctlr v (s_core s)))))
             with (get_sctlr (set_sctlr v (s_core s))); rewrite get_sctlr_set, Ew by done; done].
  assert (mmu_inv (on_core (set_sctlr v) s)) as H1 by (apply (set_sctlr_inv s v Hi); [rewrite <- Ew; apply Z.mod_pos_bound; lia|by rewrite B0|by rewrite B2]).
  destruct H1. by split.
Qed.

(** Switching the data cache on when the MMU is on. *)
Lemma set_data_inv s :
  mmu_inv s -> mmu_on (s_core s) = true ->
  mmu_inv (on_core (fun c => set_sctlr (Z.lor (get_sctlr c) CR_C) c) s) /\
  dcache_on (set_sctlr (Z.lor (get_sctlr (s_core s)) CR_C) (s_core s)) = true /\
  icache_on (set_sctlr (Z.lor (get_sctlr (s_core s)) CR_C) (s_core s)) = icache_on (s_core s).
Proof.
  intros Hi Hm. pose proof Hi as [E1 _ _ Hd]. assert (runs (s_core s)) as Hr by (unfold runs; lia).
  pose proof (get_sctlr_range (s_core s)) as Hw. pose proof (set_bits_word (get_sctlr (s_core s)) 2 ltac:(lia) Hw) as Ew.
  split; [|unfold dcache_on, icache_on; rewrite get_sctlr_set by done; unfold CR_C; rewrite Ew, !lor_testbit by lia;
           by rewrite orb_false_r, orb_true_r].
  apply (set_sctlr_inv s (Z.lor (get_sctlr (s_core s)) CR_C) Hi); [|done|].
  - unfold CR_C. rewrite <- Ew. apply Z.mod_pos_bound. lia.
  - unfold CR_C. rewrite !lor_testbit by lia. intros _. unfold mmu_on in Hm. by rewrite Hm.
Qed.

(** The events of switching everything on. *)
Definition enable_events (scr table v : Z) : list event :=
  ([Asm "__asm_invalidate_dcache_all" []; Asm "__asm_invalidate_l3_dcache" []; Asm "__asm_invalidate_tlb_all" []] ++
   setup_events scr table (Z.lor v CR_M) ++ [Asm "msr sctlr_el3" [Z.lor (Z.lor v CR_M) CR_C]; Asm "isb" []])%list.

Lemma dcache_enable_spec s :
  mmu_inv s ->
  returns (dcache_enable mem_map s) (fun s' =>
    (mmu_inv s' /\ evolves s s') /\ dcache_on (s_core s') = true /\ icache_on (s_core s') = icache_on (s_core s) /\
    (mmu_on (s_core s) = false ->
       c_log (s_core s') = (c_log (s_core s) ++ enable_events (scr_el3 (s_core s)) (tlb_addr (s_gd s)) (get_sctlr (s_core s)))%list /\
       g_core0_ttbr0_el3 s' = tlb_addr (s_gd s) /\ g_gd s' = x18 (s_core s))).
Proof.
  intros Hi. pose proof Hi as [Hel Ht Hon Hd]. unfold dcache_enable. change CR_M with (Z.shiftl 1 0) at 1. rewrite land_bit by lia.
  fold (mmu_on (s_core s)). destruct (mmu_on (s_core s)) eqn:Em; cbn [negb].
  { cbn [obind]. apply returns_ok. destruct (set_data_inv s Hi Em) as (A & B & C). split; [split; [exact A|apply evolves_core]|done]. }
  eapply returns_bind; [by apply mmu_setup_spec|]. cbn [on_core s_core s_gd s_mem].
  change (get_sctlr (__asm_invalidate_tlb_all (invalidate_dcache_all (s_core s)))) with (get_sctlr (s_core s)).
  set (v := get_sctlr (s_core s)) in *. intros s1 (El & Eg & Htr & Elog & (A1 & A2 & A3) & Hm1 & Hu & G1 & G2).
  assert (mmu_on (s_core s1) = true) as Em1 by (unfold mmu_on; rewrite Eg; unfold CR_M; rewrite lor_testbit by lia; by rewrite orb_true_r).
  assert (mmu_inv s1) as Hi1.
  { split; [done| |intros _; by rewrite A1|done]. unfold tables_ok. rewrite decide_False by done. by rewrite A1. }
  apply returns_ok. destruct (set_data_inv s1 Hi1 Em1) as (A & B & C). split; [split; [exact A|split; [done|exact Hu]]|].
  split; [exact B|]. split.
  - etransitivity; [exact C|]. unfold icache_on. rewrite Eg. unfold CR_M. rewrite lor_testbit by lia. by rewrite orb_false_r.
  - intros _. split; [|done]. cbn [on_core s_core]. unfold set_sctlr. cbn [asm set_bank c_log]. rewrite El, Elog, Eg.
    assert (u32 (Z.lor (Z.lor v CR_M) CR_C) = Z.lor (Z.lor v CR_M) CR_C) as ->.
    { apply set_bits_word; [lia|]. apply lor_word; [lia|apply get_sctlr_range|done]. }
    unfold enable_events. cbn [__asm_invalidate_tlb_all invalidate_dcache_all asm c_log scr_el3]. rewrite <- !app_assoc. done.
Qed.

Lemma cache_do_spec op s :
  mmu_inv s ->
  returns (cache_do op s) (fun s' => (mmu_inv s' /\ evolves s s') /\
    dcache_on (s_core s') = data_after (dcache_on (s_core s)) op /\ icache_on (s_core s') = instr_after (icache_on (s_core s)) op).
Proof.
  intros Hi. destruct op; cbn [cache_do data_after instr_after].
  - eapply returns_mono; [by apply dcache_enable_spec|]. intros s' (H1 & H2 & H3 & _). done.
  - apply returns_ok. destruct (dcache_disable_inv s Hi) as (A & B & C). split; [split; [exact A|apply evolves_core]|done].
  - apply returns_ok. destruct (icache_enable_inv s Hi) as (A & B & C). split; [split; [exact A|apply evolves_core]|done].
  - apply returns_ok. destruct (icache_disable_inv s Hi) as (A & B & C). split; [split; [exact A|apply evolves_core]|done].
Qed.

Lemma cache_run_spec ops s :
  mmu_inv s ->
  returns (cache_run ops s) (fun s' => (mmu_inv s' /\ evolves s s') /\
    dcache_on (s_core s') = fold_left data_after ops (dcache_on (s_core s)) /\
    icache_on (s_core s') = fold_left instr_after ops (icache_on (s_core s))).
Proof.
  revert s. induction ops as [|op ops IH]; intros s Hi; simpl.
  - apply returns_ok. split; [|done]. split; [done|]. split; [done|apply unchanged_refl].
  - eapply returns_bind; [by apply cache_do_spec|]. intros s1 ((H1 & H2) & H3 & H4).
    eapply returns_mono; [by apply IH|]. intros s2 ((J1 & J2) & J3 & J4). split; [split; [done|by eapply evolves_trans]|].
    by rewrite J3, J4, H3, H4.
Qed.
End control.

Lemma dcache_status_eq c : dcache_status c = Z.b2z (dcache_on c).
Proof. unfold dcache_status, dcache_on, CR_C. rewrite land_bit, negb_involutive by lia. by destruct (Z.testbit _ _). Qed.

Lemma icache_status_eq c : icache_status c = Z.b2z (icache_on c).
Proof. unfold icache_status, icache_on, CR_I. rewrite land_bit, negb_involutive by lia. by destruct (Z.testbit _ _). Qed.

(** ** Other cores *)

(** Switching on with the tables core 0 left. *)
Lemma enable_with_spec mem_map s c :
  runs c -> g_core0_ttbr0_el3 s <> 0 ->
  returns (enable_with_core0_tables mem_map s c) (fun '(s', done) =>
    let c' := s_core s' in
    done = true /\ current_el c' = current_el c /\ translating mem_map (g_core0_ttbr0_el3 s) c' /\
    get_sctlr c' = Z.lor (Z.lor (Z.lor (get_sctlr c) CR_M) CR_C) CR_I /\
    (s_gd s' = s_gd s /\ s_mem s' = s_mem s /\ g_core0_ttbr0_el3 s' = g_core0_ttbr0_el3 s /\ g_gd s' = g_gd s)).
Proof.
  intros Hr Hg. unfold enable_with_core0_tables. destruct (Z.eqb_spec (g_core0_ttbr0_el3 s) 0); [done|].
  destruct (set_ttbr_regs (current_el c) (g_core0_ttbr0_el3 s) (tcr_value mem_map (current_el c)) MEMORY_ATTRIBUTES c Hr eq_refl)
    as (c2 & -> & El2 & Er2 & _). cbn [obind]. apply returns_ok. cbn [on_core s_core s_gd s_mem g_core0_ttbr0_el3 g_gd].
  assert (get_sctlr c2 = get_sctlr c) as Eg2 by (change (get_sctlr c2) with (u32 (sctlr (regs c2))); by rewrite Er2).
  assert (runs c2) as Hr2 by (unfold runs in *; lia). pose proof (get_sctlr_range c) as Hw.
  set (v := get_sctlr c) in *. assert (0 <= Z.lor v CR_M < 2 ^ 32) as Hw1 by by apply lor_word.
  assert (0 <= Z.lor (Z.lor v CR_M) CR_C < 2 ^ 32) as Hw2 by by apply lor_word.
  set (c3 := set_sctlr (Z.lor (get_sctlr c2) CR_M) c2).
  assert (get_sctlr c3 = Z.lor v CR_M) as Eg3 by (unfold c3; rewrite get_sctlr_set, Eg2, u32_small by done; done).
  set (c4 := set_sctlr (Z.lor (get_sctlr c3) CR_C) c3).
  assert (get_sctlr c4 = Z.lor (Z.lor v CR_M) CR_C) as Eg4 by (unfold c4; rewrite get_sctlr_set, Eg3, u32_small by done; done).
  assert (regs c4 = ElRegs (Z.lor (Z.lor v CR_M) CR_C) (g_core0_ttbr0_el3 s) (tcr_value mem_map (current_el c)) MEMORY_ATTRIBUTES) as Er4.
  { unfold c4. rewrite regs_set_sctlr by done. unfold c3 at 2 3 4. rewrite regs_set_sctlr, Er2 by done. cbn [ttbr0 tcr mair].
    by rewrite Eg3, u32_small. }
  split; [done|]. split; [exact El2|]. split; [|split; [|done]].
  - unfold translating. change (current_el (icache_enable c4)) with (current_el c2). rewrite El2.
    unfold icache_enable. rewrite regs_set_sctlr by done. change (regs (invalidate_icache_all c4)) with (regs c4). by rewrite Er4.
  - unfold icache_enable. rewrite get_sctlr_set by done. change (get_sctlr (invalidate_icache_all c4)) with (get_sctlr c4).
    rewrite Eg4. apply u32_small, lor_word; [lia|done|done].
Qed.

(** The bits of the control register of a core that has joined. *)
Lemma joined_bits v a : 0 <= v < 2 ^ 32 -> a = Z.lor CR_SA CR_A ->
  let w := Z.lor (Z.lor (Z.lor (Z.ldiff v a) CR_M) CR_C) CR_I in
  Z.testbit w 0 = true /\ Z.testbit w 2 = true /\ Z.testbit w 12 = true /\ Z.testbit w 1 = false /\ Z.testbit w 3 = false.
Proof.
  intros Hv -> w. unfold w, CR_M, CR_C, CR_I. rewrite !lor_testbit by lia. rewrite !Z.ldiff_spec.
  change (Z.testbit (Z.lor CR_SA CR_A) 1) with true. change (Z.testbit (Z.lor CR_SA CR_A) 3) with true.
  rewrite !andb_false_r. by repeat rewrite ?orb_true_r, ?orb_false_r.
Qed.

(** The registers of a second core that finds the tables of the first. *)
Lemma other_core_joins (mem_map : list mm_region) (s : sys) (c2 : core) :
  Forall (region_ok (va_limit (start_level mem_map))) (active mem_map) ->
  regions_apart (active mem_map) -> active mem_map <> [] ->
  mmu_inv mem_map s -> mmu_on (s_core s) = false -> 0 < tlb_addr (s_gd s) -> current_el c2 = 3 ->
  returns (let! s1 := dcache_enable mem_map s in
           let! s2 := enable_other_cores_cache mem_map
                        (Sys c2 (s_gd s1) (s_mem s1) (g_core0_ttbr0_el3 s1) (g_gd s1)) in Ok (s1, s2)) (fun '(s1, s2) =>
    c_log (s_core s1) = (c_log (s_core s) ++
      enable_events mem_map (scr_el3 (s_core s)) (tlb_addr (s_gd s)) (get_sctlr (s_core s)))%list /\
    s_mem s2 = s_mem s1 /\
    ttbr0 (regs (s_core s2)) = ttbr0 (regs (s_core s1)) /\ tcr (regs (s_core s2)) = tcr (regs (s_core s1)) /\
    mair (regs (s_core s2)) = mair (regs (s_core s1)) /\
    maps mem_map (s_mem s2) (ttbr0 (regs (s_core s2))) /\
    x18 (s_core s2) = x18 (s_core s) /\
    mmu_on (s_core s2) = true /\ dcache_on (s_core s2) = true /\ icache_on (s_core s2) = true /\
    Z.testbit (get_sctlr (s_core s2)) 1 = false /\ Z.testbit (get_sctlr (s_core s2)) 3 = false).
Proof.
  intros Hmap Hap Hne Hi Hoff Hta Hel2. eapply returns_bind; [by apply dcache_enable_spec|].
  intros s1 ((Hi1 & [[Ea Es] Hu]) & Hd1 & _ & Hoff1). destruct (Hoff1 Hoff) as (Elog & Eg0 & Eg). pose proof Hi1 as [El1 Ht1 Hon1 Hdm1].
  destruct (Hon1 (Hdm1 Hd1)) as (Hf1 & T1 & T2 & T3).
  unfold enable_other_cores_cache, set_secure_instruction_fetch. cbn [s_core].
  set (c3 := set_sctlr _ _). change (current_el c3) with (current_el c2). rewrite Hel2. change (3 <? 3) with false. cbn [obind].
  set (c4 := asm "msr scr_el3" _ _). set (s1' := Sys c2 _ _ _ _).
  eapply (returns_bind _ _ (fun s3 => exists s2, s3 = on_core (fun c => asm "mov x18" [g_gd s2] (set_x18 (g_gd s2) c)) s2 /\
      translating mem_map (g_core0_ttbr0_el3 s1) (s_core s2) /\ current_el (s_core s2) = 3 /\
      get_sctlr (s_core s2) = Z.lor (Z.lor (Z.lor (get_sctlr c4) CR_M) CR_C) CR_I /\ s_mem s2 = s_mem s1 /\ g_gd s2 = g_gd s1)).
  { eapply returns_bind; [apply (enable_with_spec mem_map s1' c4)|].
    - unfold runs. change (current_el c4) with (current_el c2). lia.
    - cbn [s1' g_core0_ttbr0_el3]. lia.
    - intros [s2 b] (-> & El & Tr & Ew & _ & F2 & _ & F4). apply returns_ok. exists s2. split; [done|]. split; [exact Tr|].
      split; [rewrite El; exact Hel2|done]. }
  intros s3 (s2 & -> & (R1 & R2 & R3) & El & Ew & Em & Egg). apply returns_ok. split; [exact Elog|].
  cbn [on_core s_core s_mem]. rewrite !(regs_asm _ _ (set_x18 _ _)). change (regs (set_x18 (g_gd s2) (s_core s2))) with (regs (s_core s2)).
  assert (get_sctlr c4 = Z.ldiff (get_sctlr c2) (Z.lor CR_SA CR_A)) as E4.
  { change (get_sctlr c4) with (get_sctlr c3). unfold c3. rewrite get_sctlr_set by (unfold runs; change (current_el (invalidate_dcache_all c2)) with (current_el c2); lia).
    apply clear_bits_word, get_sctlr_range. }
  destruct (joined_bits (get_sctlr c2) _ (get_sctlr_range c2) eq_refl) as (B0 & B2 & B12 & B1 & B3). rewrite <- E4, <- Ew in *.
  split; [done|]. rewrite R1, R2, R3, T1, T2, T3, Eg0, Ea, El, El1. split; [done|]. split; [done|]. split; [done|].
  split; [|split; [by transitivity (g_gd s1); [|rewrite Eg]|done]].
  rewrite Em. unfold tables_ok in Ht1. rewrite decide_False, Ea in Ht1 by done. exact Ht1.
Qed.


(** A second core before the first has switched its MMU on. *)
Lemma other_core_early (mem_map : list mm_region) (s : sys) :
  current_el (s_core s) = 3 -> g_core0_ttbr0_el3 s = 0 ->
  returns (enable_other_cores_cache mem_map s) (fun s' =>
    s_mem s' = s_mem s /\ x18 (s_core s') = x18 (s_core s) /\
    list.last (c_log (s_core s')) = Some (Printk 3 "\n g_core0_ttbr0_el3 is not init \n" []) /\
    regs (s_core s') = ElRegs (Z.ldiff (get_sctlr (s_core s)) (Z.lor CR_SA CR_A)) (ttbr0 (regs (s_core s))) (tcr (regs (s_core s))) (mair (regs (s_core s))) /\
    mmu_on (s_core s') = mmu_on (s_core s) /\ dcache_on (s_core s') = dcache_on (s_core s) /\ icache_on (s_core s') = icache_on (s_core s)).
Proof.
  intros Hel Hz. unfold enable_other_cores_cache, set_secure_instruction_fetch. set (c := invalidate_dcache_all (s_core s)).
  set (v := Z.ldiff _ _). change (current_el (set_sctlr v c)) with (current_el (s_core s)). rewrite Hel. change (3 <? 3) with false. cbn [obind].
  unfold enable_with_core0_tables. rewrite Hz. cbn [Z.eqb obind]. apply returns_ok. cbn [on_core s_core s_mem].
  set (c' := tell _ _).
  assert (runs c) as Hr by (unfold runs; change (current_el c) with (current_el (s_core s)); lia).
  assert (regs c' = ElRegs v (ttbr0 (regs (s_core s))) (tcr (regs (s_core s))) (mair (regs (s_core s)))) as Er.
  { change (regs c') with (regs (set_sctlr v c)). rewrite regs_set_sctlr by done. f_equal. apply clear_bits_word, get_sctlr_range. }
  assert (get_sctlr c' = v) as Eg.
  { change (get_sctlr c') with (get_sctlr (set_sctlr v c)). rewrite get_sctlr_set by done. apply clear_bits_word, get_sctlr_range. }
  split; [done|]. split; [done|]. split; [apply last_snoc|]. split; [exact Er|].
  unfold mmu_on, dcache_on, icache_on. rewrite Eg. unfold v. change (get_sctlr c) with (get_sctlr (s_core s)).
  rewrite !Z.ldiff_spec. change (Z.testbit (Z.lor CR_SA CR_A) 0) with false. change (Z.testbit (Z.lor CR_SA CR_A) 2) with false.
  change (Z.testbit (Z.lor CR_SA CR_A) 12) with false. by rewrite !andb_true_r.
Qed.

(** ** Claims *)

(** C5: the MMU and the caches.  Let the core run at EL3, the space for tables
    have the size [get_page_table_size] computes (or the tables be built), the
    MMU be on only with the tables of the memory map and the data cache only
    with the MMU.  Then any sequence of enabling and disabling the data and the
    instruction cache runs to its end without a panic, keeps that promise in
    every state on the way, writes to memory only in the space for tables, and
    [dcache_status] and [icache_status] report what was asked for last. *)
Theorem cache_control_correct (mem_map : list mm_region) (ops : list cache_op) (s : sys) :
  Forall (region_ok (va_limit (start_level mem_map))) (active mem_map) ->
  regions_apart (active mem_map) -> active mem_map <> [] ->
  mmu_inv mem_map s ->
  returns (cache_run mem_map ops s) (fun s' =>
    mmu_inv mem_map s' /\
    unchanged (span_of (tlb_addr (s_gd s)) (tlb_size (s_gd s))) (s_mem s) (s_mem s') /\
    dcache_status (s_core s') = Z.b2z (fold_left data_after ops (dcache_on (s_core s))) /\
    icache_status (s_core s') = Z.b2z (fold_left instr_after ops (icache_on (s_core s)))).
Proof.
  intros Hmap Hap Hne Hi. eapply returns_mono; [by apply cache_run_spec|]. intros s' ((H1 & [_ H2]) & H3 & H4).
  rewrite dcache_status_eq, icache_status_eq, H3, H4. done.
Qed.

(** A core after reset at EL3, the tables not built. *)
Definition reset_core : core := Core 12 (ElRegs 0 0 0 0) (ElRegs 0 0 0 0) (ElRegs 0xc50838 0 0 0) 0 0x631 0x7000 [].
Definition reset_mem : mem := write_bytes ∅ 0x10000 (replicate (Z.to_nat 0xc000) 0).
Definition reset_sys : sys := Sys reset_core small_size_gd reset_mem 0 0.

Lemma small_map_apart : regions_apart (active small_map) /\ active small_map <> [].
Proof.
  change (active small_map) with (take 2 small_map). split; [|done].
  split; [constructor; [right; cbn; lia|constructor]|]. split; [constructor|done].
Qed.

Lemma reset_mem_mapped : mapped reset_mem 0x10000 0xc000.
Proof.
  unfold reset_mem. generalize (∅ : mem). intros m0.
  pose proof (bytes_at_mapped _ _ _ (write_bytes_at m0 0x10000 (replicate (Z.to_nat 0xc000) 0))) as H.
  rewrite length_replicate in H. exact H.
Qed.

Lemma small_map_size : get_page_table_size small_map = Ok 0xc000.
Proof. vm_compute. reflexivity. Qed.

Lemma reset_inv : mmu_inv small_map reset_sys.
Proof.
  split; [done| |done|done]. unfold tables_ok. rewrite decide_True by done. split; [done|]. split; [done|].
  split; [exists 0xc000; split; [exact small_map_size|done]|]. split; [done|exact reset_mem_mapped].
Qed.

Lemma cache_control_correct_witness :
  returns (cache_run small_map [DcacheEnable; IcacheEnable; DcacheDisable; DcacheEnable] reset_sys) (fun s' =>
    mmu_inv small_map s' /\ dcache_status (s_core s') = 1 /\ icache_status (s_core s') = 1).
Proof.
  eapply returns_mono.
  - apply (cache_control_correct small_map [DcacheEnable; IcacheEnable; DcacheDisable; DcacheEnable] reset_sys);
      [exact small_map_ok|apply small_map_apart|apply small_map_apart|exact reset_inv].
  - intros s' (H1 & _ & H2 & H3). split; [exact H1|]. split; [exact H2|exact H3].
Defined.

(** C33: the order in which the MMU is switched on, and a second core.  When
    [dcache_enable] finds the MMU off, it invalidates the data cache and the
    TLB, then loads the table base, the translation control and the memory
    attributes, and only after that sets the MMU bit and finally the cache bit
    of SCTLR_EL3; no other register is written.  A second core at EL3 that then
    runs [enable_other_cores_cache] translates with the same base, control and
    attributes, that is, as the memory map says, with the MMU and both caches
    on, alignment checks off, and the global data pointer of core 0.  Before
    core 0 has set its table base, a second core that runs it reports the
    missing base as an error and stays as it was: no memory, none of its
    translation registers and neither the MMU nor a cache bit changes; only the
    alignment checks and the secure fetch restriction are switched off and the
    caches invalidated. *)
Theorem second_core_joins (mem_map : list mm_region) (s : sys) (c2 : core) :
  Forall (region_ok (va_limit (start_level mem_map))) (active mem_map) ->
  regions_apart (active mem_map) -> active mem_map <> [] ->
  mmu_inv mem_map s -> mmu_on (s_core s) = false -> 0 < tlb_addr (s_gd s) -> current_el c2 = 3 ->
  returns (let! s1 := dcache_enable mem_map s in
           let! s2 := enable_other_cores_cache mem_map
                        (Sys c2 (s_gd s1) (s_mem s1) (g_core0_ttbr0_el3 s1) (g_gd s1)) in Ok (s1, s2)) (fun '(s1, s2) =>
    c_log (s_core s1) = (c_log (s_core s) ++
      enable_events mem_map (scr_el3 (s_core s)) (tlb_addr (s_gd s)) (get_sctlr (s_core s)))%list /\
    s_mem s2 = s_mem s1 /\
    ttbr0 (regs (s_core s2)) = ttbr0 (regs (s_core s1)) /\ tcr (regs (s_core s2)) = tcr (regs (s_core s1)) /\
    mair (regs (s_core s2)) = mair (regs (s_core s1)) /\
    maps mem_map (s_mem s2) (ttbr0 (regs (s_core s2))) /\
    x18 (s_core s2) = x18 (s_core s) /\
    mmu_on (s_core s2) = true /\ dcache_on (s_core s2) = true /\ icache_on (s_core s2) = true /\
    Z.testbit (get_sctlr (s_core s2)) 1 = false /\ Z.testbit (get_sctlr (s_core s2)) 3 = false) /\
  returns (enable_other_cores_cache mem_map (Sys c2 (s_gd s) (s_mem s) 0 (g_gd s))) (fun s2 =>
    s_mem s2 = s_mem s /\ x18 (s_core s2) = x18 c2 /\
    list.last (c_log (s_core s2)) = Some (Printk 3 "\n g_core0_ttbr0_el3 is not init \n" []) /\
    regs (s_core s2) = ElRegs (Z.ldiff (get_sctlr c2) (Z.lor CR_SA CR_A)) (ttbr0 (regs c2)) (tcr (regs c2)) (mair (regs c2)) /\
    mmu_on (s_core s2) = mmu_on c2 /\ dcache_on (s_core s2) = dcache_on c2 /\ icache_on (s_core s2) = icache_on c2).
Proof. intros. split; [by apply other_core_joins|by apply (other_core_early mem_map (Sys c2 (s_gd s) (s_mem s) 0 (g_gd s)))]. Qed.

Lemma second_core_joins_witness :
  returns (let! s1 := dcache_enable small_map reset_sys in
           let! s2 := enable_other_cores_cache small_map
                        (Sys reset_core (s_gd s1) (s_mem s1) (g_core0_ttbr0_el3 s1) (g_gd s1)) in Ok (s1, s2)) (fun '(s1, s2) =>
    ttbr0 (regs (s_core s2)) = ttbr0 (regs (s_core s1)) /\ mmu_on (s_core s2) = true) /\
  returns (enable_other_cores_cache small_map (Sys reset_core (s_gd reset_sys) (s_mem reset_sys) 0 (g_gd reset_sys))) (fun s2 =>
    mmu_on (s_core s2) = false).
Proof.
  destruct (second_core_joins small_map reset_sys reset_core) as [H1 H2];
    [exact small_map_ok|apply small_map_apart|apply small_map_apart|exact reset_inv|done|done|done|]. split.
  - eapply returns_mono; [exact H1|]. intros [s1 s2] (_ & _ & Ha & _ & _ & _ & _ & Hb & _). split; [exact Ha|exact Hb].
  - eapply returns_mono; [exact H2|]. intros s2 (_ & _ & _ & _ & Hb & _). exact Hb.
Defined.
