(* ===== verification/MmuAttr.v ===== *)
(** * Changing the attributes of one mapped address

    [change_memory_attr] walks the tables the core uses and changes the memory
    type and the security bit of the descriptor it finds. *)

From S2P Require Import Prelude CMem Str StrFacts StrSafe Console Words PgTable PgWalk PgMap PgSetup PgTheorems PgAttr PgAttrFacts PgAttrTheorems Mmu MmuFacts.
From stdpp Require Import strings.

Local Open Scope Z_scope.
Local Open Scope c_scope.

(** [v'] is [v] with the memory type and the security bit asked for. *)
Definition attr_bits (memory_type is_non_secure v v' : Z) : Prop :=
  forall k, 0 <= k -> Z.testbit v' k =
    if (2 <=? k) && (k <=? 4) then (if memory_type =? MT_IGNORE then Z.testbit v k else Z.testbit memory_type (k - 2))
    else if k =? 5 then (if memory_type =? MEMORY_NS_IGNORE then Z.testbit v k else Z.testbit is_non_secure 0)
    else Z.testbit v k.

(** A field of [n] bits at [a] replaced. *)
Lemma field_bits x v a n k : 0 <= a -> 0 <= n -> 0 <= k ->
  Z.testbit (Z.lor (Z.shiftl (Z.land x (Z.ones n)) a) (Z.ldiff v (Z.shiftl (Z.ones n) a))) k =
    if (a <=? k) && (k <? a + n) then Z.testbit x (k - a) else Z.testbit v k.
Proof.
  intros Ha Hn Hk. rewrite Z.lor_spec, Z.ldiff_spec, !Z.shiftl_spec, Z.land_spec by done.
  destruct (Z.leb_spec a k); cbn [andb].
  - rewrite Z.testbit_ones_nonneg by lia. destruct (Z.ltb_spec (k - a) n), (Z.ltb_spec k (a + n)); try lia.
    + by rewrite andb_true_r, andb_false_r, orb_false_r.
    + by rewrite andb_false_r, andb_true_r.
  - rewrite !(Z.testbit_neg_r _ (k - a)) by lia. by rewrite andb_true_r.
Qed.

Definition new_type (memory_type v : Z) : Z :=
  if negb (memory_type =? MT_IGNORE) then Z.lor (PTE_BLOCK_MEMTYPE (Z.land memory_type 7)) (Z.ldiff v (Z.shiftl 7 2)) else v.
Definition new_ns (memory_type is_non_secure v : Z) : Z :=
  if negb (memory_type =? MEMORY_NS_IGNORE) then Z.lor (Z.shiftl (Z.land is_non_secure 1) 5) (Z.ldiff v (Z.shiftl 1 5)) else v.

Lemma new_bits mt ns v : attr_bits mt ns v (new_ns mt ns (new_type mt v)).
Proof.
  intros k Hk. unfold new_ns, new_type, PTE_BLOCK_MEMTYPE. change 7 with (Z.ones 3). change 1 with (Z.ones 1).
  assert (Z.testbit (if negb (mt =? MT_IGNORE) then Z.lor (Z.shiftl (Z.land mt (Z.ones 3)) 2) (Z.ldiff v (Z.shiftl (Z.ones 3) 2)) else v) k =
          if (2 <=? k) && (k <=? 4) then (if mt =? MT_IGNORE then Z.testbit v k else Z.testbit mt (k - 2)) else Z.testbit v k) as Ht.
  { destruct (mt =? MT_IGNORE); cbn [negb]; [by destruct ((2 <=? k) && (k <=? 4))|]. rewrite field_bits by lia.
    by replace (k <? 2 + 3) with (k <=? 4) by (destruct (Z.leb_spec k 4), (Z.ltb_spec k (2 + 3)); lia). }
  destruct (mt =? MEMORY_NS_IGNORE); cbn [negb].
  - rewrite Ht. destruct (Z.eqb_spec k 5) as [->|]; [done|]. done.
  - rewrite field_bits by lia. rewrite Ht. destruct (Z.eqb_spec k 5) as [->|Hne]; [done|].
    replace ((5 <=? k) && (k <? 5 + 1)) with false; [done|]. symmetry. destruct (Z.leb_spec 5 k), (Z.ltb_spec k (5 + 1)); done || lia.
Qed.

Lemma new_range mt ns v : 0 <= v < 2 ^ 64 -> 0 <= new_type mt v < 2 ^ 64 /\ 0 <= new_ns mt ns v < 2 ^ 64.
Proof.
  intros Hv. unfold new_type, new_ns, PTE_BLOCK_MEMTYPE.
  assert (0 <= Z.land mt 7 < 8) by (change 7 with (2 ^ 3 - 1); rewrite land_mask by lia; apply Z.mod_pos_bound; lia).
  assert (0 <= Z.land ns 1 < 2) by (change 1 with (2 ^ 1 - 1); rewrite land_mask by lia; apply Z.mod_pos_bound; lia).
  split; case_match; try done; (apply lor_word; [lia|rewrite Z.shiftl_mul_pow2; lia|apply ldiff_word; lia]).
Qed.

Lemma new_pte_type mt ns v : pte_type (new_ns mt ns (new_type mt v)) = pte_type v.
Proof.
  rewrite !pte_type_mod. change 4 with (2 ^ 2). rewrite <- !Z.land_ones by lia. apply Z.bits_inj'. intros k Hk.
  rewrite !Z.land_spec, Z.testbit_ones_nonneg by lia. destruct (Z.ltb_spec k 2); [|by rewrite !andb_false_r].
  rewrite (new_bits mt ns v k Hk). destruct (Z.leb_spec 2 k); [lia|]. cbn [andb]. by destruct (Z.eqb_spec k 5); [lia|].
Qed.

(** The two stores. *)
Lemma attr_stores m pte mt ns :
  mapped m pte 8 -> 0 <= rdw m pte < 2 ^ 64 ->
  returns (let! m := if negb (mt =? MT_IGNORE) then
               let! v := load64 m pte in
               store64 m pte (Z.lor (PTE_BLOCK_MEMTYPE (Z.land mt 7)) (Z.ldiff v (Z.shiftl 7 2)))
             else Ok m in
           if negb (mt =? MEMORY_NS_IGNORE) then
             let! v := load64 m pte in
             store64 m pte (Z.lor (Z.shiftl (Z.land ns 1) 5) (Z.ldiff v (Z.shiftl 1 5)))
           else Ok m)
    (fun m' => unchanged (span_of pte 8) m m' /\ rdw m' pte = new_ns mt ns (new_type mt (rdw m pte))).
Proof.
  intros Hm Hr. destruct (new_range mt ns (rdw m pte) Hr) as [Hr1 _]. destruct (new_range mt ns _ Hr1) as [_ Hr2].
  eapply (returns_bind _ _ (fun m' => unchanged (span_of pte 8) m m' /\ rdw m' pte = new_type mt (rdw m pte))).
  - unfold new_type in *. destruct (negb (mt =? MT_IGNORE)); [|apply returns_ok; split; [apply unchanged_refl|done]].
    rewrite (load64_rdw _ _ Hm). cbn [obind]. eapply returns_mono; [by apply store64_spec|]. intros m' [HU ->].
    split; [done|]. by apply Z.mod_small.
  - intros m1 [U1 E1]. assert (mapped m1 pte 8) as Hm1 by by eapply unchanged_mapped.
    unfold new_ns in *. destruct (negb (mt =? MEMORY_NS_IGNORE)); [|apply returns_ok; done].
    rewrite (load64_rdw _ _ Hm1), E1. cbn [obind]. eapply returns_mono; [by apply store64_spec|]. intros m' [HU ->].
    split; [by eapply unchanged_trans|]. by apply Z.mod_small.
Qed.

Section change.
Context (mem_map : list mm_region) (root : Z) (o : origin) (Hstart : start_level mem_map = 1).
Local Abbreviation limit := (va_limit (start_level mem_map)).
Local Abbreviation W m va := (walk_from m root (start_level mem_map) va).

(** What the walk ends at, after the change. *)
Definition changed (m : mem) (va mt ns : Z) (m' : mem) : Prop :=
  if decide ((W m va).1 = 3 /\ pte_type (W m va).2 = PTE_TYPE_PAGE) then m' = m
  else exists v', attr_bits mt ns (W m va).2 v' /\
    forall va', 0 <= va' < limit -> W m' va' =
      if decide (va' / lsize (W m va).1 = va / lsize (W m va).1) then ((W m va).1, v') else W m va'.

Lemma change_leaf G gd m va mt ns T :
  pg_ok mem_map root o G gd m -> 0 <= va < limit -> reach root (start_level mem_map) m va T (W m va).1 ->
  pte_type (W m va).2 <> PTE_TYPE_TABLE ->
  let pte := T + 8 * pte_index va (W m va).1 in
  returns (let! m := if negb (mt =? MT_IGNORE) then
               let! v := load64 m pte in
               store64 m pte (Z.lor (PTE_BLOCK_MEMTYPE (Z.land mt 7)) (Z.ldiff v (Z.shiftl 7 2)))
             else Ok m in
           if negb (mt =? MEMORY_NS_IGNORE) then
             let! v := load64 m pte in
             store64 m pte (Z.lor (Z.shiftl (Z.land ns 1) 5) (Z.ldiff v (Z.shiftl 1 5)))
           else Ok m)
    (fun m' => changed m va mt ns m' /\ mapped m' pte 8).
Proof.
  intros Hk Hva Hr Ht pte. pose proof (start_range mem_map) as Hs. pose proof Hk as [HI _].
  pose proof (path_end mem_map root m va T Hr) as Ev. pose proof Hr as [Hl _].
  assert (G !! T = Some ((W m va).1, va - va mod (512 * lsize (W m va).1))) as HG by by eapply reach_G.
  pose proof (pi_range _ _ _ _ _ HI _ _ _ _ HG (pte_index_range va (W m va).1 ltac:(lia))) as Hrange.
  pose proof (reach_mapped mem_map root o _ _ _ _ _ _ Hk Hva Hr) as Hm. fold pte in Hm, Ev, Hrange.
  eapply returns_mono; [by apply attr_stores|]. intros m' [HU E]. split; [|by eapply unchanged_mapped].
  rewrite Ev in E. unfold changed. rewrite decide_False by (unfold PTE_TYPE_PAGE, PTE_TYPE_TABLE in *; tauto).
  exists (new_ns mt ns (new_type mt (W m va).2)). split; [apply new_bits|]. intros va' Hva'.
  destruct (decide (va' / lsize (W m va).1 = va / lsize (W m va).1)) as [Eb|Eb].
  - rewrite (store_walk root _ Hs G _ m m' va T (W m va).1 HI Hva Hr HU va' Eb). cbv zeta. fold pte. rewrite E, new_pte_type.
    destruct (Z.eqb_spec (pte_type (W m va).2) PTE_TYPE_TABLE); [done|]. by rewrite andb_false_r.
  - by apply (store_other root _ Hs G _ m m' va T (W m va).1 HI Hva Hr HU).
Qed.

Lemma change_memory_attr_spec G va mt ns s :
  pg_ok mem_map root o G (s_gd s) (s_mem s) -> runs (s_core s) -> Z.ldiff (ttbr0 (regs (s_core s))) 0xfff = root ->
  0 <= va < limit ->
  returns (change_memory_attr va mt ns s) (fun s' =>
    changed (s_mem s) va mt ns (s_mem s') /\ regs (s_core s') = regs (s_core s) /\ s_gd s' = s_gd s /\
    exists log, c_log (s_core s') = (log ++ [Asm "dsb" []; Asm "__asm_invalidate_tlb_all" []])%list).
Proof.
  intros Hk Hr Ett Hva. pose proof (start_range mem_map) as Hs. pose proof Hk as [HI _]. unfold change_memory_attr, get_current_ttbr.
  replace ((current_el (s_core s) =? 1) || (current_el (s_core s) =? 2) || (current_el (s_core s) =? 3)) with true.
  2:{ symmetry. unfold runs in Hr. destruct (Z.eqb_spec (current_el (s_core s)) 1), (Z.eqb_spec (current_el (s_core s)) 2), (Z.eqb_spec (current_el (s_core s)) 3); done || lia. }
  cbn [obind]. change (ttbr0 (bank (current_el (s_core s)) (asm "dsb sy" [] (s_core s)))) with (ttbr0 (regs (s_core s))). rewrite Ett.
  set (m := s_mem s) in *. set (gd := s_gd s) in *.
  eapply (returns_bind _ _ (fun '(c', m') => changed m va mt ns m' /\ regs c' = regs (s_core s))).
  - apply (returns_while (fun '(i, p, c, m1) => m1 = m /\ regs c = regs (s_core s) /\
             (1 <= i <= 3 /\ reach root (start_level mem_map) m va p i \/
              i = 4 /\ (W m va).1 = 3 /\ pte_type (W m va).2 = PTE_TYPE_PAGE)) (fun '(i, _, _, _) => Z.to_nat (4 - i))).
    + intros [[[i p] c] m1] (-> & Ec & [[Hi Hp]|(-> & H3 & Hpage)]).
      2:{ change (4 <? 4) with false. apply returns_ok. split; [|done]. unfold changed. by rewrite decide_True. }
      destruct (Z.ltb_spec i 4); [|lia]. cbv zeta. change (Z.land (Z.shiftr va (level2shift i)) 511) with (pte_index va i).
      pose proof (reach_mapped mem_map root o _ _ _ _ _ _ Hk Hva Hp) as Hm. rewrite (load64_rdw _ _ Hm). cbn [obind].
      pose proof (reach_level mem_map root m va p i Hp) as Hlev. destruct (walk_end mem_map root m va) as (T1 & Hl1 & Hr1 & Ev1 & Hnt1).
      destruct (Z.eqb_spec (pte_type (rdw m (p + 8 * pte_index va i))) PTE_TYPE_TABLE) as [Et|Et].
      * apply returns_ok. split; [|lia]. split; [done|]. split; [done|]. destruct (decide (i = 3)) as [->|Hne].
        { right. split; [done|]. assert ((W m va).1 = 3) as E3 by lia. split; [done|]. rewrite Ev1, E3.
          rewrite E3 in Hr1. by rewrite (reach_det _ _ _ _ _ _ _ Hr1 Hp). }
        left. split; [lia|].
        assert (G !! p = Some (i, va - va mod (512 * lsize i))) as HG by by eapply reach_G.
        pose proof (pi_entry _ _ _ _ _ HI _ _ _ _ HG (pte_index_range va i ltac:(lia)) ltac:(lia)) as He. cbv zeta in He.
        destruct He as [E|[(_ & _ & Hsmall)|[E _]]]; [by rewrite E in Et| |by rewrite E in Et].
        pose proof (pi_range _ _ _ _ _ HI _ _ _ _ HG (pte_index_range va i ltac:(lia))) as Hrange.
        assert (Z.ldiff (rdw m (p + 8 * pte_index va i)) 0xfff = pte_addr (rdw m (p + 8 * pte_index va i))) as ->.
        { set (v := rdw m (p + 8 * pte_index va i)) in *. change 0xfff with (Z.ones 12). rewrite Z.ldiff_ones_r, Z.shiftr_div_pow2, Z.shiftl_mul_pow2 by lia.
          unfold pte_addr. change (2 ^ 12) with 4096. rewrite Z.mod_small by dlia. done. }
        by apply reach_next; [|lia|].
      * assert ((W m va).1 = i) as Ei.
        { destruct (decide ((W m va).1 = i)) as [|Hne]; [done|]. destruct Et. apply (path_table mem_map root m va p i Hp). lia. }
        pose proof (change_leaf G gd m va mt ns p Hk Hva) as Hleaf. rewrite Ei in Hleaf. specialize (Hleaf Hp).
        assert (pte_type (W m va).2 <> PTE_TYPE_TABLE) as Hnt.
        { pose proof (path_end mem_map root m va p) as Hpe. rewrite Ei in Hpe. by rewrite <- (Hpe Hp). }
        destruct (Hleaf Hnt) as (m' & E & Hch & Hm'). cbv zeta in E. rewrite (load64_rdw _ _ Hm) in E. cbn [obind] in E.
        revert E. destruct (if negb (mt =? MT_IGNORE) then _ else _) as [m2| | |]; cbn [obind]; try done. intros ->. cbn [obind].
        rewrite (load64_rdw _ _ Hm'). cbn [obind]. apply returns_ok. split; [exact Hch|exact Ec].
    + split; [done|]. split; [done|]. left. split; [lia|].
      pose proof (reach_root root _ Hs m va) as H0. by rewrite Hstart in H0 at 2.
    + lia.
  - intros [c' m'] [Hch Ec]. apply returns_ok. cbn [s_mem s_core s_gd]. split; [done|]. split; [exact Ec|]. split; [done|].
    exists (c_log c'). cbn. by rewrite <- app_assoc.
Qed.
End change.

(** ** Claim *)

(** C34: the attributes of one address.  With a three-level table (start level 1)
    that satisfies the table invariant and is the one the core uses,
    [change_memory_attr] ends and discards the cached translations last.  When
    the walk for [va] ends at a 1 GB or 2 MB block (or at an invalid
    descriptor), the descriptor gets the memory type and the security bit asked
    for and keeps every other bit, each address of that block is translated by
    it, and every other address as before.  When the walk ends at a 4 KB page,
    nothing is changed: the descriptor of a page has the type of a table and
    the function steps past it.  The security bit is left alone for memory type
    2 (and not when its own argument says so). *)
Theorem change_memory_attr_correct (mem_map : list mm_region) (root : Z) (o : origin) (G : gmap Z (Z * Z))
    (va mt ns : Z) (s : sys) :
  start_level mem_map = 1 -> pg_ok mem_map root o G (s_gd s) (s_mem s) -> runs (s_core s) ->
  Z.ldiff (ttbr0 (regs (s_core s))) 0xfff = root -> 0 <= va < va_limit (start_level mem_map) ->
  returns (change_memory_attr va mt ns s) (fun s' =>
    changed mem_map root (s_mem s) va mt ns (s_mem s') /\ regs (s_core s') = regs (s_core s) /\ s_gd s' = s_gd s /\
    exists log, c_log (s_core s') = (log ++ [Asm "dsb" []; Asm "__asm_invalidate_tlb_all" []])%list).
Proof. intros Hs Hk Hr Ht Hva. by apply (change_memory_attr_spec mem_map root o Hs G). Qed.

(** A core that uses the table with one 1 GB block: the block becomes device memory. *)
Definition block_core : core := Core 12 (ElRegs 0 0 0 0) (ElRegs 0 0 0 0) (ElRegs 1 0x10000 0 0) 0 0 0 [].

Definition block_sys : sys := Sys block_core block_gd block_space 0 0.

Lemma block_sys_ok :
  pg_ok small_map 0x10000 block_origin {[0x10000 := (1, 0)]} (s_gd block_sys) (s_mem block_sys) /\ runs (s_core block_sys) /\
  Z.ldiff (ttbr0 (regs (s_core block_sys))) 0xfff = 0x10000 /\ 0 <= 0x40200000 < va_limit (start_level small_map).
Proof. split; [exact block_tables_ok|]. split; [done|]. split; [done|]. vm_compute. intuition congruence. Qed.

Lemma block_changed m' :
  changed small_map 0x10000 (s_mem block_sys) 0x40200000 MT_DEVICE_NGNRNE 1 m' ->
  exists v', (forall va, 0x40000000 <= va < 0x80000000 -> walk_from m' 0x10000 1 va = (1, v')) /\
    forall k, 2 <= k <= 4 -> Z.testbit v' k = false.
Proof.
  unfold changed. cbn [block_sys s_mem]. rewrite small_start, block_walk by lia. rewrite decide_False by (intros [? _]; done).
  intros (v' & Hb & Hw). exists v'. split.
  - intros va Hva. rewrite Hw by (change (va_limit 1) with (2 ^ 39); lia). rewrite decide_True; [done|]. cbn [fst].
    change (lsize 1) with (2 ^ 30). dlia.
  - intros k Hk. rewrite Hb by lia. destruct (Z.leb_spec 2 k), (Z.leb_spec k 4); try lia. apply Z.bits_0.
Qed.

Lemma change_memory_attr_correct_witness :
  returns (change_memory_attr 0x40200000 MT_DEVICE_NGNRNE 1 block_sys) (fun s' =>
    exists v', (forall va, 0x40000000 <= va < 0x80000000 -> walk_from (s_mem s') 0x10000 1 va = (1, v')) /\
      forall k, 2 <= k <= 4 -> Z.testbit v' k = false).
Proof.
  destruct block_sys_ok as (H1 & H2 & H3 & H4).
  eapply returns_mono; [exact (change_memory_attr_correct small_map 0x10000 _ _ 0x40200000 MT_DEVICE_NGNRNE 1 block_sys small_start H1 H2 H3 H4)|].
  intros s' [H _]. exact (block_changed (s_mem s') H).
Defined.
