(* ===== verification/Timer.v ===== *)
(** * Timer and delays (lib/time.c, arch/arm64/kernel/generic_timer.c, include/time.h, include/linux/delay.h)

    Time is the system counter cntpct_el0.  The counter is a parameter:
    [cntpct n] is its value, as a number without a width, when it is read for
    the [n]-th time; the register has 64 bits.  The state is the number of
    reads made, the frequency register cntfrq_el0 and the low word of the last
    value that [get_ticks] keeps in the global data. *)

From S2P Require Import Prelude CMem.

Local Open Scope Z_scope.
Local Open Scope c_scope.

Definition CONFIG_SYS_HZ : Z := 1000.
Definition CONFIG_WD_PERIOD : Z := 10 * 1000 * 1000.

Record tstate : Type := TState { reads : nat; cntfrq_el0 : Z; tbl : Z }.

(** [do_div(n, base)]: the base is converted to 32 bits; the new [n]. *)
Definition do_div (n base : Z) : outcome Z := if u32 base =? 0 then Fault else Ok (n / u32 base).

(** Comparisons of counters that wrap: the sign of the difference. *)
Definition time_after (a b : Z) : bool := s64 (b - a) <? 0.
Definition time_before (a b : Z) : bool := time_after b a.
Definition time_after_eq (a b : Z) : bool := 0 <=? s64 (a - b).
Definition time_before_eq (a b : Z) : bool := time_after_eq b a.
Definition time_in_range (a b c : Z) : bool := time_after_eq a b && time_before_eq a c.
Definition time_in_range_open (a b c : Z) : bool := time_after_eq a b && time_before a c.

Section timer.
Context (cntpct : nat -> Z).

Definition get_tbclk (s : tstate) : Z := cntfrq_el0 s.

Definition set_tbclk (cntfrq : Z) (s : tstate) : tstate := TState (reads s) cntfrq (tbl s).

Definition timer_read_counter (s : tstate) : tstate * Z :=
  (TState (S (reads s)) (cntfrq_el0 s) (tbl s), u64 (cntpct (reads s))).

Definition get_ticks (s : tstate) : tstate * Z :=
  let '(s, ticks) := timer_read_counter s in (TState (reads s) (cntfrq_el0 s) (u32 ticks), ticks).

Definition tick_to_time (tick : Z) (s : tstate) : outcome Z :=
  let div := get_tbclk s in
  let tick := u64 (tick * CONFIG_SYS_HZ) in
  do_div tick div.

Definition timer_init : Z := 0.

Definition get_timer (base : Z) (s : tstate) : outcome (tstate * Z) :=
  let '(s, ticks) := get_ticks s in
  let! t := tick_to_time ticks s in Ok (s, u64 (t - base)).

Definition tick_to_time_us (tick : Z) (s : tstate) : outcome Z :=
  let div := get_tbclk s / 1000 in
  let tick := u64 (tick * CONFIG_SYS_HZ) in
  do_div tick div.

Definition get_timer_us (base : Z) (s : tstate) : outcome (tstate * Z) :=
  let '(s, ticks) := get_ticks s in
  let! t := tick_to_time_us ticks s in Ok (s, u64 (t - base)).

Definition timer_get_us (s : tstate) : outcome (tstate * Z) :=
  let '(s, ticks) := get_ticks s in
  let! t := tick_to_time (u64 (ticks * 1000)) s in Ok (s, t).

Definition usec_to_tick (usec : Z) (s : tstate) : outcome Z :=
  let tick := usec in
  let tick := u64 (tick * get_tbclk s) in
  do_div tick 1000000.

Definition usec2ticks (usec : Z) (s : tstate) : Z :=
  if usec <? 1000 then u64 (u64 (usec * (get_tbclk s / 1000)) + 500) / 1000
  else u64 ((usec / 10) * (get_tbclk s / 100000)).

Definition timer_get_boot_us (s : tstate) : outcome (tstate * Z) :=
  let '(s, ticks) := get_ticks s in
  let val := u64 (ticks * 1000000) in
  if get_tbclk s =? 0 then Fault else Ok (s, val / get_tbclk s).

(** Both loops wait for the hardware: [fuel] bounds the reads of one period. *)
Definition __udelay (fuel : nat) (usec : Z) (s : tstate) : outcome tstate :=
  let '(s, now) := get_ticks s in
  let! d := usec_to_tick usec s in
  let tmp := u64 (now + d) in
  while fuel (fun s =>
    let '(s, now) := get_ticks s in
    if now <? u64 (tmp + 1) then cont s else brk s) s.

Definition udelay (fuel : nat) (usec : Z) (s : tstate) : outcome tstate :=
  while (S (Z.to_nat (usec / CONFIG_WD_PERIOD))) (fun '(usec, s) =>
    let kv := if CONFIG_WD_PERIOD <? usec then CONFIG_WD_PERIOD else usec in
    let! s := __udelay fuel kv s in
    let usec := u64 (usec - kv) in
    if negb (usec =? 0) then cont (usec, s) else brk s) (usec, s).

Definition mdelay (fuel : nat) (msec : Z) (s : tstate) : outcome tstate := udelay fuel (u64 (1000 * msec)) s.

(** DIV_ROUND_UP(nsec, 1000) *)
Definition ndelay (fuel : nat) (nsec : Z) (s : tstate) : outcome tstate := udelay fuel (u64 (nsec + 1000 - 1) / 1000) s.
End timer.
