(* ===== verification/TimerTheorems.v ===== *)
(** * Timer and delays: the theorems *)

From S2P Require Import Prelude CMem Timer.

Local Open Scope Z_scope.
Local Open Scope c_scope.

(** A counter that never goes back, advances by at most [D] between two reads
    and by at least one tick in any [P] reads. *)
Record clock_ok (cntpct : nat -> Z) (P : nat) (D : Z) : Prop := {
  ck_mono : forall n, 0 <= cntpct n <= cntpct (S n);
  ck_speed : forall n, cntpct (S n) <= cntpct n + D;
  ck_live : forall n, cntpct n + 1 <= cntpct (n + P)%nat
}.

Section clock.
Context (cntpct : nat -> Z) (P : nat) (D : Z) (Hck : clock_ok cntpct P D).

Lemma clock_mono n m : (n <= m)%nat -> cntpct n <= cntpct m.
Proof.
  induction 1 as [|m _ IH]; [lia|]. pose proof (ck_mono _ _ _ Hck m). lia.
Qed.

Lemma clock_live n k : cntpct n + Z.of_nat k <= cntpct (n + P * k)%nat.
Proof.
  induction k as [|k IH]; [rewrite Nat.mul_0_r, Nat.add_0_r; lia|].
  pose proof (ck_live _ _ _ Hck (n + P * k)) as H. replace (n + P * S k)%nat with (n + P * k + P)%nat by lia. lia.
Qed.

(** The reads it takes to wait for [T] ticks. *)
Definition reads_for (T : Z) : nat := (P * Z.to_nat (T + 1))%nat.

Lemma read_before n k T : 0 <= T -> cntpct k <= cntpct n + T -> (k < n + reads_for T)%nat.
Proof.
  intros HT Hk. destruct (decide (k < n + reads_for T)%nat) as [|Hge]; [done|].
  pose proof (clock_live n (Z.to_nat (T + 1))) as H. pose proof (clock_mono (n + P * Z.to_nat (T + 1)) k) as Hm. unfold reads_for in Hge. lia.
Qed.

Definition ticks_of (usec f : Z) : Z := usec * f / 1000000.

Lemma usec_to_tick_ok usec s :
  0 <= usec * cntfrq_el0 s < 2 ^ 64 -> usec_to_tick usec s = Ok (ticks_of usec (cntfrq_el0 s)).
Proof. intros H. unfold usec_to_tick, do_div, get_tbclk. change (u32 1000000) with 1000000. by rewrite u64_small. Qed.

(** One period: the counter passes the deadline, and by less than one step. *)
Lemma __udelay_spec fuel usec s :
  let f := cntfrq_el0 s in
  let T := ticks_of usec f in
  0 <= usec * f < 2 ^ 64 -> cntpct (reads s) + T + 1 + D < 2 ^ 64 -> (S (reads_for T) < fuel)%nat ->
  returns (__udelay cntpct fuel usec s) (fun s' => cntfrq_el0 s' = f /\
    exists k, reads s' = S k /\ cntpct (reads s) + T + 1 <= cntpct k <= cntpct (reads s) + T + D).
Proof.
  intros f T Hu Hw Hf. unfold __udelay, get_ticks, timer_read_counter. cbn [reads cntfrq_el0].
  pose proof (ck_mono _ _ _ Hck (reads s)) as Hm. pose proof (ck_speed _ _ _ Hck (reads s)) as Hs.
  assert (0 <= T) as HT by (apply Z.div_pos; lia).
  rewrite usec_to_tick_ok by done. cbn [obind cntfrq_el0]. fold f T.
  rewrite (u64_small (cntpct (reads s))), (u64_small (cntpct (reads s) + T)), (u64_small (_ + 1)) by lia.
  set (n0 := reads s) in *. set (t0 := cntpct n0) in *.
  apply (returns_while (fun s1 => cntfrq_el0 s1 = f /\ exists k, reads s1 = S k /\ (n0 <= k)%nat /\ cntpct k <= t0 + T)
           (fun s1 => n0 + reads_for T + 1 - reads s1)%nat).
  - intros s1 (Ef & k & Ek & Hk & Hc). rewrite Ek. pose proof (ck_mono _ _ _ Hck k). pose proof (ck_speed _ _ _ Hck k).
    pose proof (read_before n0 k T HT Hc) as Hb.
    rewrite (u64_small (cntpct (S k))) by lia. destruct (Z.ltb_spec (cntpct (S k)) (t0 + T + 1)).
    + apply returns_ok. cbn [reads cntfrq_el0]. split; [|lia]. split; [done|]. exists (S k). split; [done|]. lia.
    + apply returns_ok. cbn [reads cntfrq_el0]. split; [done|]. exists (S k). split; [done|]. lia.
  - cbn [reads cntfrq_el0]. split; [done|]. exists n0. split; [done|]. split; [lia|]. unfold t0. lia.
  - cbn [reads]. lia.
Qed.

(** What remains of a delay of [usec] when [u] microseconds are left. *)
Record waiting (usec : Z) (s0 : tstate) (u : Z) (s : tstate) : Prop := {
  wt_freq : cntfrq_el0 s = cntfrq_el0 s0;
  wt_left : 0 <= u <= usec /\ (CONFIG_WD_PERIOD | usec - u);
  wt_room : cntpct (reads s) <= cntpct (reads s0) + (usec - u) / CONFIG_WD_PERIOD * (10 * cntfrq_el0 s0 + 2 * D);
  wt_past : s = s0 /\ u = usec \/
    exists k, reads s = S k /\ (usec - u) * cntfrq_el0 s0 < 1000000 * (cntpct k - cntpct (reads s0))
}.

Lemma udelay_spec fuel usec s :
  let f := cntfrq_el0 s in
  0 < f < 2 ^ 32 -> 0 <= usec < 2 ^ 64 ->
  cntpct (reads s) + (usec / CONFIG_WD_PERIOD + 1) * (10 * f + 2 * D) + 1 < 2 ^ 64 ->
  (S (reads_for (10 * f)) < fuel)%nat ->
  returns (udelay cntpct fuel usec s) (fun s' =>
    exists k, reads s' = S k /\ usec * f < 1000000 * (cntpct k - cntpct (reads s))).
Proof.
  intros f Hf Hu Hroom Hfuel. unfold udelay.
  assert (0 <= D) as HD by (pose proof (ck_mono _ _ _ Hck 0); pose proof (ck_speed _ _ _ Hck 0); lia).
  apply (returns_while (fun '(u, s1) => waiting usec s u s1) (fun '(u, _) => Z.to_nat (u / CONFIG_WD_PERIOD))).
  - intros [u s1] [Ef [Hleft Hdiv] Hwr Hpast]. set (kv := if CONFIG_WD_PERIOD <? u then CONFIG_WD_PERIOD else u).
    assert (0 <= kv <= u /\ kv <= 10000000 /\ (kv <> u -> kv = CONFIG_WD_PERIOD)) as (K1 & K2 & K3)
      by (unfold kv; destruct (Z.ltb_spec CONFIG_WD_PERIOD u); unfold CONFIG_WD_PERIOD in *; lia).
    assert (0 <= kv * f < 2 ^ 64) as Hkf by nia. set (T := ticks_of kv f).
    assert (0 <= T <= 10 * f) as HT.
    { unfold T, ticks_of. split; [apply Z.div_pos; lia|]. apply Z.div_le_upper_bound; [lia|]. nia. }
    assert (0 <= (usec - u) / CONFIG_WD_PERIOD /\ (usec - u) / CONFIG_WD_PERIOD <= usec / CONFIG_WD_PERIOD) as [Q1 Q2].
    { unfold CONFIG_WD_PERIOD in *. split; [apply Z.div_pos; lia|apply Z.div_le_mono; lia]. }
    eapply returns_bind.
    { apply (__udelay_spec fuel kv s1); rewrite Ef; fold f; fold T; [done|nia|].
      assert (reads_for T <= reads_for (10 * f))%nat; [|lia]. unfold reads_for. apply Nat.mul_le_mono_l. lia. }
    intros s2 (Ef2 & k & Ek & Hk). rewrite Ef in *. fold f T in Ef2, Hk. pose proof (ck_speed _ _ _ Hck k) as Hsp.
    rewrite u64_small by lia.
    assert ((usec - u + kv) * f < 1000000 * (cntpct k - cntpct (reads s))) as Hel.
    { assert (kv * f < 1000000 * (T + 1)) as HT1.
      { unfold T, ticks_of. pose proof (Z.div_mod (kv * f) 1000000 ltac:(lia)). pose proof (Z.mod_pos_bound (kv * f) 1000000 ltac:(lia)). lia. }
      destruct Hpast as [[-> ->]|(k1 & Ek1 & Hk1)]; [fold f in HT1; nia|].
      pose proof (ck_mono _ _ _ Hck k1) as Hm1. rewrite Ek1 in Hk. fold f in Hk1. nia. }
    destruct (Z.eqb_spec (u - kv) 0) as [E|E]; cbn [negb]; apply returns_ok.
    + exists k. split; [done|]. by replace (usec - u + kv) with usec in Hel by lia.
    + specialize (K3 ltac:(lia)). unfold CONFIG_WD_PERIOD in *. destruct Hdiv as [q Hq].
      assert (usec - (u - kv) = (q + 1) * (10 * 1000 * 1000)) as Eq by lia.
      split; [split|].
      * done.
      * split; [lia|]. rewrite Eq. by exists (q + 1).
      * unfold CONFIG_WD_PERIOD. rewrite Eq, Z.div_mul by lia. rewrite Hq, Z.div_mul in Hwr by lia. rewrite Ek. fold f in Hwr |- *. nia.
      * right. exists k. split; [done|]. by replace (usec - (u - kv)) with (usec - u + kv) by lia.
      * unfold CONFIG_WD_PERIOD. rewrite K3. replace u with ((u - 10 * 1000 * 1000) + 1 * (10 * 1000 * 1000)) at 2 by lia. rewrite Z.div_add by lia.
        assert (0 <= (u - 10 * 1000 * 1000) / (10 * 1000 * 1000)) by (apply Z.div_pos; lia). lia.
  - split; [done|split; [lia|rewrite Z.sub_diag; apply Z.divide_0_r]|rewrite Z.sub_diag, Z.div_0_l by done; lia|by left].
  - lia.
Qed.
End clock.

(** ** Counters that wrap *)

Lemma s64_signed d : - 2 ^ 63 <= d < 2 ^ 63 -> forall x, x mod 2 ^ 64 = d mod 2 ^ 64 -> s64 x = d.
Proof.
  intros Hd x E. unfold s64, swrap. change (64 - 1) with 63. rewrite <- Zplus_mod_idemp_l, E, Zplus_mod_idemp_l.
  rewrite Z.mod_small; lia.
Qed.

(** The comparison is right across the wrap-around as long as the two times
    are less than half the range apart. *)
Lemma time_after_wraps a b :
  - 2 ^ 63 < a - b <= 2 ^ 63 -> time_after (u64 a) (u64 b) = (b <? a).
Proof.
  intros H. unfold time_after. rewrite (s64_signed (b - a)).
  - destruct (Z.ltb_spec (b - a) 0), (Z.ltb_spec b a); lia || done.
  - lia.
  - unfold u64. by rewrite <- Zminus_mod.
Qed.

(** Both ways of computing microseconds agree. *)
Lemma timer_us_agree cntpct s : 0 < cntfrq_el0 s < 2 ^ 32 -> timer_get_us cntpct s = timer_get_boot_us cntpct s.
Proof.
  intros Hf. unfold timer_get_us, timer_get_boot_us, tick_to_time, do_div, get_ticks, timer_read_counter, get_tbclk, CONFIG_SYS_HZ.
  cbn [cntfrq_el0 reads tbl]. rewrite u32_small by lia. destruct (Z.eqb_spec (cntfrq_el0 s) 0); [lia|]. cbn [obind].
  set (t := u64 (cntpct (reads s))). assert (u64 (u64 (t * 1000) * 1000) = u64 (t * 1000000)) as ->; [|done].
  unfold u64 at 1 2. rewrite Z.mul_mod_idemp_l by lia. unfold u64. f_equal. lia.
Qed.

(** ** Claims *)

(** C35: a delay ends and is never too short.  Let the counter not go back,
    advance by at least one tick in any [P] reads and by at most [D] ticks from
    one read to the next, let its frequency [f] be that of cntfrq_el0, below
    2^32, and let the counter not reach 2^64 during the delay.  Then [udelay]
    ends, each of its periods of at most ten seconds after no more than
    [P * (10 f + 1) + 2] reads, and between its first and its last read of
    the counter more than [usec] microseconds have passed, for every [usec]. *)
Theorem udelay_waits (cntpct : nat -> Z) (P : nat) (D : Z) (fuel : nat) (usec : Z) (s : tstate) :
  clock_ok cntpct P D ->
  let f := cntfrq_el0 s in
  0 < f < 2 ^ 32 -> 0 <= usec < 2 ^ 64 ->
  cntpct (reads s) + (usec / CONFIG_WD_PERIOD + 1) * (10 * f + 2 * D) + 1 < 2 ^ 64 ->
  (S (P * Z.to_nat (10 * f + 1)) < fuel)%nat ->
  returns (udelay cntpct fuel usec s) (fun s' =>
    exists k, reads s' = S k /\ usec * f < 1000000 * (cntpct k - cntpct (reads s))).
Proof. intros Hck. by apply (udelay_spec cntpct P D Hck). Qed.

(** A 24 MHz counter that is read every second tick, and 25 seconds. *)
Lemma udelay_waits_witness :
  returns (udelay (fun n => 2 * Z.of_nat n) (Z.to_nat 240000003) 25000000 (TState 7 24000000 0)) (fun s' =>
    exists k, reads s' = S k /\ 25000000 * 24000000 < 1000000 * (2 * Z.of_nat k - 14)).
Proof.
  apply (udelay_waits (fun n => 2 * Z.of_nat n) 1 2 (Z.to_nat 240000003) 25000000 (TState 7 24000000 0)).
  - split; lia.
  - cbn [cntfrq_el0]. lia.
  - lia.
  - cbn [cntfrq_el0 reads]. change (25000000 / CONFIG_WD_PERIOD) with 2. lia.
  - cbn [cntfrq_el0]. lia.
Defined.
