(* ===== verification/Rand.v ===== *)
(** * Random numbers (lib/rand.c)

    The xorshift generator: [y] is the state of [rand], [rand_r] works on a
    state of the caller's. *)

From S2P Require Import Prelude CMem.

Local Open Scope Z_scope.
Local Open Scope c_scope.

(** The new value of [*seedp], which is also the result. *)
Definition rand_r (seed : Z) : Z :=
  let seed := Z.lxor seed (u32 (Z.shiftl seed 13)) in
  let seed := Z.lxor seed (Z.shiftr seed 17) in
  Z.lxor seed (u32 (Z.shiftl seed 5)).

(** [rand]: the new state and the result. *)
Definition rand (y : Z) : Z * Z := let y := rand_r y in (y, y).

Definition srand (seed : Z) : Z := seed.

(** ** The steps can be undone *)

Definition word32 (x : Z) : Prop := 0 <= x < 2 ^ 32.

(** [x ^ (x << k)] and [x ^ (x >> k)]. *)
Definition xl (k x : Z) : Z := Z.lxor x (u32 (Z.shiftl x k)).
Definition xr (k x : Z) : Z := Z.lxor x (Z.shiftr x k).

Lemma rand_r_steps x : rand_r x = xl 5 (xr 17 (xl 13 x)).
Proof. done. Qed.

Lemma u32_bit x j : 0 <= j -> Z.testbit (u32 x) j = Z.testbit x j && (j <? 32).
Proof.
  intros Hj. unfold u32. destruct (Z.ltb_spec j 32).
  - by rewrite Z.mod_pow2_bits_low, andb_true_r by lia.
  - by rewrite Z.mod_pow2_bits_high, andb_false_r by lia.
Qed.

Lemma xl_bit k x j : 0 <= k -> 0 <= j -> Z.testbit (xl k x) j = xorb (Z.testbit x j) ((k <=? j) && (j <? 32) && Z.testbit x (j - k)).
Proof.
  intros Hk Hj. unfold xl. rewrite Z.lxor_spec, u32_bit, Z.shiftl_spec by lia. f_equal.
  destruct (Z.leb_spec k j); [by rewrite andb_comm|]. by rewrite Z.testbit_neg_r by lia.
Qed.

Lemma xr_bit k x j : 0 <= j -> Z.testbit (xr k x) j = xorb (Z.testbit x j) (Z.testbit x (j + k)).
Proof. intros Hj. unfold xr. by rewrite Z.lxor_spec, Z.shiftr_spec. Qed.

Lemma word32_bits x y : word32 x -> word32 y -> (forall j, 0 <= j < 32 -> Z.testbit x j = Z.testbit y j) -> x = y.
Proof.
  intros Hx Hy H. apply Z.bits_inj'. intros j Hj. destruct (decide (j < 32)); [by apply H|].
  rewrite (range_bits 32 x), (range_bits 32 y); done || lia.
Qed.

Lemma xl_word k x : 0 <= k -> word32 x -> word32 (xl k x).
Proof. intros Hk Hx. apply lxor_word; [lia|done|]. apply Z.mod_pos_bound. lia. Qed.

Lemma xr_word k x : 0 <= k -> word32 x -> word32 (xr k x).
Proof.
  intros Hk Hx. apply lxor_word; [lia|done|]. rewrite Z.shiftr_div_pow2 by done. unfold word32 in Hx.
  pose proof (Z.pow_pos_nonneg 2 k ltac:(lia) Hk). split; [apply Z.div_pos; lia|].
  apply Z.div_lt_upper_bound; [lia|]. nia.
Qed.

(** A step to the left determines the bits from the lowest upwards. *)
Lemma xl_inj k x y : 0 < k -> word32 x -> word32 y -> xl k x = xl k y -> x = y.
Proof.
  intros Hk Hx Hy E. apply word32_bits; [done|done|].
  assert (forall n, forall j, 0 <= j < 32 -> (Z.to_nat j < n)%nat -> Z.testbit x j = Z.testbit y j) as H.
  { induction n as [|n IH]; intros j Hj Hn; [lia|].
    assert (Z.testbit (xl k x) j = Z.testbit (xl k y) j) as Eb by by rewrite E. rewrite !xl_bit in Eb by lia.
    destruct (Z.leb_spec k j); cbn [andb] in Eb; [|by rewrite !xorb_false_r in Eb].
    rewrite (IH (j - k)) in Eb by lia.
    destruct (Z.testbit x j), (Z.testbit y j), ((j <? 32) && Z.testbit y (j - k)); done. }
  intros j Hj. apply (H 32%nat); lia.
Qed.

(** A step to the right determines them from the highest downwards. *)
Lemma xr_inj k x y : 0 < k -> word32 x -> word32 y -> xr k x = xr k y -> x = y.
Proof.
  intros Hk Hx Hy E. apply word32_bits; [done|done|].
  assert (forall n, forall j, 0 <= j -> (Z.to_nat (32 - j) <= n)%nat -> Z.testbit x j = Z.testbit y j) as H.
  { induction n as [|n IH]; intros j Hj Hn; [by rewrite (range_bits 32 x), (range_bits 32 y) by (done || lia)|].
    assert (Z.testbit (xr k x) j = Z.testbit (xr k y) j) as Eb by by rewrite E. rewrite !xr_bit in Eb by lia.
    destruct (decide (j < 32)); [|by rewrite (range_bits 32 x), (range_bits 32 y) by (done || lia)].
    rewrite (IH (j + k)) in Eb by lia. destruct (Z.testbit x j), (Z.testbit y j), (Z.testbit y (j + k)); done. }
  intros j Hj. apply (H 32%nat); lia.
Qed.

Lemma rand_r_word x : word32 x -> word32 (rand_r x).
Proof. intros Hx. rewrite rand_r_steps. apply xl_word, xr_word, xl_word; done || lia. Qed.

Lemma rand_r_inj x y : word32 x -> word32 y -> rand_r x = rand_r y -> x = y.
Proof.
  intros Hx Hy E. rewrite !rand_r_steps in E.
  apply (xl_inj 13); [lia|done|done|]. apply (xr_inj 17); [lia|by apply xl_word|by apply xl_word|].
  apply (xl_inj 5); [lia|by apply xr_word, xl_word|by apply xr_word, xl_word|done].
Qed.

(** ** The sequence *)

(** The state after [n] calls. *)
Definition rand_iter (n : nat) (y : Z) : Z := Nat.iter n rand_r y.

Lemma rand_iter_word n y : word32 y -> word32 (rand_iter n y).
Proof. intros Hy. induction n as [|n IH]; [done|]. by apply rand_r_word. Qed.

Lemma rand_iter_cancel i n y : word32 y -> rand_iter (i + n) y = rand_iter i y -> rand_iter n y = y.
Proof.
  intros Hy. induction i as [|i IH]; intros E; [done|]. apply IH.
  apply rand_r_inj; [by apply rand_iter_word|by apply rand_iter_word|]. exact E.
Qed.

(** A sequence repeats a value, or its first values are all different. *)
Lemma distinct_or_repeat (f : nat -> Z) n :
  NoDup (f <$> seq 0 n) \/ exists i j, (i < j < n)%nat /\ f i = f j.
Proof.
  induction n as [|n [IH|(i & j & Hij & E)]]; [left; apply NoDup_nil_2| |right; exists i, j; split; [lia|done]].
  destruct (decide (f n ∈ f <$> seq 0 n)) as [Hin|Hout].
  - right. apply list_elem_of_fmap in Hin as (i & E & Hi). apply elem_of_seq in Hi. exists i, n. split; [lia|done].
  - left. rewrite seq_S, fmap_app. apply list.NoDup_app. split; [done|]. split; [|apply NoDup_singleton].
    intros x Hx Hx'. apply list_elem_of_singleton in Hx' as ->. done.
Qed.

(** More values than there is room for. *)
Lemma pigeonhole (f : nat -> Z) n :
  (forall i, 0 <= f i < Z.of_nat n) -> exists i j, (i < j)%nat /\ f i = f j.
Proof.
  intros Hf. destruct (distinct_or_repeat f (S n)) as [Hn|(i & j & Hij & E)]; [|exists i, j; split; [lia|done]].
  assert ((f <$> seq 0 (S n)) ⊆+ seqZ 0 (Z.of_nat n)) as Hs.
  { apply NoDup_submseteq; [done|]. intros x (i & -> & _)%list_elem_of_fmap. apply elem_of_seqZ. specialize (Hf i). lia. }
  apply submseteq_length in Hs. rewrite length_fmap, length_seq, length_seqZ in Hs. lia.
Qed.

(** ** Claim *)

(** The random numbers.  On 32-bit states [rand_r] is injective and its
    result is a 32-bit state again; the state 0 is fixed and no other state
    leads to it, so that a generator seeded with a value other than 0 never
    returns 0.  The sequence of every seed is purely periodic: after some
    number of calls the generator is back at the seed. *)
Theorem rand_r_correct (seed : Z) :
  word32 seed ->
  word32 (rand_r seed) /\ (forall y, word32 y -> rand_r seed = rand_r y -> seed = y) /\
  (seed <> 0 -> forall n, rand_iter n seed <> 0) /\
  (exists n, (0 < n)%nat /\ rand_iter n seed = seed).
Proof.
  intros Hs. split; [by apply rand_r_word|]. split; [intros y Hy; by apply rand_r_inj|]. split.
  - intros Hne n. induction n as [|n IH]; [done|]. intros E. apply IH.
    apply rand_r_inj; [by apply rand_iter_word|done|]. exact E.
  - destruct (pigeonhole (fun n => rand_iter n seed) (Z.to_nat (2 ^ 32))) as (i & j & Hij & E).
    { intros n. rewrite Z2Nat.id by lia. by apply rand_iter_word. }
    exists (j - i)%nat. split; [lia|]. apply (rand_iter_cancel i); [done|].
    replace (i + (j - i))%nat with j by lia. by symmetry.
Qed.

Lemma rand_r_correct_witness : rand_r 1 = 270369 /\ word32 (rand_r 1) /\ forall n, rand_iter n 1 <> 0.
Proof.
  destruct (rand_r_correct 1) as (H1 & _ & H2 & _); [split; reflexivity || lia|].
  split; [reflexivity|]. split; [exact H1|]. apply H2. lia.
Defined.
