(* ===== verification/Errno.v ===== *)
(** * Error texts (lib/errno_str.c, include/linux/errno.h)

    The table of texts, in the order of the source.  The macro ERRNO_MSG drops
    the error number written next to a text, so that the position in the table
    has to be the number; the model keeps the number of include/linux/errno.h
    next to each text to state that it is (one name, AFNOSUPPORT, is not
    defined there).  SAME_AS(x) is the address of entry [x] of the table of
    pointers, not the text of that entry. *)

From S2P Require Import Prelude CMem.
From stdpp Require Import strings.

Local Open Scope string_scope.
Local Open Scope Z_scope.
Local Open Scope c_scope.

(** What a string pointer of the table points to. *)
Inductive errno_text : Type :=
  | Text (s : string)
  | SAME_AS (x : Z).

#[export] Instance errno_text_eq_dec : EqDecision errno_text.
Proof. solve_decision. Defined.

Definition ERRNO_MSG (errno : option Z) (msg : errno_text) : option Z * errno_text := (errno, msg).

Definition errno_message : list (option Z * errno_text) :=
  [ERRNO_MSG (Some 0) (Text "Success");
   ERRNO_MSG (Some 1) (Text "Operation not permitted");
   ERRNO_MSG (Some 2) (Text "No such file or directory");
   ERRNO_MSG (Some 3) (Text "No such process");
   ERRNO_MSG (Some 4) (Text "Interrupted system call");
   ERRNO_MSG (Some 5) (Text "I/O error");
   ERRNO_MSG (Some 6) (Text "No such device or address");
   ERRNO_MSG (Some 7) (Text "Argument list too long");
   ERRNO_MSG (Some 8) (Text "Exec format error");
   ERRNO_MSG (Some 9) (Text "Bad file number");
   ERRNO_MSG (Some 10) (Text "No child processes");
   ERRNO_MSG (Some 11) (Text "Try again");
   ERRNO_MSG (Some 12) (Text "Out of memory");
   ERRNO_MSG (Some 13) (Text "Permission denied");
   ERRNO_MSG (Some 14) (Text "Bad address");
   ERRNO_MSG (Some 15) (Text "Block device required");
   ERRNO_MSG (Some 16) (Text "Device or resource busy");
   ERRNO_MSG (Some 17) (Text "File exists");
   ERRNO_MSG (Some 18) (Text "Cross-device link");
   ERRNO_MSG (Some 19) (Text "No such device");
   ERRNO_MSG (Some 20) (Text "Not a directory");
   ERRNO_MSG (Some 21) (Text "Is a directory");
   ERRNO_MSG (Some 22) (Text "Invalid argument");
   ERRNO_MSG (Some 23) (Text "File table overflow");
   ERRNO_MSG (Some 24) (Text "Too many open files");
   ERRNO_MSG (Some 25) (Text "Not a typewriter");
   ERRNO_MSG (Some 26) (Text "Text file busy");
   ERRNO_MSG (Some 27) (Text "File too large");
   ERRNO_MSG (Some 28) (Text "No space left on device");
   ERRNO_MSG (Some 29) (Text "Illegal seek");
   ERRNO_MSG (Some 30) (Text "Read-only file system");
   ERRNO_MSG (Some 31) (Text "Too many links");
   ERRNO_MSG (Some 32) (Text "Broken pipe");
   ERRNO_MSG (Some 33) (Text "Math argument out of domain of func");
   ERRNO_MSG (Some 34) (Text "Math result not representable");
   ERRNO_MSG (Some 35) (Text "Resource deadlock would occur");
   ERRNO_MSG (Some 36) (Text "File name too long");
   ERRNO_MSG (Some 37) (Text "No record locks available");
   ERRNO_MSG (Some 38) (Text "Function not implemented");
   ERRNO_MSG (Some 39) (Text "Directory not empty");
   ERRNO_MSG (Some 40) (Text "Too many symbolic links encountered");
   ERRNO_MSG (Some 11) (SAME_AS 11);
   ERRNO_MSG (Some 42) (Text "No message of desired type");
   ERRNO_MSG (Some 43) (Text "Identifier removed");
   ERRNO_MSG (Some 44) (Text "Channel number out of range");
   ERRNO_MSG (Some 45) (Text "Level 2 not synchronized");
   ERRNO_MSG (Some 46) (Text "Level 3 halted");
   ERRNO_MSG (Some 47) (Text "Level 3 reset");
   ERRNO_MSG (Some 48) (Text "Link number out of range");
   ERRNO_MSG (Some 49) (Text "Protocol driver not attached");
   ERRNO_MSG (Some 50) (Text "No CSI structure available");
   ERRNO_MSG (Some 51) (Text "Level 2 halted");
   ERRNO_MSG (Some 52) (Text "Invalid exchange");
   ERRNO_MSG (Some 53) (Text "Invalid request descriptor");
   ERRNO_MSG (Some 54) (Text "Exchange full");
   ERRNO_MSG (Some 55) (Text "No anode");
   ERRNO_MSG (Some 56) (Text "Invalid request code");
   ERRNO_MSG (Some 57) (Text "Invalid slot");
   ERRNO_MSG (Some 35) (SAME_AS 35);
   ERRNO_MSG (Some 59) (Text "Bad font file format");
   ERRNO_MSG (Some 60) (Text "Device not a stream");
   ERRNO_MSG (Some 61) (Text "No data available");
   ERRNO_MSG (Some 62) (Text "Timer expired");
   ERRNO_MSG (Some 63) (Text "Out of streams resources");
   ERRNO_MSG (Some 64) (Text "Machine is not on the network");
   ERRNO_MSG (Some 65) (Text "Package not installed");
   ERRNO_MSG (Some 66) (Text "Object is remote");
   ERRNO_MSG (Some 67) (Text "Link has been severed");
   ERRNO_MSG (Some 68) (Text "Advertise error");
   ERRNO_MSG (Some 69) (Text "Srmount error");
   ERRNO_MSG (Some 70) (Text "Communication error on send");
   ERRNO_MSG (Some 71) (Text "Protocol error");
   ERRNO_MSG (Some 72) (Text "Multihop attempted");
   ERRNO_MSG (Some 73) (Text "RFS specific error");
   ERRNO_MSG (Some 74) (Text "Not a data message");
   ERRNO_MSG (Some 75) (Text "Value too large for defined data type");
   ERRNO_MSG (Some 76) (Text "Name not unique on network");
   ERRNO_MSG (Some 77) (Text "File descriptor in bad state");
   ERRNO_MSG (Some 78) (Text "Remote address changed");
   ERRNO_MSG (Some 79) (Text "Can not access a needed shared library");
   ERRNO_MSG (Some 80) (Text "Accessing a corrupted shared library");
   ERRNO_MSG (Some 81) (Text ".lib section in a.out corrupted");
   ERRNO_MSG (Some 82) (Text "Attempting to link in too many shared libraries");
   ERRNO_MSG (Some 83) (Text "Cannot exec a shared library directly");
   ERRNO_MSG (Some 84) (Text "Illegal byte sequence");
   ERRNO_MSG (Some 85) (Text "Interrupted system call should be restarted");
   ERRNO_MSG (Some 86) (Text "Streams pipe error");
   ERRNO_MSG (Some 87) (Text "Too many users");
   ERRNO_MSG (Some 88) (Text "Socket operation on non-socket");
   ERRNO_MSG (Some 89) (Text "Destination address required");
   ERRNO_MSG (Some 90) (Text "Message too long");
   ERRNO_MSG (Some 91) (Text "Protocol wrong type for socket");
   ERRNO_MSG (Some 92) (Text "Protocol not available");
   ERRNO_MSG (Some 93) (Text "Protocol not supported");
   ERRNO_MSG (Some 94) (Text "Socket type not supported");
   ERRNO_MSG (Some 95) (Text "Operation not supported on transport endpoint");
   ERRNO_MSG (Some 96) (Text "Protocol family not supported");
   ERRNO_MSG None (Text "Address family not supported by protocol");
   ERRNO_MSG (Some 98) (Text "Address already in use");
   ERRNO_MSG (Some 99) (Text "Cannot assign requested address");
   ERRNO_MSG (Some 100) (Text "Network is down");
   ERRNO_MSG (Some 101) (Text "Network is unreachable");
   ERRNO_MSG (Some 102) (Text "Network dropped connection because of reset");
   ERRNO_MSG (Some 103) (Text "Software caused connection abort");
   ERRNO_MSG (Some 104) (Text "Connection reset by peer");
   ERRNO_MSG (Some 105) (Text "No buffer space available");
   ERRNO_MSG (Some 106) (Text "Transport endpoint is already connected");
   ERRNO_MSG (Some 107) (Text "Transport endpoint is not connected");
   ERRNO_MSG (Some 108) (Text "Cannot send after transport endpoint shutdown");
   ERRNO_MSG (Some 109) (Text "Too many references: cannot splice");
   ERRNO_MSG (Some 110) (Text "Connection timed out");
   ERRNO_MSG (Some 111) (Text "Connection refused");
   ERRNO_MSG (Some 112) (Text "Host is down");
   ERRNO_MSG (Some 113) (Text "No route to host");
   ERRNO_MSG (Some 114) (Text "Operation already in progress");
   ERRNO_MSG (Some 115) (Text "Operation now in progress");
   ERRNO_MSG (Some 116) (Text "Stale NFS file handle");
   ERRNO_MSG (Some 117) (Text "Structure needs cleaning");
   ERRNO_MSG (Some 118) (Text "Not a XENIX named type file");
   ERRNO_MSG (Some 119) (Text "No XENIX semaphores available");
   ERRNO_MSG (Some 120) (Text "Is a named type file");
   ERRNO_MSG (Some 121) (Text "Remote I/O error");
   ERRNO_MSG (Some 122) (Text "Quota exceeded");
   ERRNO_MSG (Some 123) (Text "No medium found");
   ERRNO_MSG (Some 124) (Text "Wrong medium type");
   ERRNO_MSG (Some 0) (Text "Unknown error")].

Definition ARRAY_SIZE : Z := Z.of_nat (length errno_message).

(** [errno] is an [int]; the comparison with the size is unsigned, and the
    negation of the smallest [int] is itself. *)
Definition errno_str (errno : Z) : outcome errno_text :=
  let entry i := match errno_message !! Z.to_nat i with Some (_, t) => Ok t | None => Fault end in
  if errno =? 0 then entry 0 else
  if 0 <? errno then Ok (Text "Failed") else
  let errno := s32 (- errno) in
  let errno := if ARRAY_SIZE <=? u64 errno then ARRAY_SIZE - 1 else errno in
  if errno <? 0 then Fault else entry errno.

(** ** Claim *)

(** The positions of the entries that are not texts of their own. *)
Definition borrowed : list Z := [41; 58].

(** Every text stands at the position of its number. *)
Definition in_place (i : nat) (e : option Z * errno_text) : bool :=
  match e with
  | (Some n, Text _) => (n =? Z.of_nat i) || (Z.of_nat i =? ARRAY_SIZE - 1)
  | (Some _, SAME_AS _) => bool_decide (Z.of_nat i ∈ borrowed)
  | (None, Text _) => true
  | (None, SAME_AS _) => false
  end.

Lemma errno_message_in_place : forallb (fun '(i, e) => in_place i e) (imap pair errno_message) = true.
Proof. vm_compute. reflexivity. Qed.

Lemma errno_entry i e : errno_message !! i = Some e -> in_place i e = true.
Proof.
  intros H. pose proof errno_message_in_place as Hf. rewrite forallb_forall in Hf. apply (Hf (i, e)), list_elem_of_In.
  apply list_elem_of_lookup. exists i. by rewrite list_lookup_imap, H.
Qed.

(** The text of an error.  For every [int] the function returns: "Success"
    for 0, "Failed" for a positive number, "Unknown error" for the negation of a
    number beyond the table, and otherwise the entry at the position of the
    number; that entry is the text written for exactly this error number of
    errno.h.  For the two aliases, EWOULDBLOCK's old number 41 and EDEADLOCK's
    old number 58, no text is returned but the address of a table entry. *)
Theorem errno_str_correct (e : Z) :
  - 2 ^ 31 <= e < 2 ^ 31 ->
  if e =? 0 then errno_str e = Ok (Text "Success")
  else if 0 <? e then errno_str e = Ok (Text "Failed")
  else if (- e <? 125) then
    exists n t, errno_message !! Z.to_nat (- e) = Some (n, t) /\ errno_str e = Ok t /\
      (match t with Text _ => n = Some (- e) \/ n = None | SAME_AS _ => - e ∈ borrowed end)
  else errno_str e = Ok (Text "Unknown error").
Proof.
  intros He. unfold errno_str. change ARRAY_SIZE with 126.
  destruct (Z.eqb_spec e 0) as [->|Hne]; [done|]. destruct (Z.ltb_spec 0 e); [done|].
  destruct (Z.ltb_spec (- e) 125) as [Hlt|Hge].
  - assert (s32 (- e) = - e) as -> by (unfold s32, swrap; rewrite Z.mod_small; lia). rewrite u64_small by lia.
    destruct (Z.leb_spec 126 (- e)); [lia|]. destruct (Z.ltb_spec (- e) 0); [lia|].
    destruct (lookup_lt_is_Some_2 errno_message (Z.to_nat (- e))) as [[n t] E]; [change (length errno_message) with 126%nat; lia|].
    exists n, t. rewrite E. split; [done|]. split; [done|]. pose proof (errno_entry _ _ E) as Hp. unfold in_place in Hp.
    change (ARRAY_SIZE - 1) with 125 in Hp. rewrite Z2Nat.id in Hp by lia.
    destruct n as [n|], t as [s|x]; [|by apply bool_decide_eq_true in Hp|by right|done].
    apply orb_true_iff in Hp as [Hp|Hp]; apply Z.eqb_eq in Hp; [left; by f_equal|lia].
  - assert (125 <= u64 (s32 (- e))) as Hbig.
    { unfold s32, swrap, u64. change (32 - 1) with 31.
      destruct (decide (e = - 2 ^ 31)) as [->|]; [vm_compute; congruence|].
      rewrite (Z.mod_small (- e + 2 ^ 31)) by lia. rewrite Z.mod_small; lia. }
    destruct (Z.leb_spec 126 (u64 (s32 (- e)))) as [|Hs]; [done|].
    assert (- e = 125) as E.
    { unfold s32, swrap, u64 in Hs, Hbig. change (32 - 1) with 31 in *.
      destruct (decide (e = - 2 ^ 31)) as [->|]; [vm_compute in Hs; done|].
      rewrite (Z.mod_small (- e + 2 ^ 31)) in Hs by lia. rewrite Z.mod_small in Hs; lia. }
    rewrite E. done.
Qed.

Lemma errno_str_correct_witness :
  errno_str (-12) = Ok (Text "Out of memory") /\ errno_str (-41) = Ok (SAME_AS 11) /\
  exists n t, errno_message !! 22%nat = Some (n, t) /\ errno_str (-22) = Ok t.
Proof.
  split; [reflexivity|]. split; [reflexivity|].
  destruct (errno_str_correct (-22)) as (n & t & H1 & H2 & _); [lia|]. exists n, t. split; [exact H1|exact H2].
Defined.
