(* ===== verification/Command.v ===== *)
(** * The command table (common/command.c, include/command.h)

    Lookup by full name or unique abbreviation, dispatch with the argument
    check and the usage text, help with its bubble sort, and completion.
    A table is the list of its entries; the two function pointers of an entry
    are the handler [cmd_rep] and the optional [complete].  Names, arguments
    and buffers are addresses in the memory of the [world]. *)

From S2P Require Import Prelude CMem Ctype Str StrFacts Console.

Local Open Scope Z_scope.
Local Open Scope c_scope.

Definition CONFIG_SYS_CBSIZE : Z := 1024.
Definition CONFIG_SYS_MAXARGS : Z := 16.
Definition CONFIG_SYS_HELP_CMD_WIDTH : Z := 10.

(** [enum command_ret_t] *)
Definition CMD_RET_SUCCESS : Z := 0.
Definition CMD_RET_USAGE : Z := 1.
Definition CMD_RET_FAILURE : Z := -1.

(** An element of [cmdv]: the name of a command or the literal "...". *)
Inductive candidate : Type :=
  | Name (p : Z)
  | Dots.

(** flags, argc, argv; the results are the return value and [*repeatable]. *)
Definition handler : Type := Z -> Z -> list Z -> world -> outcome (world * Z * Z).
Definition completer : Type := mem -> Z -> list Z -> Z -> Z -> outcome (Z * list candidate).

Record cmd_tbl_t : Type := CmdTbl {
  name : Z;
  maxargs : Z;
  cmd_rep : handler;
  usage : Z;
  help : Z;
  complete : option completer
}.

(** ** Lookup *)

(** The part of the name before the first dot. *)
Definition name_len (m : mem) (cmd : Z) : outcome Z :=
  let! p := strchr m cmd 46 in
  if p =? NULL then strlen m cmd else Ok (p - cmd).

Fixpoint find_loop (m : mem) (cmd len : Z) (table : list cmd_tbl_t) (i : nat)
    (temp : nat) (n_found : Z) : outcome (option nat) :=
  match table with
  | [] => Ok (if n_found =? 1 then Some temp else None)
  | cmdtp :: table =>
      let! d := strncmp m cmd (name cmdtp) len in
      if d =? 0 then
        let! l := strlen m (name cmdtp) in
        if len =? l then Ok (Some i)
        else find_loop m cmd len table (S i) i (n_found + 1)
      else find_loop m cmd len table (S i) temp n_found
  end.

(** The index of the entry found. *)
Definition find_cmd_tbl (m : mem) (cmd : Z) (table : list cmd_tbl_t) : outcome (option nat) :=
  if cmd =? NULL then Ok None else
  let! len := name_len m cmd in
  find_loop m cmd len table O O 0.

Definition cmd_usage (cmdtp : cmd_tbl_t) (w : world) : outcome (world * Z) :=
  let w := printf "\n%s - %s\n\n" [name cmdtp; usage cmdtp] w in
  let w := printf "Usage:\n" [] w in
  if help cmdtp =? NULL then
    Ok (puts_lit "- No additional help available.\n\r" w, 1)
  else
    let! w := puts (help cmdtp) w in
    Ok (putc 13 (putc 10 (putc 13 (putc 10 w))), 1).

(** ** Dispatch *)

Definition cmd_always_repeatable (cmd : Z -> Z -> list Z -> world -> outcome (world * Z)) : handler :=
  fun flag argc argv w => let! '(w, r) := cmd flag argc argv w in Ok (w, r, 1).

Definition cmd_never_repeatable (cmd : Z -> Z -> list Z -> world -> outcome (world * Z)) : handler :=
  fun flag argc argv w => let! '(w, r) := cmd flag argc argv w in Ok (w, r, 0).

Definition cmd_discard_repeatable (cmdtp : cmd_tbl_t) (flag argc : Z) (argv : list Z) (w : world)
    : outcome (world * Z) :=
  let! '(w, r, _) := cmd_rep cmdtp flag argc argv w in Ok (w, r).

Section dispatch.
(** [errno_str] and the table the linker collects. *)
Context (errno_str : Z -> Z) (cmd_table : list cmd_tbl_t).

Definition find_cmd (m : mem) (cmd : Z) : outcome (option nat) := find_cmd_tbl m cmd cmd_table.

Definition cmd_call (cmdtp : cmd_tbl_t) (flag argc : Z) (argv : list Z) (w : world)
    : outcome (world * Z * Z) :=
  let! '(w, result, rep) := cmd_rep cmdtp flag argc argv w in
  let w :=
    if result <? 0 then
      printf "%s: %s\n\n" [name cmdtp; errno_str result]
        (printf "\nCommand failed, result=%d\n" [result] w)
    else w in
  Ok (w, result, rep).

(** The result is the return code and the new [*repeatable]. *)
Definition cmd_process (flag argc : Z) (argv : list Z) (repeatable : Z) (w : world)
    : outcome (world * Z * Z) :=
  match argv with
  | [] => Fault
  | arg0 :: _ =>
      let! found := find_cmd (w_mem w) arg0 in
      match found with
      | None => Ok (printf "Unknown command '%s' - try 'help'\n" [arg0] w, 1, repeatable)
      | Some i =>
          match cmd_table !! i with
          | None => Fault
          | Some cmdtp =>
              let rc := if maxargs cmdtp <? argc then CMD_RET_USAGE else CMD_RET_SUCCESS in
              let! '(w, rc, repeatable) :=
                if rc =? 0 then
                  let! '(w, rc, newrep) := cmd_call cmdtp flag argc argv w in
                  Ok (w, rc, Z.land repeatable newrep)
                else Ok (w, rc, repeatable) in
              if rc =? CMD_RET_USAGE then
                let! '(w, rc) := cmd_usage cmdtp w in Ok (w, rc, repeatable)
              else Ok (w, rc, repeatable)
          end
      end
  end.
End dispatch.

Definition cmd_process_error (cmdtp : cmd_tbl_t) (err : Z) (w : world) : world * Z :=
  if err =? CMD_RET_USAGE then (w, CMD_RET_USAGE)
  else if negb (err =? 0) then
    (printf "Command '%s' failed: Error %d\n" [name cmdtp; err] w, CMD_RET_FAILURE)
  else (w, CMD_RET_SUCCESS).

(** ** Help *)

(** One pass of the bubble sort over the positions below [i]; the flag says
    whether anything was swapped. *)
Fixpoint bubble_pass (m : mem) (i : nat) (l : list cmd_tbl_t) : outcome (list cmd_tbl_t * bool) :=
  match i, l with
  | S i, a :: b :: l =>
      let! d := strcmp m (name a) (name b) in
      if 0 <? d then
        let! '(l, _) := bubble_pass m i (a :: l) in Ok (b :: l, true)
      else
        let! '(l, s) := bubble_pass m i (b :: l) in Ok (a :: l, s)
  | _, _ => Ok (l, false)
  end.

(** [for (i = cmd_items - 1; i > 0; --i)], leaving when a pass swaps nothing. *)
Fixpoint bubble_sort (m : mem) (i : nat) (l : list cmd_tbl_t) : outcome (list cmd_tbl_t) :=
  match i with
  | O => Ok l
  | S i' =>
      let! '(l, swaps) := bubble_pass m i l in
      if swaps then bubble_sort m i' l else Ok l
  end.

Definition short_help (w : world) (cmdtp : cmd_tbl_t) : world :=
  if usage cmdtp =? NULL then w
  else printf "%-*s- %s\n" [CONFIG_SYS_HELP_CMD_WIDTH; name cmdtp; usage cmdtp] w.

Definition _do_help (cmd_start : list cmd_tbl_t) (flag argc : Z) (argv : list Z) (w : world)
    : outcome (world * Z) :=
  if argc =? 1 then
    let! cmd_array := bubble_sort (w_mem w) (length cmd_start - 1) cmd_start in
    Ok (fold_left short_help cmd_array w, 0)
  else
    while (S (Z.to_nat argc)) (fun '(w, i, rcode) =>
      if i <? argc then
        match argv !! Z.to_nat i with
        | None => Fault
        | Some a =>
            let! found := find_cmd_tbl (w_mem w) a cmd_start in
            match found with
            | Some k =>
                match cmd_start !! k with
                | Some cmdtp =>
                    let! '(w, r) := cmd_usage cmdtp w in cont (w, i + 1, Z.lor rcode r)
                | None => Fault
                end
            | None =>
                cont (printf "Unknown command '%s' - try 'help' without arguments for list of all known commands\n\n" [a] w,
                      i + 1, 1)
            end
        end
      else brk (w, rcode)) (w, 1, 0).

(** ** Completion *)

(** The candidates for the whole table, at most [maxv - 2] and then "...". *)
Fixpoint list_all (maxv n_found : Z) (table : list cmd_tbl_t) : list candidate :=
  match table with
  | [] => []
  | cmdtp :: table =>
      if maxv - 2 <=? n_found then [Dots]
      else Name (name cmdtp) :: list_all maxv (n_found + 1) table
  end.

Fixpoint list_matches (m : mem) (cmd len maxv n_found : Z) (table : list cmd_tbl_t)
    : outcome (list candidate) :=
  match table with
  | [] => Ok []
  | cmdtp :: table =>
      let! n := strlen m (name cmdtp) in
      let clen := s32 n in
      if clen <? len then list_matches m cmd len maxv n_found table else
      let! d := memcmp m cmd (name cmdtp) (u64 len) in
      if negb (d =? 0) then list_matches m cmd len maxv n_found table
      else if maxv - 2 <=? n_found then Ok [Dots]
      else
        let! l := list_matches m cmd len maxv (n_found + 1) table in
        Ok (Name (name cmdtp) :: l)
  end.

(** The result is the count and the contents of [cmdv] up to its NULL. *)
Definition complete_subcmdv (m : mem) (table : list cmd_tbl_t) (argc : Z) (argv : list Z)
    (last_char maxv : Z) : outcome (Z * list candidate) :=
  if maxv <? 2 then Ok (-2, []) else
  if argc =? 0 then
    let l := list_all maxv 0 table in Ok (Z.of_nat (length l), l)
  else
    match argv with
    | [] => Fault
    | cmd :: _ =>
        if (1 <? argc) || (last_char =? 0) || isblank last_char then
          let! found := find_cmd_tbl m cmd table in
          match found with
          | None => Ok (0, [])
          | Some i =>
              match table !! i with
              | None => Fault
              | Some cmdtp =>
                  match complete cmdtp with
                  | None => Ok (0, [])
                  | Some f => f m argc argv last_char maxv
                  end
              end
          end
        else
          let! len := name_len m cmd in
          let! l := list_matches m cmd len maxv 0 table in
          Ok (Z.of_nat (length l), l)
    end.

(** [while (isblank( *s)) ++s;] *)
Definition skip_blanks (m : mem) (s : Z) : outcome Z :=
  while (fuel_of m) (fun s =>
    let! c := load8 m s in
    if isblank c then cont (s + 1) else brk s) s.

(** [while ( *s && !isblank( *s)) ++s;] *)
Definition skip_word (m : mem) (s : Z) : outcome Z :=
  while (fuel_of m) (fun s =>
    let! c := load8 m s in
    if negb (c =? 0) && negb (isblank c) then cont (s + 1) else brk s) s.

Definition make_argv (m : mem) (s argvsz : Z) : outcome (mem * list Z) :=
  while (S (Z.to_nat argvsz)) (fun '(m, s, argv) =>
    if Z.of_nat (length argv) <? argvsz - 1 then
      let! s := skip_blanks m s in
      let! c := load8 m s in
      if c =? 0 then brk (m, argv) else
      let argv := argv ++ [s] in
      let! s := skip_word m s in
      let! c := load8 m s in
      if c =? 0 then brk (m, argv) else
      let! m := store8 m s 0 in
      cont (m, s + 1, argv)
    else brk (m, argv)) (m, s, []).

(** ** Completing the line *)

(** Reading a candidate: a name in memory or the literal "...". *)
Definition cand_load (m : mem) (c : candidate) (i : Z) : outcome Z :=
  match c with
  | Name p => load8 m (p + i)
  | Dots => match [46; 46; 46; 0] !! Z.to_nat i with Some b => Ok b | None => Fault end
  end.

Definition cand_len (m : mem) (c : candidate) : outcome Z :=
  match c with
  | Name p => strlen m p
  | Dots => Ok 3
  end.

(** [strlen] of what follows the first [k] characters. *)
Definition cand_len_from (m : mem) (c : candidate) (k : Z) : outcome Z :=
  match c with
  | Name p => strlen m (p + k)
  | Dots => if k <=? 3 then Ok (3 - k) else Fault
  end.

(** The inner loop: the first of [len] positions where two strings differ. *)
Definition prefix_len (m : mem) (t anchor : candidate) (len : Z) : outcome Z :=
  while (S (Z.to_nat len)) (fun i =>
    if i <? len then
      let! a := cand_load m t i in
      let! b := cand_load m anchor i in
      if negb (a =? b) then brk i else cont (i + 1)
    else brk i) 0.

Fixpoint common_loop (m : mem) (anchor : candidate) (len : Z) (argv : list candidate) : outcome Z :=
  match argv with
  | [] => Ok len
  | t :: argv =>
      let! len := prefix_len m t anchor len in
      common_loop m anchor len argv
  end.

Definition find_common_prefix (m : mem) (argv : list candidate) : outcome Z :=
  match argv with
  | [] => Ok 0
  | anchor :: argv =>
      let! len := cand_len m anchor in
      common_loop m anchor len argv
  end.

Definition puts_cand (c : candidate) (w : world) : outcome world :=
  match c with
  | Name p => puts p w
  | Dots => Ok (puts_lit "..." w)
  end.

(** [print_argv] as [cmd_auto_complete] calls it: no banner, leader "  ",
    separator " ". *)
Fixpoint print_argv_loop (linemax i : Z) (argv : list candidate) (w : world) : outcome world :=
  match argv with
  | [] => Ok (printf "\n" [] w)
  | a :: argv =>
      let! n := cand_len (w_mem w) a in
      let len := n + 1 in
      let '(w, i) :=
        if linemax <=? i + len then (puts_lit "  " (puts_lit "\n\r" w), 2 - 1)
        else (puts_lit " " w, i) in
      let! w := puts_cand a w in
      print_argv_loop linemax (i + len) argv w
  end.

Definition print_argv (linemax : Z) (argv : list candidate) (w : world) : outcome world :=
  print_argv_loop linemax linemax argv w.

(** [for (i = 0; i < len; i++) *t++ = *s++;] *)
Definition copy_cand (m : mem) (t : Z) (s : candidate) (k len : Z) : outcome mem :=
  while (S (Z.to_nat len)) (fun '(m, i) =>
    if i <? len then
      let! b := cand_load m s (k + i) in
      let! m := store8 m (t + i) b in cont (m, i + 1)
    else brk m) (m, 0).

Section auto_complete.
(** The table, and the addresses of the prompt literal and of [tmp_buf]. *)
Context (cmd_table : list cmd_tbl_t) (ps_prompt tmp_buf : Z).

Definition complete_cmdv (m : mem) (argc : Z) (argv : list Z) (last_char maxv : Z)
    : outcome (Z * list candidate) :=
  complete_subcmdv m cmd_table argc argv last_char maxv.

(** What is to be appended: the source, where it starts, how much of it,
    and whether the separator follows. *)
Definition completion (m : mem) (i : Z) (cmdv : list candidate) (argv : list Z) (last_char : Z)
    : outcome (option (candidate * Z * Z * bool)) :=
  match cmdv with
  | [] => if i =? 1 then Fault else Ok None
  | c :: _ =>
      let! j := if i =? 1 then Ok 0 else if 1 <? i then find_common_prefix m cmdv else Ok 0 in
      if (i =? 1) || negb (j =? 0) then
        let! k :=
          if negb (last_char =? 0) && negb (isblank last_char) then
            match list.last argv with Some a => strlen m a | None => Fault end
          else Ok 0 in
        if i =? 1 then
          let! len := cand_len_from m c k in Ok (Some (c, k, len, true))
        else if 0 <? j - k then Ok (Some (c, k, j - k, false))
        else Ok None
      else Ok None
  end.

(** The result is the return value and the new [*np] and [*colp]. *)
Definition cmd_auto_complete (prompt buf n col : Z) (w : world) : outcome (world * Z * Z * Z) :=
  let! d := strcmp (w_mem w) prompt ps_prompt in
  if negb (d =? 0) then Ok (w, 0, n, col) else
  let! cnt := strlen (w_mem w) buf in
  let! last_char := if 1 <=? cnt then load8 (w_mem w) (buf + cnt - 1) else Ok 0 in
  let! m := strcpy (w_mem w) tmp_buf buf in
  let! '(m, argv) := make_argv m tmp_buf (CONFIG_SYS_MAXARGS + 1) in
  let w := set_mem m w in
  let argc := Z.of_nat (length argv) in
  let! '(i, cmdv) := complete_cmdv m argc argv last_char 20 in
  if i =? 0 then
    if 1 <? argc then Ok (w, 0, n, col) else Ok (putc 7 w, 1, n, col)
  else
    let! s := completion m i cmdv argv last_char in
    match s with
    | Some (src, k0, len, sep) =>
        let k := len + (if sep then 1 else 0) in
        if CONFIG_SYS_CBSIZE - 2 <=? n + k then Ok (putc 7 w, 1, n, col) else
        let t := buf + cnt in
        let! m := copy_cand m t src k0 len in
        let t := t + len in
        let! '(m, t) := if sep then let! m := store8 m t 32 in Ok (m, t + 1) else Ok (m, t) in
        let! m := store8 m t 0 in
        let! w := puts (t - k) (set_mem m w) in
        let w := if sep then w else putc 7 w in
        Ok (w, 1, n + k, col + k)
    | None =>
        let! w := print_argv 78 cmdv w in
        let! w := puts prompt w in
        let! w := puts buf w in
        Ok (w, 1, n, col)
    end.
End auto_complete.

(** ** Size suffixes *)

Definition cmd_get_data_size (m : mem) (arg default_size : Z) : outcome Z :=
  let! n := strlen m arg in
  let len := s32 n in
  if 2 <? len then
    let! dot := load8 m (arg + len - 2) in
    if dot =? 46 then
      let! c := load8 m (arg + len - 1) in
      Ok (if c =? 98 then 1
          else if c =? 119 then 2
          else if c =? 108 then 4
          else if c =? 113 then 8
          else if c =? 115 then -2
          else -1)
    else Ok default_size
  else Ok default_size.
