(* ===== verification/CliSimple.v ===== *)
(** * The simple command line parser (common/cli_simple.c, common/cli.c)

    Splitting a line into arguments, removing one level of quoting and the
    macro syntax, running the commands of a line and of a list of lines.
    The buffers the C functions keep on their stack ([cmdbuf], [finaltoken],
    [temp_buf]) are regions of the memory whose addresses are arguments of
    the section.  A command handler is an arbitrary function of the world:
    it may change any memory. *)

From S2P Require Import Prelude CMem Ctype Str StrFacts Console Command.

Local Open Scope Z_scope.
Local Open Scope c_scope.

Definition CMD_FLAG_REPEAT : Z := 1.

(** ** Arguments *)

(** The result is [nargs] and the slots of [argv] that were written: with
    fewer than the maximum of arguments the last one is the NULL. *)
Definition cli_simple_parse_line (line : Z) (w : world) : outcome (world * Z * list Z) :=
  while (S (Z.to_nat CONFIG_SYS_MAXARGS)) (fun '(m, line, argv) =>
    let nargs := Z.of_nat (length argv) in
    if nargs <? CONFIG_SYS_MAXARGS then
      let! line := skip_blanks m line in
      let! c := load8 m line in
      if c =? 0 then brk (set_mem m w, nargs, argv ++ [NULL]) else
      let argv := argv ++ [line] in
      let nargs := nargs + 1 in
      let! line := skip_word m line in
      let! c := load8 m line in
      if c =? 0 then brk (set_mem m w, nargs, argv ++ [NULL]) else
      let! m := store8 m line 0 in
      cont (m, line + 1, argv)
    else
      brk (printf "** Too many args (max. %d) **\n" [CONFIG_SYS_MAXARGS] (set_mem m w), nargs, argv))
  (w_mem w, line, []).

(** ** Macros and quotes *)

(** The locals of [cli_simple_process_macros]. *)
Record macro_st : Type := MacroSt {
  mc_mem : mem;
  mc_input : Z;
  mc_output : Z;
  mc_inputcnt : Z;
  mc_outputcnt : Z;
  mc_state : Z;
  mc_prev : Z
}.

(** [*(output++) = c; outputcnt--;] *)
Definition mc_put (c : Z) (s : macro_st) : outcome macro_st :=
  let! m := store8 (mc_mem s) (mc_output s) c in
  Ok (MacroSt m (mc_input s) (mc_output s + 1) (mc_inputcnt s) (mc_outputcnt s - 1)
        (mc_state s) (mc_prev s)).

Definition mc_set_state (st : Z) (s : macro_st) : macro_st :=
  MacroSt (mc_mem s) (mc_input s) (mc_output s) (mc_inputcnt s) (mc_outputcnt s) st (mc_prev s).

Definition mc_set_prev (c : Z) (s : macro_st) : macro_st :=
  MacroSt (mc_mem s) (mc_input s) (mc_output s) (mc_inputcnt s) (mc_outputcnt s) (mc_state s) c.

(** The switch on [state]. *)
Definition mc_switch (c : Z) (s : macro_st) : outcome macro_st :=
  let quote := (c =? 39) && negb (mc_prev s =? 92) in
  if mc_state s =? 0 then
    if quote then Ok (mc_set_state 3 s)
    else if (c =? 36) && negb (mc_prev s =? 92) then Ok (mc_set_state 1 s)
    else mc_put c s
  else if mc_state s =? 1 then
    if (c =? 40) || (c =? 123) then Ok (mc_set_state 2 s)
    else
      let! s := mc_put 36 (mc_set_state 0 s) in
      if negb (mc_outputcnt s =? 0) then mc_put c s else Ok s
  else if mc_state s =? 2 then
    if (c =? 41) || (c =? 125) then Ok (mc_set_state 0 s) else Ok s
  else if mc_state s =? 3 then
    if quote then Ok (mc_set_state 0 s) else mc_put c s
  else Ok s.

Definition mc_next (s : macro_st) : outcome (Z * macro_st) :=
  let! c := load8 (mc_mem s) (mc_input s) in
  Ok (c, MacroSt (mc_mem s) (mc_input s + 1) (mc_output s) (mc_inputcnt s) (mc_outputcnt s)
           (mc_state s) (mc_prev s)).

Definition mc_dec (s : macro_st) : macro_st :=
  MacroSt (mc_mem s) (mc_input s) (mc_output s) (mc_inputcnt s - 1) (mc_outputcnt s)
    (mc_state s) (mc_prev s).

Definition mc_step (s : macro_st) : outcome (macro_st + macro_st) :=
  if (mc_inputcnt s =? 0) || (mc_outputcnt s =? 0) then brk s else
  let! '(c, s) := mc_next s in
  let s := mc_dec s in
  if negb (mc_state s =? 3) && (c =? 92) && negb (mc_prev s =? 92) then
    if mc_inputcnt s =? 0 then brk (mc_dec s) else
    let s := mc_set_prev c (mc_dec s) in
    let! '(c, s) := mc_next s in
    let! s := mc_switch c s in
    cont (mc_set_prev c s)
  else
    let! s := mc_switch c s in
    cont (mc_set_prev c s).

Definition cli_simple_process_macros (m : mem) (input output : Z) : outcome mem :=
  let! n := strlen m input in
  let! s := while (fuel_of m) mc_step (MacroSt m input output (s32 n) CONFIG_SYS_CBSIZE 0 0) in
  if negb (mc_outputcnt s =? 0) then store8 (mc_mem s) (mc_output s) 0
  else store8 (mc_mem s) (mc_output s - 1) 0.

(** ** Running commands *)

(** The separator loop: the first unquoted, unescaped ';' after the start of
    the command, or its end. *)
Definition find_sep (m : mem) (str : Z) : outcome Z :=
  while (fuel_of m) (fun '(inquotes, sep) =>
    let! c := load8 m sep in
    if c =? 0 then brk sep else
    let! inquotes :=
      if c =? 39 then
        let! p := load8 m (sep - 1) in
        Ok (if negb (p =? 92) then negb inquotes else inquotes)
      else Ok inquotes in
    if negb inquotes && (c =? 59) && negb (sep =? str) then
      let! p := load8 m (sep - 1) in
      if negb (p =? 92) then brk sep else cont (inquotes, sep + 1)
    else cont (inquotes, sep + 1)) (false, str).

Section run.
Context (errno_str : Z -> Z) (cmd_table : list cmd_tbl_t).

(** One token of the line: what happens between two separators. *)
Definition run_token (finaltoken token flag : Z) (st : world * Z * Z) : outcome (world * Z * Z) :=
  let '(w, repeatable, rc) := st in
  let! m := cli_simple_process_macros (w_mem w) token finaltoken in
  let! '(w, argc, argv) := cli_simple_parse_line finaltoken (set_mem m w) in
  if argc =? 0 then Ok (w, repeatable, -1) else
  let! '(w, r, repeatable) := cmd_process errno_str cmd_table flag argc argv repeatable w in
  Ok (w, repeatable, if negb (r =? 0) then -1 else rc).

Definition cli_simple_run_command (cmdbuf finaltoken cmd flag : Z) (w : world)
    : outcome (world * Z) :=
  if cmd =? NULL then Ok (w, -1) else
  let! c := load8 (w_mem w) cmd in
  if c =? 0 then Ok (w, -1) else
  let! n := strlen (w_mem w) cmd in
  if CONFIG_SYS_CBSIZE <=? n then Ok (puts_lit "## Command too long!\n\r" w, -1) else
  let! m := strcpy (w_mem w) cmdbuf cmd in
  while (S (Z.to_nat CONFIG_SYS_CBSIZE)) (fun '(w, str, repeatable, rc) =>
    let! c := load8 (w_mem w) str in
    if c =? 0 then brk (w, if negb (rc =? 0) then rc else repeatable) else
    let! sep := find_sep (w_mem w) str in
    let token := str in
    let! s := load8 (w_mem w) sep in
    let! '(w, str) :=
      if negb (s =? 0) then
        let! m := store8 (w_mem w) sep 0 in Ok (set_mem m w, sep + 1)
      else Ok (w, sep) in
    let! '(w, repeatable, rc) := run_token finaltoken token flag (w, repeatable, rc) in
    cont (w, str, repeatable, rc)) (set_mem m w, cmdbuf, 1, 0).

Definition run_command (cmdbuf finaltoken cmd flag : Z) (w : world) : outcome (world * Z) :=
  let! '(w, r) := cli_simple_run_command cmdbuf finaltoken cmd flag w in
  Ok (w, if r =? -1 then 1 else 0).

Definition run_command_repeatable (cmdbuf finaltoken cmd flag : Z) (w : world)
    : outcome (world * Z) :=
  cli_simple_run_command cmdbuf finaltoken cmd flag w.

Definition cli_simple_run_command_list (cmdbuf finaltoken cmd flag : Z) (w : world)
    : outcome (world * Z) :=
  let! '(w, line, rcode) :=
    while (fuel_of (w_mem w)) (fun '(w, line, next) =>
      let! c := load8 (w_mem w) next in
      if c =? 0 then brk (w, line, 0) else
      if c =? 10 then
        let! m := store8 (w_mem w) next 0 in
        let w := set_mem m w in
        let! l := load8 (w_mem w) line in
        if negb (l =? 0) then
          let w := printf "** exec: \x22%s\x22\n" [line] w in
          let! '(w, r) := cli_simple_run_command cmdbuf finaltoken line 0 w in
          if r <? 0 then brk (w, line, 1) else cont (w, next + 1, next + 1)
        else cont (w, next + 1, next + 1)
      else cont (w, line, next + 1)) (w, cmd, cmd) in
  let! l := if rcode =? 0 then load8 (w_mem w) line else Ok 0 in
  if (rcode =? 0) && negb (l =? 0) then
    let! '(w, r) := cli_simple_run_command cmdbuf finaltoken line 0 w in
    Ok (w, if r <? 0 then 1 else 0)
  else Ok (w, rcode).

(** [temp_buf] is the 1024 byte stack buffer. *)
Definition run_command_list (cmdbuf finaltoken temp_buf cmd len flag : Z) (w : world)
    : outcome (world * Z) :=
  let! m := memset (w_mem w) temp_buf 0 1024 in
  let w := set_mem m w in
  let! '(len, need_buff) :=
    if len =? -1 then
      let! n := strlen (w_mem w) cmd in
      let! p := strchr (w_mem w) cmd 10 in
      Ok (s32 n, negb (p =? NULL))
    else Ok (len, true) in
  let! '(w, buff) :=
    if need_buff : bool then
      let! m := memcpy (w_mem w) temp_buf cmd (u64 len) in
      let! m := store8 m (temp_buf + len) 0 in
      Ok (set_mem m w, temp_buf)
    else Ok (w, cmd) in
  cli_simple_run_command_list cmdbuf finaltoken buff flag w.

(** One turn of [cli_simple_loop], after [cli_readline] returned [len]; [rc]
    is the result of the previous turn, the answer is the new one. *)
Definition cli_simple_loop_step (cmdbuf finaltoken lastcommand console_buffer len rc : Z) (w : world)
    : outcome (world * Z) :=
  let! '(w, flag) :=
    if 0 <? len then
      let! '(m, _) := strlcpy (w_mem w) lastcommand console_buffer (CONFIG_SYS_CBSIZE + 1) in
      Ok (set_mem m w, 0)
    else Ok (w, if len =? 0 then CMD_FLAG_REPEAT else 0) in
  let! '(w, rc) :=
    if len =? -1 then Ok (puts_lit "<INTERRUPT>\n\r" w, rc)
    else run_command_repeatable cmdbuf finaltoken lastcommand flag w in
  if rc <=? 0 then
    let! m := store8 (w_mem w) lastcommand 0 in Ok (set_mem m w, rc)
  else Ok (w, rc).
End run.
