(* ===== verification/CliFacts.v ===== *)
(** * Correctness of the command line parser

    What [cli_simple_parse_line] and [make_argv] do to a line is splitting it
    into words; what [cli_simple_process_macros] writes stays inside its
    buffer and is terminated; what a command line runs is what the table
    lookup says. *)

From S2P Require Import Prelude CMem Ctype Str StrFacts Strto Console Command CliSimple.

Local Open Scope Z_scope.
Local Open Scope c_scope.

(** ** Words *)

Definition nonblank (c : Z) : bool := negb (isblank c).

(** The first [n] words of a line. *)
Fixpoint words (n : nat) (l : list Z) : list (list Z) :=
  match n with
  | O => []
  | S n =>
      let l := drop (span isblank l) l in
      match l with
      | [] => []
      | _ :: _ => let k := span nonblank l in take k l :: words n (drop (S k) l)
      end
  end.

Lemma cstr_agree m m' p s :
  cstr m p s -> (forall q, p <= q <= p + Z.of_nat (length s) -> m' !! q = m !! q) -> cstr m' p s.
Proof.
  intros [H HF] Ha. split; [|done]. apply bytes_at_intro. intros i b Hi.
  rewrite Ha; [by eapply bytes_at_lookup|].
  apply lookup_lt_Some in Hi. rewrite length_app in Hi. simpl in Hi. lia.
Qed.

Lemma cstr_mapped m p l q :
  cstr m p l -> p <= q <= p + Z.of_nat (length l) -> is_Some (m !! q).
Proof.
  intros [H _] Hq. apply bytes_at_mapped in H. apply H. rewrite length_app. simpl. lia.
Qed.

(** Cutting a string with a terminator stored over its character [k]. *)
Lemma cstr_cut m p s k :
  (k < length s)%nat -> cstr m p s ->
  cstr (<[p + Z.of_nat k := 0]> m) p (take k s) /\
  cstr (<[p + Z.of_nat k := 0]> m) (p + Z.of_nat k + 1) (drop (S k) s).
Proof.
  intros Hk H. split.
  - destruct H as [H HF]. split; [|by apply Forall_take].
    apply bytes_at_app. rewrite length_take, Nat.min_l by lia. split.
    + apply bytes_at_insert_ne; [|rewrite length_take; lia].
      apply bytes_at_app in H as [H _]. by apply bytes_at_take.
    + split; [|done]. apply lookup_insert_eq.
  - apply cstr_insert_ne; [|left; lia].
    pose proof (cstr_drop m p s (S k) ltac:(lia) H) as Hd.
    by replace (p + Z.of_nat (S k)) with (p + Z.of_nat k + 1) in Hd by lia.
Qed.

Lemma cstr_hd m p s : cstr m p s -> load8 m p = Ok (nth 0 s 0).
Proof.
  intros H. destruct s; [by apply cstr_nil|]. by apply cstr_cons in H as (-> & _).
Qed.

Lemma skip_blanks_cstr m p s :
  cstr m p s -> skip_blanks m p = Ok (p + Z.of_nat (span isblank s)).
Proof.
  intros H. unfold skip_blanks. with_fuel H. intros fuel. revert p H fuel.
  induction s as [|c s IH]; intros p H fuel Hf; while_step fuel; cstr_step.
  - cbn. f_equal. lia.
  - cbn [span]. destruct (isblank c); loop_next; [|f_equal; lia].
    rewrite IH by (simpl in *; done || lia). f_equal. lia.
Qed.

Lemma skip_word_cstr m p s :
  cstr m p s -> skip_word m p = Ok (p + Z.of_nat (span nonblank s)).
Proof.
  intros H. unfold skip_word. with_fuel H. intros fuel. revert p H fuel.
  induction s as [|c s IH]; intros p H fuel Hf; while_step fuel; cstr_step.
  - cbn. f_equal. lia.
  - cbn [span]. unfold nonblank at 1. destruct (Z.eqb_spec c 0); [lia|]. cbn [negb andb].
    destruct (isblank c); cbn [negb]; loop_next; [f_equal; lia|].
    rewrite IH by (simpl in *; done || lia). f_equal. lia.
Qed.

(** One turn of either splitting loop. *)
Lemma word_step m p l :
  cstr m p l ->
  let b := span isblank l in
  let l1 := drop b l in
  let k := span nonblank l1 in
  let p1 := p + Z.of_nat b in
  skip_blanks m p = Ok p1 /\ load8 m p1 = Ok (nth 0 l1 0) /\
  skip_word m p1 = Ok (p1 + Z.of_nat k) /\
  load8 m (p1 + Z.of_nat k) = Ok (nth 0 (drop k l1) 0) /\
  cstr m p1 l1.
Proof.
  intros H b l1 k p1.
  assert (cstr m p1 l1) as H1 by (apply cstr_drop; [apply span_le|done]).
  split; [by apply skip_blanks_cstr|]. split; [by apply cstr_hd|].
  split; [by apply skip_word_cstr|]. split; [|done].
  apply cstr_hd, cstr_drop; [apply span_le|done].
Qed.

Lemma nth0_nonzero m p l c t : cstr m p l -> l = c :: t -> nth 0 l 0 <> 0.
Proof. intros H ->. apply cstr_cons in H as (_ & ? & _). simpl. lia. Qed.

(** What both loops leave in memory: the words, terminated in place. *)
Record split_ok (m m' : mem) (p : Z) (l : list Z) (ptrs : list Z) (ws : list (list Z)) : Prop := {
  so_words : Forall2 (cstr m') ptrs ws;
  so_frame : forall q, ~ (p <= q < p + Z.of_nat (length l)) -> m' !! q = m !! q;
  so_in : Forall (fun a => p <= a < p + Z.of_nat (length l)) ptrs;
  so_zero : forall q, m' !! q = m !! q \/ (m' !! q = Some 0 /\ is_Some (m !! q))
}.

Lemma split_ok_nil m p l : split_ok m m p l [] [].
Proof. split; [constructor|done|constructor|by left]. Qed.

(** A word at the end of the line. *)
Lemma split_ok_last m p l :
  cstr m p l -> drop (span isblank l) l <> [] ->
  drop (span nonblank (drop (span isblank l) l)) (drop (span isblank l) l) = [] ->
  let l1 := drop (span isblank l) l in
  split_ok m m p l [p + Z.of_nat (span isblank l)] [take (span nonblank l1) l1].
Proof.
  intros H Hne He l1. fold l1 in Hne, He.
  destruct (word_step m p l H) as (_ & _ & _ & _ & H1). fold l1 in H1.
  assert (take (span nonblank l1) l1 = l1) as ->.
  { apply take_ge. assert (length (drop (span nonblank l1) l1) = O) as Hl by (by rewrite He).
    rewrite length_drop in Hl. lia. }
  pose proof (span_le isblank l) as Hb.
  assert (length l1 = (length l - span isblank l)%nat) as Hl1 by apply length_drop.
  assert (length l1 <> O) by (destruct l1; [done|simpl; lia]).
  split; [by constructor; [|constructor]|done| |by left]. constructor; [|constructor]. lia.
Qed.

(** A word followed by a blank, then the rest of the line. *)
Lemma split_ok_cons m m' p l ptrs ws c t :
  let b := span isblank l in
  let l1 := drop b l in
  let k := span nonblank l1 in
  let p1 := p + Z.of_nat b in
  cstr m p l -> l1 <> [] -> drop k l1 = c :: t ->
  split_ok (<[p1 + Z.of_nat k := 0]> m) m' (p1 + Z.of_nat k + 1) (drop (S k) l1) ptrs ws ->
  split_ok m m' p l (p1 :: ptrs) (take k l1 :: ws).
Proof.
  intros b l1 k p1 H Hne Hd [Hw Hf Hi Hz].
  destruct (word_step m p l H) as (_ & _ & _ & _ & H1). fold b l1 p1 in H1.
  pose proof (span_le isblank l) as Hb. fold b in Hb.
  assert (length l1 = (length l - b)%nat) as Hl1 by apply length_drop.
  assert (length (drop k l1) = S (length t)) as Hk by (by rewrite Hd). rewrite length_drop in Hk.
  destruct (cstr_cut m p1 l1 k ltac:(lia) H1) as [Hw1 _].
  assert (length (drop (S k) l1) = (length l1 - S k)%nat) as Hl2 by apply length_drop.
  split.
  - constructor; [|done]. eapply cstr_agree; [exact Hw1|]. intros q Hq.
    rewrite length_take, Nat.min_l in Hq by lia. apply Hf. lia.
  - intros q Hq. rewrite Hf by lia. apply lookup_insert_ne. lia.
  - constructor; [lia|]. eapply list.Forall_impl; [exact Hi|]. simpl. lia.
  - intros q. destruct (Hz q) as [E|[E1 E2]].
    + rewrite E. destruct (Z.eq_dec q (p1 + Z.of_nat k)) as [->|Hq].
      * right. rewrite lookup_insert_eq. split; [done|]. eapply cstr_mapped; [exact H1|lia].
      * left. by rewrite lookup_insert_ne by done.
    + right. split; [done|]. destruct (Z.eq_dec q (p1 + Z.of_nat k)) as [->|Hq].
      * eapply cstr_mapped; [exact H1|lia].
      * by rewrite lookup_insert_ne in E2 by done.
Qed.

Lemma words_cons n l :
  let l1 := drop (span isblank l) l in
  l1 <> [] ->
  words (S n) l = take (span nonblank l1) l1 :: words n (drop (S (span nonblank l1)) l1).
Proof. intros l1 H. cbn [words]. fold l1. by destruct l1. Qed.

Lemma words_nil n l : drop (span isblank l) l = [] -> words n l = [].
Proof. intros H. destruct n; [done|]. cbn [words]. by rewrite H. Qed.

Lemma words_end n k l : drop k l = [] -> words n (drop (S k) l) = [].
Proof.
  intros H. assert (drop (S k) l = []) as ->.
  { rewrite <- Nat.add_1_r, <- drop_drop, H. done. }
  by apply words_nil.
Qed.

(** ** [cli_simple_parse_line] *)

Definition parse_body (w : world) : mem * Z * list Z -> outcome (mem * Z * list Z + world * Z * list Z) :=
  fun '(m, line, argv) =>
    let nargs := Z.of_nat (length argv) in
    if nargs <? CONFIG_SYS_MAXARGS then
      let! line := skip_blanks m line in
      let! c := load8 m line in
      if c =? 0 then brk (set_mem m w, nargs, argv ++ [NULL]) else
      let argv := argv ++ [line] in
      let nargs := nargs + 1 in
      let! line := skip_word m line in
      let! c := load8 m line in
      if c =? 0 then brk (set_mem m w, nargs, argv ++ [NULL]) else
      let! m := store8 m line 0 in
      cont (m, line + 1, argv)
    else
      brk (printf "** Too many args (max. %d) **\n" [CONFIG_SYS_MAXARGS] (set_mem m w), nargs, argv).

Definition too_many : event := Printf "** Too many args (max. %d) **\n" [CONFIG_SYS_MAXARGS].

(** How [argv] ends, with the message when there were too many words. *)
Definition argv_end (w w' : world) (tail : list Z) (full : Prop) : Prop :=
  (tail = [NULL] /\ w_io w' = w_io w) \/ (tail = [] /\ full /\ w_io w' = w_io w ++ [too_many]).

Lemma parse_loop w n m p l argv :
  cstr m p l -> Z.of_nat (length argv) + Z.of_nat n = CONFIG_SYS_MAXARGS ->
  exists w' ptrs tail,
    while (S n) (parse_body w) (m, p, argv) =
      Ok (w', Z.of_nat (length argv + length ptrs), argv ++ ptrs ++ tail) /\
    split_ok m (w_mem w') p l ptrs (words n l) /\
    argv_end w w' tail (length ptrs = n).
Proof.
  revert m p l argv. induction n as [|n IH]; intros m p l argv H Hn; rewrite while_S; unfold parse_body at 1.
  - destruct (Z.ltb_spec (Z.of_nat (length argv)) CONFIG_SYS_MAXARGS); [lia|]. loop_next.
    eexists _, [], []. rewrite app_nil_r. split; [f_equal; f_equal; f_equal; simpl; lia|].
    split; [apply split_ok_nil|by right].
  - destruct (Z.ltb_spec (Z.of_nat (length argv)) CONFIG_SYS_MAXARGS); [|lia].
    destruct (word_step m p l H) as (-> & E1 & E2 & E3 & H1). cbn [obind].
    rewrite E1. cbn [obind]. set (b := span isblank l) in *. set (l1 := drop b l) in *.
    destruct (decide (l1 = [])) as [El|Nl].
    { rewrite El. cbn [nth Z.eqb]. loop_next. eexists _, [], [NULL].
      rewrite words_nil by done. split; [f_equal; f_equal; f_equal; simpl; lia|].
      split; [apply split_ok_nil|by left]. }
    assert (nth 0 l1 0 <> 0) as Hnz.
    { destruct l1 as [|c t] eqn:E; [done|]. by eapply nth0_nonzero. }
    destruct (Z.eqb_spec (nth 0 l1 0) 0); [done|]. rewrite E2. cbn [obind]. rewrite E3. cbn [obind].
    set (k := span nonblank l1) in *. rewrite words_cons by done. fold b l1 k.
    destruct (drop k l1) as [|c t] eqn:Ed.
    + cbn [nth Z.eqb]. loop_next. eexists _, [_], [NULL]. rewrite words_end by done.
      split; [by rewrite <- app_assoc; f_equal; f_equal; f_equal; simpl; lia|].
      split; [by apply split_ok_last|by left].
    + assert (c <> 0) as Hc.
      { pose proof (cstr_drop m _ l1 k (span_le _ _) H1) as Hd. rewrite Ed in Hd.
        apply cstr_cons in Hd as (_ & ? & _). lia. }
      cbn [nth]. destruct (Z.eqb_spec c 0); [done|].
      pose proof (f_equal length Ed) as Hlen. rewrite length_drop in Hlen. simpl in Hlen.
      rewrite store8_mapped by (eapply cstr_mapped; [exact H1|lia]). cbn [obind]. loop_next.
      change (u8 0) with 0.
      destruct (cstr_cut m _ l1 k ltac:(lia) H1) as [_ H2].
      destruct (IH _ _ _ (argv ++ [p + Z.of_nat b]) H2) as (w' & ptrs & tail & -> & Hs & Ht);
        [rewrite length_app; simpl; lia|].
      exists w', (p + Z.of_nat b :: ptrs), tail. split.
      { rewrite <- app_assoc, length_app. f_equal; f_equal; f_equal; simpl; lia. }
      split; [by eapply split_ok_cons|]. destruct Ht as [?|(? & ? & ?)]; [by left|right].
      split; [done|]. split; [simpl; lia|done].
Qed.

(** The same for [make_argv]. *)
Definition make_argv_body (argvsz : Z) : mem * Z * list Z -> outcome (mem * Z * list Z + mem * list Z) :=
  fun '(m, s, argv) =>
    if Z.of_nat (length argv) <? argvsz - 1 then
      let! s := skip_blanks m s in
      let! c := load8 m s in
      if c =? 0 then brk (m, argv) else
      let argv := argv ++ [s] in
      let! s := skip_word m s in
      let! c := load8 m s in
      if c =? 0 then brk (m, argv) else
      let! m := store8 m s 0 in
      cont (m, s + 1, argv)
    else brk (m, argv).

Lemma make_argv_loop argvsz n m p l argv :
  cstr m p l -> Z.of_nat (length argv) + Z.of_nat n = argvsz - 1 ->
  exists m' ptrs, while (S (S n)) (make_argv_body argvsz) (m, p, argv) = Ok (m', argv ++ ptrs) /\
    split_ok m m' p l ptrs (words n l).
Proof.
  revert m p l argv. induction n as [|n IH]; intros m p l argv H Hn; rewrite while_S;
    unfold make_argv_body at 1.
  - destruct (Z.ltb_spec (Z.of_nat (length argv)) (argvsz - 1)); [lia|]. loop_next.
    exists m, []. rewrite app_nil_r. split; [done|apply split_ok_nil].
  - destruct (Z.ltb_spec (Z.of_nat (length argv)) (argvsz - 1)); [|lia].
    destruct (word_step m p l H) as (-> & E1 & E2 & E3 & H1). cbn [obind].
    rewrite E1. cbn [obind]. set (b := span isblank l) in *. set (l1 := drop b l) in *.
    destruct (decide (l1 = [])) as [El|Nl].
    { rewrite El. cbn [nth Z.eqb]. loop_next. exists m, [].
      rewrite words_nil, app_nil_r by done. split; [done|apply split_ok_nil]. }
    assert (nth 0 l1 0 <> 0) as Hnz.
    { destruct l1 as [|c t] eqn:E; [done|]. by eapply nth0_nonzero. }
    destruct (Z.eqb_spec (nth 0 l1 0) 0); [done|]. rewrite E2. cbn [obind]. rewrite E3. cbn [obind].
    set (k := span nonblank l1) in *. rewrite words_cons by done. fold b l1 k.
    destruct (drop k l1) as [|c t] eqn:Ed.
    + cbn [nth Z.eqb]. loop_next. exists m, [p + Z.of_nat b]. rewrite words_end by done.
      split; [done|by apply split_ok_last].
    + assert (c <> 0) as Hc.
      { pose proof (cstr_drop m _ l1 k (span_le _ _) H1) as Hd. rewrite Ed in Hd.
        apply cstr_cons in Hd as (_ & ? & _). lia. }
      cbn [nth]. destruct (Z.eqb_spec c 0); [done|].
      pose proof (f_equal length Ed) as Hlen. rewrite length_drop in Hlen. simpl in Hlen.
      rewrite store8_mapped by (eapply cstr_mapped; [exact H1|lia]). cbn [obind]. loop_next.
      change (u8 0) with 0.
      destruct (cstr_cut m _ l1 k ltac:(lia) H1) as [_ H2].
      destruct (IH _ _ _ (argv ++ [p + Z.of_nat b]) H2) as (m' & ptrs & -> & Hs);
        [rewrite length_app; simpl; lia|].
      exists m', (p + Z.of_nat b :: ptrs). split; [by rewrite <- app_assoc|]. by eapply split_ok_cons.
Qed.

Lemma make_argv_cstr m p l argvsz :
  cstr m p l -> 1 <= argvsz ->
  exists m' ptrs, make_argv m p argvsz = Ok (m', ptrs) /\
    split_ok m m' p l ptrs (words (Z.to_nat (argvsz - 1)) l).
Proof.
  intros H Hsz.
  pose proof (make_argv_loop argvsz (Z.to_nat (argvsz - 1)) m p l [] H ltac:(simpl; lia)) as Hl.
  by replace (S (Z.to_nat (argvsz - 1))) with (Z.to_nat argvsz) in Hl by lia.
Qed.

Lemma parse_line_spec (w : world) (line : Z) (l : list Z) :
  cstr (w_mem w) line l ->
  let ws := words (Z.to_nat CONFIG_SYS_MAXARGS) l in
  exists w' ptrs tail,
    cli_simple_parse_line line w = Ok (w', Z.of_nat (length ws), ptrs ++ tail) /\
    split_ok (w_mem w) (w_mem w') line l ptrs ws /\
    argv_end w w' tail (Z.of_nat (length ws) = CONFIG_SYS_MAXARGS).
Proof.
  intros H ws.
  destruct (parse_loop w (Z.to_nat CONFIG_SYS_MAXARGS) (w_mem w) line l [] H)
    as (w' & ptrs & tail & E & Hs & Ht); [done|].
  fold ws in Hs. pose proof (Forall2_length _ _ _ (so_words _ _ _ _ _ _ Hs)) as Hl.
  exists w', ptrs, tail. split; [by rewrite <- Hl|]. split; [done|].
  destruct Ht as [?|(? & Hn & ?)]; [by left|right]. split; [done|]. by rewrite <- Hl, Hn.
Qed.

(** [cli_simple_parse_line] splits a line into its words: for every
    string, the arguments are pointers into the line at which the first
    [CONFIG_SYS_MAXARGS] words stand as terminated strings, [nargs] is their
    number, no byte outside the line changes, and [argv] ends with NULL or
    holds the maximum of arguments. *)
Theorem parse_line_words (w : world) (line : Z) (l : list Z) :
  cstr (w_mem w) line l ->
  let ws := words (Z.to_nat CONFIG_SYS_MAXARGS) l in
  exists w' ptrs tail,
    cli_simple_parse_line line w = Ok (w', Z.of_nat (length ws), ptrs ++ tail) /\
    Forall2 (cstr (w_mem w')) ptrs ws /\
    (forall q, ~ (line <= q < line + Z.of_nat (length l)) -> w_mem w' !! q = w_mem w !! q) /\
    (tail = [NULL] \/ (tail = [] /\ Z.of_nat (length ws) = CONFIG_SYS_MAXARGS)).
Proof.
  intros H ws. destruct (parse_line_spec w line l H) as (w' & ptrs & tail & E & [Hw Hf _ _] & Ht).
  exists w', ptrs, tail. split; [done|]. split; [done|]. split; [done|].
  destruct Ht as [[? _]|(? & ? & _)]; [by left|by right].
Qed.

(** The line " md  x": two words. *)
Lemma parse_line_words_witness :
  let w := World (mem_of 64 [32; 109; 100; 32; 32; 120; 0]) [] in
  exists w' ptrs tail,
    cli_simple_parse_line 64 w = Ok (w', 2, ptrs ++ tail) /\
    Forall2 (cstr (w_mem w')) ptrs [[109; 100]; [120]] /\
    (forall q, ~ (64 <= q < 70) -> w_mem w' !! q = w_mem w !! q) /\
    (tail = [NULL] \/ (tail = [] /\ Z.of_nat 2 = CONFIG_SYS_MAXARGS)).
Proof.
  cbv zeta. apply (parse_line_words (World (mem_of 64 [32; 109; 100; 32; 32; 120; 0]) []) 64
    [32; 109; 100; 32; 32; 120]).
  apply (cstr_mem_of 64 [32; 109; 100; 32; 32; 120]). reflexivity.
Defined.

(** ** [cli_simple_process_macros] *)

Section macros.
Context (m0 : mem) (input output : Z).

(** The output pointer and the counter move together; input is read from
    mapped memory only. *)
Record macro_inv (s : macro_st) : Prop := {
  mi_frame : frame output (output + CONFIG_SYS_CBSIZE) m0 (mc_mem s);
  mi_out : mc_output s = output + (CONFIG_SYS_CBSIZE - mc_outputcnt s);
  mi_cnt : 0 <= mc_outputcnt s <= CONFIG_SYS_CBSIZE;
  mi_in : seg m0 input (mc_input s)
}.

(** Consumed input: the pointer has moved from [p]. *)
Definition moved (p : Z) (s : macro_st) : Prop := macro_inv s /\ p < mc_input s.

Lemma mc_put_ends c s :
  macro_inv s -> mc_outputcnt s <> 0 ->
  ends (mc_put c s) (fun s' => macro_inv s' /\ mc_input s' = mc_input s).
Proof.
  intros [Hf Ho Hc Hi] Hnz. unfold mc_put. ends_step ends_store8 as m' [Hp ->].
  split; [|done]. split; cbn [mc_mem mc_output mc_outputcnt mc_input].
  - apply frame_insert; [done|done|lia].
  - lia.
  - lia.
  - done.
Qed.

Lemma mc_set_state_inv st s : macro_inv s -> macro_inv (mc_set_state st s).
Proof. by intros []. Qed.

Lemma mc_switch_ends c s :
  macro_inv s -> mc_outputcnt s <> 0 ->
  ends (mc_switch c s) (fun s' => macro_inv s' /\ mc_input s' = mc_input s).
Proof.
  intros Hs Hnz. unfold mc_switch.
  pose proof mc_set_state_inv as Hset.
  repeat match goal with |- ends (if ?b then _ else _) _ => destruct b end;
    try (by split; [apply Hset|]); try (by apply mc_put_ends); try done.
  eapply ends_bind; [apply mc_put_ends; [by apply Hset|done]|].
  intros s' [Hs' Hi']. destruct (negb _) eqn:E; [|done].
  eapply ends_mono; [apply mc_put_ends; [done|]|].
  - apply negb_true_iff, Z.eqb_neq in E. done.
  - intros s'' [? E2]. split; [done|]. rewrite E2. exact Hi'.
Qed.

Lemma mc_next_ends s :
  macro_inv s ->
  ends (mc_next s) (fun '(_, s') => macro_inv s' /\ mc_input s' = mc_input s + 1 /\
                      mc_outputcnt s' = mc_outputcnt s).
Proof.
  intros [Hf Ho Hc Hi]. unfold mc_next. ends_step ends_load8 as c Hl.
  split; [|done]. split; cbn; [done|done|done|].
  assert (is_Some (m0 !! mc_input s)) as [b Hb].
  { rewrite <- elem_of_dom. destruct Hf as [Hd _]. rewrite <- Hd. rewrite elem_of_dom. eauto. }
  eauto with rock.
Qed.

Lemma mc_dec_inv s : macro_inv s -> macro_inv (mc_dec s).
Proof. by intros []. Qed.

Lemma mc_set_prev_inv c s : macro_inv s -> macro_inv (mc_set_prev c s).
Proof. by intros []. Qed.

Lemma mc_step_ends s :
  macro_inv s ->
  ends (mc_step s) (fun r => match r with
    | inl s' => moved (mc_input s) s'
    | inr s' => macro_inv s'
    end).
Proof.
  intros Hs. unfold mc_step.
  destruct (mc_inputcnt s =? 0); cbn [orb]; [done|].
  destruct (Z.eqb_spec (mc_outputcnt s) 0) as [|Hnz]; [done|].
  ends_step mc_next_ends as [c s1] (H1 & I1 & O1); [done|].
  apply mc_dec_inv in H1.
  destruct (negb _ && _ && _).
  - case_match; [by apply mc_dec_inv|].
    ends_step mc_next_ends as [c2 s2] (H2 & I2 & O2); [by apply mc_set_prev_inv, mc_dec_inv|].
    unfold mc_set_prev, mc_dec in I2, O2. cbn in I2, O2.
    eapply ends_bind; [apply mc_switch_ends; [done|rewrite O2, O1; done]|].
    intros s3 [H3 I3]. simpl. split; [by apply mc_set_prev_inv|]. cbn. lia.
  - eapply ends_bind; [apply mc_switch_ends; [done|cbn; congruence]|].
    intros s3 [H3 I3]. simpl. split; [by apply mc_set_prev_inv|]. cbn in *. lia.
Qed.

Lemma process_macros_ends :
  ends (cli_simple_process_macros m0 input output) (fun m' =>
    frame output (output + CONFIG_SYS_CBSIZE) m0 m' /\
    exists k, output <= k < output + CONFIG_SYS_CBSIZE /\ m' !! k = Some 0).
Proof.
  unfold cli_simple_process_macros. eapply ends_bind; [apply strlen_ends|]. intros n _.
  apply (ends_bind _ _ macro_inv).
  - apply (ends_while macro_inv (fun s => Z.to_nat (Z.of_nat (size m0) - (mc_input s - input)))).
    + intros s Hs. eapply ends_mono; [by apply mc_step_ends|]. intros [s'|s']; [|done].
      intros [H' Hlt]. split; [done|]. destruct H' as [_ _ _ Hi]. apply seg_size in Hi. lia.
    + split; unfold CONFIG_SYS_CBSIZE; cbn; [apply frame_refl|lia|lia|apply seg_refl].
    + unfold fuel_of. cbn. lia.
  - intros s [Hf Ho Hc _].
    assert (forall k, output <= k < output + CONFIG_SYS_CBSIZE ->
      ends (store8 (mc_mem s) k 0) (fun m' => frame output (output + CONFIG_SYS_CBSIZE) m0 m' /\
        exists k, output <= k < output + CONFIG_SYS_CBSIZE /\ m' !! k = Some 0)) as Hst.
    { intros k Hk. eapply ends_mono; [apply ends_store8|]. cbv beta. intros m' [Hp ->].
      split; [by apply frame_insert|]. exists k. split; [done|]. apply lookup_insert_eq. }
    destruct (Z.eqb_spec (mc_outputcnt s) 0); cbn [negb]; apply Hst;
      unfold CONFIG_SYS_CBSIZE in *; lia.
Qed.
End macros.

(** C23: [cli_simple_process_macros] on any memory and any input ends, never
    writes outside the [CONFIG_SYS_CBSIZE] bytes of its output buffer, and
    always leaves a terminator inside the buffer. *)
Theorem process_macros_bounded (m : mem) (input output : Z) :
  cli_simple_process_macros m input output <> OutOfFuel /\
  forall m', cli_simple_process_macros m input output = Ok m' ->
    dom m' =@{gset Z} dom m /\
    (forall a, ~ (output <= a < output + CONFIG_SYS_CBSIZE) -> m' !! a = m !! a) /\
    exists k, output <= k < output + CONFIG_SYS_CBSIZE /\ m' !! k = Some 0.
Proof.
  pose proof (process_macros_ends m input output) as H.
  split; [by eapply ends_not_out_of_fuel|]. intros m' E. rewrite E in H.
  destruct H as [[Hd Hf] Hk]. done.
Qed.
