(* ===== verification/CommandFacts.v ===== *)
(** * Correctness of the command table

    Lookup against its specification on lists of names, dispatch (when the
    handler runs, what happens to the repeat flag), the bubble sort behind
    the help text, and the common prefix used by completion. *)

From Stdlib Require Import Sorted.
From S2P Require Import Prelude CMem Ctype Str StrFacts Strto Console Command.

Local Open Scope Z_scope.
Local Open Scope c_scope.

(** ** Lookup *)

(** The command text up to the first dot. *)
Definition key_of (s : list Z) : list Z := take (span (fun c => negb (c =? 46)) s) s.

(** Positions, counted from [i], of the names that start with [key]. *)
Fixpoint matches (i : nat) (key : list Z) (names : list (list Z)) : list nat :=
  match names with
  | [] => []
  | t :: names =>
      if bool_decide (take (length key) t = key) then i :: matches (S i) key names
      else matches (S i) key names
  end.

(** A full match wins, the first one; otherwise an abbreviation has to be
    unambiguous. *)
Definition find_spec (s : list Z) (names : list (list Z)) : option nat :=
  match find_idx (fun t => bool_decide (t = key_of s)) names with
  | Some i => Some i
  | None => match matches O (key_of s) names with [i] => Some i | _ => None end
  end.

Definition names_ok (m : mem) (table : list cmd_tbl_t) (names : list (list Z)) : Prop :=
  Forall2 (fun e t => cstr m (name e) t) table names.

Lemma span_negb_eq c s :
  find_idx (Z.eqb c) s = if bool_decide (c ∈ s) then Some (span (fun x => negb (x =? c)) s) else None.
Proof.
  induction s as [|a s IH]; [done|]. cbn [find_idx span]. rewrite (Z.eqb_sym c a).
  destruct (Z.eqb_spec a c) as [->|Hne]; cbn [negb].
  - rewrite bool_decide_true by set_solver. done.
  - rewrite IH. destruct (decide (c ∈ s)).
    + rewrite !bool_decide_true by set_solver. done.
    + rewrite !bool_decide_false by set_solver. done.
Qed.

Lemma find_idx_app {A} (f : A -> bool) l k :
  find_idx f (l ++ k) =
    match find_idx f l with
    | Some i => Some i
    | None => (fun i => (length l + i)%nat) <$> find_idx f k
    end.
Proof.
  induction l as [|a l IH]; simpl; [by destruct (find_idx f k)|].
  destruct (f a); [done|]. rewrite IH. destruct (find_idx f l); [done|].
  by destruct (find_idx f k).
Qed.

Lemma length_key_of s : length (key_of s) = span (fun c => negb (c =? 46)) s.
Proof. unfold key_of. rewrite length_take. pose proof (span_le (fun c => negb (c =? 46)) s). lia. Qed.

Lemma name_len_cstr m cmd s :
  cmd <> NULL -> 0 < cmd -> cstr m cmd s -> name_len m cmd = Ok (Z.of_nat (length (key_of s))).
Proof.
  intros Hn Hpos H. unfold name_len. rewrite (strchr_cstr m cmd s 46 H). cbn [obind].
  change (u8 46) with 46. rewrite find_idx_app, span_negb_eq, length_key_of.
  case_bool_decide as Hin; cbn [ptr_or_null].
  - case_cmp; [unfold NULL in *; lia|]. f_equal. lia.
  - change (find_idx (Z.eqb 46) [0]) with (@None nat).
    cbn [fmap option_fmap option_map ptr_or_null]. rewrite Z.eqb_refl.
    rewrite (strlen_cstr m cmd s H). f_equal. f_equal.
    symmetry. apply span_all, list.Forall_forall. intros c Hc.
    apply negb_true_iff, Z.eqb_neq. intros ->. done.
Qed.

Lemma take_key s : take (length (key_of s)) s = key_of s.
Proof. by rewrite length_key_of. Qed.

(** The comparison of the loop: the name starts with the key. *)
Lemma strncmp_key m cmd s p t :
  cstr m cmd s -> cstr m p t ->
  exists d, strncmp m cmd p (Z.of_nat (length (key_of s))) = Ok d /\
       (d = 0 <-> take (length (key_of s)) t = key_of s).
Proof.
  intros Hs Ht. eexists. split; [apply (strncmp_cstr m cmd p s t _ Hs Ht); lia|].
  rewrite Nat2Z.id, take_key, first_diff_zero.
  - by split.
  - apply Forall_take, Hs.
  - apply Forall_take, Ht.
Qed.

Lemma find_loop_spec m cmd s table names i temp prev :
  cstr m cmd s -> names_ok m table names ->
  (forall x, list.last prev = Some x -> x = temp) ->
  find_loop m cmd (Z.of_nat (length (key_of s))) table i temp (Z.of_nat (length prev)) =
    Ok (match find_idx (fun t => bool_decide (t = key_of s)) names with
        | Some j => Some (i + j)%nat
        | None => match prev ++ matches i (key_of s) names with [x] => Some x | _ => None end
        end).
Proof.
  intros Hs Hn. revert i temp prev.
  induction Hn as [|e t table names Ht Hn IH]; intros i temp prev Hprev; cbn [find_loop find_idx matches].
  - rewrite app_nil_r. destruct prev as [|x [|y prev]]; cbn; [done| |].
    + by rewrite (Hprev x eq_refl).
    + case_cmp; [lia|done].
  - destruct (strncmp_key m cmd s (name e) t Hs Ht) as (d & -> & Hd). cbn [obind].
    destruct (Z.eqb_spec d 0) as [E|N].
    + apply Hd in E. rewrite (bool_decide_true (take _ t = _)) by done.
      rewrite (strlen_cstr m _ t Ht). cbn [obind]. case_cmp.
      * rewrite bool_decide_true; [by rewrite Nat.add_0_r|].
        rewrite <- E. symmetry. apply take_ge. lia.
      * rewrite bool_decide_false by (intros ->; lia).
        pose proof (IH (S i) i (prev ++ [i])) as IH'. rewrite length_app in IH'. simpl in IH'.
        replace (Z.of_nat (length prev) + 1) with (Z.of_nat (length prev + 1)) by lia.
        rewrite IH'; [|intros x; rewrite last_snoc; congruence].
        rewrite <- app_assoc. destruct (find_idx _ names); simpl; [do 2 f_equal; lia|done].
    + rewrite (bool_decide_false (take _ t = _)) by (intros E; apply N, Hd, E).
      rewrite bool_decide_false.
      * rewrite IH by done. destruct (find_idx _ names); simpl; [do 2 f_equal; lia|done].
      * intros ->. apply N, Hd. by apply take_ge.
Qed.

Lemma find_cmd_tbl_spec m cmd s table names :
  0 < cmd -> cstr m cmd s -> names_ok m table names ->
  find_cmd_tbl m cmd table = Ok (find_spec s names).
Proof.
  intros Hpos Hs Hn. unfold find_cmd_tbl. case_cmp; [unfold NULL in *; lia|].
  rewrite (name_len_cstr m cmd s) by (done || unfold NULL in *; lia). cbn [obind].
  exact (find_loop_spec m cmd s table names O O [] Hs Hn ltac:(done)).
Qed.

(** C21: [find_cmd_tbl] finds exactly the command the typed text names: the
    text up to a dot is compared; an entry whose name is that text wins (the
    first one), otherwise the single entry whose name starts with it, and no
    entry when there is none or more than one. *)
Theorem find_cmd_tbl_correct (m : mem) (cmd : Z) (s : list Z) (table : list cmd_tbl_t)
    (names : list (list Z)) :
  0 < cmd -> cstr m cmd s -> Forall2 (fun e t => cstr m (name e) t) table names ->
  find_cmd_tbl m cmd table = Ok (find_spec s names).
Proof. apply find_cmd_tbl_spec. Qed.

(** "m.b" abbreviates the only command that starts with "m". *)
Definition demo_handler : handler := fun _ _ _ w => Ok (w, 0, 1).
Definition demo_entry (p : Z) : cmd_tbl_t := CmdTbl p 4 demo_handler NULL NULL None.

Lemma find_cmd_tbl_correct_witness :
  let m := mem_of 16 [109; 100; 0; 104; 101; 0; 109; 46; 98; 0] in
  find_cmd_tbl m 22 [demo_entry 16; demo_entry 19] = Ok (Some O).
Proof.
  cbv zeta. rewrite (find_cmd_tbl_correct _ 22 [109; 46; 98] _ [[109; 100]; [104; 101]]).
  - vm_compute. reflexivity.
  - lia.
  - split; [vm_compute; tauto|repeat constructor; lia].
  - constructor; [|constructor; [|constructor]]; (split; [vm_compute; tauto|repeat constructor; lia]).
Defined.

(** ** Dispatch *)

Lemma cmd_usage_rc e w w' r : cmd_usage e w = Ok (w', r) -> r = 1 /\ w_mem w' = w_mem w.
Proof.
  unfold cmd_usage. case_cmp; [by intros [= <- <-]|].
  unfold puts. destruct (strlen _ _); simpl; try done. by intros [= <- <-].
Qed.

(** C22: [cmd_process] on a command line whose first word is looked up:
    (1) an unknown command runs nothing, returns 1 and keeps the repeat flag;
    (2) with more arguments than the entry allows the handler is not run,
    memory and repeat flag are kept and the usage code 1 is returned;
    (3) otherwise the handler runs exactly once with the arguments given, its
    return code is passed on (a usage code after the usage text), and the
    repeat flag is the conjunction of the old one and the handler's. *)
Theorem cmd_process_correct (errno_str : Z -> Z) (table : list cmd_tbl_t)
    (flag argc arg0 : Z) (args : list Z) (repeatable : Z) (w : world) (found : option nat) :
  find_cmd_tbl (w_mem w) arg0 table = Ok found ->
  let run := cmd_process errno_str table flag argc (arg0 :: args) repeatable w in
  (found = None ->
     exists w', run = Ok (w', 1, repeatable) /\ w_mem w' = w_mem w) /\
  (forall i e, found = Some i -> table !! i = Some e -> maxargs e < argc ->
     forall w' rc rep, run = Ok (w', rc, rep) -> rc = 1 /\ rep = repeatable /\ w_mem w' = w_mem w) /\
  (forall i e w1 r newrep, found = Some i -> table !! i = Some e -> argc <= maxargs e ->
     cmd_rep e flag argc (arg0 :: args) w = Ok (w1, r, newrep) ->
     forall w' rc rep, run = Ok (w', rc, rep) ->
       rc = r /\ rep = Z.land repeatable newrep /\ w_mem w' = w_mem w1).
Proof.
  intros Hf run. unfold run, cmd_process, find_cmd. rewrite Hf. cbn [obind].
  split; [|split].
  - intros ->. eexists. by split.
  - intros i e -> Hi Hmax w' rc rep. rewrite Hi. destruct (Z.ltb_spec (maxargs e) argc); [|lia].
    cbn [obind Z.eqb Pos.eqb CMD_RET_USAGE].
    destruct (cmd_usage e w) as [[w2 r2]| | |] eqn:Eu; cbn [obind]; try done.
    intros [= <- <- <-]. by destruct (cmd_usage_rc _ _ _ _ Eu) as [-> ->].
  - intros i e w1 r newrep -> Hi Hmax Hrun w' rc rep. rewrite Hi.
    destruct (Z.ltb_spec (maxargs e) argc); [lia|]. cbn [Z.eqb CMD_RET_SUCCESS].
    unfold cmd_call. rewrite Hrun. cbn [obind]. set (w2 := if r <? 0 then _ else w1).
    assert (w_mem w2 = w_mem w1) as Hw by (unfold w2; by destruct (r <? 0)).
    case_cmp.
    + destruct (cmd_usage e w2) as [[w3 r3]| | |] eqn:Eu; cbn [obind]; try done.
      intros [= <- <- <-]. destruct (cmd_usage_rc _ _ _ _ Eu) as [-> ->]. unfold CMD_RET_USAGE in *. done.
    + by intros [= <- <- <-].
Qed.

(** A table of one command that takes no argument, run with one: usage. *)
Lemma cmd_process_correct_witness :
  let m := mem_of 16 [109; 100; 0] in
  let e := CmdTbl 16 1 demo_handler NULL NULL None in
  exists w' rc rep, cmd_process (fun _ => 0) [e] 0 2 [16; 0] 1 (World m []) = Ok (w', rc, rep) /\
    rc = 1 /\ rep = 1 /\ w_mem w' = m.
Proof.
  cbv zeta.
  destruct (cmd_process_correct (fun _ => 0) [CmdTbl 16 1 demo_handler NULL NULL None] 0 2 16 [0] 1
    (World (mem_of 16 [109; 100; 0]) []) (Some O)) as (_ & H & _).
  - vm_compute. reflexivity.
  - eexists _, _, _. split; [vm_compute; reflexivity|].
    apply (H O (CmdTbl 16 1 demo_handler NULL NULL None)); [reflexivity|reflexivity|simpl; lia|].
    vm_compute. reflexivity.
Defined.

(** ** Sorting *)

Lemma lex_lt_irrefl s : lex_lt s s = false.
Proof. induction s as [|a s IH]; [done|]. simpl. by rewrite Z.ltb_irrefl, Z.eqb_refl, IH. Qed.

(** [s] does not come after [t]. *)
Definition lex_le (s t : list Z) : Prop := lex_lt t s = false.

Lemma lex_le_cons a s b t : lex_le (a :: s) (b :: t) <-> a < b \/ (a = b /\ lex_le s t).
Proof.
  unfold lex_le. cbn [lex_lt]. destruct (Z.lt_trichotomy a b) as [?|[-> |?]].
  - rewrite (proj2 (Z.ltb_ge b a)), (proj2 (Z.eqb_neq b a)) by lia. cbn. split; [by left|done].
  - rewrite Z.ltb_irrefl, Z.eqb_refl. cbn [orb andb]. split; [by right|].
    intros [?|[_ ?]]; [lia|done].
  - rewrite (proj2 (Z.ltb_lt b a)) by lia. cbn [orb]. split; [done|]. intros [?|[? _]]; lia.
Qed.

Lemma lex_le_trans s t u : lex_le s t -> lex_le t u -> lex_le s u.
Proof.
  revert t u. induction s as [|a s IH]; intros [|b t] [|c u] H1 H2; try done.
  rewrite lex_le_cons in *. destruct H1 as [?|[-> ?]], H2 as [?|[-> ?]]; [left; lia|left; lia|left; lia|].
  right. split; [done|]. eauto.
Qed.

Lemma lex_le_total s t : lex_le s t \/ lex_le t s.
Proof.
  revert t. induction s as [|a s IH]; intros [|b t]; [by left|by left|by right|].
  rewrite !lex_le_cons. destruct (Z.lt_trichotomy a b) as [?|[-> | ?]]; [by left; left| |by right; left].
  destruct (IH t); [left; right|right; right]; done.
Qed.

Lemma first_diff_pos s t :
  Forall (fun b => 0 < b < 128) s -> Forall (fun b => 0 < b < 128) t ->
  0 < first_diff s t <-> lex_lt t s = true.
Proof.
  intros Hs. revert t. induction Hs as [|x s Hx Hs IH]; intros t Ht;
    destruct Ht as [|y t Hy Ht]; cbn [first_diff lex_lt].
  - done.
  - unfold s8. rewrite swrap_small by (simpl; lia). split; [lia|done].
  - unfold s8. rewrite swrap_small by (simpl; lia). split; [done|lia].
  - case_cmp; subst.
    + rewrite Z.ltb_irrefl, Z.eqb_refl. cbn [orb andb]. by apply IH.
    + unfold s8. rewrite swrap_small by (simpl; lia).
      destruct (Z.eqb_spec y x); [lia|]. rewrite andb_false_l, orb_false_r, Z.ltb_lt. lia.
Qed.

Lemma sorted_glue {A} (R : A -> A -> Prop) k x hi :
  Sorted R (k ++ [x]) -> Sorted R (x :: hi) -> Sorted R (k ++ x :: hi).
Proof.
  induction k as [|a k IH]; intros Hk Hh; [done|]. simpl in *.
  inversion_clear Hk as [|? ? Hs Hd]. constructor; [auto|].
  destruct k; simpl in *; inversion_clear Hd; by constructor.
Qed.

Section sorting.
Context (m : mem) (str : cmd_tbl_t -> list Z).

(** The name of the entry is the ASCII string [str e]. *)
Definition named (e : cmd_tbl_t) : Prop :=
  cstr m (name e) (str e) /\ Forall (fun b => 0 < b < 128) (str e).

Definition ele (a b : cmd_tbl_t) : Prop := lex_le (str a) (str b).

Lemma strcmp_named a b :
  named a -> named b -> exists d, strcmp m (name a) (name b) = Ok d /\ (0 < d <-> ~ ele a b).
Proof.
  intros [Ha Fa] [Hb Fb]. eexists. split; [by apply strcmp_cstr|].
  rewrite first_diff_pos by done. unfold ele, lex_le.
  destruct (lex_lt (str b) (str a)); split; congruence || tauto.
Qed.

(** A pass over [a :: l]: the same entries; the last of the entries it
    compared is the largest; without a swap they are in order. *)
Lemma bubble_pass_spec i : forall a l,
  Forall named (a :: l) -> (i <= length l)%nat ->
  exists k x s, bubble_pass m i (a :: l) = Ok (k ++ x :: drop i l, s) /\
    Permutation (a :: take i l) (k ++ [x]) /\ length k = i /\
    Forall (fun y => ele y x) k /\
    (s = false -> a :: take i l = k ++ [x] /\ Sorted ele (k ++ [x])).
Proof.
  induction i as [|i IH]; intros a l HF Hi; cbn [bubble_pass].
  - exists [], a, false. split; [done|]. split; [done|]. split; [done|].
    split; [constructor|]. intros _. split; [done|]. repeat constructor.
  - destruct l as [|b l]; [simpl in Hi; lia|]. cbn [take drop].
    inversion_clear HF as [|? ? Ha HF']. inversion_clear HF' as [|? ? Hb HF].
    destruct (strcmp_named a b Ha Hb) as (d & -> & Hd). cbn [obind].
    destruct (Z.ltb_spec 0 d) as [Hlt|Hge].
    + destruct (IH a l) as (k & x & s & -> & Hp & Hk & Hle & _);
        [by constructor|simpl in Hi; lia|].
      cbn [obind]. exists (b :: k), x, true. split; [done|].
      split; [by rewrite Permutation_swap, Hp|]. split; [simpl; lia|].
      split; [|done]. constructor; [|done].
      assert (ele b a) as Hba by (destruct (lex_le_total (str a) (str b)); [by apply Hd in Hlt|done]).
      assert (a ∈ k ++ [x]) as Hin by (rewrite <- Hp; set_solver).
      apply elem_of_app in Hin as [Hin|Hin].
      * rewrite list.Forall_forall in Hle. eapply lex_le_trans; [exact Hba|by apply Hle].
      * apply list_elem_of_singleton in Hin. by subst.
    + assert (ele a b) as Hab.
      { destruct (lex_le_total (str a) (str b)) as [|Hba]; [done|].
        unfold ele, lex_le in *. destruct (lex_lt (str b) (str a)) eqn:E; [|done].
        exfalso. assert (0 < d); [|lia]. apply Hd. unfold ele, lex_le. congruence. }
      destruct (IH b l) as (k & x & s & -> & Hp & Hk & Hle & Hs);
        [by constructor|simpl in Hi; lia|].
      cbn [obind]. exists (a :: k), x, s. split; [done|].
      split; [by rewrite Hp|]. split; [simpl; lia|]. split.
      * constructor; [|done].
        assert (b ∈ k ++ [x]) as Hin by (rewrite <- Hp; set_solver).
        apply elem_of_app in Hin as [Hin|Hin].
        -- rewrite list.Forall_forall in Hle. eapply lex_le_trans; [exact Hab|by apply Hle].
        -- apply list_elem_of_singleton in Hin. by subst.
      * intros ->. destruct (Hs eq_refl) as [E Hsort]. rewrite E. split; [done|].
        simpl. constructor; [done|]. rewrite <- E. by constructor.
Qed.

Lemma bubble_sort_spec i : forall l hi,
  Forall named (l ++ hi) -> (i <= length l - 1)%nat -> length l = S i \/ l = [] ->
  Sorted ele hi -> (forall x y, x ∈ l -> y ∈ hi -> ele x y) ->
  exists l', bubble_sort m i (l ++ hi) = Ok l' /\ Permutation (l ++ hi) l' /\ Sorted ele l'.
Proof.
  induction i as [|i IH]; intros l hi HF Hi Hl Hhi Hle; cbn [bubble_sort].
  - exists (l ++ hi). split; [done|]. split; [done|].
    destruct l as [|a [|b l]]; [done| |simpl in Hl; destruct Hl; [lia|done]].
    simpl. constructor; [done|]. destruct hi as [|y hi]; constructor. apply Hle; set_solver.
  - destruct l as [|a l]; [simpl in Hi; lia|].
    destruct Hl as [Hl|]; [|done]. simpl in Hl. cbn [app] in *.
    destruct (bubble_pass_spec (S i) a (l ++ hi) HF) as (k & x & s & -> & Hp & Hk & Hmax & Hs);
      [rewrite length_app; lia|].
    rewrite take_app_length', drop_app_length' in * by lia. cbn [obind].
    assert (Permutation (a :: l ++ hi) (k ++ x :: hi)) as Hperm.
    { change (a :: l ++ hi) with ((a :: l) ++ hi). rewrite Hp, <- app_assoc. done. }
    assert (Sorted ele (x :: hi)) as Hxhi.
    { constructor; [done|]. destruct hi as [|y hi]; constructor. apply Hle; [|set_solver].
      rewrite Hp. set_solver. }
    destruct s.
    + destruct (IH k (x :: hi)) as (l' & -> & Hp' & Hs'); [|lia|lia|done| |].
      * by rewrite <- Hperm.
      * intros u y Hu Hy. apply elem_of_cons in Hy as [->|Hy].
        -- rewrite list.Forall_forall in Hmax. by apply Hmax.
        -- apply Hle; [rewrite Hp; set_solver|done].
      * exists l'. split; [done|]. split; [by rewrite Hperm|done].
    + destruct (Hs eq_refl) as [E Hsort]. exists (k ++ x :: hi). split; [done|]. split; [done|].
      by apply sorted_glue.
Qed.
End sorting.

(** The command list of [help] is sorted: on a table whose names are
    ASCII strings the bubble sort of [_do_help] ends with the same entries,
    in the byte-wise order of their names. *)
Theorem bubble_sort_correct (m : mem) (str : cmd_tbl_t -> list Z) (l : list cmd_tbl_t) :
  Forall (fun e => cstr m (name e) (str e) /\ Forall (fun b => 0 < b < 128) (str e)) l ->
  exists l', bubble_sort m (length l - 1) l = Ok l' /\ Permutation l l' /\
    Sorted (fun a b => lex_lt (str b) (str a) = false) l'.
Proof.
  intros HF.
  destruct (bubble_sort_spec m str (length l - 1) l []) as (l' & H1 & H2 & H3).
  - by rewrite app_nil_r.
  - lia.
  - destruct l; [by right|left; simpl; lia].
  - constructor.
  - set_solver.
  - rewrite app_nil_r in *. eauto.
Qed.

Definition demo_str (e : cmd_tbl_t) : list Z := if name e =? 16 then [109; 100] else [104; 101].

Lemma bubble_sort_correct_witness :
  let m := mem_of 16 [109; 100; 0; 104; 101; 0] in
  exists l', bubble_sort m 1 [demo_entry 16; demo_entry 19] = Ok l' /\
    Permutation [demo_entry 16; demo_entry 19] l' /\
    Sorted (fun a b => lex_lt (demo_str b) (demo_str a) = false) l'.
Proof.
  cbv zeta.
  apply (bubble_sort_correct (mem_of 16 [109; 100; 0; 104; 101; 0]) demo_str
    [demo_entry 16; demo_entry 19]).
  repeat (constructor; [split; [split; [vm_compute; tauto|]|]; repeat constructor; lia|]). constructor.
Defined.

(** ** The common prefix of the candidates *)

Definition cand_text (m : mem) (c : candidate) (s : list Z) : Prop :=
  match c with
  | Name p => cstr m p s
  | Dots => s = [46; 46; 46]
  end.

Lemma cand_load_text m c s i :
  cand_text m c s -> (i <= length s)%nat -> cand_load m c (Z.of_nat i) = Ok (nth i (s ++ [0]) 0).
Proof.
  destruct c as [p|]; simpl.
  - intros H Hi. by apply load8_cstr.
  - intros -> Hi. rewrite Nat2Z.id. simpl in Hi.
    do 4 (destruct i as [|i]; [done|]). lia.
Qed.

Lemma cand_text_nonzero m c s : cand_text m c s -> Forall (fun b => 0 < b < 256) s.
Proof. destruct c; simpl; [by intros [_ ?]|intros ->; repeat constructor; lia]. Qed.

(** Length of the common prefix. *)
Fixpoint lcp (s t : list Z) : nat :=
  match s, t with
  | a :: s, b :: t => if a =? b then S (lcp s t) else O
  | _, _ => O
  end.

Lemma lcp_le s t : (lcp s t <= length s)%nat /\ (lcp s t <= length t)%nat.
Proof. revert t. induction s as [|a s IH]; intros [|b t]; simpl; try lia. case_cmp; [destruct (IH t)|]; simpl; lia. Qed.

Lemma lcp_prefix s t i :
  (i <= lcp s t)%nat <-> (i <= length s)%nat /\ take i s = take i t /\ (i <= length t)%nat.
Proof.
  revert t i. induction s as [|a s IH]; intros t [|i].
  - split; [intros _; repeat split; lia|lia].
  - cbn [lcp length]. split; lia.
  - split; [intros _; repeat split; lia|lia].
  - destruct t as [|b t]; cbn [lcp length take]; [split; lia|].
    destruct (Z.eqb_spec a b) as [->|Hne].
    + rewrite <- Nat.succ_le_mono, IH. split; intros (? & E & ?).
      * split; [lia|]. split; [by rewrite E|lia].
      * injection E as E. split; [lia|]. split; [done|lia].
    + split; [lia|]. intros (_ & [=] & _). done.
Qed.

(** Below the common prefix the characters agree, at its end they differ. *)
Lemma lcp_nth s t i :
  Forall (fun b => 0 < b < 256) s -> (i < length s)%nat -> (i <= length t)%nat ->
  (i < lcp s t)%nat -> nth i (s ++ [0]) 0 = nth i (t ++ [0]) 0.
Proof.
  intros _. revert t i. induction s as [|a s IH]; intros [|b t] i Hs Ht Hi; simpl in *; try lia.
  destruct (Z.eqb_spec a b); [|lia]. destruct i as [|i]; [done|]. apply IH; lia.
Qed.

Lemma lcp_end s t :
  Forall (fun b => 0 < b < 256) s -> (lcp s t < length s)%nat ->
  nth (lcp s t) (t ++ [0]) 0 <> nth (lcp s t) (s ++ [0]) 0.
Proof.
  intros HF. revert t. induction HF as [|a s Ha HF IH]; intros [|b t] Hl; simpl in *; try lia.
  destruct (Z.eqb_spec a b) as [->|]; simpl in *; [|done]. apply IH. lia.
Qed.

Lemma prefix_len_spec m t anchor ts as_ len :
  cand_text m t ts -> cand_text m anchor as_ -> (len <= length as_)%nat ->
  prefix_len m t anchor (Z.of_nat len) = Ok (Z.of_nat (Nat.min len (lcp as_ ts))).
Proof.
  intros Ht Ha Hl. unfold prefix_len. pose proof (cand_text_nonzero _ _ _ Ha) as Fa.
  destruct (lcp_le as_ ts) as [L1 L2].
  apply (while_eq (fun i => exists k, i = Z.of_nat k /\ (k <= Nat.min len (lcp as_ ts))%nat)
           (fun i => Z.to_nat (Z.of_nat len - i))).
  - intros i (k & -> & Hk). case_cmp; [|cbn; f_equal; lia].
    rewrite (cand_load_text m t ts k Ht), (cand_load_text m anchor as_ k Ha) by lia. cbn [obind].
    destruct (decide (k < lcp as_ ts)%nat).
    + rewrite (lcp_nth as_ ts k) by (done || lia). rewrite Z.eqb_refl. cbn.
      split; [|lia]. exists (S k). lia.
    + assert (k = lcp as_ ts) as -> by lia. pose proof (lcp_end as_ ts Fa ltac:(lia)).
      case_cmp; [done|]. cbn. f_equal. lia.
  - exists O. lia.
  - lia.
Qed.

Lemma common_loop_spec m anchor as_ argv ss len :
  cand_text m anchor as_ -> Forall2 (cand_text m) argv ss -> (len <= length as_)%nat ->
  common_loop m anchor (Z.of_nat len) argv =
    Ok (Z.of_nat (foldl (fun n t => Nat.min n (lcp as_ t)) len ss)).
Proof.
  intros Ha HF. revert len. induction HF as [|t ts argv ss Ht HF IH]; intros len Hl; [done|].
  cbn [common_loop foldl]. rewrite (prefix_len_spec m t anchor ts as_ len) by done. cbn [obind].
  apply IH. lia.
Qed.

Lemma foldl_min_le (f : list Z -> nat) ss n i :
  (i <= foldl (fun n t => Nat.min n (f t)) n ss)%nat <-> (i <= n)%nat /\ Forall (fun t => i <= f t)%nat ss.
Proof.
  revert n. induction ss as [|s ss IH]; intros n; simpl; [split; [by split|tauto]|].
  rewrite IH, Forall_cons. split; [intros (? & ?)|intros (? & ? & ?)]; repeat split; try done; lia.
Qed.

(** [find_common_prefix] returns the length of the longest prefix that
    all candidates share: [i] characters are shared by all of them exactly
    when [i] is at most the result. *)
Theorem find_common_prefix_correct (m : mem) (c : candidate) (s : list Z)
    (cs : list candidate) (ss : list (list Z)) :
  cand_text m c s -> Forall2 (cand_text m) cs ss ->
  exists n : nat, find_common_prefix m (c :: cs) = Ok (Z.of_nat n) /\
    forall i, (i <= n)%nat <->
         (i <= length s)%nat /\ Forall (fun t => (i <= length t)%nat /\ take i s = take i t) ss.
Proof.
  intros Hc HF. eexists. split.
  - unfold find_common_prefix.
    assert (cand_len m c = Ok (Z.of_nat (length s))) as ->.
    { destruct c; simpl in *; [by apply strlen_cstr|by subst]. }
    cbn [obind]. by apply common_loop_spec.
  - intros i. rewrite foldl_min_le. split; intros [Hi H]; (split; [done|]);
      (eapply list.Forall_impl; [exact H|]); intros t; simpl.
    + intros (_ & ? & ?)%lcp_prefix. done.
    + intros [? ?]. by apply lcp_prefix.
Qed.

Lemma find_common_prefix_correct_witness :
  let m := mem_of 16 [109; 101; 109; 0; 109; 101; 0] in
  exists n : nat, find_common_prefix m (Name 16 :: Name 20 :: nil) = Ok (Z.of_nat n) /\
    forall i, (i <= n)%nat <->
         (i <= 3)%nat /\ Forall (fun t => (i <= length t)%nat /\ take i [109; 101; 109] = take i t) [[109; 101]].
Proof.
  cbv zeta.
  apply (find_common_prefix_correct (mem_of 16 [109; 101; 109; 0; 109; 101; 0]) (Name 16) [109; 101; 109]
    [Name 20] [[109; 101]]).
  - split; [vm_compute; tauto|repeat constructor; lia].
  - constructor; [|constructor]. split; [vm_compute; tauto|repeat constructor; lia].
Defined.
