(* ===== verification/Quoting.v ===== *)
(** * Quoting on the command line

    A token is typed as a sequence of pieces: plain characters, escaped ones
    and quoted runs.  [cli_simple_process_macros] turns what was typed into
    what was meant, and the loop that looks for separators finds the end of
    the token, because no piece hides or shows a semicolon by mistake. *)

From S2P Require Import Prelude CMem Ctype Str StrFacts Strto Console Command CliSimple CliFacts.

Local Open Scope Z_scope.
Local Open Scope c_scope.

Inductive piece : Type :=
  | Plain (c : Z)
  | Esc (c : Z)
  | Quoted (s : list Z).

(** As typed: a backslash before the character, quotes around the run. *)
Definition typed_piece (p : piece) : list Z :=
  match p with Plain c => [c] | Esc c => [92; c] | Quoted s => 39 :: s ++ [39] end.
Definition meant_piece (p : piece) : list Z :=
  match p with Plain c => [c] | Esc c => [c] | Quoted s => s end.

(** A plain character is not one of dollar, quote, semicolon, backslash; an escaped
    one is not a backslash, and a quoted run holds no quote and does not end
    in a backslash: there the code takes the next character for escaped. *)
Definition piece_ok (p : piece) : Prop :=
  match p with
  | Plain c => 0 < c < 256 /\ c <> 36 /\ c <> 39 /\ c <> 59 /\ c <> 92
  | Esc c => 0 < c < 256 /\ c <> 92
  | Quoted s => Forall (fun c => 0 < c < 256 /\ c <> 39) s /\ last s <> Some 92
  end.

Definition typed (t : list piece) : list Z := t ≫= typed_piece.
Definition meant (t : list piece) : list Z := t ≫= meant_piece.

Lemma length_meant t : (length (meant t) <= length (typed t))%nat.
Proof.
  induction t as [|p t IH]; [done|]. unfold meant, typed in *. cbn [mbind list_bind]. rewrite !length_app.
  destruct p; simpl; rewrite ?length_app; simpl; lia.
Qed.

Lemma meant_range t : Forall piece_ok t -> Forall (fun b => 0 < b < 256) (meant t).
Proof.
  intros H. unfold meant. apply Forall_bind. eapply Forall_impl; [exact H|]. intros [c|c|s]; simpl.
  - intros [Hc _]. auto.
  - intros [Hc _]. auto.
  - intros [Hs _]. eapply Forall_impl; [exact Hs|]. by intros ? [? _].
Qed.

(** [k] rounds of a loop. *)
Definition rounds {S R} (body : S -> outcome (S + R)) (k : nat) (s s' : S) : Prop :=
  forall fuel, while (k + fuel) body s = while fuel body s'.

Lemma rounds_refl {S R} (body : S -> outcome (S + R)) s : rounds body 0 s s.
Proof. done. Qed.

Lemma rounds_cons {S R} (body : S -> outcome (S + R)) k s1 s2 s3 :
  body s1 = cont s2 -> rounds body k s2 s3 -> rounds body (Datatypes.S k) s1 s3.
Proof. intros E H fuel. cbn [Nat.add]. rewrite while_S, E. apply H. Qed.

Lemma rounds_trans {S R} (body : S -> outcome (S + R)) k l s1 s2 s3 :
  rounds body k s1 s2 -> rounds body l s2 s3 -> rounds body (k + l) s1 s3.
Proof. intros H1 H2 fuel. rewrite <- Nat.add_assoc, H1. apply H2. Qed.

Lemma rounds_stop {S R} (body : S -> outcome (S + R)) k s s' r fuel :
  rounds body k s s' -> body s' = brk r -> (k < fuel)%nat -> while fuel body s = Ok r.
Proof.
  intros H E Hf. replace fuel with (k + Datatypes.S (fuel - k - 1))%nat by lia. rewrite H, while_S, E. done.
Qed.

(** ** Macros *)

Section macros.
Context (m : mem) (i o ic oc st prev : Z).
Hypothesis (Hic : 0 < ic) (Hoc : 0 < oc).

Lemma mc_plain c :
  m !! i = Some c -> is_Some (m !! o) -> 0 < c < 256 -> c <> 36 -> c <> 39 -> c <> 92 ->
  mc_step (MacroSt m i o ic oc 0 prev) = cont (MacroSt (<[o := c]> m) (i + 1) (o + 1) (ic - 1) (oc - 1) 0 c).
Proof.
  intros Hi Ho Hc N1 N2 N3. unfold mc_step, mc_next, mc_switch, mc_put, mc_dec, mc_set_prev. cbn.
  rewrite (load8_lookup _ _ _ Hi). cbn. repeat (case_cmp; try lia; cbn).
  all: rewrite store8_mapped by done; cbn; rewrite u8_small by (unfold byte_range; lia); done.
Qed.

Lemma mc_escaped c :
  m !! i = Some 92 -> m !! (i + 1) = Some c -> is_Some (m !! o) -> 0 < c < 256 -> prev <> 92 -> 1 < ic ->
  mc_step (MacroSt m i o ic oc 0 prev) = cont (MacroSt (<[o := c]> m) (i + 2) (o + 1) (ic - 2) (oc - 1) 0 c).
Proof.
  intros Hi Hi1 Ho Hc N1 N2. unfold mc_step, mc_next, mc_switch, mc_put, mc_dec, mc_set_prev. cbn.
  rewrite (load8_lookup _ _ _ Hi). cbn. repeat (case_cmp; try lia; cbn).
  all: rewrite (load8_lookup _ _ _ Hi1); cbn; rewrite ?andb_false_r, store8_mapped by done; cbn; rewrite u8_small by (unfold byte_range; lia).
  all: unfold cont; do 2 f_equal; f_equal; lia.
Qed.

Lemma mc_open :
  m !! i = Some 39 -> prev <> 92 ->
  mc_step (MacroSt m i o ic oc 0 prev) = cont (MacroSt m (i + 1) o (ic - 1) oc 3 39).
Proof.
  intros Hi N1. unfold mc_step, mc_next, mc_switch, mc_dec, mc_set_prev, mc_set_state. cbn.
  rewrite (load8_lookup _ _ _ Hi). cbn. by repeat (case_cmp; try lia; cbn).
Qed.

Lemma mc_inside c :
  m !! i = Some c -> is_Some (m !! o) -> 0 < c < 256 -> c <> 39 ->
  mc_step (MacroSt m i o ic oc 3 prev) = cont (MacroSt (<[o := c]> m) (i + 1) (o + 1) (ic - 1) (oc - 1) 3 c).
Proof.
  intros Hi Ho Hc N1. unfold mc_step, mc_next, mc_switch, mc_put, mc_dec, mc_set_prev. cbn.
  rewrite (load8_lookup _ _ _ Hi). cbn. repeat (case_cmp; try lia; cbn).
  all: rewrite store8_mapped by done; cbn; rewrite u8_small by (unfold byte_range; lia); done.
Qed.

Lemma mc_close :
  m !! i = Some 39 -> prev <> 92 ->
  mc_step (MacroSt m i o ic oc 3 prev) = cont (MacroSt m (i + 1) o (ic - 1) oc 0 39).
Proof.
  intros Hi N1. unfold mc_step, mc_next, mc_switch, mc_dec, mc_set_prev, mc_set_state. cbn.
  rewrite (load8_lookup _ _ _ Hi). cbn. by repeat (case_cmp; try lia; cbn).
Qed.
End macros.

(** What a stretch of the input does: [out] is written, [n] bytes are read. *)
Definition emits (k : nat) (st st' : Z) (inp out : list Z) : Prop :=
  forall m i o ic oc prev,
    bytes_at m i inp -> mapped m o (Z.of_nat (length out)) -> disjoint_from o (Z.of_nat (length out)) i (Z.of_nat (length inp)) ->
    Z.of_nat (length inp) <= ic -> Z.of_nat (length out) < oc -> prev <> 92 ->
    exists prev', prev' <> 92 /\
      rounds mc_step k (MacroSt m i o ic oc st prev)
        (MacroSt (write_bytes m o out) (i + Z.of_nat (length inp)) (o + Z.of_nat (length out))
           (ic - Z.of_nat (length inp)) (oc - Z.of_nat (length out)) st' prev').

Lemma emits_app k1 k2 st1 st2 st3 in1 in2 out1 out2 :
  emits k1 st1 st2 in1 out1 -> emits k2 st2 st3 in2 out2 -> emits (k1 + k2) st1 st3 (in1 ++ in2) (out1 ++ out2).
Proof.
  intros H1 H2 m i o ic oc prev Hb Hm Hd Hic Hoc Hp. unfold disjoint_from in Hd.
  rewrite !length_app, !Nat2Z.inj_add in *. apply bytes_at_app in Hb as [Hb1 Hb2].
  destruct (H1 m i o ic oc prev) as (p1 & Hp1 & R1); [done|by eapply mapped_sub; [exact Hm|lia|lia]|unfold disjoint_from; lia|lia|lia|done|].
  edestruct (H2 (write_bytes m o out1) (i + Z.of_nat (length in1)) (o + Z.of_nat (length out1))) as (p2 & Hp2 & R2);
    [| | | | |exact Hp1|].
  - apply bytes_at_write_bytes_ne; [done|lia].
  - apply mapped_write_bytes. eapply mapped_sub; [exact Hm|lia|lia].
  - unfold disjoint_from; lia.
  - shelve.
  - shelve.
  - exists p2. split; [done|]. rewrite write_bytes_app, !Z.add_assoc, !Z.sub_add_distr. eapply rounds_trans; [exact R1|exact R2].
  Unshelve. all: lia.
Qed.

Lemma last_default (c d : Z) s : default d (last (c :: s)) = default c (last s).
Proof. revert c d. induction s as [|e s IH]; intros c d; [done|]. change (last (c :: e :: s)) with (last (e :: s)). by rewrite !IH. Qed.

(** The inside of a quoted run. *)
Lemma mc_run s : forall m i o ic oc prev,
  Forall (fun c => 0 < c < 256 /\ c <> 39) s -> bytes_at m i s -> mapped m o (Z.of_nat (length s)) ->
  disjoint_from o (Z.of_nat (length s)) i (Z.of_nat (length s)) ->
  Z.of_nat (length s) < ic -> Z.of_nat (length s) < oc ->
  rounds mc_step (length s) (MacroSt m i o ic oc 3 prev)
    (MacroSt (write_bytes m o s) (i + Z.of_nat (length s)) (o + Z.of_nat (length s))
       (ic - Z.of_nat (length s)) (oc - Z.of_nat (length s)) 3 (default prev (last s))).
Proof.
  induction s as [|c s IH]; intros m i o ic oc prev Hs Hb Hm Hd Hic Hoc.
  - cbn. rewrite !Z.add_0_r, !Z.sub_0_r. apply rounds_refl.
  - apply Forall_cons in Hs as [[Hc Nc] Hs]. destruct Hb as [Hc0 Hb]. unfold disjoint_from in Hd. cbn [length] in *.
    rewrite Nat2Z.inj_succ in *. rewrite last_default. eapply rounds_cons.
    + apply mc_inside; [lia|lia|exact Hc0|apply Hm; lia|done|done].
    + replace (i + Z.succ (Z.of_nat (length s))) with (i + 1 + Z.of_nat (length s)) by lia.
      replace (o + Z.succ (Z.of_nat (length s))) with (o + 1 + Z.of_nat (length s)) by lia.
      replace (ic - Z.succ (Z.of_nat (length s))) with (ic - 1 - Z.of_nat (length s)) by lia.
      replace (oc - Z.succ (Z.of_nat (length s))) with (oc - 1 - Z.of_nat (length s)) by lia.
      apply IH; [done| | |unfold disjoint_from; lia|lia|lia].
      * apply bytes_at_insert_ne; [done|lia].
      * apply mapped_insert. eapply mapped_sub; [exact Hm|lia|lia].
Qed.

Definition turns (p : piece) : nat := match p with Plain _ | Esc _ => 1%nat | Quoted s => S (length s + 1) end.

Lemma emits_piece p : piece_ok p -> emits (turns p) 0 0 (typed_piece p) (meant_piece p).
Proof.
  intros Hp m i o ic oc prev Hb Hm Hd Hic Hoc Hprev. unfold disjoint_from in Hd.
  destruct p as [c|c|s]; cbn [typed_piece meant_piece turns] in *.
  - destruct Hp as (Hc & N1 & N2 & N3 & N4). destruct Hb as [Hb _]. cbn in *. exists c. split; [done|].
    eapply rounds_cons; [apply mc_plain; try done; try lia; apply Hm; lia|]. apply rounds_refl.
  - destruct Hp as [Hc N]. destruct Hb as (Hb & Hb1 & _). cbn in *. exists c. split; [done|].
    eapply rounds_cons; [apply mc_escaped; try done; try lia; apply Hm; lia|]. apply rounds_refl.
  - destruct Hp as [Hs Hl]. destruct Hb as [Hb Hb1]. apply bytes_at_app in Hb1 as [Hb1 [Hb2 _]].
    cbn [length] in *. rewrite !length_app in *. cbn [length] in *. exists 39. split; [done|].
    eapply rounds_cons; [apply mc_open; [lia|lia|exact Hb|done]|].
    eapply rounds_trans; [apply mc_run; [done|done|done|unfold disjoint_from; lia|lia|lia]|].
    eapply rounds_cons; [apply mc_close; [lia|lia| |]|].
    + rewrite lookup_write_bytes_ne by lia. exact Hb2.
    + destruct (last s) as [c|] eqn:E; cbn; [|done]. congruence.
    + replace (ic - 1 - Z.of_nat (length s) - 1) with (ic - Z.of_nat (S (length s + 1))) by lia.
      replace (i + 1 + Z.of_nat (length s) + 1) with (i + Z.of_nat (S (length s + 1))) by lia. apply rounds_refl.
Qed.

Lemma emits_token t : Forall piece_ok t -> exists k, (k <= length (typed t))%nat /\ emits k 0 0 (typed t) (meant t).
Proof.
  induction 1 as [|p t Hp _ (k & Hk & IH)].
  - exists O. split; [done|]. intros m i o ic oc prev _ _ _ _ _ Hprev. exists prev. split; [done|]. cbn.
    rewrite !Z.add_0_r, !Z.sub_0_r. apply rounds_refl.
  - exists (turns p + k)%nat. split.
    + unfold typed in *. cbn [mbind list_bind]. rewrite length_app. enough (turns p <= length (typed_piece p))%nat by lia.
      destruct p; simpl; rewrite ?length_app; simpl; lia.
    + by apply (emits_app _ _ 0 0 0); [apply emits_piece|].
Qed.

Lemma process_macros_token m input output t :
  Forall piece_ok t -> cstr m input (typed t) -> Z.of_nat (length (typed t)) < CONFIG_SYS_CBSIZE ->
  mapped m output CONFIG_SYS_CBSIZE -> disjoint_from output CONFIG_SYS_CBSIZE input (Z.of_nat (length (typed t))) ->
  cli_simple_process_macros m input output = Ok (write_bytes m output (meant t ++ [0])).
Proof.
  intros Ht Hs Hl Hm Hd. unfold cli_simple_process_macros, disjoint_from, CONFIG_SYS_CBSIZE in *. rewrite (strlen_cstr _ _ _ Hs). cbn [obind].
  unfold s32. rewrite swrap_small by lia. pose proof (length_meant t) as Hlm. destruct (emits_token t Ht) as (k & Hk & He).
  destruct (He m input output (Z.of_nat (length (typed t))) 1024 0) as (prev & _ & Hr);
    [by apply cstr_bytes|by eapply mapped_sub; [exact Hm|lia|lia]|unfold disjoint_from; lia|lia|lia|lia|].
  rewrite Z.sub_diag in Hr. erewrite rounds_stop; [|exact Hr| |]; cycle 1.
  - unfold mc_step. cbn [mc_inputcnt Z.eqb orb]. reflexivity.
  - apply cstr_size in Hs. unfold fuel_of. lia.
  - cbn [obind mc_outputcnt mc_mem mc_output]. case_cmp; [lia|]. cbn [negb].
    rewrite store8_mapped by (eapply mapped_write_bytes; [exact Hm|lia]). by rewrite write_bytes_snoc.
Qed.

(** ** Separators *)

Definition sep_body (m : mem) (str : Z) : bool * Z -> outcome (bool * Z + Z) :=
  fun '(inquotes, sep) =>
    let! c := load8 m sep in
    if c =? 0 then brk sep else
    let! inquotes :=
      if c =? 39 then
        let! p := load8 m (sep - 1) in
        Ok (if negb (p =? 92) then negb inquotes else inquotes)
      else Ok inquotes in
    if negb inquotes && (c =? 59) && negb (sep =? str) then
      let! p := load8 m (sep - 1) in
      if negb (p =? 92) then brk sep else cont (inquotes, sep + 1)
    else cont (inquotes, sep + 1).

(** The byte before an address, looked at when a quote or a semicolon follows. *)
Definition unescaped (m : mem) (a : Z) : Prop := exists b, m !! (a - 1) = Some b /\ b <> 92.

Definition unquoted (p : piece) : Prop := match p with Quoted _ => False | _ => True end.

Section separators.
Context (m : mem) (str : Z).

Lemma sep_skip q a c : m !! a = Some c -> c <> 0 -> c <> 39 -> q = true \/ c <> 59 -> sep_body m str (q, a) = cont (q, a + 1).
Proof.
  intros Ha N0 N1 Hq. unfold sep_body. rewrite (load8_lookup _ _ _ Ha). cbn [obind]. case_cmp; [lia|]. case_cmp; [lia|]. cbn [obind].
  case_cmp; [destruct Hq as [->|]; [done|lia]|]. by rewrite andb_false_r.
Qed.

Lemma sep_escaped a c : m !! a = Some c -> c <> 0 -> m !! (a - 1) = Some 92 -> sep_body m str (false, a) = cont (false, a + 1).
Proof.
  intros Ha N0 Hp. unfold sep_body. rewrite (load8_lookup _ _ _ Ha). cbn [obind]. case_cmp; [lia|]. rewrite (load8_lookup _ _ _ Hp). cbn [obind].
  case_cmp; cbn; destruct (_ && _); done.
Qed.

Lemma sep_quote q a : m !! a = Some 39 -> unescaped m a -> sep_body m str (q, a) = cont (negb q, a + 1).
Proof.
  intros Ha (b & Hb & Nb). unfold sep_body. rewrite (load8_lookup _ _ _ Ha), (load8_lookup _ _ _ Hb). cbn. case_cmp; [done|]. cbn.
  by rewrite andb_false_r.
Qed.

Lemma sep_run s : forall a,
  Forall (fun c => 0 < c < 256 /\ c <> 39) s -> bytes_at m a s ->
  rounds (sep_body m str) (length s) (true, a) (true, a + Z.of_nat (length s)).
Proof.
  induction s as [|c s IH]; intros a Hs Hb; [rewrite Z.add_0_r; apply rounds_refl|].
  apply Forall_cons in Hs as [[Hc Nc] Hs]. destruct Hb as [Ha Hb]. cbn [length]. eapply rounds_cons.
  - apply (sep_skip true a c); [done|lia|lia|by left].
  - replace (a + Z.of_nat (S (length s))) with (a + 1 + Z.of_nat (length s)) by lia. by apply IH.
Qed.

(** Every piece is passed over, and a separator after it counts. *)
Lemma sep_piece p a :
  piece_ok p -> bytes_at m a (typed_piece p) -> unescaped m a \/ unquoted p ->
  rounds (sep_body m str) (length (typed_piece p)) (false, a) (false, a + Z.of_nat (length (typed_piece p))) /\
  unescaped m (a + Z.of_nat (length (typed_piece p))).
Proof.
  intros Hp Hb Hu. destruct p as [c|c|s]; cbn [typed_piece unquoted] in *.
  - destruct Hp as (Hc & N1 & N2 & N3 & N4). destruct Hb as [Hb _]. split.
    + eapply rounds_cons; [apply (sep_skip false a c); [done|lia|lia|by right]|apply rounds_refl].
    + exists c. split; [|done]. cbn [length]. by replace (a + Z.of_nat 1 - 1) with a by lia.
  - destruct Hp as [Hc N]. destruct Hb as (Hb & Hb1 & _). cbn [length]. change (Z.of_nat 2) with 2. split.
    + eapply rounds_cons; [apply (sep_skip false a 92); [done|lia|lia|right; lia]|].
      eapply rounds_cons; [apply (sep_escaped (a + 1) c); [done|lia|by replace (a + 1 - 1) with a by lia]|].
      replace (a + 1 + 1) with (a + 2) by lia. apply rounds_refl.
    + exists c. split; [|done]. by replace (a + 2 - 1) with (a + 1) by lia.
  - destruct Hp as [Hs Hl]. destruct Hb as [Hb Hb1]. apply bytes_at_app in Hb1 as [Hb1 [Hb2 _]].
    destruct Hu as [Hu|[]]. cbn [length]. rewrite length_app. cbn [length]. split.
    + eapply rounds_cons; [by apply (sep_quote false)|]. eapply rounds_trans; [by apply sep_run|].
      eapply rounds_cons; [apply (sep_quote true); [exact Hb2|]|].
      * destruct (last s) as [c|] eqn:E.
        -- apply last_Some in E as [s' ->]. exists c. split; [|congruence]. rewrite length_app. cbn [length].
           apply bytes_at_app in Hb1 as [_ [Hc _]]. by replace (a + 1 + Z.of_nat (length s' + 1) - 1) with (a + 1 + Z.of_nat (length s')) by lia.
        -- apply last_None in E as ->. exists 39. split; [|done]. cbn [length]. by replace (a + 1 + Z.of_nat 0 - 1) with a by lia.
      * cbn [negb]. replace (a + Z.of_nat (S (length s + 1))) with (a + 1 + Z.of_nat (length s) + 1) by lia. apply rounds_refl.
    + exists 39. split; [|done]. by replace (a + Z.of_nat (S (length s + 1)) - 1) with (a + 1 + Z.of_nat (length s)) by lia.
Qed.

Lemma sep_token t : forall a,
  Forall piece_ok t -> bytes_at m a (typed t) -> unescaped m a \/ match head t with Some p => unquoted p | None => False end ->
  rounds (sep_body m str) (length (typed t)) (false, a) (false, a + Z.of_nat (length (typed t))) /\
  unescaped m (a + Z.of_nat (length (typed t))).
Proof.
  induction t as [|p t IH]; intros a Ht Hb Hu.
  - cbn. rewrite Z.add_0_r. destruct Hu as [Hu|[]]. by split; [apply rounds_refl|].
  - apply Forall_cons in Ht as [Hp Ht]. unfold typed in *. cbn [mbind list_bind head] in *. apply bytes_at_app in Hb as [Hb1 Hb2].
    destruct (sep_piece p a Hp Hb1 Hu) as [R1 U1]. destruct (IH _ Ht Hb2 (or_introl U1)) as [R2 U2].
    rewrite length_app, Nat2Z.inj_add, Z.add_assoc. split; [|done]. eapply rounds_trans; [exact R1|exact R2].
Qed.
End separators.

Definition starts_well (m : mem) (a : Z) (t : list piece) : Prop :=
  unescaped m a \/ match head t with Some p => unquoted p | None => False end.

Lemma length_typed_pos t : t <> [] -> (0 < length (typed t))%nat.
Proof. destruct t as [|p t]; [done|]. intros _. unfold typed. cbn [mbind list_bind]. rewrite length_app. destruct p; simpl; lia. Qed.

(** The separator loop stops at the end of the token. *)
Lemma find_sep_token m str t rest :
  t <> [] -> Forall piece_ok t -> starts_well m str t -> cstr m str (typed t ++ rest) -> rest = [] \/ head rest = Some 59 ->
  find_sep m str = Ok (str + Z.of_nat (length (typed t))).
Proof.
  intros Hne Ht Hu Hs Hr. pose proof (cstr_bytes _ _ _ Hs) as Hb. apply bytes_at_app in Hb as [Hb _].
  destruct (sep_token m str t str Ht Hb Hu) as [HR (b & Hp & Nb)]. pose proof (length_typed_pos t Hne) as Hpos.
  pose proof (cstr_drop m str (typed t ++ rest) (length (typed t)) ltac:(rewrite length_app; lia) Hs) as Hd.
  rewrite drop_app_length in Hd. apply cstr_hd in Hd.
  apply (rounds_stop (sep_body m str) _ _ _ _ _ HR); [|apply cstr_size in Hs; rewrite length_app in Hs; unfold fuel_of; lia].
  unfold sep_body. rewrite Hd. cbn [obind]. destruct Hr as [->|Hr]; [done|]. destruct rest as [|c r]; [done|]. injection Hr as ->.
  cbn [nth]. rewrite (load8_lookup _ _ _ Hp). cbn. case_cmp; [lia|]. cbn. by case_cmp.
Qed.
