(* ===== verification/Shell.v ===== *)
(** * Running a command line

    [cli_simple_run_command] against an abstract shell.  A command line is a
    list of tokens; the shell takes them in order, splits what each one means
    into words and gives these to the dispatcher of the command table, until
    all are done or a command does not return.  The buffers, the pointers
    into them and the separators are the implementation's. *)

From S2P Require Import Prelude CMem Ctype Str StrFacts Strto Console Words Command CliSimple CliFacts CommandFacts Quoting.

Local Open Scope Z_scope.
Local Open Scope c_scope.

(** The text of a line: tokens with semicolons between them, perhaps one at the end. *)
Inductive line_text : list (list piece) -> list Z -> Prop :=
  | line_end : line_text [] []
  | line_last t : line_text [t] (typed t)
  | line_more t ts r : line_text ts r -> line_text (t :: ts) (typed t ++ 59 :: r).

Definition token_ok (t : list piece) : Prop := t <> [] /\ Forall piece_ok t.

Section shell.
Context (errno_str : Z -> Z) (cmd_table : list cmd_tbl_t) (cmdbuf finaltoken flag : Z).

Definition token_words (t : list piece) : list (list Z) := words (Z.to_nat CONFIG_SYS_MAXARGS) (meant t).

Definition in_buffers (a : Z) : Prop := span_of cmdbuf CONFIG_SYS_CBSIZE a \/ span_of finaltoken CONFIG_SYS_CBSIZE a.

(** A command about to run: only the buffers have changed, and the words
    of the token are its arguments. *)
Record prepared (t : list piece) (w w1 : world) (argv tail : list Z) : Prop := {
  pr_mem : unchanged in_buffers (w_mem w) (w_mem w1);
  pr_args : Forall2 (cstr (w_mem w1)) argv (token_words t);
  pr_in : Forall (span_of finaltoken CONFIG_SYS_CBSIZE) argv;
  pr_end : argv_end w w1 tail (Z.of_nat (length (token_words t)) = CONFIG_SYS_MAXARGS)
}.

(** The abstract shell: from a world, the repeat flag and the code so far to
    the outcome of the line. *)
Inductive shell_run : list (list piece) -> world -> Z -> Z -> outcome (world * Z) -> Prop :=
  | run_done w repeatable rc : shell_run [] w repeatable rc (Ok (w, if negb (rc =? 0) then rc else repeatable))
  | run_empty t ts w w1 tail repeatable rc res :
      prepared t w w1 [] tail -> shell_run ts w1 repeatable (-1) res -> shell_run (t :: ts) w repeatable rc res
  | run_cmd t ts w w1 arg0 args tail repeatable rc k :
      prepared t w w1 (arg0 :: args) tail ->
      let run := cmd_process errno_str cmd_table flag (Z.of_nat (length (token_words t))) (arg0 :: args ++ tail) repeatable w1 in
      (forall w2 r repeatable', run = Ok (w2, r, repeatable') ->
         shell_run ts w2 repeatable' (if negb (r =? 0) then -1 else rc) (k w2 r repeatable')) ->
      shell_run (t :: ts) w repeatable rc (let! '(w2, r, repeatable') := run in k w2 r repeatable').

(** What the commands must leave alone: the copy of the line, and the
    existence of the other buffer. *)
Definition keeps (w w' : world) : Prop :=
  (forall a, span_of cmdbuf CONFIG_SYS_CBSIZE a -> w_mem w' !! a = w_mem w !! a) /\
  (mapped (w_mem w) finaltoken CONFIG_SYS_CBSIZE -> mapped (w_mem w') finaltoken CONFIG_SYS_CBSIZE).

Definition commands_keep : Prop :=
  forall e argc argv w w' r rep, e ∈ cmd_table -> cmd_rep e flag argc argv w = Ok (w', r, rep) -> keeps w w'.

Lemma keeps_mem w1 w2 w' : w_mem w2 = w_mem w' -> keeps w1 w' -> keeps w1 w2.
Proof. unfold keeps. by intros ->. Qed.

Lemma cmd_process_keeps argc argv rep w w' r rep' :
  commands_keep -> cmd_process errno_str cmd_table flag argc argv rep w = Ok (w', r, rep') -> keeps w w'.
Proof.
  intros Hk. unfold cmd_process. destruct argv as [|arg0 args]; [done|].
  assert (Hr : keeps w w) by done.
  destruct (find_cmd _ _ _) as [[i|]| | |]; cbn [obind]; try done; [|by intros [= <- <- <-]].
  destruct (cmd_table !! i) as [e|] eqn:Ei; [|done]. apply list_elem_of_lookup_2 in Ei.
  assert (Hu : forall w1 rc rep1, keeps w w1 ->
    (if rc =? CMD_RET_USAGE then let! '(w, rc) := cmd_usage e w1 in Ok (w, rc, rep1) else Ok (w1, rc, rep1)) = Ok (w', r, rep') -> keeps w w').
  { intros w1 rc rep1 H1. case_cmp; [|by intros [= <- <- <-]].
    destruct (cmd_usage e w1) as [[w2 r2]| | |] eqn:Eu; cbn [obind]; try done. intros [= <- <- <-].
    apply cmd_usage_rc in Eu as [_ Em]. by eapply keeps_mem. }
  destruct (maxargs e <? argc); cbn [Z.eqb CMD_RET_USAGE CMD_RET_SUCCESS Pos.eqb obind]; [by apply (Hu w 1)|].
  unfold cmd_call. destruct (cmd_rep e flag argc (arg0 :: args) w) as [[[w1 rc] newrep]| | |] eqn:Ec; cbn [obind]; try done.
  apply Hu. apply (keeps_mem _ _ w1); [by destruct (rc <? 0)|]. by eapply Hk.
Qed.

(** What the loop needs of the buffers when it comes to the rest [text] of the line at [str]. *)
Record at_text (w : world) (str : Z) (text : list Z) : Prop := {
  at_str : cstr (w_mem w) str text;
  at_in : cmdbuf <= str /\ str + Z.of_nat (length text) < cmdbuf + CONFIG_SYS_CBSIZE;
  at_final : mapped (w_mem w) finaltoken CONFIG_SYS_CBSIZE
}.

Hypothesis Hapart : disjoint_from finaltoken CONFIG_SYS_CBSIZE cmdbuf CONFIG_SYS_CBSIZE.

(** The text survives whatever changes only the second buffer. *)
Lemma at_text_keeps w w' str text : keeps w w' -> at_text w str text -> at_text w' str text.
Proof.
  intros [Hc Hf] [Hs Hi Hm]. split; [|done|auto]. eapply cstr_agree; [exact Hs|]. intros q Hq. apply Hc. unfold span_of. lia.
Qed.

Lemma final_keeps w w' : unchanged (span_of finaltoken CONFIG_SYS_CBSIZE) (w_mem w) (w_mem w') -> keeps w w'.
Proof.
  intros Hu. split; [|by eapply unchanged_mapped]. intros a Ha. destruct Hu as [_ Hu]. apply Hu. unfold span_of, disjoint_from in *. lia.
Qed.

(** Up to the dispatcher: the token is unquoted into the second buffer and split there. *)
Lemma prepare_token w str t :
  token_ok t -> at_text w str (typed t) ->
  exists m w1 argv tail,
    cli_simple_process_macros (w_mem w) str finaltoken = Ok m /\
    cli_simple_parse_line finaltoken (set_mem m w) = Ok (w1, Z.of_nat (length (token_words t)), argv ++ tail) /\
    unchanged (span_of finaltoken CONFIG_SYS_CBSIZE) (w_mem w) (w_mem w1) /\
    prepared t w w1 argv tail.
Proof.
  intros [Hne Ht] [Hs Hi Hm]. pose proof (length_meant t) as Hl. unfold CONFIG_SYS_CBSIZE, disjoint_from in *.
  exists (write_bytes (w_mem w) finaltoken (meant t ++ [0])).
  assert (Hw : cstr (write_bytes (w_mem w) finaltoken (meant t ++ [0])) finaltoken (meant t)).
  { split; [apply write_bytes_at|by apply meant_range]. }
  destruct (parse_line_spec (set_mem (write_bytes (w_mem w) finaltoken (meant t ++ [0])) w) finaltoken (meant t) Hw)
    as (w1 & argv & tail & E & [Ha Hf Hin Hz] & He).
  assert (Hu : unchanged (span_of finaltoken 1024) (w_mem w) (w_mem w1)).
  { assert (Hd : mapped (w_mem w) finaltoken (Z.of_nat (length (meant t ++ [0])))).
    { rewrite length_app. cbn [length]. eapply mapped_sub; [exact Hm|lia|lia]. }
    apply (unchanged_trans _ _ (write_bytes (w_mem w) finaltoken (meant t ++ [0]))).
    - split; [by apply dom_write_bytes|]. intros x Hx. apply lookup_write_bytes_ne. rewrite length_app. cbn [length]. unfold span_of in Hx. lia.
    - split.
      + apply set_eq. intros q. rewrite !elem_of_dom. destruct (Hz q) as [->|[-> Hq]]; [done|]. by split.
      + intros x Hx. apply Hf. unfold span_of in Hx. lia. }
  exists w1, argv, tail. split; [|split; [exact E|split; [done|]]].
  - apply process_macros_token; [done|done|unfold CONFIG_SYS_CBSIZE; lia|done|unfold disjoint_from, CONFIG_SYS_CBSIZE; lia].
  - split; [|done| |exact He].
    + eapply unchanged_mono; [exact Hu|]. intros x Hx. by right.
    + eapply Forall_impl; [exact Hin|]. intros a Ha'. cbv beta in Ha'. unfold span_of, CONFIG_SYS_CBSIZE. lia.
Qed.

(** One round of the loop of [cli_simple_run_command]. *)
Definition run_body : world * Z * Z * Z -> outcome (world * Z * Z * Z + world * Z) :=
  fun '(w, str, repeatable, rc) =>
    let! c := load8 (w_mem w) str in
    if c =? 0 then brk (w, if negb (rc =? 0) then rc else repeatable) else
    let! sep := find_sep (w_mem w) str in
    let token := str in
    let! s := load8 (w_mem w) sep in
    let! '(w, str) :=
      if negb (s =? 0) then
        let! m := store8 (w_mem w) sep 0 in Ok (set_mem m w, sep + 1)
      else Ok (w, sep) in
    let! '(w, repeatable, rc) := run_token errno_str cmd_table finaltoken token flag (w, repeatable, rc) in
    cont (w, str, repeatable, rc).

(** Its first part: the separator found and overwritten. *)
Definition cut_at (w : world) (str : Z) : outcome (world * Z) :=
  let! sep := find_sep (w_mem w) str in
  let! s := load8 (w_mem w) sep in
  if negb (s =? 0) then let! m := store8 (w_mem w) sep 0 in Ok (set_mem m w, sep + 1) else Ok (w, sep).

Lemma run_body_cut w str repeatable rc c :
  load8 (w_mem w) str = Ok c -> c <> 0 ->
  run_body (w, str, repeatable, rc) =
    (let! '(w, str') := cut_at w str in
     let! '(w, repeatable, rc) := run_token errno_str cmd_table finaltoken str flag (w, repeatable, rc) in
     cont (w, str', repeatable, rc)).
Proof.
  intros Hc Hnz. unfold run_body, cut_at. rewrite Hc. cbn [obind]. case_cmp; [done|].
  destruct (find_sep _ _) as [sep| | |]; cbn [obind]; try done. by destruct (load8 _ sep).
Qed.

(** Cutting the token off: the rest of the line is still there, and nothing
    before it is a backslash. *)
Lemma cut_token w str t rest :
  token_ok t -> at_text w str (typed t ++ rest) -> starts_well (w_mem w) str t -> rest = [] \/ head rest = Some 59 ->
  exists w0 str',
    cut_at w str = Ok (w0, str') /\ str < str' /\
    unchanged (span_of cmdbuf CONFIG_SYS_CBSIZE) (w_mem w) (w_mem w0) /\ w_io w0 = w_io w /\
    at_text w0 str (typed t) /\ at_text w0 str' (tail rest) /\ (rest = [] \/ unescaped (w_mem w0) str').
Proof.
  intros [Hne Ht] [Hs Hi Hm] Hu Hr. unfold cut_at. rewrite (find_sep_token _ _ _ _ Hne Ht Hu Hs Hr). cbn [obind].
  pose proof (length_typed_pos t Hne) as Hpos. set (n := length (typed t)) in *. rewrite length_app in Hi. fold n in Hi.
  pose proof (cstr_drop _ str (typed t ++ rest) n ltac:(rewrite length_app; lia) Hs) as Hd. unfold n in Hd. rewrite drop_app_length in Hd. fold n in Hd.
  rewrite (cstr_hd _ _ _ Hd). cbn [obind]. destruct rest as [|c rest].
  - cbn [nth Z.eqb negb]. exists w, (str + Z.of_nat n). rewrite app_nil_r in Hs. cbn [length] in Hi.
    split; [done|]. split; [lia|]. split; [apply unchanged_refl|]. split; [done|]. split; [split; [done|lia|done]|]. split; [|by left].
    split; [done|cbn [length tail]; lia|done].
  - destruct Hr as [|Hr]; [done|]. injection Hr as ->. cbn [nth Z.eqb negb length tail] in *.
    assert (Hk : (n < length (typed t ++ 59%Z :: rest))%nat) by (rewrite length_app; cbn [length]; lia).
    destruct (cstr_cut _ str (typed t ++ 59 :: rest) n Hk Hs) as [H1 H2]. unfold n in H1, H2. rewrite take_app_length in H1.
    change (59 :: rest) with ([59] ++ rest) in H2. rewrite app_assoc in H2.
    rewrite (drop_app_length' (typed t ++ [59]) rest) in H2 by (rewrite length_app; simpl; lia). fold n in H1, H2.
    assert (Hx : is_Some (w_mem w !! (str + Z.of_nat n))) by (eapply cstr_mapped; [exact Hd|cbn [length]; lia]).
    rewrite store8_mapped by done. cbn [obind]. change (u8 0) with 0.
    exists (set_mem (<[str + Z.of_nat n := 0]> (w_mem w)) w), (str + Z.of_nat n + 1).
    split; [done|]. split; [lia|]. split; [|split; [done|split; [split|split; [split|]]]]; cbn [w_mem set_mem].
    + split; [by apply dom_insert_lookup_L|]. intros x Hx'. apply lookup_insert_ne. unfold span_of in Hx'. lia.
    + done.
    + fold n. lia.
    + by apply mapped_insert.
    + done.
    + lia.
    + by apply mapped_insert.
    + right. exists 0. split; [|done]. replace (str + Z.of_nat n + 1 - 1) with (str + Z.of_nat n) by lia. apply lookup_insert_eq.
Qed.

Lemma prepared_after t w w0 w1 argv tl :
  unchanged (span_of cmdbuf CONFIG_SYS_CBSIZE) (w_mem w) (w_mem w0) -> w_io w0 = w_io w ->
  prepared t w0 w1 argv tl -> prepared t w w1 argv tl.
Proof.
  intros Hu Hio [Hm Ha Hi He]. split; [|done|done|].
  - eapply unchanged_trans; [|exact Hm]. eapply unchanged_mono; [exact Hu|]. by left.
  - unfold argv_end in *. by rewrite <- Hio.
Qed.

(** A round of the loop is a step of the abstract shell. *)
Lemma shell_round w str t ts rest repeatable rc fuel :
  commands_keep -> token_ok t -> at_text w str (typed t ++ rest) -> starts_well (w_mem w) str t -> rest = [] \/ head rest = Some 59 ->
  (forall w2 str' repeatable rc, at_text w2 str' (tail rest) -> rest = [] \/ unescaped (w_mem w2) str' ->
     shell_run ts w2 repeatable rc (while fuel run_body (w2, str', repeatable, rc))) ->
  shell_run (t :: ts) w repeatable rc (while (S fuel) run_body (w, str, repeatable, rc)).
Proof.
  intros Hk Ht Ha Hu Hr IH. destruct (cut_token w str t rest Ht Ha Hu Hr) as (w0 & str' & Ec & Hlt & Hu0 & Hio & Ha0 & Ha' & Hr').
  assert (Hc : exists c, load8 (w_mem w) str = Ok c /\ c <> 0).
  { pose proof (length_typed_pos t (proj1 Ht)) as Hp. destruct (typed t) as [|c l] eqn:E; [simpl in Hp; lia|].
    destruct Ha as [Hs _ _]. apply cstr_cons in Hs as (Hl & Hc & _). exists c. split; [done|lia]. }
  destruct Hc as (c & Hc & Hnz). rewrite while_S, (run_body_cut _ _ _ _ _ Hc Hnz), Ec. cbn [obind].
  destruct (prepare_token w0 str t Ht Ha0) as (m & w1 & argv & tl & Em & Ep & Hu1 & Hp).
  unfold run_token. rewrite Em. cbn [obind]. rewrite Ep. cbn [obind].
  assert (Hk1 : keeps w0 w1) by (by apply final_keeps).
  assert (Hun : rest = [] \/ forall w2, keeps w0 w2 -> unescaped (w_mem w2) str').
  { destruct Hr' as [->|(b & Hb & Nb)]; [by left|]. destruct rest as [|d rest]; [by left|]. right. intros w2 [Hw2 _]. exists b. split; [|done].
    rewrite Hw2; [done|]. destruct Ha as [_ Hi _], Ha' as [_ Hi' _]. unfold span_of. lia. }
  pose proof (prepared_after _ _ _ _ _ _ Hu0 Hio Hp) as Hp'. pose proof (pr_args _ _ _ _ _ Hp) as Hargs.
  destruct (token_words t) as [|w0' ws] eqn:Ews.
  - apply Forall2_nil_inv_r in Hargs as ->. cbn [length]. change (Z.of_nat 0 =? 0) with true. cbv iota. cbn [obind]. loop_next.
    eapply run_empty; [exact Hp'|]. apply IH; [by eapply at_text_keeps|]. destruct Hun; auto.
  - destruct argv as [|arg0 args]; [by inversion Hargs|]. destruct (Z.eqb_spec (Z.of_nat (length (w0' :: ws))) 0) as [E0|_]; [simpl in E0; lia|].
    rewrite <- Ews. set (run := cmd_process _ _ _ _ _ _ _).
    match goal with |- shell_run _ _ _ _ ?x => replace x with
      (let! '(w2, r, rep') := run in while fuel run_body (w2, str', rep', if negb (r =? 0) then -1 else rc))
      by (destruct run as [[[w2 r] rep']| | |]; done) end.
    eapply run_cmd; [exact Hp'|]. fold run. intros w2 r rep' Er. assert (Hk2 : keeps w1 w2) by (by eapply cmd_process_keeps).
    apply IH; [eauto using at_text_keeps|]. destruct Hun as [->|Hun]; [by left|right]. apply Hun.
    destruct Hk1 as [A1 B1], Hk2 as [A2 B2]. split; [|auto]. intros a Hx. by rewrite A2, A1.
Qed.

Lemma shell_loop ts text : line_text ts text -> commands_keep -> Forall token_ok ts ->
  forall fuel w str repeatable rc,
    (length ts < fuel)%nat -> at_text w str text -> match head ts with Some t => starts_well (w_mem w) str t | None => True end ->
    shell_run ts w repeatable rc (while fuel run_body (w, str, repeatable, rc)).
Proof.
  intros Hl Hk. induction Hl as [|t|t ts r Hl IH]; intros Ht [|fuel] w str repeatable rc Hf Ha Hu; cbn [length] in Hf; try lia.
  - rewrite while_S. unfold run_body. rewrite (cstr_nil _ _ (at_str _ _ _ Ha)). apply run_done.
  - apply Forall_cons in Ht as [Ht _]. apply (shell_round _ _ t [] []); [done|done|by rewrite app_nil_r|exact Hu|by left|].
    intros w2 str' rep2 rc2 Ha2 _. destruct fuel as [|fuel]; [lia|]. rewrite while_S. unfold run_body. rewrite (cstr_nil _ _ (at_str _ _ _ Ha2)). apply run_done.
  - apply Forall_cons in Ht as [Ht Hts]. eapply shell_round; [done|done|exact Ha|done|by right|].
    intros w2 str' rep2 rc2 Ha2 [|Hu2]; [done|]. apply IH; [done|cbn [length] in Hf; lia|done|]. destruct (head ts); [|done]. by left.
Qed.

Lemma line_text_length ts text : line_text ts text -> Forall token_ok ts -> (length ts <= length text)%nat.
Proof.
  induction 1 as [|t|t ts r Hl IH]; intros Ht; cbn [length]; [lia| |].
  - apply Forall_cons in Ht as [[Ht _] _]. apply length_typed_pos in Ht. lia.
  - apply Forall_cons in Ht as [[Ht _] Hts]. apply length_typed_pos in Ht. rewrite length_app. cbn [length]. specialize (IH Hts). lia.
Qed.
End shell.

(** Preparing may begin earlier, with the copy of the line. *)
Lemma shell_run_after errno_str cmd_table cmdbuf finaltoken flag t ts w w0 repeatable rc res :
  unchanged (span_of cmdbuf CONFIG_SYS_CBSIZE) (w_mem w) (w_mem w0) -> w_io w0 = w_io w ->
  shell_run errno_str cmd_table cmdbuf finaltoken flag (t :: ts) w0 repeatable rc res ->
  shell_run errno_str cmd_table cmdbuf finaltoken flag (t :: ts) w repeatable rc res.
Proof.
  intros Hu Hio H. inversion H; subst.
  - eapply run_empty; [by eapply prepared_after|done].
  - eapply run_cmd; [by eapply prepared_after|done].
Qed.

(** The line in memory, the two buffers apart from it and from each other. *)
Record line_ready (cmdbuf finaltoken cmd : Z) (ts : list (list piece)) (text : list Z) (w : world) : Prop := {
  lr_text : line_text ts text;
  lr_ok : Forall token_ok ts;
  lr_some : ts <> [];
  lr_cmd : cmd <> NULL /\ cstr (w_mem w) cmd text;
  lr_cmdbuf : mapped (w_mem w) cmdbuf CONFIG_SYS_CBSIZE;
  lr_final : mapped (w_mem w) finaltoken CONFIG_SYS_CBSIZE;
  lr_apart : disjoint_from finaltoken CONFIG_SYS_CBSIZE cmdbuf CONFIG_SYS_CBSIZE;
  lr_copy : disjoint_from cmdbuf CONFIG_SYS_CBSIZE cmd (Z.of_nat (length text) + 1);
  lr_start : match head ts with Some t => starts_well (w_mem w) cmdbuf t | None => True end
}.

Lemma run_command_spec (errno_str : Z -> Z) (cmd_table : list cmd_tbl_t) (cmdbuf finaltoken cmd flag : Z)
    (ts : list (list piece)) (text : list Z) (w : world) :
  line_ready cmdbuf finaltoken cmd ts text w ->
  commands_keep cmd_table cmdbuf finaltoken flag ->
  let run := cli_simple_run_command errno_str cmd_table cmdbuf finaltoken cmd flag w in
  (CONFIG_SYS_CBSIZE <= Z.of_nat (length text) -> run = Ok (puts_lit "## Command too long!\n\r" w, -1)) /\
  (Z.of_nat (length text) < CONFIG_SYS_CBSIZE -> shell_run errno_str cmd_table cmdbuf finaltoken flag ts w 1 0 run).
Proof.
  intros [Hl Ht Hne [Hcmd Hs] Hm1 Hm2 Hd1 Hd2 Hu] Hk run. unfold run, cli_simple_run_command.
  case_cmp; [done|]. pose proof (line_text_length _ _ Hl Ht) as Hlen.
  assert (Hc : exists c, load8 (w_mem w) cmd = Ok c /\ c <> 0).
  { destruct ts as [|t ts]; [done|]. destruct text as [|c text]; [simpl in Hlen; lia|].
    apply cstr_cons in Hs as (Hc & Hr & _). exists c. split; [done|lia]. }
  destruct Hc as (c & -> & Hc). cbn [obind]. case_cmp; [done|]. rewrite (strlen_cstr _ _ _ Hs). cbn [obind].
  split; intros Hsz; case_cmp; try lia; [done|].
  assert (Hm : mapped (w_mem w) cmdbuf (Z.of_nat (length (text ++ [0])))).
  { rewrite length_app. cbn [length]. unfold CONFIG_SYS_CBSIZE in *. eapply mapped_sub; [exact Hm1|lia|lia]. }
  unfold disjoint_from in *. rewrite length_app in Hm. cbn [length] in Hm.
  rewrite (strcpy_write _ _ _ _ Hs); [|by eapply mapped_sub; [exact Hm|lia|lia]|unfold forward_ok; lia]. cbn [obind].
  set (w0 := set_mem _ w). assert (H0 : unchanged (span_of cmdbuf CONFIG_SYS_CBSIZE) (w_mem w) (w_mem w0)).
  { split; [apply dom_write_bytes; by rewrite length_app|]. intros x Hx. apply lookup_write_bytes_ne. rewrite length_app. cbn [length].
    unfold span_of in Hx. lia. }
  destruct ts as [|t ts]; [done|]. apply (shell_run_after _ _ _ _ _ _ _ w w0); [done|done|].
  apply (shell_loop errno_str cmd_table cmdbuf finaltoken flag Hd1 _ text); [done|done|done|unfold CONFIG_SYS_CBSIZE in *; lia| |].
  - split; [|unfold CONFIG_SYS_CBSIZE in *; lia|by eapply unchanged_mapped].
    split; [apply write_bytes_at|]. by destruct Hs.
  - cbn [head] in *. destruct Hu as [(b & Hb & Nb)|Hu]; [left|by right]. exists b. split; [|done].
    unfold w0. cbn [w_mem set_mem]. rewrite lookup_write_bytes_ne by lia. done.
Qed.

(** C12: a command line runs its commands, in order and with their words.
    Take any line of tokens separated by semicolons, each made of plain,
    escaped and quoted characters, in memory apart from the two buffers of
    [cli_simple_run_command], and commands that leave the working copy of the
    line alone.  A line of [CONFIG_SYS_CBSIZE] characters or more is refused
    with a message.  Otherwise the function behaves as the abstract shell: it
    prepares every token with changes in the buffers only, so that the
    arguments are the words of what the token means (escapes and quotes
    removed, semicolons inside them no separators), passes them to
    [cmd_process], goes on with the next token also when a command failed,
    and returns -1 if a token was empty or a command failed, and the repeat
    flag otherwise. *)
Theorem run_command_shell (errno_str : Z -> Z) (cmd_table : list cmd_tbl_t) (cmdbuf finaltoken cmd flag : Z)
    (ts : list (list piece)) (text : list Z) (w : world) :
  line_ready cmdbuf finaltoken cmd ts text w ->
  commands_keep cmd_table cmdbuf finaltoken flag ->
  let run := cli_simple_run_command errno_str cmd_table cmdbuf finaltoken cmd flag w in
  (CONFIG_SYS_CBSIZE <= Z.of_nat (length text) -> run = Ok (puts_lit "## Command too long!\n\r" w, -1)) /\
  (Z.of_nat (length text) < CONFIG_SYS_CBSIZE -> shell_run errno_str cmd_table cmdbuf finaltoken flag ts w 1 0 run).
Proof. apply run_command_spec. Qed.

(** The line [md \;;'a b'] with a table of one command that does nothing. *)
Definition demo_tokens : list (list piece) := [[Plain 109; Plain 100; Plain 32; Esc 59]; [Quoted [97; 32; 98]]].
Definition demo_text : list Z := [109; 100; 32; 92; 59; 59; 39; 97; 32; 98; 39].
Definition demo_line_mem : mem :=
  write_bytes (write_bytes (mem_of 16 (demo_text ++ [0])) 4096 (replicate 1024 0)) 8192 (replicate 1024 0).

Lemma demo_mem_facts :
  cstr demo_line_mem 16 demo_text /\ mapped demo_line_mem 4096 1024 /\ mapped demo_line_mem 8192 1024.
Proof.
  assert (Ha : forall n, mapped (write_bytes (mem_of 16 (demo_text ++ [0])) 4096 (replicate n 0)) 4096 (Z.of_nat n)).
  { intros n. pose proof (bytes_at_mapped _ _ _ (write_bytes_at (mem_of 16 (demo_text ++ [0])) 4096 (replicate n 0))) as H.
    by rewrite length_replicate in H. }
  split; [|split].
  - unfold demo_line_mem. do 2 (apply cstr_write_ne; [|rewrite length_replicate; simpl; lia]). apply cstr_mem_of. reflexivity.
  - apply mapped_write_bytes. exact (Ha 1024%nat).
  - pose proof (bytes_at_mapped _ _ _ (write_bytes_at (write_bytes (mem_of 16 (demo_text ++ [0])) 4096 (replicate 1024 0)) 8192 (replicate 1024 0))) as H.
    by rewrite length_replicate in H.
Qed.

Lemma demo_ready : line_ready 4096 8192 16 demo_tokens demo_text (World demo_line_mem []).
Proof.
  destruct demo_mem_facts as (H1 & H2 & H3). split; try done.
  - apply (line_more [Plain 109; Plain 100; Plain 32; Esc 59] [[Quoted [97; 32; 98]]] (typed [Quoted [97; 32; 98]])). apply line_last.
  - repeat constructor; simpl; try lia; done.
  - right. simpl. unfold CONFIG_SYS_CBSIZE. lia.
  - right. unfold demo_text. simpl. lia.
  - right. exact I.
Qed.

Lemma demo_keep cmdbuf finaltoken flag : commands_keep [demo_entry 16] cmdbuf finaltoken flag.
Proof. intros e argc argv w w' r rep He E. apply list_elem_of_singleton in He as ->. injection E as <- <- <-. by split. Qed.

Lemma run_command_shell_witness :
  shell_run (fun _ => NULL) [demo_entry 16] 4096 8192 0 demo_tokens (World demo_line_mem []) 1 0
    (cli_simple_run_command (fun _ => NULL) [demo_entry 16] 4096 8192 16 0 (World demo_line_mem [])).
Proof.
  apply (run_command_shell (fun _ => NULL) [demo_entry 16] 4096 8192 16 0 demo_tokens demo_text);
    [exact demo_ready|apply demo_keep|reflexivity].
Defined.

(** ** The loop *)

Section turn.
Context (errno_str : Z -> Z) (cmd_table : list cmd_tbl_t) (cmdbuf finaltoken lastcommand console_buffer : Z).
Context (ts : list (list piece)) (text : list Z).

(** The end of a turn: what cannot be repeated is forgotten. *)
Definition forget (run : outcome (world * Z)) : outcome (world * Z) :=
  let! '(w, rc) := run in
  if rc <=? 0 then let! m := store8 (w_mem w) lastcommand 0 in Ok (set_mem m w, rc) else Ok (w, rc).

Lemma turn_new w rc :
  0 < Z.of_nat (length text) < CONFIG_SYS_CBSIZE -> cstr (w_mem w) console_buffer text ->
  mapped (w_mem w) lastcommand (CONFIG_SYS_CBSIZE + 1) ->
  disjoint_from lastcommand (CONFIG_SYS_CBSIZE + 1) console_buffer (Z.of_nat (length text)) ->
  cli_simple_loop_step errno_str cmd_table cmdbuf finaltoken lastcommand console_buffer (Z.of_nat (length text)) rc w =
    forget (cli_simple_run_command errno_str cmd_table cmdbuf finaltoken lastcommand 0
      (set_mem (write_bytes (w_mem w) lastcommand (text ++ [0])) w)).
Proof.
  intros Hl Hs Hm Hd. unfold cli_simple_loop_step, disjoint_from, CONFIG_SYS_CBSIZE in *. destruct (Z.ltb_spec 0 (Z.of_nat (length text))); [|lia].
  rewrite (strlcpy_write _ _ _ _ _ Hs); [|lia|eapply mapped_sub; [exact Hm|lia|lia]|unfold forward_ok; lia].
  cbn [obind]. destruct (Z.eqb_spec (Z.of_nat (length text)) (-1)); [lia|]. rewrite take_ge by lia. done.
Qed.

Lemma turn_again w rc :
  cli_simple_loop_step errno_str cmd_table cmdbuf finaltoken lastcommand console_buffer 0 rc w =
    forget (cli_simple_run_command errno_str cmd_table cmdbuf finaltoken lastcommand CMD_FLAG_REPEAT w).
Proof. done. Qed.
End turn.

(** The state a turn starts from: the buffers of the parser, the last command
    and the line just read lie apart. *)
Record turn_ready (cmdbuf finaltoken lastcommand console_buffer : Z) (ts : list (list piece)) (text : list Z) (w : world) : Prop := {
  tr_text : line_text ts text /\ Forall token_ok ts /\ ts <> [];
  tr_size : Z.of_nat (length text) < CONFIG_SYS_CBSIZE;
  tr_last : lastcommand <> NULL /\ mapped (w_mem w) lastcommand (CONFIG_SYS_CBSIZE + 1);
  tr_cmdbuf : mapped (w_mem w) cmdbuf CONFIG_SYS_CBSIZE /\ unescaped (w_mem w) cmdbuf;
  tr_final : mapped (w_mem w) finaltoken CONFIG_SYS_CBSIZE;
  tr_apart : disjoint_from finaltoken CONFIG_SYS_CBSIZE cmdbuf CONFIG_SYS_CBSIZE;
  tr_copy : disjoint_from lastcommand (CONFIG_SYS_CBSIZE + 1) (cmdbuf - 1) (CONFIG_SYS_CBSIZE + 1);
  tr_console : disjoint_from lastcommand (CONFIG_SYS_CBSIZE + 1) console_buffer (Z.of_nat (length text))
}.

(** What was typed is in [lastcommand]. *)
Lemma turn_line cmdbuf finaltoken lastcommand console_buffer ts text w w1 :
  turn_ready cmdbuf finaltoken lastcommand console_buffer ts text w ->
  unchanged (span_of lastcommand (CONFIG_SYS_CBSIZE + 1)) (w_mem w) (w_mem w1) -> cstr (w_mem w1) lastcommand text ->
  line_ready cmdbuf finaltoken lastcommand ts text w1.
Proof.
  intros [(Hl & Ht & Hne) Hsz [Hn Hm] [Hc (b & Hb & Nb)] Hf Ha Hcp Hco] Hu Hs. unfold disjoint_from, CONFIG_SYS_CBSIZE in *.
  split; try done; try (by eapply unchanged_mapped); unfold disjoint_from, CONFIG_SYS_CBSIZE; [lia|].
  destruct (head ts); [|done]. left. exists b. split; [|done]. destruct Hu as [_ Hu]. rewrite Hu; [done|]. unfold span_of. lia.
Qed.

(** C38: a turn of the shell's loop.  A line just typed is kept as the last
    command and run; an empty line runs the last command again, with the
    repeat flag set for its commands; both as the abstract shell does, from
    the world where only the copy was made.  After an interrupt nothing runs.
    At the end of the turn a command that failed or that does not repeat is
    forgotten, and then an empty line runs nothing and prints nothing. *)
Theorem shell_turn (errno_str : Z -> Z) (cmd_table : list cmd_tbl_t) (cmdbuf finaltoken lastcommand console_buffer rc : Z)
    (ts : list (list piece)) (text : list Z) (w : world) :
  turn_ready cmdbuf finaltoken lastcommand console_buffer ts text w ->
  (forall flag, commands_keep cmd_table cmdbuf finaltoken flag) ->
  let turn := cli_simple_loop_step errno_str cmd_table cmdbuf finaltoken lastcommand console_buffer in
  let runs := shell_run errno_str cmd_table cmdbuf finaltoken in
  (cstr (w_mem w) console_buffer text ->
     exists w1 run, unchanged (span_of lastcommand (CONFIG_SYS_CBSIZE + 1)) (w_mem w) (w_mem w1) /\ w_io w1 = w_io w /\
       cstr (w_mem w1) lastcommand text /\ runs 0 ts w1 1 0 run /\ turn (Z.of_nat (length text)) rc w = forget lastcommand run) /\
  (cstr (w_mem w) lastcommand text ->
     exists run, runs CMD_FLAG_REPEAT ts w 1 0 run /\ turn 0 rc w = forget lastcommand run) /\
  (w_mem w !! lastcommand = Some 0 -> turn 0 rc w = Ok (w, -1)) /\
  turn (-1) rc w = forget lastcommand (Ok (puts_lit "<INTERRUPT>\n\r" w, rc)) /\
  (forall run w' rc', forget lastcommand run = Ok (w', rc') -> rc' <= 0 -> w_mem w' !! lastcommand = Some 0).
Proof.
  intros Hr Hk turn runs. split; [|split; [|split; [|split]]].
  - intros Hs. pose proof Hr as [(Hl & Ht & Hne) Hsz [Hn Hm] _ _ _ _ Hco].
    pose proof (line_text_length _ _ Hl Ht) as Hlen. destruct ts as [|t ts']; [done|]. cbn [length] in Hlen.
    set (w1 := set_mem (write_bytes (w_mem w) lastcommand (text ++ [0])) w).
    assert (Hu : unchanged (span_of lastcommand (CONFIG_SYS_CBSIZE + 1)) (w_mem w) (w_mem w1)).
    { split; [apply dom_write_bytes|]; rewrite ?length_app; cbn [length]; [eapply mapped_sub; [exact Hm|lia|lia]|].
      intros x Hx. apply lookup_write_bytes_ne. rewrite length_app. cbn [length]. unfold span_of in Hx. lia. }
    assert (H1 : cstr (w_mem w1) lastcommand text) by (split; [apply write_bytes_at|by destruct Hs]).
    exists w1, (cli_simple_run_command errno_str cmd_table cmdbuf finaltoken lastcommand 0 w1). repeat (split; [done|]). split.
    + apply (run_command_spec _ _ _ _ _ _ _ text); [by eapply turn_line|done|done].
    + apply turn_new; [lia|done|done|done].
  - intros Hs. eexists. split; [|apply turn_again].
    apply (run_command_spec _ _ _ _ _ _ _ text); [by eapply turn_line|done|by destruct Hr].
  - intros H0. unfold turn. rewrite turn_again. unfold cli_simple_run_command. case_cmp; [by destruct (tr_last _ _ _ _ _ _ _ Hr)|].
    rewrite (load8_lookup _ _ _ H0). cbn [obind Z.eqb forget]. cbn. rewrite store8_mapped by done. cbn. change (u8 0) with 0.
    rewrite insert_id by done. by destruct w.
  - done.
  - intros [[w1 r1]| | |] w' rc'; cbn; try done. case_cmp; [|intros [= <- <-]; lia].
    unfold store8. destruct (w_mem w1 !! lastcommand); cbn; [|done]. intros [= <- <-] _. apply lookup_insert_eq.
Qed.

Definition turn_mem : mem := write_bytes (write_bytes demo_line_mem 4095 (replicate 1025 0)) 16384 (replicate 1025 0).

Lemma turn_mem_facts :
  cstr turn_mem 16 demo_text /\ mapped turn_mem 4096 1024 /\ mapped turn_mem 8192 1024 /\ mapped turn_mem 16384 1025 /\
  turn_mem !! 4095 = Some 0.
Proof.
  destruct demo_mem_facts as (H1 & H2 & H3). unfold turn_mem. generalize dependent demo_line_mem. intros m H1 H2 H3.
  split; [|split; [|split; [|split]]].
  - do 2 (apply cstr_write_ne; [|rewrite length_replicate; simpl; lia]). done.
  - by do 2 apply mapped_write_bytes.
  - by do 2 apply mapped_write_bytes.
  - pose proof (bytes_at_mapped _ _ _ (write_bytes_at (write_bytes m 4095 (replicate 1025 0)) 16384 (replicate 1025 0))) as H.
    by rewrite length_replicate in H.
  - rewrite lookup_write_bytes_ne by lia. apply (bytes_at_lookup _ 4095 (replicate 1025 0) 0); [apply write_bytes_at|done].
Qed.

Lemma turn_demo_ready : turn_ready 4096 8192 16384 16 demo_tokens demo_text (World turn_mem []).
Proof.
  destruct turn_mem_facts as (H1 & H2 & H3 & H4 & H5). destruct demo_ready as [A B C _ _ _ _ _ _]. generalize dependent turn_mem. intros m H1 H2 H3 H4 H5.
  split; try done; try (unfold disjoint_from, CONFIG_SYS_CBSIZE; simpl; lia). split; [done|]. by exists 0.
Qed.

Lemma shell_turn_witness :
  exists w1 run, unchanged (span_of 16384 (CONFIG_SYS_CBSIZE + 1)) turn_mem (w_mem w1) /\ w_io w1 = [] /\
    cstr (w_mem w1) 16384 demo_text /\ shell_run (fun _ => NULL) [demo_entry 16] 4096 8192 0 demo_tokens w1 1 0 run /\
    cli_simple_loop_step (fun _ => NULL) [demo_entry 16] 4096 8192 16384 16 (Z.of_nat (length demo_text)) 1 (World turn_mem []) = forget 16384 run.
Proof.
  apply (shell_turn (fun _ => NULL) [demo_entry 16] 4096 8192 16384 16 1 demo_tokens demo_text (World turn_mem []) turn_demo_ready).
  - intros flag. apply demo_keep.
  - apply turn_mem_facts.
Defined.
