(* ===== verification/CliReadline.v ===== *)
(** * The line editor (common/cli_readline.c)

    [cread_line] as a state machine: the locals of the C function and the
    static history variables are the record [rl]; one character of input is
    one step.  [getc] blocks, so the machine runs over the list of characters
    that arrive; it is [Waiting] when they are used up, [Finished] after a
    newline and [Broken] after ^C.  The buffer and the history lines are in
    the memory of the [world].

    Completion is another component: the section takes the function as an
    argument and the class [Completer] states what it relies on. *)

From S2P Require Import Prelude CMem Ctype Str StrFacts Fmt Console Command.

Local Open Scope Z_scope.
Local Open Scope c_scope.

Definition HIST_MAX : Z := 20.
Definition HIST_SIZE : Z := CONFIG_SYS_CBSIZE.

Definition CTL_CH (c : Z) : Z := c - 97 + 1.
Definition CTL_BACKSPACE : Z := 8.
Definition DEL : Z := 255.
Definition DEL7 : Z := 127.
Definition CREAD_HIST_CHAR : Z := 33.

(** ** History *)

Record hist : Type := Hist {
  hist_max : Z;
  hist_add_idx : Z;
  hist_cur : Z;
  hist_num : Z
}.

(** What a history key gives: no line, the empty line, a stored line. *)
Inductive hline : Type :=
  | NoLine
  | EmptyLine
  | Line (p : Z).

Definition hist_list (hist_lines i : Z) : Z := hist_lines + i * (HIST_SIZE + 1).

Definition hist_init (hist_lines : Z) (m : mem) : outcome (mem * hist) :=
  while (S (Z.to_nat HIST_MAX)) (fun '(m, i) =>
    if i <? HIST_MAX then
      let! m := store8 m (hist_list hist_lines i) 0 in cont (m, i + 1)
    else brk (m, Hist 0 0 (-1) 0)) (m, 0).

Definition cread_add_to_hist (hist_lines line : Z) (m : mem) (h : hist) : outcome (mem * hist) :=
  let! m := strcpy m (hist_list hist_lines (hist_add_idx h)) line in
  let add := if HIST_MAX <=? hist_add_idx h + 1 then 0 else hist_add_idx h + 1 in
  let max := if hist_max h <? add then add else hist_max h in
  Ok (m, Hist max add (hist_cur h) (u32 (hist_num h + 1))).

Definition hist_set_cur (c : Z) (h : hist) : hist :=
  Hist (hist_max h) (hist_add_idx h) c (hist_num h).

Definition hist_prev (hist_lines : Z) (h : hist) : hist * hline :=
  if hist_cur h <? 0 then (h, NoLine) else
  let c := hist_cur h - 1 in
  let c := if c <? 0 then hist_max h else c in
  if c =? hist_add_idx h then (h, NoLine)
  else (hist_set_cur c h, Line (hist_list hist_lines c)).

Definition hist_next (hist_lines : Z) (h : hist) : hist * hline :=
  if hist_cur h <? 0 then (h, NoLine)
  else if hist_cur h =? hist_add_idx h then (h, NoLine)
  else
    let c := hist_cur h + 1 in
    let c := if hist_max h <? c then 0 else c in
    (hist_set_cur c h, if c =? hist_add_idx h then EmptyLine else Line (hist_list hist_lines c)).

(** ** Output *)

(** [putnstr(str, n)]: at most [n] characters of the string. *)
Definition putnstr (str n : Z) (w : world) : outcome world :=
  let! k := strnlen (w_mem w) str n in
  Ok (say (Puts (read_bytes (w_mem w) str (Z.to_nat k))) w).

Definition putcs (n : Z) (c : Z) (w : world) : world := Nat.iter (Z.to_nat n) (putc c) w.

Definition getcmd_cbeep (w : world) : world := putc 7 w.

(** ** Editing *)

(** The locals [num], [eol_num], [insert], the first [esc_len] characters of
    [esc_save], and the history. *)
Record rl : Type := RL {
  rl_w : world;
  rl_num : Z;
  rl_eol : Z;
  rl_insert : bool;
  rl_esc : list Z;
  rl_hist : hist
}.

Definition set_line (w : world) (num eol : Z) (s : rl) : rl :=
  RL w num eol (rl_insert s) (rl_esc s) (rl_hist s).
Definition set_esc (l : list Z) (s : rl) : rl :=
  RL (rl_w s) (rl_num s) (rl_eol s) (rl_insert s) l (rl_hist s).
Definition set_hist (h : hist) (s : rl) : rl :=
  RL (rl_w s) (rl_num s) (rl_eol s) (rl_insert s) (rl_esc s) h.
Definition set_insert (b : bool) (s : rl) : rl :=
  RL (rl_w s) (rl_num s) (rl_eol s) b (rl_esc s) (rl_hist s).
Definition beep (s : rl) : rl := set_line (getcmd_cbeep (rl_w s)) (rl_num s) (rl_eol s) s.

Definition BEGINNING_OF_LINE (s : rl) : rl :=
  set_line (putcs (rl_num s) CTL_BACKSPACE (rl_w s)) 0 (rl_eol s) s.

Definition ERASE_TO_EOL (s : rl) : rl :=
  if rl_num s <? rl_eol s then
    let w := printf_lit "%*s" [s32 (rl_eol s - rl_num s)] "" (rl_w s) in
    set_line (putcs (rl_eol s - rl_num s) CTL_BACKSPACE w) (rl_num s) (rl_num s) s
  else s.

(** What the enum [act] says about a character of an escape sequence. *)
Inductive esc_act : Type :=
  | ESC_REJECT
  | ESC_SAVE
  | ESC_CONVERTED (ichar : Z).

Definition esc_action (esc_save : list Z) (ichar : Z) : esc_act :=
  let key c := ESC_CONVERTED (CTL_CH c) in
  match esc_save with
  | [_] => if (ichar =? 91) || (ichar =? 79) then ESC_SAVE else ESC_REJECT
  | [_; e1] =>
      if ichar =? 68 then key 98
      else if ichar =? 67 then key 102
      else if ichar =? 72 then key 97
      else if ichar =? 70 then key 101
      else if ichar =? 65 then key 112
      else if ichar =? 66 then key 110
      else if (ichar =? 49) || (ichar =? 51) || (ichar =? 52) || (ichar =? 55) || (ichar =? 56) then
        if e1 =? 91 then ESC_SAVE else ESC_REJECT
      else ESC_REJECT
  | [_; _; e2] =>
      if ichar =? 126 then
        if e2 =? 51 then key 100
        else if (e2 =? 49) || (e2 =? 55) then key 97
        else if (e2 =? 52) || (e2 =? 56) then key 101
        else ESC_REJECT
      else ESC_REJECT
  | _ => ESC_REJECT
  end.

Inductive rl_result : Type :=
  | Waiting (s : rl)
  | Finished (s : rl)
  | Broken (s : rl).

(** What the editor relies on when TAB is pressed with [n] characters in the
    terminated buffer at [buf]: completion ends; it may append to the buffer,
    up to two characters before its end; its scratch memory is [xlo, xhi). *)
Class Completer (buf xlo xhi : Z)
    (ac : Z -> Z -> Z -> Z -> world -> outcome (world * Z * Z * Z)) : Prop :=
  completer_ends : forall prompt n col w,
    0 <= n <= CONFIG_SYS_CBSIZE ->
    (forall a b, w_mem w !! a = Some b -> byte_range b) ->
    mapped (w_mem w) buf (CONFIG_SYS_CBSIZE + 1) -> w_mem w !! (buf + n) = Some 0 ->
    mapped (w_mem w) xlo (xhi - xlo) ->
    ends (ac prompt buf n col w) (fun '(w', _, n', _) =>
      n <= n' /\ (n' = n \/ n' < CONFIG_SYS_CBSIZE - 2) /\
      (forall a b, w_mem w' !! a = Some b -> byte_range b) /\
      dom (w_mem w') =@{gset Z} dom (w_mem w) /\
      forall a, ~ (buf <= a <= buf + n') -> ~ (xlo <= a < xhi) -> w_mem w' !! a = w_mem w !! a).

Section editor.
(** The addresses of the buffer, of the history lines and of the prompt, the
    size given to [cread_line], and the completion function. *)
Context (buf hist_lines prompt len : Z).
Context (auto_complete : Z -> Z -> Z -> Z -> world -> outcome (world * Z * Z * Z)).

Definition REFRESH_TO_EOL (s : rl) : outcome rl :=
  if rl_num s <? rl_eol s then
    let! w := putnstr (buf + rl_num s) (rl_eol s - rl_num s) (rl_w s) in
    Ok (set_line w (rl_eol s) (rl_eol s) s)
  else Ok s.

Definition cread_add_char (ichar : Z) (insert : bool) (s : rl) : outcome rl :=
  let num := rl_num s in
  let full := (insert || (num =? rl_eol s)) && (u64 (len - 1) <? rl_eol s) in
  if full then Ok (beep s) else
  let eol := if insert || (num =? rl_eol s) then rl_eol s + 1 else rl_eol s in
  let w := rl_w s in
  if insert then
    let wlen := eol - num in
    let! m := if 1 <? wlen then memmove (w_mem w) (buf + num + 1) (buf + num) (wlen - 1)
              else Ok (w_mem w) in
    let! m := store8 m (buf + num) ichar in
    let! w := putnstr (buf + num) wlen (set_mem m w) in
    Ok (set_line (putcs (wlen - 1) CTL_BACKSPACE w) (num + 1) eol s)
  else
    let! m := store8 (w_mem w) (buf + num) ichar in
    let! w := putnstr (buf + num) 1 (set_mem m w) in
    Ok (set_line w (num + 1) eol s).

Definition cread_add_str (str : strsrc) (strsize : Z) (insert : bool) (s : rl) : outcome rl :=
  while (S (Z.to_nat strsize)) (fun '(i, s) =>
    if i <? strsize then
      let! c := src_load (w_mem (rl_w s)) str i in
      let! s := cread_add_char c insert s in
      cont (i + 1, s)
    else brk s) (0, s).

(** ^D: delete under the cursor. *)
Definition delete_forward (s : rl) : outcome rl :=
  let num := rl_num s in
  if num <? rl_eol s then
    let wlen := rl_eol s - num - 1 in
    let! w :=
      if negb (wlen =? 0) then
        let! m := memmove (w_mem (rl_w s)) (buf + num) (buf + num + 1) wlen in
        putnstr (buf + num) wlen (set_mem m (rl_w s))
      else Ok (rl_w s) in
    Ok (set_line (putcs (wlen + 1) CTL_BACKSPACE (putc 32 w)) num (rl_eol s - 1) s)
  else Ok s.

(** Backspace and DEL: delete before the cursor. *)
Definition delete_backward (s : rl) : outcome rl :=
  if negb (rl_num s =? 0) then
    let wlen := rl_eol s - rl_num s in
    let num := rl_num s - 1 in
    let! m := memmove (w_mem (rl_w s)) (buf + num) (buf + num + 1) wlen in
    let w := putc CTL_BACKSPACE (set_mem m (rl_w s)) in
    let! w := putnstr (buf + num) wlen w in
    Ok (set_line (putcs (wlen + 1) CTL_BACKSPACE (putc 32 w)) num (rl_eol s - 1) s)
  else Ok s.

(** ^P and ^N. *)
Definition history_key (prev : bool) (s : rl) : outcome rl :=
  let s := set_esc [] s in
  let '(h, l) := if prev then hist_prev hist_lines (rl_hist s) else hist_next hist_lines (rl_hist s) in
  let s := set_hist h s in
  match l with
  | NoLine => Ok (beep s)
  | _ =>
      let s := ERASE_TO_EOL (BEGINNING_OF_LINE s) in
      let! m :=
        match l with
        | Line p => strcpy (w_mem (rl_w s)) buf p
        | _ => store8 (w_mem (rl_w s)) buf 0
        end in
      let w := set_mem m (rl_w s) in
      let! eol := strlen m buf in
      REFRESH_TO_EOL (set_line w (rl_num s) eol s)
  end.

Definition tab_key (s : rl) : outcome rl :=
  if rl_num s <? rl_eol s then Ok (beep s) else
  let! m := store8 (w_mem (rl_w s)) (buf + rl_num s) 0 in
  let w := set_mem m (rl_w s) in
  let! pl := strlen m prompt in
  let! '(w, r, num2, _) := auto_complete prompt buf (rl_num s) (pl + rl_eol s) w in
  if negb (r =? 0) then
    let col := num2 - rl_num s in
    Ok (set_line w (rl_num s + col) (rl_eol s + col) s)
  else Ok (set_line w (rl_num s) (rl_eol s) s).

(** The switch on an ordinary or converted character. *)
Definition cread_key (ichar : Z) (s : rl) : outcome rl_result :=
  let ok s := Ok (Waiting s) in
  if ichar =? 27 then
    match rl_esc s with
    | [] => ok (set_esc [ichar] s)
    | _ => ok (set_esc [] (set_line (puts_lit "impossible condition #876\n\r" (rl_w s)) (rl_num s) (rl_eol s) s))
    end
  else if ichar =? CTL_CH 97 then ok (BEGINNING_OF_LINE s)
  else if ichar =? CTL_CH 99 then
    let! m := store8 (w_mem (rl_w s)) buf 0 in
    Ok (Broken (set_line (set_mem m (rl_w s)) (rl_num s) (rl_eol s) s))
  else if ichar =? CTL_CH 102 then
    if rl_num s <? rl_eol s then
      let! c := load8 (w_mem (rl_w s)) (buf + rl_num s) in
      ok (set_line (putc c (rl_w s)) (rl_num s + 1) (rl_eol s) s)
    else ok s
  else if ichar =? CTL_CH 98 then
    if negb (rl_num s =? 0) then
      ok (set_line (putc CTL_BACKSPACE (rl_w s)) (rl_num s - 1) (rl_eol s) s)
    else ok s
  else if ichar =? CTL_CH 100 then let! s := delete_forward s in ok s
  else if ichar =? CTL_CH 107 then ok (ERASE_TO_EOL s)
  else if ichar =? CTL_CH 101 then let! s := REFRESH_TO_EOL s in ok s
  else if ichar =? CTL_CH 111 then ok (set_insert (negb (rl_insert s)) s)
  else if (ichar =? CTL_CH 120) || (ichar =? CTL_CH 117) then ok (ERASE_TO_EOL (BEGINNING_OF_LINE s))
  else if (ichar =? DEL) || (ichar =? DEL7) || (ichar =? 8) then
    let! s := delete_backward s in ok s
  else if ichar =? CTL_CH 112 then let! s := history_key true s in ok s
  else if ichar =? CTL_CH 110 then let! s := history_key false s in ok s
  else if ichar =? 9 then let! s := tab_key s in ok s
  else let! s := cread_add_char ichar (rl_insert s) s in ok s.

(** The code after the loop. *)
Definition cread_finish (s : rl) : outcome rl :=
  let! m := store8 (w_mem (rl_w s)) (buf + rl_eol s) 0 in
  let! c := load8 m buf in
  let! '(m, h) :=
    if negb (c =? 0) && negb (c =? CREAD_HIST_CHAR) then
      cread_add_to_hist hist_lines buf m (rl_hist s)
    else Ok (m, rl_hist s) in
  Ok (set_hist (hist_set_cur (hist_add_idx h) h)
        (set_line (set_mem m (rl_w s)) (rl_num s) (rl_eol s) s)).

(** One character from [getc]. *)
Definition cread_char (ichar : Z) (s : rl) : outcome rl_result :=
  if ichar =? 0 then Ok (Waiting s)
  else if (ichar =? 10) || (ichar =? 13) then
    let! s := cread_finish (set_line (putc 13 (putc 10 (rl_w s))) (rl_num s) (rl_eol s) s) in
    Ok (Finished s)
  else
    match rl_esc s with
    | [] => cread_key ichar s
    | esc =>
        match esc_action esc ichar with
        | ESC_SAVE => Ok (Waiting (set_esc (esc ++ [ichar]) s))
        | ESC_REJECT =>
            let esc := esc ++ [ichar] in
            let! s := cread_add_str (Local esc) (Z.of_nat (length esc)) (rl_insert s) s in
            Ok (Waiting (set_esc [] s))
        | ESC_CONVERTED ichar => cread_key ichar (set_esc [] s)
        end
    end.

(** The loop of [cread_line] over the characters that arrive. *)
Fixpoint cread_loop (input : list Z) (s : rl) : outcome rl_result :=
  match input with
  | [] => Ok (Waiting s)
  | c :: input =>
      let! r := cread_char c s in
      match r with
      | Waiting s => cread_loop input s
      | r => Ok r
      end
  end.

(** [cread_line]: the initial contents of the buffer, then the loop. *)
Definition cread_line (h : hist) (input : list Z) (w : world) : outcome rl_result :=
  let! n := strlen (w_mem w) buf in
  let init_len := s32 n in
  let s := RL w 0 0 true [] h in
  let! s := if negb (init_len =? 0) then cread_add_str (Ptr buf) init_len true s else Ok s in
  cread_loop input s.

(** [cli_readline_into_buffer] with editing: [h] is [None] until the history
    is initialised ([initted]).  The value returned is -1 after ^C and the
    length of the line after a newline; the branch under [else] is dead. *)
Definition cli_readline_into_buffer (h : option hist) (input : list Z) (w : world) : outcome rl_result :=
  let! '(m, h) :=
    match h with
    | Some h => Ok (w_mem w, h)
    | None => hist_init hist_lines (w_mem w)
    end in
  let w := set_mem m w in
  let! w := if negb (prompt =? NULL) then puts prompt w else Ok w in
  cread_line h input w.

Definition cli_readline (h : option hist) (input : list Z) (w : world) : outcome rl_result :=
  let! m := store8 (w_mem w) buf 0 in
  cli_readline_into_buffer h input (set_mem m w).
End editor.
