(* ===== verification/CompleteFacts.v ===== *)
(** * Completion keeps its contract

    [cmd_auto_complete] (common/command.c) as the line editor uses it: on any
    memory the search for candidates, the common prefix and the printing of
    the candidates end, and what is written lies in [tmp_buf] and in the part
    of the line buffer that the new length covers.  This is the instance of
    the class [Completer] for the function of the repository. *)

From S2P Require Import Prelude CMem Ctype Str StrFacts StrSafe Strto Fmt Console Command CliSimple CliFacts CliReadline.

Local Open Scope Z_scope.
Local Open Scope c_scope.

(** A terminator makes a string of what comes before it. *)
Lemma cstr_upto m p n :
  wf_mem m -> mapped m p (Z.of_nat n) -> m !! (p + Z.of_nat n) = Some 0 ->
  exists s, cstr m p s /\ (length s <= n)%nat.
Proof.
  intros Hm. revert p. induction n as [|n IH]; intros p Hp Hz.
  - rewrite Z.add_0_r in Hz. exists []. split; [|done]. split; [by split|constructor].
  - destruct (Hp p) as [b Hb]; [lia|]. destruct (Z.eq_dec b 0) as [->|Hnz].
    + exists []. split; [|simpl; lia]. split; [by split|constructor].
    + destruct (IH (p + 1)) as (s & [Hs HF] & Hl).
      * eapply mapped_sub; [exact Hp|lia|lia].
      * by replace (p + 1 + Z.of_nat n) with (p + Z.of_nat (S n)) by lia.
      * exists (b :: s). split; [|simpl; lia]. split; [by split|]. constructor; [|done].
        pose proof (Hm p b Hb) as [? ?]. lia.
Qed.

(** ** Searching the table *)

Lemma name_len_ends m cmd : ends (name_len m cmd) (fun _ => True).
Proof. unfold name_len. ends_step strchr_ends as p _. case_match; [apply strlen_ends|done]. Qed.

Lemma find_loop_ends m cmd len table : forall i temp n, ends (find_loop m cmd len table i temp n) (fun _ => True).
Proof.
  induction table as [|c table IH]; intros i temp n; cbn [find_loop]; [done|].
  ends_step strncmp_ends as d _. case_match; [|apply IH]. ends_step strlen_ends as l _. case_match; [done|apply IH].
Qed.

Lemma find_cmd_tbl_ends m cmd table : ends (find_cmd_tbl m cmd table) (fun _ => True).
Proof. unfold find_cmd_tbl. case_match; [done|]. ends_step name_len_ends as l _. apply find_loop_ends. Qed.

Lemma list_matches_ends m cmd len maxv table : forall n, ends (list_matches m cmd len maxv n table) (fun _ => True).
Proof.
  induction table as [|c table IH]; intros n; cbn [list_matches]; [done|].
  ends_step strlen_ends as k _. case_match; [apply IH|]. ends_step memcmp_ends as d _.
  case_match; [apply IH|]. case_match; [done|]. eapply ends_bind; [apply IH|]. done.
Qed.

(** Completion functions of commands end; the tables of the repository have
    none. *)
Definition completers_end (table : list cmd_tbl_t) : Prop :=
  Forall (fun c => forall f, complete c = Some f ->
    forall m argc argv last_char maxv, ends (f m argc argv last_char maxv) (fun _ => True)) table.

Lemma complete_subcmdv_ends m table argc argv last_char maxv :
  completers_end table -> ends (complete_subcmdv m table argc argv last_char maxv) (fun _ => True).
Proof.
  intros Ht. unfold complete_subcmdv. case_match; [done|]. case_match; [done|]. destruct argv as [|cmd argv]; [done|].
  case_match.
  - ends_step find_cmd_tbl_ends as found _. destruct found as [i|]; [|done]. destruct (table !! i) as [c|] eqn:Ei; [|done].
    destruct (complete c) as [f|] eqn:Ec; [|done]. unfold completers_end in Ht. rewrite list.Forall_forall in Ht.
    apply (Ht c (list_elem_of_lookup_2 _ _ _ Ei) f Ec).
  - ends_step name_len_ends as l _. eapply ends_bind; [apply list_matches_ends|]. done.
Qed.

(** ** What to append *)

Lemma cand_load_ends m c i : ends (cand_load m c i) (fun _ => True).
Proof. destruct c; cbn [cand_load]; [eapply ends_mono; [apply ends_load8|done]|by case_match]. Qed.

Lemma cand_len_ends m c : ends (cand_len m c) (fun n => 0 <= n).
Proof. destruct c; [apply strlen_nonneg|done]. Qed.

Lemma cand_len_from_ends m c k : ends (cand_len_from m c k) (fun n => 0 <= n).
Proof. destruct c; cbn [cand_len_from]; [apply strlen_nonneg|]. case_cmp; [cbn; lia|done]. Qed.

Lemma prefix_len_ends m t anchor len : ends (prefix_len m t anchor len) (fun _ => True).
Proof.
  unfold prefix_len. apply (ends_while (fun i => 0 <= i) (fun i => Z.to_nat (len - i))); [|lia|lia].
  intros i Hi. case_cmp; [|done]. eapply ends_bind; [apply cand_load_ends|]. intros a _.
  eapply ends_bind; [apply cand_load_ends|]. intros b _. case_match; simpl; [done|lia].
Qed.

Lemma common_loop_ends m anchor argv : forall len, ends (common_loop m anchor len argv) (fun _ => True).
Proof.
  induction argv as [|t argv IH]; intros len; cbn [common_loop]; [done|]. eapply ends_bind; [apply prefix_len_ends|]. intros l _. apply IH.
Qed.

Lemma find_common_prefix_ends m argv : ends (find_common_prefix m argv) (fun _ => True).
Proof. destruct argv as [|a argv]; [done|]. cbn. eapply ends_bind; [apply cand_len_ends|]. intros l _. apply common_loop_ends. Qed.

(** A text to append has no negative length. *)
Lemma completion_ends m i cmdv argv last_char :
  ends (completion m i cmdv argv last_char) (fun r => match r with Some (_, _, len, _) => 0 <= len | None => True end).
Proof.
  unfold completion. destruct cmdv as [|c cmdv]; [by case_match|].
  eapply (ends_bind _ _ (fun _ => True)).
  { case_match; [done|]. case_match; [apply find_common_prefix_ends|done]. }
  intros j _. destruct ((i =? 1) || negb (j =? 0)); [|done]. eapply (ends_bind _ _ (fun _ => True)).
  { case_match; [|done]. case_match; [eapply ends_mono; [apply strlen_ends|done]|done]. }
  intros k _. case_match; [eapply ends_bind; [apply cand_len_from_ends|]; intros n Hn; exact Hn|]. case_cmp; simpl; [lia|done].
Qed.

(** ** Printing *)

Lemma puts_keeps p w : ends (puts p w) (fun w' => w_mem w' = w_mem w).
Proof. unfold puts. ends_step strlen_ends as n _. done. Qed.

Lemma print_argv_keeps linemax argv : forall i w, ends (print_argv_loop linemax i argv w) (fun w' => w_mem w' = w_mem w).
Proof.
  induction argv as [|a argv IH]; intros i w; cbn [print_argv_loop]; [done|]. eapply ends_bind; [apply cand_len_ends|]. intros n _.
  destruct (linemax <=? i + (n + 1)).
  all: eapply (ends_bind _ _ (fun w' => w_mem w' = w_mem w)); [destruct a; [eapply ends_mono; [apply puts_keeps|done]|done]|].
  all: intros w' E; eapply ends_mono; [apply IH|]; cbv beta; congruence.
Qed.

(** ** Appending *)

Definition grown (lo hi : Z) (m m' : mem) : Prop := frame lo hi m m' /\ (wf_mem m -> wf_mem m').

Lemma grown_insert lo hi m m' p v : grown lo hi m m' -> is_Some (m' !! p) -> lo <= p < hi -> grown lo hi m (<[p := u8 v]> m').
Proof.
  intros [Hf Hw] Hp Hr. split; [by apply frame_insert|]. intros H a b. destruct (Z.eq_dec p a) as [->|Hne].
  - rewrite lookup_insert_eq. intros [= <-]. apply u8_range.
  - rewrite lookup_insert_ne by done. by apply Hw.
Qed.

Lemma copy_cand_grows m t c k len : 0 <= len -> ends (copy_cand m t c k len) (grown t (t + len) m).
Proof.
  intros Hl. unfold copy_cand.
  apply (ends_while (fun '(m', i) => 0 <= i <= len /\ grown t (t + len) m m') (fun '(_, i) => Z.to_nat (len - i))); [| |lia].
  - intros [m' i] [Hi Hg]. case_cmp; [|done]. eapply ends_bind; [apply cand_load_ends|]. intros b _.
    ends_step ends_store8 as m2 [Hp ->]. simpl. split; [|lia]. split; [lia|]. apply grown_insert; [done|done|lia].
  - split; [lia|]. split; [apply frame_refl|done].
Qed.

Lemma grown_trans lo hi lo' hi' m1 m2 m3 :
  grown lo hi m1 m2 -> lo' <= lo -> hi <= hi' -> grown lo' hi' m2 m3 -> grown lo' hi' m1 m3.
Proof.
  intros [F1 W1] H1 H2 [F2 W2]. split; [|auto]. eapply frame_trans; [|exact F2]. eapply frame_mono; [exact F1|lia|lia].
Qed.

(** ** The contract *)

Section instance.
Context (cmd_table : list cmd_tbl_t) (ps_prompt tmp_buf buf : Z).
Context (Hcs : completers_end cmd_table) (Hapart : buf + CONFIG_SYS_CBSIZE < tmp_buf \/ tmp_buf + CONFIG_SYS_CBSIZE < buf).

(** The copy of the line, cut into words, stays in [tmp_buf]. *)
Lemma words_in_tmp m n :
  0 <= n <= CONFIG_SYS_CBSIZE -> wf_mem m -> mapped m buf (CONFIG_SYS_CBSIZE + 1) -> m !! (buf + n) = Some 0 ->
  mapped m tmp_buf (CONFIG_SYS_CBSIZE + 1) ->
  exists l m1 m2 argv, cstr m buf l /\ Z.of_nat (length l) <= n /\ strcpy m tmp_buf buf = Ok m1 /\
    make_argv m1 tmp_buf (CONFIG_SYS_MAXARGS + 1) = Ok (m2, argv) /\ grown tmp_buf (tmp_buf + CONFIG_SYS_CBSIZE + 1) m m2.
Proof.
  intros Hn Hw Hm Hz Ht. destruct (cstr_upto m buf (Z.to_nat n)) as (l & Hl & Hln).
  { done. }
  { eapply mapped_sub; [exact Hm|lia|lia]. }
  { by replace (buf + Z.of_nat (Z.to_nat n)) with (buf + n) by lia. }
  assert (mapped m tmp_buf (Z.of_nat (length (l ++ [0])))) as Htl.
  { rewrite length_app. eapply mapped_sub; [exact Ht|lia|simpl; lia]. }
  set (m1 := write_bytes m tmp_buf (l ++ [0])). assert (cstr m1 tmp_buf l) as H1 by (split; [apply write_bytes_at|apply Hl]).
  destruct (make_argv_cstr m1 tmp_buf l (CONFIG_SYS_MAXARGS + 1) H1 ltac:(done)) as (m2 & argv & E & [_ Hf _ Hz2]).
  exists l, m1, m2, argv. split; [done|]. split; [lia|]. split; [|split; [done|split; [split|]]].
  - apply strcpy_write; [done|rewrite length_app in Htl; simpl in Htl; by replace (Z.of_nat (length l) + 1) with (Z.of_nat (length l + 1)) by lia|].
    unfold forward_ok. lia.
  - transitivity (dom m1); [|by apply dom_write_bytes]. apply set_eq. intros a. rewrite !elem_of_dom.
    destruct (Hz2 a) as [->|[-> Hs]]; [done|]. split; [done|eauto].
  - intros a Ha. rewrite Hf by lia. apply lookup_write_bytes_ne. rewrite length_app. simpl. lia.
  - intros _ a b Hb. assert (wf_mem m1) as Hw1.
    { apply wf_mem_write; [done|]. apply list.Forall_app_2; [apply cstr_byte_range, Hl|]. constructor; [done|constructor]. }
    destruct (Hz2 a) as [E2|[E2 _]]; rewrite E2 in Hb; [by eapply Hw1|]. by injection Hb as <-.
Qed.

#[export] Instance cmd_auto_complete_completer :
  Completer buf tmp_buf (tmp_buf + CONFIG_SYS_CBSIZE + 1) (cmd_auto_complete cmd_table ps_prompt tmp_buf).
Proof.
  intros prompt n col w Hn Hw Hm Hz Hx.
  set (Q := fun '(w', _, n', _) => n <= n' /\ (n' = n \/ n' < CONFIG_SYS_CBSIZE - 2) /\
      (forall a b, w_mem w' !! a = Some b -> byte_range b) /\ dom (w_mem w') =@{gset Z} dom (w_mem w) /\
      forall a, ~ (buf <= a <= buf + n') -> ~ (tmp_buf <= a < tmp_buf + CONFIG_SYS_CBSIZE + 1) -> w_mem w' !! a = w_mem w !! a).
  change (ends (cmd_auto_complete cmd_table ps_prompt tmp_buf prompt buf n col w) Q).
  assert (forall w' r (c : Z), grown tmp_buf (tmp_buf + CONFIG_SYS_CBSIZE + 1) (w_mem w) (w_mem w') -> ends (Ok (w', r, n, c)) Q) as Hsame.
  { intros w' r c [[Hd Hf] Hwf]. split; [lia|]. split; [by left|]. split; [by apply Hwf|]. split; [done|]. intros a _ Ha. by apply Hf. }
  destruct (words_in_tmp (w_mem w) n Hn Hw Hm Hz) as (l & m1 & m2 & argv & Hl & Hln & E1 & E2 & Hg).
  { eapply mapped_sub; [exact Hx|lia|lia]. }
  unfold cmd_auto_complete. ends_step strcmp_ends as d _. destruct (negb _); [apply Hsame; split; [apply frame_refl|done]|].
  rewrite (strlen_cstr _ _ _ Hl). cbn [obind]. set (cnt := Z.of_nat (length l)).
  eapply (ends_bind _ _ (fun _ => True)); [case_match; [eapply ends_mono; [apply ends_load8|done]|done]|]. intros last_char _.
  rewrite E1. cbn [obind]. rewrite E2. cbn [obind]. set (w2 := set_mem m2 w).
  eapply ends_bind; [by apply complete_subcmdv_ends|]. intros [i cmdv] _. destruct (i =? 0).
  { case_match; by apply Hsame. }
  eapply ends_bind; [apply completion_ends|]. intros [[[[src k0] len] sep]|] Hlen.
  - set (k := len + (if sep then 1 else 0)). assert (len <= k <= len + 1) as Hk by (unfold k; destruct sep; lia).
    destruct (Z.leb_spec (CONFIG_SYS_CBSIZE - 2) (n + k)); [by apply Hsame|].
    eapply ends_bind; [by apply copy_cand_grows|]. intros m3 Hg3.
    eapply (ends_bind _ _ (fun '(m', t) => t = buf + cnt + k /\ grown (buf + cnt) (buf + cnt + k) m2 m')).
    { assert (grown (buf + cnt) (buf + cnt + k) m2 m3) as Hg4.
      { destruct Hg3 as [F W]. split; [|done]. eapply frame_mono; [exact F|lia|lia]. }
      unfold k in *. destruct sep; [|split; [lia|done]]. ends_step ends_store8 as m4 [Hp ->]. split; [lia|]. apply grown_insert; [done|done|lia]. }
    intros [m4 t] [-> Hg4]. ends_step ends_store8 as m5 [Hp ->].
    eapply ends_bind; [apply puts_keeps|]. intros w5 E5. cbn [w_mem set_mem] in E5.
    assert (grown (buf + cnt) (buf + cnt + k + 1) m2 (<[buf + cnt + k := u8 0]> m4)) as [[Hd5 Hf5] Hw5].
    { apply grown_insert; [|done|lia]. destruct Hg4 as [F W]. split; [|done]. eapply frame_mono; [exact F|lia|lia]. }
    destruct Hg as [[Hd2 Hf2] Hw2].
    assert (w_mem (if sep then w5 else putc 7 w5) = w_mem w5) as Ew by by destruct sep.
    cbv zeta. cbn [ends]. unfold Q. rewrite Ew, E5. split; [lia|]. split; [right; lia|]. split; [by apply Hw5, Hw2|]. split; [by rewrite Hd5|].
    intros a Ha Ht. rewrite Hf5 by (unfold cnt; lia). by apply Hf2.
  - eapply ends_bind; [apply print_argv_keeps|]. intros w3 E3. eapply ends_bind; [apply puts_keeps|]. intros w4 E4.
    eapply ends_bind; [apply puts_keeps|]. intros w5 E5. apply Hsame. by rewrite E5, E4, E3.
Qed.
End instance.
