(* ===== verification/ReadlineFacts.v ===== *)
(** * The line editor never overruns its buffers

    An invariant of the editor state ([good]) that every key preserves: the
    cursor and the end of line are inside the buffer, the history indices are
    inside the history, every history line is a terminated string that fits
    the buffer, and nothing outside the buffer, the history and the scratch
    region of completion has changed.  Under it every key but TAB returns
    without a fault; TAB ends and keeps the invariant by the contract
    [Completer], which [CompleteFacts] shows of [cmd_auto_complete]. *)

From S2P Require Import Prelude CMem Ctype Str StrFacts Strto Fmt Console Command CliReadline CompleteFacts.

Local Open Scope Z_scope.
Local Open Scope c_scope.

Definition LINE : Z := HIST_SIZE + 1.

Lemma strnlen_mapped m s n :
  0 <= n -> mapped m s n -> returns (strnlen m s n) (fun k => 0 <= k <= n).
Proof.
  intros Hn Hm. pose proof (mapped_size _ _ _ Hm) as Hsz. unfold strnlen.
  apply (returns_while (fun '(p, c) => s <= p /\ 0 <= c /\ p + c = s + n) (fun '(_, c) => Z.to_nat c));
    [|lia|unfold fuel_of; lia].
  intros [p c] (Hp & Hc & He). case_cmp; [apply returns_ok; lia|].
  destruct (Hm p) as [b Hb]; [lia|]. rewrite (load8_lookup _ _ _ Hb). cbn [obind].
  case_cmp; apply returns_ok; lia.
Qed.

Lemma putnstr_returns str n w :
  0 <= n -> mapped (w_mem w) str n ->
  returns (putnstr str n w) (fun w' => w_mem w' = w_mem w).
Proof.
  intros Hn Hm. unfold putnstr. returns_step strnlen_mapped as k Hk; [done|done|]. by apply returns_ok.
Qed.

Lemma w_mem_putcs n c w : w_mem (putcs n c w) = w_mem w.
Proof. unfold putcs. induction (Z.to_nat n) as [|k IH]; [done|]. simpl. by rewrite <- IH. Qed.

Section invariant.
Context (m0 : mem) (buf hist_lines len xlo xhi : Z).
Hypothesis Hlen : 1 <= len <= CONFIG_SYS_CBSIZE.
Hypothesis Hdisj : buf + len < hist_lines \/ hist_lines + HIST_MAX * LINE <= buf.

Definition in_buf (a : Z) : Prop := buf <= a <= buf + len.
Definition in_hist (a : Z) : Prop := hist_lines <= a < hist_lines + HIST_MAX * LINE.

Record good_mem (m : mem) : Prop := {
  gm_wf : wf_mem m;
  gm_dom : dom m =@{gset Z} dom m0;
  gm_frame : forall a, ~ in_buf a -> ~ in_hist a -> ~ (xlo <= a < xhi) -> m !! a = m0 !! a;
  gm_buf : mapped m buf (len + 1);
  gm_hist : mapped m hist_lines (HIST_MAX * LINE);
  gm_lines : forall i, 0 <= i < HIST_MAX ->
    exists s, cstr m (hist_list hist_lines i) s /\ Z.of_nat (length s) <= len
}.

Record good_hist (h : hist) : Prop := {
  gh_add : 0 <= hist_add_idx h <= hist_max h;
  gh_max : hist_max h < HIST_MAX;
  gh_cur : -1 <= hist_cur h <= hist_max h
}.

Record good (s : rl) : Prop := {
  g_mem : good_mem (w_mem (rl_w s));
  g_num : 0 <= rl_num s <= rl_eol s;
  g_eol : rl_eol s <= len;
  g_esc : (length (rl_esc s) <= 3)%nat;
  g_hist : good_hist (rl_hist s)
}.

Lemma good_mem_write m p l :
  good_mem m -> buf <= p -> p + Z.of_nat (length l) <= buf + len + 1 -> Forall byte_range l ->
  good_mem (write_bytes m p l).
Proof.
  intros [Hw Hd Hf Hb Hh Hl] Hlo Hhi HF.
  assert (mapped m p (Z.of_nat (length l))) as Hm by (eapply mapped_sub; [exact Hb|lia|lia]).
  split.
  - by apply wf_mem_write.
  - by rewrite dom_write_bytes.
  - intros a Ha Ha' Hx. rewrite lookup_write_bytes_ne; [auto|]. unfold in_buf in Ha. lia.
  - by apply mapped_write_bytes.
  - by apply mapped_write_bytes.
  - intros i Hi. destruct (Hl i Hi) as (s & Hs & Hls). exists s. split; [|done].
    apply cstr_write_ne; [done|].
    unfold hist_list, LINE, HIST_SIZE, HIST_MAX, CONFIG_SYS_CBSIZE in *. lia.
Qed.

Lemma good_mem_store m p v :
  good_mem m -> buf <= p <= buf + len ->
  returns (store8 m p v) (fun m' => good_mem m' /\ m' = <[p := u8 v]> m).
Proof.
  intros Hm Hp. rewrite store8_mapped by (apply (gm_buf _ Hm); lia). apply returns_ok.
  split; [|done]. apply (good_mem_write m p [u8 v] Hm); [lia|simpl; lia|].
  constructor; [apply u8_range|constructor].
Qed.

Lemma good_mem_memmove m dest src n :
  good_mem m -> 0 <= n -> buf <= dest -> dest + n <= buf + len + 1 ->
  buf <= src -> src + n <= buf + len + 1 ->
  returns (memmove m dest src n) good_mem.
Proof.
  intros Hm Hn Hd1 Hd2 Hs1 Hs2.
  set (l := read_bytes m src (Z.to_nat n)).
  assert (length l = Z.to_nat n) as Hl by apply length_read_bytes.
  assert (mapped m src (Z.of_nat (Z.to_nat n))) as Hsrc.
  { eapply mapped_sub; [apply (gm_buf _ Hm)|lia|lia]. }
  assert (Forall byte_range l) as HF by (apply wf_mem_read; [apply Hm|done]).
  replace n with (Z.of_nat (length l)) by lia.
  rewrite memmove_write.
  - apply returns_ok, good_mem_write; [done|lia|lia|done].
  - by apply read_bytes_at.
  - done.
  - eapply mapped_sub; [apply (gm_buf _ Hm)|lia|lia].
Qed.

Lemma putnstr_good str n w :
  good_mem (w_mem w) -> 0 <= n -> buf <= str -> str + n <= buf + len + 1 ->
  returns (putnstr str n w) (fun w' => good_mem (w_mem w')).
Proof.
  intros Hm Hn Hs Hs'. eapply returns_mono.
  - apply putnstr_returns; [done|]. eapply mapped_sub; [apply (gm_buf _ Hm)|lia|lia].
  - cbv beta. by intros w' ->.
Qed.

Lemma good_set_line s w num eol :
  good s -> good_mem (w_mem w) -> 0 <= num <= eol -> eol <= len -> good (set_line w num eol s).
Proof. intros [] ? ? ?. by split. Qed.

Lemma good_beep s : good s -> good (beep s).
Proof. intros []. by split. Qed.

Lemma good_begin s : good s -> good (BEGINNING_OF_LINE s).
Proof.
  intros Hs. pose proof Hs as []. apply good_set_line; [done|by rewrite w_mem_putcs|lia|done].
Qed.

Lemma good_erase s : good s -> good (ERASE_TO_EOL s).
Proof.
  intros Hs. pose proof Hs as []. unfold ERASE_TO_EOL. case_cmp; [|done].
  apply good_set_line; [done|by rewrite w_mem_putcs|lia|lia].
Qed.

Lemma refresh_good s : good s -> returns (REFRESH_TO_EOL buf s) good.
Proof.
  intros Hs. pose proof Hs as []. unfold REFRESH_TO_EOL. case_cmp; [|by apply returns_ok].
  returns_step putnstr_good as w' Hw; [done|lia|lia|lia|].
  apply returns_ok, good_set_line; [done|done|lia|lia].
Qed.

Lemma add_char_good c insert s : good s -> returns (cread_add_char buf len c insert s) good.
Proof.
  intros Hs. pose proof Hs as []. unfold cread_add_char. rewrite u64_small by (unfold CONFIG_SYS_CBSIZE in *; lia). cbv zeta.
  destruct ((insert || _) && _) eqn:Efull; [by apply returns_ok, good_beep|].
  set (eol := if insert || (rl_num s =? rl_eol s) then rl_eol s + 1 else rl_eol s).
  assert (rl_num s < eol <= len /\ rl_eol s <= eol) as Heol.
  { unfold eol. destruct insert; cbn [orb andb] in *; [lia|].
    destruct (Z.eqb_spec (rl_num s) (rl_eol s)); cbn [andb] in *; lia. }
  destruct insert.
  - eapply (returns_bind _ _ good_mem).
    { case_cmp; [|by apply returns_ok]. apply good_mem_memmove; [done|lia..]. }
    intros m1 Hm1. returns_step good_mem_store as m2 [Hm2 _]; [done|lia|].
    returns_step putnstr_good as w' Hw; [done|lia|lia|lia|].
    apply returns_ok, good_set_line; [done|by rewrite w_mem_putcs|lia|lia].
  - returns_step good_mem_store as m2 [Hm2 _]; [done|lia|].
    returns_step putnstr_good as w' Hw; [done|lia|lia|lia|].
    apply returns_ok, good_set_line; [done|done|lia|lia].
Qed.

Lemma delete_forward_good s : good s -> returns (delete_forward buf s) good.
Proof.
  intros Hs. pose proof Hs as []. unfold delete_forward. cbv zeta.
  destruct (Z.ltb_spec (rl_num s) (rl_eol s)); [|by apply returns_ok].
  eapply (returns_bind _ _ (fun w => good_mem (w_mem w))).
  - case_cmp; cbn [negb]; [by apply returns_ok|].
    returns_step good_mem_memmove as m1 Hm1; [done|lia..|]. apply putnstr_good; [done|lia..].
  - intros w' Hw. apply returns_ok, good_set_line; [done|by rewrite w_mem_putcs|lia|lia].
Qed.

Lemma delete_backward_good s : good s -> returns (delete_backward buf s) good.
Proof.
  intros Hs. pose proof Hs as []. unfold delete_backward. cbv zeta.
  case_cmp; cbn [negb]; [by apply returns_ok|].
  returns_step good_mem_memmove as m1 Hm1; [done|lia..|].
  returns_step putnstr_good as w' Hw; [done|lia..|].
  apply returns_ok, good_set_line; [done|by rewrite w_mem_putcs|lia|lia].
Qed.

(** ** History *)

Lemma hist_prev_good h :
  good_hist h ->
  good_hist (fst (hist_prev hist_lines h)) /\
  forall p, snd (hist_prev hist_lines h) = Line p -> exists i, 0 <= i < HIST_MAX /\ p = hist_list hist_lines i.
Proof.
  intros Hh. pose proof Hh as []. unfold hist_prev.
  destruct (Z.ltb_spec (hist_cur h) 0); [done|]. cbv zeta.
  set (c := if hist_cur h - 1 <? 0 then hist_max h else hist_cur h - 1).
  assert (0 <= c <= hist_max h) as Hc by (unfold c; case_cmp; lia).
  case_cmp; [done|]. cbn [fst snd]. split; [split; cbn; lia|].
  intros p [= <-]. exists c. split; [lia|done].
Qed.

Lemma hist_next_good h :
  good_hist h ->
  good_hist (fst (hist_next hist_lines h)) /\
  forall p, snd (hist_next hist_lines h) = Line p -> exists i, 0 <= i < HIST_MAX /\ p = hist_list hist_lines i.
Proof.
  intros Hh. pose proof Hh as []. unfold hist_next.
  destruct (Z.ltb_spec (hist_cur h) 0); [done|].
  destruct (Z.eqb_spec (hist_cur h) (hist_add_idx h)); [done|]. cbv zeta.
  set (c := if hist_max h <? hist_cur h + 1 then 0 else hist_cur h + 1).
  assert (0 <= c <= hist_max h) as Hc by (unfold c; case_cmp; lia).
  cbn [fst snd]. split; [split; cbn; lia|]. case_cmp; [done|].
  intros p [= <-]. exists c. split; [lia|done].
Qed.

(** Loading a line into the buffer. *)
Lemma load_line_good m p s :
  good_mem m -> cstr m p s -> Z.of_nat (length s) <= len ->
  (p = buf \/ buf + len < p \/ p + Z.of_nat (length s) < buf) ->
  returns (strcpy m buf p) (fun m' => good_mem m' /\
    exists n, strlen m' buf = Ok n /\ 0 <= n <= len).
Proof.
  intros Hm Hs Hl Hd. rewrite (strcpy_write m buf p s Hs).
  - apply returns_ok. split.
    + apply good_mem_write; [done|lia|rewrite length_app; simpl; lia|].
      apply Forall_app. split; [apply cstr_byte_range, Hs|]. constructor; [done|constructor].
    + exists (Z.of_nat (length s)). split; [|lia]. apply strlen_cstr. split; [apply write_bytes_at|apply Hs].
  - eapply mapped_sub; [apply (gm_buf _ Hm)|lia|lia].
  - unfold forward_ok. lia.
Qed.

Lemma hist_line_apart m i s :
  0 <= i < HIST_MAX -> good_mem m -> cstr m (hist_list hist_lines i) s -> Z.of_nat (length s) <= len ->
  buf + len < hist_list hist_lines i \/ hist_list hist_lines i + Z.of_nat (length s) < buf.
Proof.
  intros Hi Hm Hs Hl. unfold hist_list, LINE, HIST_SIZE, HIST_MAX, CONFIG_SYS_CBSIZE in *. lia.
Qed.

Lemma history_key_good prev s : good s -> returns (history_key buf hist_lines prev s) good.
Proof.
  intros Hs. unfold history_key. cbv zeta.
  destruct Hs as [Hm Hn He Hesc Hh]. cbn [rl_hist set_esc].
  set (r := if prev then hist_prev hist_lines (rl_hist s) else hist_next hist_lines (rl_hist s)).
  assert (good_hist (fst r) /\ forall p, snd r = Line p ->
    exists i, 0 <= i < HIST_MAX /\ p = hist_list hist_lines i) as [Hr Hp]
    by (unfold r; destruct prev; [by apply hist_prev_good|by apply hist_next_good]).
  destruct r as [h l]. cbn [fst snd] in *.
  assert (good (set_hist h (set_esc [] s))) as Hs1 by (split; cbn; try done; lia).
  set (s1 := set_hist h (set_esc [] s)) in *.
  destruct l as [| |p]; [by apply returns_ok, good_beep| |].
  - pose proof (good_erase _ (good_begin _ Hs1)) as Hs2. set (s2 := ERASE_TO_EOL _) in *.
    destruct Hs2 as [Hm2 Hn2 He2 Hc2 Hh2].
    returns_step good_mem_store as m' [Hm' ->]; [done|lia|].
    assert (strlen (<[buf:=u8 0]> (w_mem (rl_w s2))) buf = Ok 0) as ->.
    { apply (strlen_cstr _ buf []). split; [|constructor]. split; [|done]. apply lookup_insert_eq. }
    cbn [obind]. apply refresh_good.
    assert (rl_num s2 = 0) as Hz by (unfold s2, ERASE_TO_EOL; cbn; by case_cmp).
    split; cbn; [done|lia|lia|done|done].
  - pose proof (good_erase _ (good_begin _ Hs1)) as Hs2. set (s2 := ERASE_TO_EOL _) in *.
    destruct Hs2 as [Hm2 Hn2 He2 Hc2 Hh2].
    destruct (Hp p eq_refl) as (i & Hi & ->). destruct (gm_lines _ Hm2 i Hi) as (t & Ht & Hlt).
    returns_step load_line_good as m' (Hm' & n & En & Hn'); [done|exact Ht|done| |].
    { right. by eapply hist_line_apart. }
    rewrite En. cbn [obind]. apply refresh_good.
    assert (rl_num s2 = 0) as Hz by (unfold s2, ERASE_TO_EOL; cbn; by case_cmp).
    split; cbn; [done|lia|lia|done|done].
Qed.

(** Storing a string that fits a line as history line [i]. *)
Lemma good_mem_hist m i s :
  good_mem m -> 0 <= i < HIST_MAX -> Z.of_nat (length s) <= len ->
  Forall (fun b => 0 < b < 256) s -> good_mem (write_bytes m (hist_list hist_lines i) (s ++ [0])).
Proof.
  intros [Hw Hd Hf Hb Hh Hl] Hi Hs HF.
  assert (HF' : Forall byte_range (s ++ [0])).
  { apply Forall_app. split; [by apply cstr_byte_range|]. constructor; [done|constructor]. }
  assert (Hlen' : length (s ++ [0]) = S (length s)) by (rewrite length_app; simpl; lia).
  assert (hist_lines <= hist_list hist_lines i /\
          hist_list hist_lines i + LINE <= hist_lines + HIST_MAX * LINE) as Hin
    by (unfold hist_list, LINE, HIST_MAX, HIST_SIZE, CONFIG_SYS_CBSIZE in *; lia).
  assert (len < LINE) as HL by (unfold LINE, HIST_SIZE in *; lia).
  assert (mapped m (hist_list hist_lines i) (Z.of_nat (length (s ++ [0])))) as Hm
    by (eapply mapped_sub; [exact Hh|lia|lia]).
  split.
  - by apply wf_mem_write.
  - by rewrite dom_write_bytes.
  - intros a Ha Ha' Hx. rewrite lookup_write_bytes_ne; [auto|]. unfold in_hist in Ha'. lia.
  - by apply mapped_write_bytes.
  - by apply mapped_write_bytes.
  - intros j Hj. destruct (Z.eq_dec j i) as [->|Hne].
    + exists s. split; [|done]. split; [apply write_bytes_at|done].
    + destruct (Hl j Hj) as (t & Ht & Hlt). exists t. split; [|done].
      apply cstr_write_ne; [done|].
      unfold hist_list, LINE, HIST_MAX, HIST_SIZE, CONFIG_SYS_CBSIZE in *. nia.
Qed.

Lemma add_to_hist_good m h s :
  good_mem m -> good_hist h -> cstr m buf s -> Z.of_nat (length s) <= len ->
  returns (cread_add_to_hist hist_lines buf m h) (fun '(m', h') => good_mem m' /\ good_hist h').
Proof.
  intros Hm Hh Hs Hl. pose proof Hh as []. unfold cread_add_to_hist.
  assert (0 <= hist_add_idx h < HIST_MAX) as Hi by lia.
  rewrite (strcpy_write m _ buf s Hs).
  - apply returns_ok. split; [apply good_mem_hist; auto; apply Hs|].
    set (add := if HIST_MAX <=? hist_add_idx h + 1 then 0 else hist_add_idx h + 1).
    assert (0 <= add < HIST_MAX) as Ha by (unfold add, HIST_MAX in *; case_cmp; lia).
    destruct (Z.ltb_spec (hist_max h) add); split; cbn; lia.
  - eapply mapped_sub; [apply (gm_hist _ Hm)| |];
      unfold hist_list, LINE, HIST_MAX, HIST_SIZE, CONFIG_SYS_CBSIZE in *; lia.
  - unfold forward_ok, hist_list, LINE, HIST_MAX, HIST_SIZE, CONFIG_SYS_CBSIZE in *. lia.
Qed.

Lemma finish_good s : good s -> returns (cread_finish buf hist_lines s) good.
Proof.
  intros Hs. pose proof Hs as [Hm Hn He Hesc Hh]. unfold cread_finish.
  returns_step good_mem_store as m1 [Hm1 E1]; [done|lia|].
  destruct (gm_buf _ Hm1 buf) as [c Hc]; [lia|]. rewrite (load8_lookup _ _ _ Hc). cbn [obind].
  eapply (returns_bind _ _ (fun '(m', h') => good_mem m' /\ good_hist h')).
  - destruct (negb _ && _); [|by apply returns_ok].
    destruct (cstr_upto m1 buf (Z.to_nat (rl_eol s))) as (t & Ht & Hlt).
    + apply Hm1.
    + eapply mapped_sub; [apply (gm_buf _ Hm1)|lia|lia].
    + rewrite E1. replace (buf + Z.of_nat (Z.to_nat (rl_eol s))) with (buf + rl_eol s) by lia.
      apply lookup_insert_eq.
    + eapply add_to_hist_good; [done|done|exact Ht|lia].
  - intros [m2 h2] [Hm2 Hh2]. apply returns_ok. destruct Hh2. split; cbn; [done|lia|lia|done|].
    split; cbn; lia.
Qed.

Lemma add_str_good (l : list Z) insert s :
  good s -> returns (cread_add_str buf len (Local l) (Z.of_nat (length l)) insert s) good.
Proof.
  intros Hs. unfold cread_add_str.
  apply (returns_while (fun '(i, s) => 0 <= i /\ good s) (fun '(i, _) => Z.to_nat (Z.of_nat (length l) - i)));
    [|done|lia].
  intros [i s'] [Hi Hs']. case_cmp; [|by apply returns_ok].
  unfold src_load. destruct (lookup_lt_is_Some_2 l (Z.to_nat i)) as [c Hc]; [lia|]. rewrite Hc.
  cbn [obind]. returns_step add_char_good as s2 Hs2; [done|]. apply returns_ok. split; [|lia]. split; [lia|done].
Qed.

(** ** Keys *)

Context (prompt : Z) (ac : Z -> Z -> Z -> Z -> world -> outcome (world * Z * Z * Z)).
Hypothesis Hfull : len = CONFIG_SYS_CBSIZE.
Hypothesis Hx : xhi <= hist_lines \/ hist_lines + HIST_MAX * LINE <= xlo.
Hypothesis Hxm : mapped m0 xlo (xhi - xlo).

Definition good_result (r : rl_result) : Prop :=
  match r with Waiting s | Finished s | Broken s => good s end.

Lemma good_esc s l : good s -> (length l <= 3)%nat -> good (set_esc l s).
Proof. intros [] ?. by split. Qed.

Lemma cread_key_good c s :
  good s -> c <> 9 -> returns (cread_key buf hist_lines prompt len ac c s) good_result.
Proof.
  intros Hs Hc. pose proof Hs as [Hm Hn He Hesc Hh]. unfold cread_key. cbv zeta.
  destruct (c =? 27).
  { destruct (rl_esc s); apply returns_ok; simpl.
    - apply good_esc; [done|simpl; lia].
    - apply good_esc; [|simpl; lia]. by apply good_set_line. }
  destruct (c =? CTL_CH 97); [by apply returns_ok, good_begin|].
  destruct (c =? CTL_CH 99).
  { returns_step good_mem_store as m1 [Hm1 _]; [done|lia|]. apply returns_ok. by apply good_set_line. }
  destruct (c =? CTL_CH 102).
  { case_cmp; [|by apply returns_ok].
    destruct (gm_buf _ Hm (buf + rl_num s)) as [b Hb]; [lia|]. rewrite (load8_lookup _ _ _ Hb).
    apply returns_ok, good_set_line; [done|done|lia|lia]. }
  destruct (c =? CTL_CH 98).
  { case_cmp; apply returns_ok; [done|]. apply good_set_line; [done|done|lia|lia]. }
  assert (forall (x : outcome rl), returns x good ->
    returns (let! s := x in Ok (Waiting s)) good_result) as Hk
    by (intros x Hxr; eapply returns_bind; [exact Hxr|]; intros; by apply returns_ok).
  destruct (c =? CTL_CH 100); [by apply Hk, delete_forward_good|].
  destruct (c =? CTL_CH 107); [by apply returns_ok, good_erase|].
  destruct (c =? CTL_CH 101); [by apply Hk, refresh_good|].
  destruct (c =? CTL_CH 111); [apply returns_ok; by split|].
  destruct (_ || _); [by apply returns_ok, good_erase, good_begin|].
  destruct (_ || _); [by apply Hk, delete_backward_good|].
  destruct (c =? CTL_CH 112); [by apply Hk, history_key_good|].
  destruct (c =? CTL_CH 110); [by apply Hk, history_key_good|].
  destruct (Z.eqb_spec c 9); [done|]. by apply Hk, add_char_good.
Qed.

Lemma esc_action_key l c k : esc_action l c = ESC_CONVERTED k -> k <> 9.
Proof.
  unfold esc_action, CTL_CH. intros H.
  repeat (case_match; try done); injection H as <-; lia.
Qed.

Lemma esc_action_save l c : esc_action l c = ESC_SAVE -> (length l <= 2)%nat.
Proof. unfold esc_action. intros H. repeat (case_match; try done); simpl; lia. Qed.

(** A character either is a key of the switch or is dealt with here. *)
Lemma cread_char_good (Q : rl_result -> Prop) c s :
  good s -> (forall k s', good s' -> (k = 9 -> c = 9) ->
               ends (cread_key buf hist_lines prompt len ac k s') Q /\
               (k <> 9 -> returns (cread_key buf hist_lines prompt len ac k s') Q)) ->
  (forall r, good_result r -> Q r) ->
  ends (cread_char buf hist_lines prompt len ac c s) Q /\
  (c <> 9 -> returns (cread_char buf hist_lines prompt len ac c s) Q).
Proof.
  intros Hs Hkey HQ. pose proof Hs as [Hm Hn He Hesc Hh]. unfold cread_char.
  assert (forall x, returns x Q -> ends x Q /\ (c <> 9 -> returns x Q)) as Hboth
    by (intros; split; [by apply returns_ends|done]).
  destruct (c =? 0); [by apply Hboth, returns_ok, HQ|].
  destruct (_ || _).
  { apply Hboth. returns_step finish_good as s1 Hs1; [by apply good_set_line|]. by apply returns_ok, HQ. }
  destruct (rl_esc s) as [|e es] eqn:Ee; [destruct (Hkey c s Hs ltac:(done)); auto|].
  destruct (esc_action (e :: es) c) as [| |k] eqn:Ea.
  - apply Hboth. returns_step add_str_good as s1 Hs1; [done|].
    apply returns_ok, HQ, good_esc; [done|simpl; lia].
  - apply Hboth, returns_ok, HQ, good_esc; [done|].
    apply esc_action_save in Ea. rewrite length_app. simpl in *. lia.
  - pose proof (esc_action_key _ _ _ Ea) as Hk.
    destruct (Hkey k (set_esc [] s)) as [_ Hr]; [apply good_esc; [done|simpl; lia]|done|].
    auto.
Qed.

Lemma cread_loop_good input s :
  good s -> 9 ∉ input -> returns (cread_loop buf hist_lines prompt len ac input s) good_result.
Proof.
  revert s. induction input as [|c input IH]; intros s Hs H9; cbn [cread_loop]; [by apply returns_ok|].
  apply not_elem_of_cons in H9 as [Hc H9].
  eapply (returns_bind _ _ good_result).
  - apply cread_char_good; [done| |done|done].
    intros k s' Hs' Hk. assert (k <> 9) by (intros ->; by apply Hc, eq_sym, Hk).
    pose proof (cread_key_good k s' Hs' ltac:(done)). split; [by apply returns_ends|done].
  - intros [s'|s'|s'] Hs'; [by apply IH|by apply returns_ok|by apply returns_ok].
Qed.

Lemma tab_key_good `{!Completer buf xlo xhi ac} s :
  good s -> ends (tab_key buf prompt ac s) good.
Proof.
  intros Hs. pose proof Hs as [Hm Hn He Hesc Hh]. unfold tab_key.
  case_cmp; [by apply good_beep|].
  destruct (good_mem_store (w_mem (rl_w s)) (buf + rl_num s) 0 Hm) as (m1 & -> & Hm1 & E1); [lia|].
  cbn [obind]. ends_step strlen_ends as pl _.
  eapply ends_bind.
  { apply completer_ends; cbn.
    - lia.
    - apply Hm1.
    - rewrite <- Hfull. apply Hm1.
    - rewrite E1. apply lookup_insert_eq.
    - eapply mapped_dom; [apply Hm1|done]. }
  intros [[[w' r] n'] col'] (Hn1 & Hn2 & Hw & Hd & Hf). cbn in Hf, Hd.
  assert (rl_num s <= n' <= len) as Hn' by (rewrite Hfull in *; lia).
  assert (good_mem (w_mem w')) as Hm'.
  { destruct Hm1 as [W D F B HH L]. split.
    - done.
    - congruence.
    - intros a Ha Ha' Hax. rewrite Hf; [auto| |done]. unfold in_buf in Ha. lia.
    - eapply mapped_dom; [exact Hd|done].
    - eapply mapped_dom; [exact Hd|done].
    - intros i Hi. destruct (L i Hi) as (t & [Ht HF] & Hlt). exists t. split; [|done]. split; [|done].
      apply bytes_at_intro. intros j b Hj.
      pose proof (lookup_lt_Some _ _ _ Hj) as Hlj. rewrite length_app in Hlj. simpl in Hlj.
      rewrite Hf; [by eapply bytes_at_lookup| |];
        unfold hist_list, LINE, HIST_SIZE, HIST_MAX, CONFIG_SYS_CBSIZE in *; lia. }
  case_match; apply good_set_line; try done; lia.
Qed.

Lemma cread_loop_ends `{!Completer buf xlo xhi ac} input s :
  good s -> ends (cread_loop buf hist_lines prompt len ac input s) good_result.
Proof.
  revert s. induction input as [|c input IH]; intros s Hs; cbn [cread_loop]; [done|].
  eapply (ends_bind _ _ good_result).
  - apply cread_char_good; [done| |done]. intros k s' Hs' Hk.
    destruct (Z.eq_dec k 9) as [->|Hne].
    + split; [|done]. unfold cread_key. cbn. eapply ends_bind; [by apply tab_key_good|]. done.
    + pose proof (cread_key_good k s' Hs' Hne). split; [by apply returns_ends|done].
  - intros [s'|s'|s'] Hs'; [by apply IH|done|done].
Qed.
End invariant.

(** ** Typing a line *)

(** Printable ASCII: the characters that go to the default case. *)
Definition printable (c : Z) : Prop := 32 <= c < 127.

Section typing.
Context (buf hist_lines prompt len : Z).
Context (ac : Z -> Z -> Z -> Z -> world -> outcome (world * Z * Z * Z)).

Lemma cread_char_plain c s :
  printable c -> rl_esc s = [] ->
  cread_char buf hist_lines prompt len ac c s =
    (let! s := cread_add_char buf len c (rl_insert s) s in Ok (Waiting s)).
Proof.
  intros [H1 H2] He. unfold cread_char, cread_key, CTL_CH, DEL, DEL7. rewrite He.
  repeat match goal with
  | |- context [c =? ?k] => rewrite (proj2 (Z.eqb_neq c k)) by lia
  end. done.
Qed.

(** A character at the end of the line. *)
Lemma add_char_end c s :
  byte_range c -> rl_insert s = true -> rl_num s = rl_eol s -> 0 <= rl_eol s < len -> len < 2 ^ 64 ->
  mapped (w_mem (rl_w s)) buf (len + 1) ->
  exists w', cread_add_char buf len c (rl_insert s) s =
      Ok (set_line w' (rl_eol s + 1) (rl_eol s + 1) s) /\
    w_mem w' = <[buf + rl_eol s := c]> (w_mem (rl_w s)).
Proof.
  intros Hc Hi Hn He Hu Hm. unfold cread_add_char. rewrite u64_small by lia. rewrite Hi, Hn. cbn [orb]. cbv zeta.
  destruct (Z.ltb_spec (len - 1) (rl_eol s)); [lia|]. cbn [andb].
  replace (rl_eol s + 1 - rl_eol s) with 1 by lia. change (1 <? 1) with false. cbn [obind].
  rewrite store8_mapped by (apply Hm; lia). cbn [obind]. rewrite u8_small by done.
  destruct (putnstr_returns (buf + rl_eol s) 1
    (set_mem (<[buf + rl_eol s := c]> (w_mem (rl_w s))) (rl_w s))) as (w' & -> & Hw).
  - lia.
  - apply mapped_insert. eapply mapped_sub; [exact Hm|lia|lia].
  - cbn [obind]. eexists. split; [done|]. by rewrite w_mem_putcs.
Qed.

Lemma type_chars l s :
  Forall printable l -> rl_insert s = true -> rl_esc s = [] -> rl_num s = rl_eol s ->
  0 <= rl_eol s -> rl_eol s + Z.of_nat (length l) <= len -> len < 2 ^ 64 ->
  mapped (w_mem (rl_w s)) buf (len + 1) ->
  forall rest, exists w',
    cread_loop buf hist_lines prompt len ac (l ++ rest) s =
      cread_loop buf hist_lines prompt len ac rest
        (set_line w' (rl_eol s + Z.of_nat (length l)) (rl_eol s + Z.of_nat (length l)) s) /\
    w_mem w' = write_bytes (w_mem (rl_w s)) (buf + rl_eol s) l.
Proof.
  revert s. induction l as [|c l IH]; intros s HF Hi He Hn H0 Hl Hu Hm rest.
  - exists (rl_w s). rewrite Z.add_0_r. split; [|done]. cbn [app]. f_equal.
    destruct s as [w num eol ins esc h]. cbn in *. by subst.
  - apply Forall_cons_1 in HF as [Hc HF]. cbn [app cread_loop].
    rewrite cread_char_plain by done.
    destruct (add_char_end c s) as (w1 & -> & Hw1);
      [unfold byte_range, printable in *; lia|done|done|simpl in Hl; lia|done|done|].
    cbn [obind]. set (s1 := set_line w1 (rl_eol s + 1) (rl_eol s + 1) s).
    destruct (IH s1 HF Hi He eq_refl) with (rest := rest) as (w2 & -> & Hw2).
    + cbn. lia.
    + cbn. simpl in Hl. lia.
    + done.
    + cbn. rewrite Hw1. by apply mapped_insert.
    + exists w2. split.
      * f_equal. unfold set_line. cbn. f_equal; lia.
      * rewrite Hw2. cbn. rewrite Hw1. cbn. f_equal. lia.
Qed.
End typing.

(** ** Claims *)

(** C24: the line editor never leaves its buffers.  From a good state of
    memory and history, with the completion function of the repository and its
    copy of the line apart from the buffer and the history: for any sequence of
    input characters the editor ends, and if it returns, waiting, finished or
    broken off, the cursor and the end of the line lie in the buffer, the
    history indices and lines are in order, and no memory outside the buffer,
    the history and the copy has changed.  Without TAB it does return: no
    access is out of bounds; TAB reads the names of the commands, which are not
    known to be strings. *)
Theorem cread_line_safe (m0 : mem) (buf hist_lines len prompt tmp_buf ps_prompt : Z) (cmd_table : list cmd_tbl_t)
    (h : hist) (w : world) (input : list Z) :
  len = CONFIG_SYS_CBSIZE -> completers_end cmd_table ->
  buf + len < hist_lines \/ hist_lines + HIST_MAX * LINE <= buf ->
  tmp_buf + len < hist_lines \/ hist_lines + HIST_MAX * LINE <= tmp_buf ->
  buf + len < tmp_buf \/ tmp_buf + len < buf ->
  mapped m0 tmp_buf (len + 1) ->
  good_mem m0 buf hist_lines len tmp_buf (tmp_buf + len + 1) (w_mem w) -> good_hist h ->
  w_mem w !! buf = Some 0 ->
  let run := cread_line buf hist_lines prompt len (cmd_auto_complete cmd_table ps_prompt tmp_buf) h input w in
  ends run (good_result m0 buf hist_lines len tmp_buf (tmp_buf + len + 1)) /\
  (9 ∉ input -> returns run (good_result m0 buf hist_lines len tmp_buf (tmp_buf + len + 1))).
Proof.
  intros Hlen Hcs Hd Hx Hbt Hxm Hm Hh Hz run. unfold run, cread_line.
  assert (strlen (w_mem w) buf = Ok 0) as ->.
  { apply (strlen_cstr _ buf []). split; [|constructor]. by split. }
  cbn [obind]. change (s32 0) with 0. cbn [Z.eqb negb obind].
  set (xhi := tmp_buf + len + 1) in *. assert (xhi <= hist_lines \/ hist_lines + HIST_MAX * LINE <= tmp_buf) as Hx' by (unfold xhi; lia).
  assert (mapped m0 tmp_buf (xhi - tmp_buf)) as Hxm' by (eapply mapped_sub; [exact Hxm|lia|unfold xhi; lia]).
  assert (good m0 buf hist_lines len tmp_buf xhi (RL w 0 0 true [] h)) as Hg
    by (split; cbn; [done|lia|unfold CONFIG_SYS_CBSIZE in *; lia|lia|done]).
  assert (1 <= len <= CONFIG_SYS_CBSIZE) as Hl by (unfold CONFIG_SYS_CBSIZE in *; lia).
  assert (Completer buf tmp_buf xhi (cmd_auto_complete cmd_table ps_prompt tmp_buf)) as Hc.
  { unfold xhi. rewrite Hlen. apply cmd_auto_complete_completer; [done|lia]. }
  split; [by apply cread_loop_ends|intros H9; by apply cread_loop_good].
Qed.

(** A buffer at 2000, the copy at 4000, the string "md" at 6000 with an empty
    prompt behind it, and a history at 10000; the rest is zero. *)
Definition demo_mem : mem := write_bytes (mem_of 2000 (replicate (Z.to_nat 28500) 0)) 6000 [109; 100].
Definition demo_table : list cmd_tbl_t := [CmdTbl 6000 5 (fun _ _ _ w => Ok (w, 0, 0)) 0 0 None].

Lemma demo_mem_lookup a : ~ (6000 <= a < 6002) -> 2000 <= a < 30500 -> demo_mem !! a = Some 0.
Proof.
  intros H1 H2. unfold demo_mem, mem_of. rewrite lookup_write_bytes_ne by (simpl; lia).
  rewrite lookup_write_bytes, length_replicate, decide_True by lia. apply lookup_replicate_2. lia.
Qed.

Lemma demo_mem_mapped p n : 2000 <= p -> p + n <= 30500 -> mapped demo_mem p n.
Proof.
  intros H1 H2. unfold demo_mem. apply mapped_write_bytes. intros q Hq. unfold mem_of.
  rewrite lookup_write_bytes, length_replicate, decide_True by lia. exists 0. apply lookup_replicate_2. lia.
Qed.

Lemma demo_mem_good : good_mem demo_mem 2000 10000 CONFIG_SYS_CBSIZE 4000 5025 demo_mem.
Proof.
  assert (HIST_MAX * LINE = 20500) as E by done. unfold CONFIG_SYS_CBSIZE. split.
  - unfold demo_mem, mem_of. apply wf_mem_write; [apply wf_mem_write|].
    + intros a b. by rewrite lookup_empty.
    + apply list.Forall_replicate. done.
    + repeat (constructor; [done|]). constructor.
  - done.
  - done.
  - apply demo_mem_mapped; lia.
  - rewrite E. apply demo_mem_mapped; lia.
  - intros i Hi. exists []. split; [|simpl; lia]. split; [|constructor]. split; [|done].
    apply demo_mem_lookup; unfold hist_list, HIST_SIZE, CONFIG_SYS_CBSIZE, HIST_MAX in *; lia.
Qed.

(** The keys a, escape, [, D, ^P and newline; and m, TAB and newline. *)
Lemma cread_line_safe_witness :
  let run input := cread_line 2000 10000 6002 CONFIG_SYS_CBSIZE (cmd_auto_complete demo_table 6002 4000) (Hist 0 0 (-1) 0)
                     input (World demo_mem []) in
  returns (run [97; 27; 91; 68; 16; 13]) (good_result demo_mem 2000 10000 CONFIG_SYS_CBSIZE 4000 5025) /\
  ends (run [109; 9; 13]) (good_result demo_mem 2000 10000 CONFIG_SYS_CBSIZE 4000 5025).
Proof.
  assert (9 ∉ [97; 27; 91; 68; 16; 13]) as H9 by set_solver. cbv zeta.
  assert (forall input, let run := cread_line 2000 10000 6002 CONFIG_SYS_CBSIZE (cmd_auto_complete demo_table 6002 4000) (Hist 0 0 (-1) 0)
                     input (World demo_mem []) in
    ends run (good_result demo_mem 2000 10000 CONFIG_SYS_CBSIZE 4000 5025) /\
    (9 ∉ input -> returns run (good_result demo_mem 2000 10000 CONFIG_SYS_CBSIZE 4000 5025))) as H.
  { intros input. apply (cread_line_safe demo_mem 2000 10000 CONFIG_SYS_CBSIZE 6002 4000 6002 demo_table).
    - reflexivity.
    - repeat constructor. discriminate.
    - left. unfold CONFIG_SYS_CBSIZE. lia.
    - left. unfold CONFIG_SYS_CBSIZE. lia.
    - left. unfold CONFIG_SYS_CBSIZE. lia.
    - apply demo_mem_mapped; unfold CONFIG_SYS_CBSIZE; lia.
    - exact demo_mem_good.
    - split; simpl; unfold HIST_MAX; lia.
    - apply demo_mem_lookup; lia. }
  split; [exact (proj2 (H _) H9)|exact (proj1 (H _))].
Defined.

(** TAB completes "m" to "md" with a blank, and the line is kept. *)
Example tab_completes :
  match cread_line 2000 10000 6002 CONFIG_SYS_CBSIZE (cmd_auto_complete demo_table 6002 4000) (Hist 0 0 (-1) 0)
          [109; 9; 13] (World demo_mem []) with
  | Ok (Finished s) => (rl_eol s, read_bytes (w_mem (rl_w s)) 2000 4, read_bytes (w_mem (rl_w s)) 10000 4)
  | _ => (0, [], [])
  end = (3, [109; 100; 32; 0], [109; 100; 32; 0]).
Proof. vm_compute. reflexivity. Qed.



(** The line just entered is the one ^P recalls: after
    [cread_add_to_hist] and the reset of the history cursor, [hist_prev]
    gives the slot that holds the line, for every state of the history,
    wrap-around of the ring included. *)
Theorem history_recall (hist_lines line : Z) (m : mem) (h : hist) (s : list Z) :
  0 <= hist_add_idx h <= hist_max h -> hist_max h < HIST_MAX ->
  cstr m line s ->
  mapped m (hist_list hist_lines (hist_add_idx h)) (Z.of_nat (length s) + 1) ->
  forward_ok (hist_list hist_lines (hist_add_idx h)) line (Z.of_nat (length s) + 1) ->
  exists m' h', cread_add_to_hist hist_lines line m h = Ok (m', h') /\
    exists p, snd (hist_prev hist_lines (hist_set_cur (hist_add_idx h') h')) = Line p /\ cstr m' p s.
Proof.
  intros Ha Hmax Hs Hm Hf. unfold cread_add_to_hist. rewrite (strcpy_write m _ line s Hs Hm Hf).
  cbn [obind]. eexists _, _. split; [done|].
  exists (hist_list hist_lines (hist_add_idx h)).
  split; [|split; [apply write_bytes_at|apply Hs]].
  unfold hist_prev, hist_set_cur. cbn [hist_cur hist_add_idx hist_max].
  unfold HIST_MAX in *. destruct (Z.leb_spec 20 (hist_add_idx h + 1)).
  - destruct (Z.ltb_spec (hist_max h) 0); [lia|]. cbn [Z.ltb Z.compare].
    change (if 0 - 1 <? 0 then hist_max h else 0 - 1) with (hist_max h).
    destruct (Z.eqb_spec (hist_max h) 0); [lia|]. cbn [snd]. do 2 f_equal. lia.
  - destruct (Z.ltb_spec (hist_add_idx h + 1) 0); [lia|].
    destruct (Z.ltb_spec (hist_add_idx h + 1 - 1) 0); [lia|].
    destruct (Z.eqb_spec (hist_add_idx h + 1 - 1) (hist_add_idx h + 1)); [lia|].
    cbn [snd]. do 2 f_equal. lia.
Qed.

Lemma history_recall_witness :
  exists m' h', cread_add_to_hist 10000 2000 (<[2000 := 109]> demo_mem) (Hist 19 19 19 20) = Ok (m', h') /\
    exists p, snd (hist_prev 10000 (hist_set_cur (hist_add_idx h') h')) = Line p /\ cstr m' p [109].
Proof.
  apply (history_recall 10000 2000 (<[2000 := 109]> demo_mem) (Hist 19 19 19 20) [109]).
  - simpl. lia.
  - reflexivity.
  - split; [|constructor; [lia|constructor]]. split; [apply lookup_insert_eq|]. split; [|done].
    rewrite lookup_insert_ne by lia. apply demo_mem_lookup; lia.
  - change (hist_list 10000 (hist_add_idx (Hist 19 19 19 20))) with 29475.
    apply mapped_insert, demo_mem_mapped; simpl; lia.
  - right. vm_compute. discriminate.
Defined.
