(* ===== verification/MemCmd.v ===== *)
(** * The memory commands (cmd/mem.c) and the hex dump (lib/display_options.c)

    [md], [mw], [cp], [cmp] and [base] over the machine's memory, with the
    values they keep between calls.  [lit] is the address the linker gives
    a string literal that is passed on as a pointer. *)

From S2P Require Import Prelude CMem Ctype Str Strto Console Pages Command.

Local Open Scope Z_scope.
Local Open Scope c_scope.

(** The statics of the file. *)
Record mem_vars : Type := MemVars {
  dp_last_addr : Z;
  dp_last_size : Z;
  dp_last_length : Z;
  base_address : Z
}.

Definition mem_vars0 : mem_vars := MemVars 0 0 0x40 0.
Definition set_base (v : mem_vars) (b : Z) : mem_vars :=
  MemVars (dp_last_addr v) (dp_last_size v) (dp_last_length v) b.

Definition DISP_LINE_LEN : Z := 16.
Definition CMD_FLAG_REPEAT : Z := 1.
Definition MAX_LINE_LENGTH_BYTES : Z := 64.
Definition DEFAULT_LINE_LENGTH_BYTES : Z := 16.

(** The bytes of an object whose size is tested as 4, 8, 2, or anything else. *)
Definition obj_bytes (size : Z) : nat :=
  if size =? 4 then 4 else if size =? 8 then 8 else if size =? 2 then 2 else 1.

(** ** print_buffer *)

(** C division of unsigned numbers: a zero divisor is undefined. *)
Definition udiv (a b : Z) : outcome Z := if b =? 0 then Fault else Ok (a / b).

(** [lb], at address 0 of a memory of its own: 72 bytes. *)
Definition linebuf : mem := mem_of 0 (replicate 72 0).

(** The objects of a line are copied to [lb] and printed. *)
Definition print_objects (m : mem) (width thislinelen : Z) (data : Z) (lb : mem) (w : world)
    : outcome (Z * mem * world) :=
  while (S (Z.to_nat thislinelen)) (fun '(i, data, lb, w) =>
    if i <? thislinelen then
      let! x := load_le (obj_bytes width) m data in
      let! lb := store_le (obj_bytes width) lb (i * Z.of_nat (obj_bytes width)) x in
      cont (i + 1, data + width, lb, printf " %0*llx" [u32 (width * 2); x] w)
    else brk (data, lb, w)) (0, data, lb, w).

Definition print_spaces (n : Z) (w : world) : outcome world :=
  while (S (Z.to_nat n)) (fun '(i, w) =>
    if i <? n then cont (i + 1, puts_lit " " w) else brk w) (0, w).

(** Missing objects are blank; [linelen] comes down to the line's length. *)
Definition fill_line (width thislinelen linelen : Z) (w : world) : outcome (Z * world) :=
  while (S (Z.to_nat linelen)) (fun '(linelen, w) =>
    if thislinelen <? linelen then
      let! w := print_spaces (u32 (width * 2 + 1)) w in cont (linelen - 1, w)
    else brk (linelen, w)) (linelen, w).

Definition print_ascii (width thislinelen : Z) (lb : mem) (w : world) : outcome (mem * world) :=
  let n := u32 (thislinelen * width) in
  let! '(i, lb) :=
    while (S (Z.to_nat n)) (fun '(i, lb) =>
      if i <? n then
        let! c := load8 lb i in
        let! lb := if negb (isprint c) || (0x80 <=? c) then store8 lb i 46 else Ok lb in
        cont (i + 1, lb)
      else brk (i, lb)) (0, lb) in
  let! lb := store8 lb i 0 in
  let! len := strlen lb 0 in
  Ok (lb, printf_str "    %s\n" (read_bytes lb 0 (Z.to_nat len)) w).

Definition print_buffer (addr data width count linelen : Z) (w : world) : outcome (world * Z) :=
  let! linelen :=
    if MAX_LINE_LENGTH_BYTES <? u32 (linelen * width) then udiv MAX_LINE_LENGTH_BYTES width else Ok linelen in
  let! linelen := if linelen <? 1 then udiv DEFAULT_LINE_LENGTH_BYTES width else Ok linelen in
  let m := w_mem w in
  while (S (Z.to_nat count)) (fun '(addr, data, count, linelen, lb, w) =>
    if negb (count =? 0) then
      let w := printf "%08lx:" [addr] w in
      let thislinelen := if count <? linelen then count else linelen in
      let! '(data, lb, w) := print_objects m width thislinelen data lb w in
      let! '(linelen, w) := fill_line width thislinelen linelen w in
      let! '(lb, w) := print_ascii width thislinelen lb w in
      cont (u64 (addr + u32 (thislinelen * width)), data, u32 (count - thislinelen), linelen, lb, w)
    else brk (w, 0)) (addr, data, count, linelen, linebuf, w).

(** ** The commands *)

Section commands.
Context (lit : string -> Z).

(** The value of a hexadecimal argument. *)
Definition arg_hex (m : mem) (argv : list Z) (i : Z) : outcome Z :=
  let! p := arr_get argv i in
  let! '(v, _) := simple_strtoul m p 16 in
  Ok v.

Definition do_mem_md (v : mem_vars) (flag argc : Z) (argv : list Z) (w : world) : outcome (mem_vars * world * Z) :=
  let m := w_mem w in
  let addr := dp_last_addr v in
  let size := s32 (dp_last_size v) in
  let length := dp_last_length v in
  if argc <? 2 then Ok (v, w, CMD_RET_USAGE) else
  let show (addr size length : Z) :=
    let bytes := u64 (size * length) in
    if size =? 0 then Fault else
    let! '(w, _) := print_buffer addr addr (u32 size) (u32 length) (u32 (DISP_LINE_LEN ÷ size)) w in
    Ok (MemVars (u64 (addr + bytes)) (u64 size) length (base_address v), w, 0) in
  if Z.land flag CMD_FLAG_REPEAT =? 0 then
    let! arg0 := arr_get argv 0 in
    let! size := cmd_get_data_size m arg0 4 in
    if size <? 0 then Ok (v, w, 1) else
    let! addr := arg_hex m argv 1 in
    let addr := u64 (addr + base_address v) in
    let! length := if 2 <? argc then arg_hex m argv 2 else Ok length in
    show addr size length
  else show addr size length.

(** [while (count-- > 0)]: [n] objects from [buf] on. *)
Definition mw_loop (size writeval : Z) (n : Z) (buf : Z) (m : mem) : outcome mem :=
  while (S (Z.to_nat n)) (fun '(count, buf, m) =>
    if 0 <? count then
      let! m := store_le (obj_bytes size) m buf writeval in
      cont (count - 1, buf + size, m)
    else brk m) (n, buf, m).

Definition do_mem_mw (v : mem_vars) (flag argc : Z) (argv : list Z) (w : world) : outcome (mem_vars * world * Z) :=
  let m := w_mem w in
  if (argc <? 3) || (4 <? argc) then Ok (v, w, CMD_RET_USAGE) else
  let! arg0 := arr_get argv 0 in
  let! size := cmd_get_data_size m arg0 4 in
  if size <? 1 then Ok (v, w, 1) else
  let! addr := arg_hex m argv 1 in
  let addr := u64 (addr + base_address v) in
  let! arg2 := arr_get argv 2 in
  let! '(writeval, _) := simple_strtoull m arg2 16 in
  let! count := if argc =? 4 then arg_hex m argv 3 else Ok 1 in
  let! m := mw_loop size writeval count addr m in
  Ok (v, set_mem m w, 0).

Definition obj_name (size : Z) : Z :=
  if size =? 8 then lit "double word" else if size =? 4 then lit "word"
  else if size =? 2 then lit "halfword" else lit "byte".

(** [for (ngood = 0; ngood < count; ++ngood)] *)
Definition cmp_loop (size addr1 addr2 count : Z) (w : world) : outcome (Z * world) :=
  let m := w_mem w in
  let type := obj_name size in
  let base := addr1 in
  while (S (Z.to_nat count)) (fun '(ngood, buf1, buf2) =>
    if ngood <? count then
      let! word1 := load_le (obj_bytes size) m buf1 in
      let! word2 := load_le (obj_bytes size) m buf2 in
      if negb (word1 =? word2) then
        let offset := buf1 - base in
        brk (ngood, printf "%s at 0x%p (%#0*llx) != %s at 0x%p (%#0*llx)\n"
          [type; u64 (addr1 + offset); size; word1; type; u64 (addr2 + offset); size; word2] w)
      else cont (ngood + 1, buf1 + size, buf2 + size)
    else brk (ngood, w)) (0, addr1, addr2).

Definition do_mem_cmp (v : mem_vars) (flag argc : Z) (argv : list Z) (w : world) : outcome (mem_vars * world * Z) :=
  let m := w_mem w in
  if negb (argc =? 4) then Ok (v, w, CMD_RET_USAGE) else
  let! arg0 := arr_get argv 0 in
  let! size := cmd_get_data_size m arg0 4 in
  if size <? 0 then Ok (v, w, 1) else
  let! addr1 := arg_hex m argv 1 in
  let addr1 := u64 (addr1 + base_address v) in
  let! addr2 := arg_hex m argv 2 in
  let addr2 := u64 (addr2 + base_address v) in
  let! count := arg_hex m argv 3 in
  let! '(ngood, w) := cmp_loop size addr1 addr2 count w in
  Ok (v, printf "Total of %ld %s(s) were the same\n" [ngood; obj_name size] w, 0).

Definition do_mem_cp (v : mem_vars) (flag argc : Z) (argv : list Z) (w : world) : outcome (mem_vars * world * Z) :=
  let m := w_mem w in
  if negb (argc =? 4) then Ok (v, w, CMD_RET_USAGE) else
  let! arg0 := arr_get argv 0 in
  let! size := cmd_get_data_size m arg0 4 in
  if size <? 0 then Ok (v, w, 1) else
  let! addr := arg_hex m argv 1 in
  let addr := u64 (addr + base_address v) in
  let! dest := arg_hex m argv 2 in
  let dest := u64 (dest + base_address v) in
  let! count := arg_hex m argv 3 in
  if count =? 0 then Ok (v, puts_lit "Zero length ???\n" w, 1) else
  let! m := memcpy m dest addr (u64 (count * size)) in
  Ok (v, set_mem m w, 0).

Definition do_mem_base (v : mem_vars) (flag argc : Z) (argv : list Z) (w : world) : outcome (mem_vars * world * Z) :=
  let m := w_mem w in
  let! v := if 1 <? argc then let! b := arg_hex m argv 1 in Ok (set_base v b) else Ok v in
  Ok (v, printf "Base Address: 0x%08lx\n" [base_address v] w, 0).
End commands.
