(* ===== verification/MemCmdFacts.v ===== *)
(** * The memory commands: theorems

    The loops of [mw] and [cmp] and the lines of [print_buffer] against what
    they mean, then the commands. *)

From S2P Require Import Prelude CMem Ctype Str StrFacts Strto Console Pages Words Command MemCmd.

Local Open Scope Z_scope.
Local Open Scope c_scope.

(** The sizes [cmd_get_data_size] gives. *)
Definition obj_size (size : Z) : Prop := size = 1 \/ size = 2 \/ size = 4 \/ size = 8.

Lemma obj_bytes_size size : obj_size size -> Z.of_nat (obj_bytes size) = size.
Proof. by intros [->|[->|[->| ->]]]. Qed.

Lemma obj_size_range size : obj_size size -> 1 <= size <= 8.
Proof. unfold obj_size. lia. Qed.

(** The suffix of a command name: [.b], [.w], [.l], [.q]; anything else after
    a dot is refused. *)
Lemma data_size_cases m arg : ends (cmd_get_data_size m arg 4) (fun size => obj_size size \/ size < 0).
Proof.
  unfold cmd_get_data_size, obj_size. ends_step strlen_ends as n _. case_cmp; [|simpl; lia].
  ends_step ends_load8 as d _. case_cmp; [|simpl; lia]. ends_step ends_load8 as c _. repeat (case_cmp; [simpl; lia|]). simpl. lia.
Qed.

(** ** mw *)

Lemma mw_loop_write size v n : forall buf m,
  obj_size size -> mapped m buf (Z.of_nat n * size) ->
  mw_loop size v (Z.of_nat n) buf m = Ok (write_bytes m buf (concat (replicate n (le_bytes (obj_bytes size) v)))).
Proof.
  unfold mw_loop. rewrite Nat2Z.id. induction n as [|n IH]; intros buf m Hs Hm; cbn [while]; [done|].
  pose proof (obj_bytes_size size Hs) as E. pose proof (obj_size_range size Hs).
  case_cmp; [|lia]. rewrite store_le_write by (eapply mapped_sub; [exact Hm|lia|lia]). cbn [obind cont].
  replace (Z.of_nat (S n) - 1) with (Z.of_nat n) by lia. cbn [replicate concat]. rewrite write_bytes_app, length_le_bytes, E.
  apply IH; [done|]. apply mapped_write_bytes. eapply mapped_sub; [exact Hm|lia|lia].
Qed.

(** ** cmp *)

(** The [i]-th object from an address. *)
Definition obj (m : mem) (size a i : Z) : Z := rdn (obj_bytes size) m (a + i * size).

Definition mismatch (lit : string -> Z) (m : mem) (size a1 a2 i : Z) : event :=
  let type := obj_name lit size in
  Printf "%s at 0x%p (%#0*llx) != %s at 0x%p (%#0*llx)\n"
    [type; u64 (a1 + i * size); size; obj m size a1 i; type; u64 (a2 + i * size); size; obj m size a2 i].

Lemma cmp_loop_spec lit size a1 a2 count w :
  obj_size size -> 0 <= count -> mapped (w_mem w) a1 (count * size) -> mapped (w_mem w) a2 (count * size) ->
  returns (cmp_loop lit size a1 a2 count w) (fun '(k, w') =>
    0 <= k <= count /\ (forall i, 0 <= i < k -> obj (w_mem w) size a1 i = obj (w_mem w) size a2 i) /\
    ((k = count /\ w' = w) \/
     (k < count /\ obj (w_mem w) size a1 k <> obj (w_mem w) size a2 k /\ w' = say (mismatch lit (w_mem w) size a1 a2 k) w))).
Proof.
  intros Hs Hc M1 M2. pose proof (obj_bytes_size size Hs) as E. pose proof (obj_size_range size Hs).
  unfold cmp_loop. eapply (returns_while (fun '(k, b1, b2) => 0 <= k <= count /\ b1 = a1 + k * size /\ b2 = a2 + k * size /\
    forall i, 0 <= i < k -> obj (w_mem w) size a1 i = obj (w_mem w) size a2 i) (fun '(k, _, _) => Z.to_nat (count - k))).
  - intros [[k b1] b2] (Hk & -> & -> & Heq). case_cmp; [|apply returns_ok; split; [lia|]; split; [done|left; split; [lia|done]]].
    rewrite (load_le_rdn _ _ (a1 + k * size)) by (rewrite E; eapply mapped_sub; [exact M1|nia|nia]).
    rewrite (load_le_rdn _ _ (a2 + k * size)) by (rewrite E; eapply mapped_sub; [exact M2|nia|nia]). cbn [obind].
    fold (obj (w_mem w) size a1 k). fold (obj (w_mem w) size a2 k). case_cmp; cbn [negb].
    + apply returns_ok. split; [|lia]. split; [lia|]. split; [lia|]. split; [lia|]. intros i Hi.
      destruct (Z.eq_dec i k) as [->|]; [done|]. apply Heq. lia.
    + apply returns_ok. split; [lia|]. split; [done|right]. split; [lia|]. split; [done|].
      unfold mismatch, printf. replace (a1 + (a1 + k * size - a1)) with (a1 + k * size) by lia.
      by replace (a2 + (a1 + k * size - a1)) with (a2 + k * size) by lia.
  - split; [lia|]. split; [lia|]. split; [lia|]. lia.
  - cbn. lia.
Qed.

(** ** print_buffer *)

Definition says (l : list event) (w : world) : world := World (w_mem w) (w_io w ++ l).

Lemma say_says e l w : say e (says l w) = says (l ++ [e]) w.
Proof. unfold say, says. cbn. by rewrite app_assoc. Qed.
Lemma says_says l l' w : says l (says l' w) = says (l' ++ l) w.
Proof. unfold says. cbn. by rewrite app_assoc. Qed.
Lemma says_nil w : says [] w = w.
Proof. destruct w. unfold says. cbn. by rewrite app_nil_r. Qed.
Lemma say_one e w : say e w = says [e] w.
Proof. done. Qed.

(** What is shown of a byte. *)
Definition shown (c : Z) : Z := if isprint c && (c <? 0x80) then c else 46.

(** One line of the dump: [n] objects, in a row of [perline]. *)
Definition dump_line (m : mem) (addr width perline n : Z) : list event :=
  [Printf "%08lx:" [addr]] ++
  ((fun i => Printf " %0*llx" [width * 2; obj m width addr (Z.of_nat i)]) <$> seq 0 (Z.to_nat n)) ++
  replicate (Z.to_nat ((perline - n) * (width * 2 + 1))) (PutsLit " ") ++
  [PrintfStr "    %s\n" (shown <$> read_bytes m addr (Z.to_nat (n * width)))].

(** The dump of [count] objects: a line for each [perline] of them. *)
Definition dump (m : mem) (addr width perline count : Z) : list event :=
  concat ((fun k => let i := Z.of_nat k * perline in
    dump_line m (addr + i * width) width perline (Z.min perline (count - i)))
  <$> seq 0 (Z.to_nat ((count + perline - 1) / perline))).

Lemma seq_snoc n : seq 0 (S n) = seq 0 n ++ [n].
Proof. by rewrite seq_S. Qed.

Definition obj_event (m : mem) (addr width : Z) (i : nat) : event :=
  Printf " %0*llx" [width * 2; obj m width addr (Z.of_nat i)].

Lemma print_objects_spec m width n data lb w :
  obj_size width -> wf_mem m -> mapped m data (Z.of_nat n * width) -> mapped lb 0 (Z.of_nat n * width) ->
  print_objects m width (Z.of_nat n) data lb w =
    Ok (data + Z.of_nat n * width, write_bytes lb 0 (read_bytes m data (n * obj_bytes width)),
        says (obj_event m data width <$> seq 0 n) w).
Proof.
  intros Hs Hw Hm Hlb. pose proof (obj_bytes_size width Hs) as E. pose proof (obj_size_range width Hs). unfold print_objects. rewrite Nat2Z.id.
  eapply (while_eq (fun '(i, d, l, w') => exists k, (k <= n)%nat /\ i = Z.of_nat k /\ d = data + Z.of_nat k * width /\
    l = write_bytes lb 0 (read_bytes m data (k * obj_bytes width)) /\ w' = says (obj_event m data width <$> seq 0 k) w)
    (fun '(i, _, _, _) => (n - Z.to_nat i)%nat)); [|exists 0%nat; split; [lia|]; split; [done|]; split; [lia|]; by rewrite says_nil|cbn; lia].
  intros [[[i d] l] w'] (k & Hk & -> & -> & -> & ->). case_cmp; [|replace k with n by lia; done].
  rewrite load_le_rdn by (rewrite E; eapply mapped_sub; [exact Hm|nia|nia]). cbn [obind].
  rewrite store_le_write by (apply mapped_write_bytes; rewrite E; eapply mapped_sub; [exact Hlb|nia|nia]). cbn [obind cont].
  split; [|lia]. exists (S k). split; [lia|]. split; [lia|]. split; [lia|]. split.
  - assert (Z.of_nat (k * obj_bytes width) = Z.of_nat k * width) as Ek by lia.
    replace (S k * obj_bytes width)%nat with (k * obj_bytes width + obj_bytes width)%nat by lia.
    rewrite read_bytes_add, write_bytes_app, length_read_bytes, Ek, E, Z.add_0_l. f_equal. unfold rdn.
    rewrite <- (le_bytes_value (read_bytes m (data + Z.of_nat k * width) (obj_bytes width))) at 2.
    + by rewrite length_read_bytes.
    + apply wf_mem_read; [done|]. rewrite E. eapply mapped_sub; [exact Hm|nia|nia].
  - unfold printf. rewrite say_says, seq_snoc, fmap_app. cbn [fmap list_fmap]. unfold obj_event at 2, obj.
    by rewrite u32_small by lia.
Qed.

Lemma print_spaces_spec n w : print_spaces (Z.of_nat n) w = Ok (says (replicate n (PutsLit " ")) w).
Proof.
  unfold print_spaces. rewrite Nat2Z.id.
  eapply (while_eq (fun '(i, w') => exists k, (k <= n)%nat /\ i = Z.of_nat k /\ w' = says (replicate k (PutsLit " ")) w)
    (fun '(i, _) => (n - Z.to_nat i)%nat)); [|exists 0%nat; split; [lia|]; by rewrite says_nil|cbn; lia].
  intros [i w'] (k & Hk & -> & ->). case_cmp; [|replace k with n by lia; done].
  split; [|lia]. exists (S k). split; [lia|]. split; [lia|]. unfold puts_lit. rewrite say_says. by rewrite replicate_S_end.
Qed.

Lemma fill_line_spec width n perline w :
  1 <= width <= 8 -> 0 <= n <= perline ->
  fill_line width n perline w = Ok (n, says (replicate (Z.to_nat ((perline - n) * (width * 2 + 1))) (PutsLit " ")) w).
Proof.
  intros Hw Hn. unfold fill_line.
  eapply (while_eq (fun '(l, w') => n <= l <= perline /\ w' = says (replicate (Z.to_nat ((perline - l) * (width * 2 + 1))) (PutsLit " ")) w)
    (fun '(l, _) => Z.to_nat (l - n))); [|split; [lia|]; rewrite Z.sub_diag; by rewrite says_nil|lia].
  intros [l w'] (Hl & ->). case_cmp; [|by replace l with n by lia].
  rewrite u32_small by lia. rewrite <- (Z2Nat.id (width * 2 + 1)) by lia. rewrite print_spaces_spec. cbn [obind cont].
  split; [|lia]. split; [lia|]. rewrite says_says, <- replicate_add. do 2 f_equal. nia.
Qed.

Lemma isprint_0 : isprint 0 = false.
Proof. reflexivity. Qed.

Lemma shown_range c : byte_range c -> 0 < shown c < 256.
Proof.
  unfold byte_range, shown. intros H. destruct (isprint c) eqn:E, (Z.ltb_spec c 0x80); cbn [andb]; try lia.
  destruct (Z.eq_dec c 0) as [->|]; [by rewrite isprint_0 in E|lia].
Qed.

Lemma insert_write_bytes m p l q v : q < p -> <[q := v]> (write_bytes m p l) = write_bytes (<[q := v]> m) p l.
Proof.
  revert m p. induction l as [|b l IH]; intros m p H; [done|]. cbn [write_bytes]. rewrite IH by lia. by rewrite insert_insert_ne by lia.
Qed.

Lemma ascii_step lb (k : nat) c (done rest : list Z) :
  length done = k ->
  <[Z.of_nat k := shown c]> (write_bytes (write_bytes lb 0 done) (Z.of_nat k) (c :: rest)) =
    write_bytes (write_bytes lb 0 (done ++ [shown c])) (Z.of_nat (S k)) rest.
Proof.
  intros El. cbn [write_bytes]. rewrite insert_write_bytes by lia. rewrite insert_insert_eq.
  rewrite (write_bytes_snoc lb 0 done), El, Z.add_0_l. by replace (Z.of_nat k + 1) with (Z.of_nat (S k)) by lia.
Qed.

Lemma ascii_store lb i c :
  lb !! i = Some c -> (if negb (isprint c) || (0x80 <=? c) then store8 lb i 46 else Ok lb) = Ok (<[i := shown c]> lb).
Proof.
  intros H. unfold shown. destruct (isprint c); cbn [negb orb andb]; [|by rewrite store8_mapped by by rewrite H].
  destruct (Z.leb_spec 0x80 c), (Z.ltb_spec c 0x80); try lia; [by rewrite store8_mapped by by rewrite H|]. by rewrite insert_id.
Qed.

Lemma ascii_loop bytes lb fuel :
  (length bytes < fuel)%nat ->
  while fuel (fun '(i, lb) =>
    if i <? Z.of_nat (length bytes) then
      let! c := load8 lb i in
      let! lb := if negb (isprint c) || (0x80 <=? c) then store8 lb i 46 else Ok lb in
      cont (i + 1, lb)
    else brk (i, lb)) (0, write_bytes lb 0 bytes) = Ok (Z.of_nat (length bytes), write_bytes lb 0 (shown <$> bytes)).
Proof.
  intros Hf. eapply (while_eq (fun '(i, l) => exists k, (k <= length bytes)%nat /\ i = Z.of_nat k /\
    l = write_bytes (write_bytes lb 0 (shown <$> take k bytes)) (Z.of_nat k) (drop k bytes))
    (fun '(i, _) => (length bytes - Z.to_nat i)%nat)); [|exists 0%nat; split; [lia|done]|cbn; lia].
  intros [i l] (k & Hk & -> & ->). case_cmp; [|replace k with (length bytes) by lia; by rewrite drop_all, take_ge by lia].
  destruct (lookup_lt_is_Some_2 bytes k) as [c Hc]; [lia|]. rewrite (drop_S bytes c k Hc).
  assert (length (shown <$> take k bytes) = k) as El by (rewrite length_fmap, length_take; lia).
  pose proof (write_bytes_at (write_bytes lb 0 (shown <$> take k bytes)) (Z.of_nat k) (c :: drop (S k) bytes)) as Hb.
  rewrite (load8_at _ _ c (drop (S k) bytes) Hb). cbn [obind]. destruct Hb as [Hb _]. rewrite (ascii_store _ _ _ Hb), ascii_step by done.
  cbn [obind cont]. split; [|lia]. exists (S k). split; [lia|]. split; [lia|]. by rewrite (take_S_r _ _ _ Hc), fmap_app.
Qed.

Lemma print_ascii_spec width n bytes lb w :
  n * width = Z.of_nat (length bytes) -> (length bytes < 72)%nat -> mapped lb 0 72 -> Forall byte_range bytes ->
  exists lb', mapped lb' 0 72 /\
    print_ascii width n (write_bytes lb 0 bytes) w = Ok (lb', says [PrintfStr "    %s\n" (shown <$> bytes)] w).
Proof.
  intros En Hl Hm HF. unfold print_ascii. rewrite En, u32_small by lia. rewrite Nat2Z.id. rewrite ascii_loop by lia.
  cbn [obind]. rewrite store8_mapped by (apply (mapped_write_bytes _ 0 (shown <$> bytes)) in Hm; apply Hm; lia).
  cbn [obind]. change (u8 0) with 0. replace (Z.of_nat (length bytes)) with (0 + Z.of_nat (length (shown <$> bytes))) by (rewrite length_fmap; lia).
  rewrite <- write_bytes_snoc. eexists. split; [apply mapped_write_bytes, Hm|].
  assert (cstr (write_bytes lb 0 ((shown <$> bytes) ++ [0])) 0 (shown <$> bytes)) as Hc.
  { split; [apply write_bytes_at|]. apply list.Forall_fmap. eapply list.Forall_impl; [exact HF|]. apply shown_range. }
  rewrite (strlen_cstr _ _ _ Hc). cbn [obind]. rewrite Nat2Z.id. destruct Hc as [Hb _]. apply bytes_at_app in Hb as [Hb _].
  by rewrite (bytes_at_read_bytes _ _ _ Hb).
Qed.

(** The body of a line. *)
Lemma print_line m width perline n addr lb w :
  obj_size width -> wf_mem m -> mapped m addr (Z.of_nat n * width) -> mapped lb 0 72 ->
  Z.of_nat n <= perline -> perline * width <= 64 ->
  exists lb1 w1 w2 lb2, mapped lb2 0 72 /\
    print_objects m width (Z.of_nat n) addr lb (printf "%08lx:" [addr] w) = Ok (addr + Z.of_nat n * width, lb1, w1) /\
    fill_line width (Z.of_nat n) perline w1 = Ok (Z.of_nat n, w2) /\
    print_ascii width (Z.of_nat n) lb1 w2 = Ok (lb2, says (dump_line m addr width perline (Z.of_nat n)) w).
Proof.
  intros Hs Hw Hm Hlb Hn Hp. pose proof (obj_bytes_size width Hs) as E. pose proof (obj_size_range width Hs).
  assert (Z.of_nat (n * obj_bytes width) = Z.of_nat n * width) as En by lia.
  do 3 eexists. edestruct (print_ascii_spec width (Z.of_nat n) (read_bytes m addr (n * obj_bytes width)) lb) as (lb2 & Hlb2 & Ea);
    [by rewrite length_read_bytes|rewrite length_read_bytes; nia|done|apply wf_mem_read; [done|by rewrite En]|].
  exists lb2. split; [done|]. split; [apply print_objects_spec; [done|done|done|eapply mapped_sub; [exact Hlb|lia|nia]]|].
  split; [apply fill_line_spec; lia|]. rewrite Ea. unfold printf. rewrite say_one, !says_says. ok_eq. f_equal. unfold dump_line.
  rewrite Nat2Z.id. rewrite <- En, Nat2Z.id. by rewrite <- ?app_assoc.
Qed.

Section lines.
Context (addr width perline count : Z) (w : world).
Context (Hp : 1 <= perline) (Hc : 0 <= count < 2 ^ 32).

Local Abbreviation line k := (let i := Z.of_nat k * perline in
  dump_line (w_mem w) (addr + i * width) width perline (Z.min perline (count - i))).

(** After [k] lines, or at the end. *)
Definition lines_inv (st : Z * Z * Z * Z * mem * world) : Prop :=
  let '(a, d, c, l, lb, w') := st in
  mapped lb 0 72 /\
  ((c = 0 /\ w' = says (dump (w_mem w) addr width perline count) w) \/
   (exists k, let i := Z.of_nat k * perline in
      c = count - i /\ 0 < c /\ l = perline /\ d = addr + i * width /\ a = d /\
      w' = says (concat ((λ k, line k) <$> seq 0 k)) w)).

Lemma lines_start : lines_inv (addr, addr, count, perline, linebuf, w).
Proof.
  split; [apply (bytes_at_mapped _ _ (replicate 72 0)), write_bytes_at|]. destruct (Z.eq_dec count 0) as [E|]; [left|right].
  - split; [done|]. unfold dump. rewrite E. replace ((0 + perline - 1) / perline) with 0 by (symmetry; apply Z.div_small; lia).
    by rewrite says_nil.
  - exists 0%nat. cbn [seq fmap list_fmap concat]. rewrite says_nil. cbn. repeat split; (done || lia).
Qed.

Lemma dump_snoc k : concat ((λ k, line k) <$> seq 0 (S k)) = concat ((λ k, line k) <$> seq 0 k) ++ line k.
Proof. rewrite seq_snoc, fmap_app, concat_app. cbn [fmap list_fmap concat]. by rewrite app_nil_r. Qed.

Lemma dump_last k : Z.of_nat k * perline < count <= Z.of_nat (S k) * perline ->
  dump (w_mem w) addr width perline count = concat ((λ k, line k) <$> seq 0 (S k)).
Proof.
  intros Hk. unfold dump. replace (Z.to_nat ((count + perline - 1) / perline)) with (S k); [done|].
  assert ((count + perline - 1) / perline = Z.of_nat (S k)) as ->; [|lia].
  symmetry. apply (Z.div_unique_pos _ _ _ (count - 1 - Z.of_nat k * perline)); lia.
Qed.
End lines.

Lemma print_buffer_spec addr width perline count w :
  obj_size width -> 1 <= perline -> perline * width <= 64 -> 0 <= count < 2 ^ 32 -> wf_mem (w_mem w) ->
  mapped (w_mem w) addr (count * width) -> 0 <= addr -> addr + count * width <= 2 ^ 64 ->
  print_buffer addr addr width count perline w = Ok (says (dump (w_mem w) addr width perline count) w, 0).
Proof.
  intros Hs Hp Hpw Hc Hw Hm Ha Hend. pose proof (obj_size_range width Hs). unfold print_buffer, MAX_LINE_LENGTH_BYTES.
  rewrite u32_small by nia. case_cmp; [lia|]. cbn [obind]. case_cmp; [lia|]. cbn [obind].
  eapply (while_eq (lines_inv addr width perline count w) (fun '(_, _, c, _, _, _) => Z.to_nat c)); [|by apply lines_start|lia].
  intros [[[[[a d] c] l] lb] w'] (Hlb & [(-> & ->)|(k & -> & Hck & -> & -> & -> & ->)]); [done|].
  case_cmp; [lia|]. cbn [negb]. set (i := Z.of_nat k * perline) in *.
  assert ((if count - i <? perline then count - i else perline) = Z.of_nat (Z.to_nat (Z.min perline (count - i)))) as -> by (case_cmp; lia).
  set (nl := Z.to_nat (Z.min perline (count - i))).
  set (w' := says _ w).
  destruct (print_line (w_mem w) width perline nl (addr + i * width) lb w') as (lb1 & w1 & w2 & lb2 & Hlb2 & -> & E2 & E3);
    [done|done|eapply mapped_sub; [exact Hm|nia|nia]|done|lia|done|].
  cbn [obind]. rewrite E2. cbn [obind]. rewrite E3. cbn [obind cont]. rewrite (u32_small (count - i - Z.of_nat nl)) by lia. split; [|lia].
  rewrite (u32_small (Z.of_nat nl * width)) by nia. split; [done|]. unfold w'. rewrite says_says. fold i in E3.
  assert (forall a b c d, a = b -> c = d -> dump_line (w_mem w) a width perline c = dump_line (w_mem w) b width perline d) as Hcg by (intros; by subst).
  destruct (Z.eq_dec (count - i - Z.of_nat nl) 0) as [Ez|]; [left|right].
  - split; [done|]. rewrite (dump_last addr width perline count w k) by lia; rewrite dump_snoc. do 2 f_equal. apply Hcg; [done|lia].
  - exists (S k). split; [lia|]. split; [lia|]. split; [lia|]. split; [nia|]. split; [rewrite u64_small; nia|].
    rewrite dump_snoc. do 2 f_equal. apply Hcg; [done|lia].
Qed.
