(* ===== verification/MemTheorems.v ===== *)
(** * The memory commands: what they promise

    [mw], [cp], [cmp] and [md] as a user sees them. *)

From S2P Require Import Prelude CMem Ctype Str StrFacts Strto Console Pages Words Command MemCmd MemCmdFacts.

Local Open Scope Z_scope.
Local Open Scope c_scope.

Lemma strtoul_range m cp base v e : simple_strtoul m cp base = Ok (v, e) -> 0 <= v < 2 ^ 64.
Proof.
  unfold simple_strtoul. destruct (_parse_integer_fixup_radix m cp base) as [[cp' base']| | |]; cbn [obind]; try done.
  intros H. refine (while_exit (fun '(_, r) => 0 <= r < 2 ^ 64) (fun '(r, _) => 0 <= r < 2 ^ 64) _ _ _ _ _ _ H); [|lia].
  clear. intros [p r] x Hr. destruct (load8 m p) as [c| | |]; cbn [obind]; try done.
  destruct (isxdigit c); [|by intros [= <-]]. case_cmp; intros [= <-]; [|done]. apply Z.mod_pos_bound. lia.
Qed.

Lemma arg_hex_range m argv i v : arg_hex m argv i = Ok v -> 0 <= v < 2 ^ 64.
Proof.
  unfold arg_hex. destruct (arr_get argv i) as [p| | |]; cbn [obind]; try done.
  destruct (simple_strtoul m p 16) as [[x e]| | |] eqn:E; cbn [obind]; try done. intros [= <-]. by eapply strtoul_range.
Qed.

(** A command line: the size its name asks for and the numbers that follow. *)
Record cmd_line (m : mem) (argv : list Z) (size : Z) (args : list Z) : Prop := {
  cl_size : (let! arg0 := arr_get argv 0 in cmd_get_data_size m arg0 4) = Ok size;
  cl_args : forall i v, args !! i = Some v -> arg_hex m argv (Z.of_nat (S i)) = Ok v
}.

Lemma cl_head m argv size args : cmd_line m argv size args ->
  exists arg0, arr_get argv 0 = Ok arg0 /\ cmd_get_data_size m arg0 4 = Ok size.
Proof. intros [H _]. destruct (arr_get argv 0) as [p| | |]; cbn [obind] in H; try done. eauto. Qed.

Lemma cl_size_cases m argv size args : cmd_line m argv size args -> obj_size size \/ size < 0.
Proof. intros (p & _ & H)%cl_head. pose proof (data_size_cases m p) as E. by rewrite H in E. Qed.

Lemma cl_arg_range m argv size args i v : cmd_line m argv size args -> args !! i = Some v -> 0 <= v < 2 ^ 64.
Proof. intros H Hi. eapply arg_hex_range. by apply (cl_args _ _ _ _ H). Qed.

(** ** cmp *)
Definition total (lit : string -> Z) (size k : Z) : event :=
  Printf "Total of %ld %s(s) were the same\n" [k; obj_name lit size].

Definition cmp_report (lit : string -> Z) (m : mem) (size p1 p2 count k : Z) : list event :=
  (if k <? count then [mismatch lit m size p1 p2 k] else []) ++ [total lit size k].

(** [k] is the number of objects up to the first that differs. *)
Definition same_upto (m : mem) (size p1 p2 count k : Z) : Prop :=
  0 <= k <= count /\ (forall i, 0 <= i < k -> obj m size p1 i = obj m size p2 i) /\
  (k < count -> obj m size p1 k <> obj m size p2 k).

Lemma do_mem_cmp_spec lit v flag argv w size a1 a2 count :
  let p1 := u64 (a1 + base_address v) in let p2 := u64 (a2 + base_address v) in
  cmd_line (w_mem w) argv size [a1; a2; count] -> 0 <= size ->
  mapped (w_mem w) p1 (count * size) -> mapped (w_mem w) p2 (count * size) ->
  exists k, same_upto (w_mem w) size p1 p2 count k /\
    do_mem_cmp lit v flag 4 argv w = Ok (v, says (cmp_report lit (w_mem w) size p1 p2 count k) w, 0).
Proof.
  intros p1 p2 Hc Hs M1 M2. destruct (cl_size_cases _ _ _ _ Hc) as [Ho|]; [|lia]. destruct (cl_head _ _ _ _ Hc) as (arg0 & E0 & E1).
  pose proof (cl_arg_range _ _ _ _ 2 count Hc eq_refl) as Rc. unfold do_mem_cmp. cbn [Z.eqb Pos.eqb negb]. rewrite E0. cbn [obind]. rewrite E1. cbn [obind].
  case_cmp; [lia|]. rewrite (cl_args _ _ _ _ Hc 0 a1 eq_refl : arg_hex _ _ 1 = _). cbn [obind].
  rewrite (cl_args _ _ _ _ Hc 1 a2 eq_refl : arg_hex _ _ 2 = _). cbn [obind].
  rewrite (cl_args _ _ _ _ Hc 2 count eq_refl : arg_hex _ _ 3 = _). cbn [obind]. fold p1 p2.
  destruct (cmp_loop_spec lit size p1 p2 count w Ho ltac:(lia) M1 M2) as ([k w'] & -> & Hk & Heq & Hend). cbn [obind].
  exists k. split.
  - split; [done|]. split; [done|]. intros Hlt. destruct Hend as [[-> _]|(_ & Hne & _)]; [lia|done].
  - unfold cmp_report, printf. destruct Hend as [[-> ->]|(Hlt & _ & ->)].
    + by rewrite Z.ltb_irrefl.
    + destruct (Z.ltb_spec k count); [|lia]. by rewrite (say_one (mismatch _ _ _ _ _ _)), say_says.
Qed.

(** Objects after a copy. *)
Lemma obj_copied m size src dst n i :
  obj_size size -> 0 <= i < n -> mapped m src (n * size) -> wf_mem m -> src + n * size <= dst \/ dst + n * size <= src ->
  let m' := write_bytes m dst (read_bytes m src (Z.to_nat (n * size))) in
  obj m' size dst i = obj m size src i /\ obj m' size src i = obj m size src i.
Proof.
  intros Hs Hi Hm Hw Ha m'. pose proof (obj_bytes_size size Hs) as E. pose proof (obj_size_range size Hs).
  unfold obj, rdn. split; f_equal.
  - assert (0 <= i * size /\ i * size + size <= n * size) as Hr by nia.
    assert (mapped m (src + i * size) (Z.of_nat (obj_bytes size))) as Hmi by (eapply mapped_sub; [exact Hm|lia|lia]).
    pose proof (write_bytes_at m dst (read_bytes m src (Z.to_nat (n * size)))) as Hb. fold m' in Hb.
    replace (Z.to_nat (n * size)) with (Z.to_nat (i * size) + (obj_bytes size + (Z.to_nat (n * size - i * size - size))))%nat in Hb by lia.
    rewrite !read_bytes_add in Hb. apply bytes_at_app in Hb as [_ Hb]. apply bytes_at_app in Hb as [Hb _].
    rewrite length_read_bytes, Z2Nat.id in Hb by lia. rewrite <- (bytes_at_read_bytes _ _ _ Hb). by rewrite length_read_bytes.
  - apply read_bytes_ext. intros x Hx. apply lookup_write_bytes_ne. rewrite length_read_bytes. nia.
Qed.

(** ** Theorems *)

(** [mw] fills memory.  It refuses a wrong number of arguments with a
    usage message and an unknown size suffix with 1.  Otherwise, when the
    area from the address plus the base address is mapped, it returns 0 and
    writes the value, truncated to the size and low byte first, [count] times
    (once without a count), changing nothing else. *)
Theorem do_mem_mw_correct (v : mem_vars) (flag argc : Z) (argv : list Z) (w : world) (size : Z) (args : list Z) :
  ((argc < 3 \/ 4 < argc) -> do_mem_mw v flag argc argv w = Ok (v, w, CMD_RET_USAGE)) /\
  (3 <= argc <= 4 -> cmd_line (w_mem w) argv size args ->
    (size < 1 -> do_mem_mw v flag argc argv w = Ok (v, w, 1)) /\
    (1 <= size -> forall a val count, args = [a; val] ++ (if argc =? 4 then [count] else []) -> (argc <> 4 -> count = 1) ->
      let p := u64 (a + base_address v) in
      mapped (w_mem w) p (count * size) ->
      do_mem_mw v flag argc argv w =
        Ok (v, set_mem (write_bytes (w_mem w) p (concat (replicate (Z.to_nat count) (le_bytes (Z.to_nat size) val)))) w, 0))).
Proof.
  unfold do_mem_mw. split.
  { intros H. destruct (Z.ltb_spec argc 3), (Z.ltb_spec 4 argc); try lia; done. }
  intros Ha Hc. destruct (Z.ltb_spec argc 3), (Z.ltb_spec 4 argc); try lia. cbn [orb].
  destruct (cl_head _ _ _ _ Hc) as (arg0 & E0 & E1). rewrite E0. cbn [obind]. rewrite E1. cbn [obind]. split.
  { intros. destruct (Z.ltb_spec size 1); [done|lia]. }
  intros Hs a val count. intros ->. intros Hone Hm. destruct (Z.ltb_spec size 1); [lia|]. destruct (cl_size_cases _ _ _ _ Hc) as [Ho|]; [|lia].
  rewrite (cl_args _ _ _ _ Hc 0 a eq_refl : arg_hex _ _ 1 = _). cbn [obind].
  pose proof (cl_args _ _ _ _ Hc 1 val eq_refl : arg_hex _ _ 2 = _) as E2. unfold arg_hex in E2.
  destruct (arr_get argv 2) as [arg2| | |]; cbn [obind] in E2 |- *; try done. rewrite simple_strtoull_eq.
  destruct (simple_strtoul (w_mem w) arg2 16) as [[x e]| | |]; cbn [obind] in E2 |- *; try done. injection E2 as ->.
  assert (0 <= count /\ (if argc =? 4 then arg_hex (w_mem w) argv 3 else Ok 1) = Ok count) as [Hcount ->].
  { destruct (Z.eqb_spec argc 4).
    - split; [apply (cl_arg_range _ _ _ _ 2 count Hc eq_refl)|]. apply (cl_args _ _ _ _ Hc 2 count eq_refl).
    - rewrite Hone by done. done. }
  cbn [obind]. replace (Z.to_nat size) with (obj_bytes size) by (pose proof (obj_bytes_size size Ho); lia).
  rewrite <- (Z2Nat.id count Hcount) at 1. rewrite mw_loop_write; [done|done|]. by rewrite Z2Nat.id.
Qed.

(** The memory of the witnesses: a command line at 0x1000 and an area of 64
    bytes at 0x2000 whose first word is 0x11223344. *)
Definition demo_mem : mem :=
  write_bytes (mem_of 0x1000
    ([109; 100; 46; 108; 0] ++ [50; 48; 48; 48; 0] ++ [50; 48; 50; 48; 0] ++ [50; 0]))
    0x2000 ([0x44; 0x33; 0x22; 0x11] ++ replicate 60 0).
Definition demo_argv : list Z := [0x1000; 0x1005; 0x100a; 0x100f].

Lemma demo_line : cmd_line demo_mem demo_argv 4 [0x2000; 0x2020; 2].
Proof.
  split; [vm_compute; reflexivity|]. intros i v Hi.
  do 3 (destruct i as [|i]; [injection Hi as <-; vm_compute; reflexivity|]). done.
Qed.

Definition mapped_b (m : mem) (p : Z) (n : nat) : bool :=
  forallb (fun i => bool_decide (is_Some (m !! (p + Z.of_nat i)))) (seq 0 n).

Lemma mapped_b_ok m p n : mapped_b m p n = true -> mapped m p (Z.of_nat n).
Proof.
  unfold mapped_b. rewrite forallb_forall. intros H q Hq. specialize (H (Z.to_nat (q - p))).
  rewrite Z2Nat.id in H by lia. replace (p + (q - p)) with q in H by lia.
  eapply bool_decide_eq_true_1. apply H, in_seq. lia.
Qed.

Lemma demo_mapped : mapped demo_mem 0x2000 64.
Proof. apply (mapped_b_ok _ _ 64). by vm_compute. Qed.

Lemma demo_wf : wf_mem demo_mem.
Proof. apply wf_mem_write; [apply wf_mem_write; [intros a b; by rewrite lookup_empty|]|];
  unfold byte_range; apply (bool_decide_unpack _); by vm_compute. Qed.

Lemma do_mem_mw_correct_witness :
  do_mem_mw mem_vars0 0 4 demo_argv (World demo_mem []) =
    Ok (mem_vars0, World (write_bytes demo_mem 0x2000 [0x20; 0x20; 0; 0; 0x20; 0x20; 0; 0]) [], 0).
Proof.
  destruct (do_mem_mw_correct mem_vars0 0 4 demo_argv (World demo_mem []) 4 [0x2000; 0x2020; 2]) as [_ H].
  destruct (H ltac:(lia) demo_line) as [_ Hok].
  refine (Hok _ 0x2000 0x2020 2 eq_refl _ _); [lia|done|]. eapply mapped_sub; [apply demo_mapped|done|done].
Defined.

(** C31: [cmp] and [cp].  [cmp] of two mapped areas always returns 0: it counts
    the objects up to the first that differ, shows those two if there are any,
    and prints the count.  [cp] of zero objects is refused; of objects that do
    not overlap their destination it returns 0, copies exactly these bytes,
    and a [cmp] of the two areas then reports that all are the same. *)
Theorem do_mem_cp_cmp_correct (lit : string -> Z) (v : mem_vars) (flag : Z) (argv : list Z) (w : world) (size a1 a2 count : Z) :
  let p1 := u64 (a1 + base_address v) in let p2 := u64 (a2 + base_address v) in
  cmd_line (w_mem w) argv size [a1; a2; count] -> 0 <= size -> wf_mem (w_mem w) ->
  mapped (w_mem w) p1 (count * size) -> mapped (w_mem w) p2 (count * size) ->
  (exists k, same_upto (w_mem w) size p1 p2 count k /\
    do_mem_cmp lit v flag 4 argv w = Ok (v, says (cmp_report lit (w_mem w) size p1 p2 count k) w, 0)) /\
  (count = 0 -> do_mem_cp v flag 4 argv w = Ok (v, puts_lit "Zero length ???\n" w, 1)) /\
  (count <> 0 -> count * size < 2 ^ 64 -> p1 + count * size <= p2 \/ p2 + count * size <= p1 ->
    let m' := write_bytes (w_mem w) p2 (read_bytes (w_mem w) p1 (Z.to_nat (count * size))) in
    do_mem_cp v flag 4 argv w = Ok (v, set_mem m' w, 0) /\
    forall flag' argv' w', w_mem w' = m' -> cmd_line m' argv' size [a1; a2; count] ->
      do_mem_cmp lit v flag' 4 argv' w' = Ok (v, says [total lit size count] w', 0)).
Proof.
  intros p1 p2 Hc Hs Hw M1 M2. destruct (cl_size_cases _ _ _ _ Hc) as [Ho|]; [|lia].
  pose proof (cl_arg_range _ _ _ _ 2 count Hc eq_refl) as Rc.
  split; [by apply do_mem_cmp_spec|]. unfold do_mem_cp. destruct (cl_head _ _ _ _ Hc) as (arg0 & E0 & E1).
  cbn [Z.eqb Pos.eqb negb]. rewrite E0. cbn [obind]. rewrite E1. cbn [obind]. destruct (Z.ltb_spec size 0); [lia|].
  rewrite (cl_args _ _ _ _ Hc 0 a1 eq_refl : arg_hex _ _ 1 = _). cbn [obind].
  rewrite (cl_args _ _ _ _ Hc 1 a2 eq_refl : arg_hex _ _ 2 = _). cbn [obind].
  rewrite (cl_args _ _ _ _ Hc 2 count eq_refl : arg_hex _ _ 3 = _). cbn [obind]. fold p1 p2.
  split; [by intros ->|]. intros Hn Hb Hd. destruct (Z.eqb_spec count 0); [lia|]. set (m' := write_bytes _ _ _). split.
  - rewrite u64_small by nia. set (l := read_bytes (w_mem w) p1 (Z.to_nat (count * size))).
    assert (Z.of_nat (length l) = count * size) as El by (unfold l; rewrite length_read_bytes; nia).
    rewrite <- El, memcpy_write; [done| | | |].
    + apply read_bytes_at. by rewrite Z2Nat.id by nia.
    + apply wf_mem_read; [done|]. by rewrite Z2Nat.id by nia.
    + by rewrite El.
    + unfold forward_ok. rewrite El. lia.
  - intros flag' argv' w' Ew Hc'.
    destruct (do_mem_cmp_spec lit v flag' argv' w' size a1 a2 count) as (k & (Hk & _ & Hne) & ->);
      [by rewrite Ew|done|rewrite Ew; by apply mapped_write_bytes|rewrite Ew; by apply mapped_write_bytes|].
    fold p1 p2 in Hne. assert (k = count) as ->; [|unfold cmp_report; by rewrite Z.ltb_irrefl].
    destruct (Z.lt_ge_cases k count); [|lia]. destruct (Hne ltac:(lia)). rewrite Ew.
    destruct (obj_copied (w_mem w) size p1 p2 count k Ho ltac:(lia) M1 Hw Hd) as [Ea Eb].
    fold m' in Ea, Eb. by rewrite Ea, Eb.
Qed.

Lemma do_mem_cp_cmp_correct_witness (lit := fun _ : string => 0) :
  exists m', do_mem_cp mem_vars0 0 4 demo_argv (World demo_mem []) = Ok (mem_vars0, World m' [], 0) /\
    do_mem_cmp lit mem_vars0 0 4 demo_argv (World m' []) = Ok (mem_vars0, World m' [total lit 4 2], 0).
Proof.
  destruct (do_mem_cp_cmp_correct lit mem_vars0 0 demo_argv (World demo_mem []) 4 0x2000 0x2020 2 demo_line
    ltac:(lia) demo_wf) as (_ & _ & H); [eapply mapped_sub; [apply demo_mapped|done|done]..|].
  destruct (H ltac:(lia) ltac:(lia)) as [E1 E2]; [left; by vm_compute|]. eexists. split; [exact E1|].
  apply (E2 0 demo_argv (World _ [])); [done|]. split; [vm_compute; reflexivity|]. intros i v Hi.
  do 3 (destruct i as [|i]; [injection Hi as <-; vm_compute; reflexivity|]). done.
Defined.

(** ** md *)

(** An area that can be displayed. *)
Record showable (m : mem) (p size n : Z) : Prop := {
  sh_wf : wf_mem m;
  sh_count : 0 <= n < 2 ^ 32;
  sh_mapped : mapped m p (n * size);
  sh_range : 0 <= p /\ p + n * size <= 2 ^ 64
}.

Lemma show_spec m p size n w : obj_size size -> w_mem w = m -> showable m p size n ->
  print_buffer p p (u32 size) (u32 n) (u32 (DISP_LINE_LEN ÷ size)) w = Ok (says (dump m p size (16 / size) n) w, 0).
Proof.
  intros Ho <- [Hw Hn Hm Hr]. pose proof (obj_size_range size Ho).
  assert (DISP_LINE_LEN ÷ size = 16 / size /\ 1 <= 16 / size /\ 16 / size * size <= 64) as (E & Hp & Hpw)
    by (destruct Ho as [->|[->|[->| ->]]]; by vm_compute).
  rewrite E, !u32_small by nia. apply print_buffer_spec; (done || lia).
Qed.

Definition shown_state (v : mem_vars) (p size n : Z) : mem_vars := MemVars (u64 (p + n * size)) size n (base_address v).

(** C32: [md] displays memory.  It asks for an address and refuses an unknown
    size suffix.  A new command displays [n] objects (the count given, or the
    last one) from the address plus the base address; a repeated command, with
    whatever arguments, displays as many objects of the same size from where
    the last one ended.  What is printed is the reference dump, a line per 16
    bytes with address, values and characters, the last one padded. *)
Theorem do_mem_md_correct (v : mem_vars) (flag argc : Z) (argv : list Z) (w : world) :
  (argc < 2 -> do_mem_md v flag argc argv w = Ok (v, w, CMD_RET_USAGE)) /\
  (2 <= argc -> Z.land flag CMD_FLAG_REPEAT = 0 -> forall size args, cmd_line (w_mem w) argv size args ->
    (size < 0 -> do_mem_md v flag argc argv w = Ok (v, w, 1)) /\
    (0 <= size -> forall a n, args = [a] ++ (if 2 <? argc then [n] else []) -> (argc = 2 -> n = dp_last_length v) ->
      let p := u64 (a + base_address v) in
      showable (w_mem w) p size n ->
      do_mem_md v flag argc argv w = Ok (shown_state v p size n, says (dump (w_mem w) p size (16 / size) n) w, 0))) /\
  (2 <= argc -> Z.land flag CMD_FLAG_REPEAT <> 0 ->
    let p := dp_last_addr v in let size := dp_last_size v in let n := dp_last_length v in
    obj_size size -> showable (w_mem w) p size n ->
    do_mem_md v flag argc argv w = Ok (shown_state v p size n, says (dump (w_mem w) p size (16 / size) n) w, 0)).
Proof.
  unfold do_mem_md. split; [intros; destruct (Z.ltb_spec argc 2); [done|lia]|].
  assert (forall p size n, obj_size size -> showable (w_mem w) p size n ->
    (if size =? 0 then Fault else
     let! '(w, _) := print_buffer p p (u32 size) (u32 n) (u32 (DISP_LINE_LEN ÷ size)) w in
     Ok (MemVars (u64 (p + u64 (size * n))) (u64 size) n (base_address v), w, 0)) =
    Ok (shown_state v p size n, says (dump (w_mem w) p size (16 / size) n) w, 0)) as Hshow.
  { intros p size n Ho Hsh. pose proof (obj_size_range size Ho). destruct (Z.eqb_spec size 0); [lia|].
    rewrite (show_spec (w_mem w)) by done. cbn [obind]. unfold shown_state. rewrite (u64_small size) by lia.
    unfold u64. rewrite Z.add_mod_idemp_r by lia. by rewrite (Z.mul_comm size). }
  split; intros Ha Hf; (destruct (Z.ltb_spec argc 2); [lia|]).
  - destruct (Z.eqb_spec (Z.land flag CMD_FLAG_REPEAT) 0); [|done]. intros size args Hc.
    destruct (cl_head _ _ _ _ Hc) as (arg0 & E0 & E1). rewrite E0. cbn [obind]. rewrite E1. cbn [obind].
    split; [intros; destruct (Z.ltb_spec size 0); [done|lia]|]. intros Hs a n ->. intros Hn Hsh. destruct (Z.ltb_spec size 0); [lia|].
    destruct (cl_size_cases _ _ _ _ Hc) as [Ho|]; [|lia].
    rewrite (cl_args _ _ _ _ Hc 0 a eq_refl : arg_hex _ _ 1 = _). cbn [obind].
    assert ((if 2 <? argc then arg_hex (w_mem w) argv 2 else Ok (dp_last_length v)) = Ok n) as ->; [|cbn [obind]; by apply Hshow].
    destruct (Z.ltb_spec 2 argc); [apply (cl_args _ _ _ _ Hc 1 n eq_refl)|]. by rewrite Hn by lia.
  - destruct (Z.eqb_spec (Z.land flag CMD_FLAG_REPEAT) 0) as [|_]; [done|]. intros Ho Hsh. pose proof (obj_size_range _ Ho).
    replace (s32 (dp_last_size v)) with (dp_last_size v) by by destruct Ho as [->|[->|[->| ->]]]. by apply Hshow.
Qed.

Definition demo_argv_md : list Z := [0x1000; 0x1005; 0x100f].

Lemma demo_showable p : 0x2000 <= p <= 0x2030 -> showable demo_mem p 4 2.
Proof. intros Hp. split; [apply demo_wf|lia|eapply mapped_sub; [apply demo_mapped|lia|lia]|lia]. Qed.

(** Two words, then again: the second command starts where the first ended. *)
Lemma do_mem_md_correct_witness :
  let w := World demo_mem [] in
  let v1 := MemVars 0x2008 4 2 0 in
  do_mem_md mem_vars0 0 3 demo_argv_md w = Ok (v1, says (dump demo_mem 0x2000 4 4 2) w, 0) /\
  do_mem_md v1 1 3 demo_argv_md w = Ok (MemVars 0x2010 4 2 0, says (dump demo_mem 0x2008 4 4 2) w, 0) /\
  dump demo_mem 0x2000 4 4 2 = [Printf "%08lx:" [0x2000]; Printf " %0*llx" [8; 0x11223344]; Printf " %0*llx" [8; 0]] ++
    replicate 18 (PutsLit " ") ++ [PrintfStr "    %s\n" [68; 51; 34; 46; 46; 46; 46; 46]].
Proof.
  intros w v1. split; [|split; [|vm_compute; reflexivity]].
  - destruct (do_mem_md_correct mem_vars0 0 3 demo_argv_md w) as (_ & H & _).
    destruct (H ltac:(lia) eq_refl 4 [0x2000; 2]) as [_ Hok].
    + split; [vm_compute; reflexivity|]. intros i v Hi. do 2 (destruct i as [|i]; [injection Hi as <-; vm_compute; reflexivity|]). done.
    + refine (Hok _ 0x2000 2 eq_refl _ _); [lia|lia|apply (demo_showable 0x2000); lia].
  - destruct (do_mem_md_correct v1 1 3 demo_argv_md w) as (_ & _ & H).
    refine (H _ _ _ _); [lia|done|right; right; by left|apply (demo_showable 0x2008); lia].
Defined.
