(* ===== verification/UartCmd.v ===== *)
(** * The uart command (cmd/uart.c, module/uart/uart_test.c)

    A command with subcommands whose handler keeps its numeric arguments in an
    object of the heap: lookup in a table of its own, allocation, conversion,
    the test itself and release.  [reg] gives what the device answers when one
    of its registers is read. *)

From S2P Require Import Prelude CMem Str StrFacts Strto Console Words Pages PagesFacts Malloc MallocSpec MallocFacts.
From S2P Require Import MallocGrow MallocRelease MallocCorrect HeapTheorems Command CommandFacts MemCmd.

Local Open Scope Z_scope.
Local Open Scope c_scope.

Definition ENOMEM : Z := 12.

Section command.
Context (malloc_base malloc_limit : Z) (reg : Z -> Z).

Definition up_cpr : Z := 0xf4.
Definition up_ucv : Z := 0xf8.
Definition up_ctr : Z := 0xfc.

Definition uart_register_dump_test (up : Z) (w : world) : world * Z :=
  let w := printf "            CPR:%#x\n" [reg (up + up_cpr)] w in
  let w := printf "            ver:%#x\n" [reg (up + up_ucv)] w in
  let w := printf "  peripheral_id:%#x\n" [reg (up + up_ctr)] w in
  (w, 0).

(** The base address of the console's port, UART2. *)
Definition test_uart : Z := 0xFEB50000.

Definition module_uart_test (case_id arg_list argc : Z) (w : world) : world * Z :=
  if argc =? 0 then (w, 1) else
  if case_id =? 0 then uart_register_dump_test test_uart w else (w, 0).

Definition module_uart_test_help (w : world) : world :=
  printf "uart test 0	 - printf & dump reg test\n" [] w.

Definition uart_help (w : world) : world := module_uart_test_help (printf "uart test help:\n\n" [] w).

(** [for (i = 0; i < argc - 2; i++) arg_list[i] = simple_strtoul(argv[i + 2], NULL, 16);] *)
Definition read_args (argc : Z) (argv : list Z) (arg_list : Z) (m : mem) : outcome mem :=
  while (S (Z.to_nat (argc - 2))) (fun '(i, m) =>
    if i <? argc - 2 then
      let! v := arg_hex m argv (i + 2) in
      let! m := store64 m (arg_list + 8 * i) v in
      cont (i + 1, m)
    else brk m) (0, m).

Definition do_uart_test (flag argc : Z) (argv : list Z) (h : heap) (w : world) : outcome (heap * world * Z) :=
  if argc <? 2 then Ok (h, uart_help w, CMD_RET_SUCCESS) else
  let! '(h, w, arg_list) := malloc malloc_base (u64 (8 * (argc - 2))) h w in
  if arg_list =? NULL then Ok (h, w, - ENOMEM) else
  let! m := read_args argc argv arg_list (w_mem w) in
  let w := set_mem m w in
  let! case_id := arg_hex m argv 1 in
  let case_id := s32 case_id in
  let '(w, ret) :=
    let '(w, ret) := module_uart_test case_id arg_list (argc - 2) w in
    if ret =? CMD_RET_USAGE then (uart_help w, CMD_RET_SUCCESS) else (w, ret) in
  let! '(h, w) := free malloc_base malloc_limit arg_list h w in
  Ok (h, w, ret).

(** [cmd_uart_sub] has the single entry "test", whose name is at [test_name];
    its function is [do_uart_test]. *)
Definition cmd_uart_sub (test_name : Z) : list cmd_tbl_t :=
  [CmdTbl test_name 6 (fun _ _ _ _ => Fault) NULL NULL None].

Definition do_uart (test_name flag argc : Z) (argv : list Z) (h : heap) (w : world) : outcome (heap * world * Z) :=
  if argc <? 2 then Ok (h, w, CMD_RET_USAGE) else
  let argc := argc - 1 in
  let argv := tail argv in
  let! arg0 := arr_get argv 0 in
  let! c := find_cmd_tbl (w_mem w) arg0 (cmd_uart_sub test_name) in
  match c with
  | Some _ => do_uart_test flag argc argv h w
  | None => Ok (h, w, CMD_RET_USAGE)
  end.
End command.

(** ** The arguments in the object *)

Section args.
Context (argv : list Z) (strs : list (list Z)).

(** The arguments are strings that do not meet [R]. *)
Definition args_at (m : mem) (R : Z -> Prop) : Prop :=
  Forall2 (fun p s => cstr m p s /\ apart R p (Z.of_nat (length s) + 1)) argv strs.

Definition arg_value (s : list Z) : Z := fst (strtoul_spec 16 s).

Lemma args_at_unchanged m m' R : args_at m R -> unchanged R m m' -> args_at m' R.
Proof.
  intros HF Hu. eapply Forall2_impl; [exact HF|]. cbv beta. intros p s [[Hc HF'] Ha]. split; [|done]. split; [|done].
  eapply bytes_at_ext; [|exact Hc]. eapply unchanged_bytes; [exact Hu|]. rewrite length_app. by rewrite Nat2Z.inj_add.
Qed.

Lemma args_at_mono m (R R' : Z -> Prop) : args_at m R -> (forall x, R' x -> R x) -> args_at m R'.
Proof.
  intros HF HR. eapply Forall2_impl; [exact HF|]. cbv beta. intros p s [Hc Ha]. split; [done|]. intros x Hx Hx'. by apply (Ha x Hx), HR.
Qed.

Lemma arg_hex_at m R i s : args_at m R -> strs !! i = Some s -> arg_hex m argv (Z.of_nat i) = Ok (arg_value s).
Proof.
  intros HF Hs. destruct (Forall2_lookup_r _ _ _ _ _ HF Hs) as (p & Hp & Hc & _). unfold arg_hex.
  rewrite (arr_get_nat _ _ _ Hp). cbn [obind]. by rewrite (simple_strtoul_cstr _ _ _ _ Hc).
Qed.

(** The conversions fill the object and touch nothing else. *)
Lemma read_args_spec m R p sz :
  args_at m R -> mapped m p sz -> (forall x, span_of p sz x -> R x) -> 8 * (Z.of_nat (length argv) - 2) <= sz -> (2 <= length argv)%nat ->
  returns (read_args (Z.of_nat (length argv)) argv p m) (fun m' =>
    unchanged (span_of p sz) m m' /\ (forall s, strs !! 2%nat = Some s -> rdw m' p = arg_value s mod 2 ^ 64) /\
    ((length argv = 2)%nat -> m' = m)).
Proof.
  intros HF Hm HR Hsz Hlen. pose proof (Forall2_length _ _ _ HF) as EL. unfold read_args.
  eapply (returns_while (fun '(i, m') => 0 <= i <= Z.of_nat (length argv) - 2 /\ unchanged (span_of p sz) m m' /\
      (0 < i -> forall s, strs !! 2%nat = Some s -> rdw m' p = arg_value s mod 2 ^ 64) /\ (i = 0 -> m' = m))
    (fun '(i, _) => Z.to_nat (Z.of_nat (length argv) - 2 - i))).
  - intros [i m'] (Hi & Hu & Hv & H0). destruct (Z.ltb_spec i (Z.of_nat (length argv) - 2)) as [Hlt|Hge].
    + destruct (lookup_lt_is_Some_2 strs (Z.to_nat (i + 2))) as [s Hs]; [lia|].
      assert (args_at m' R) as HF' by (eapply args_at_unchanged; [exact HF|]; eapply unchanged_mono; [exact Hu|exact HR]).
      pose proof (arg_hex_at m' R _ s HF' Hs) as E. rewrite Z2Nat.id in E by lia. rewrite E. cbn [obind].
      assert (mapped m' (p + 8 * i) 8) as Hm8.
      { eapply unchanged_mapped; [exact Hu|]. eapply mapped_sub; [exact Hm|lia|lia]. }
      eapply returns_bind; [by apply store64_spec|]. intros m2 [U2 E2]. apply returns_ok. split; [|lia].
      split; [lia|]. split; [|split; [|lia]].
      * eapply unchanged_trans; [exact Hu|]. eapply unchanged_mono; [exact U2|]. unfold span_of. lia.
      * intros _ s' Hs'. destruct (decide (i = 0)) as [->|Hne].
        -- assert (s' = s) as -> by (change (Z.to_nat (0 + 2)) with 2%nat in Hs; congruence). by rewrite Z.add_0_r in E2.
        -- rewrite <- (Hv ltac:(lia) s' Hs'). eapply (rdn_unchanged 8); [exact U2|]. apply apart_span. lia.
    + apply returns_ok. split; [done|]. split; [|intros E2; apply H0; lia]. intros s Hs. apply Hv; [|done].
      apply lookup_lt_Some in Hs. lia.
  - split; [lia|]. split; [apply unchanged_refl|]. split; [lia|done].
  - lia.
Qed.
End args.

(** ** The handler *)

Section handler.
Context (base n : Z) `{!Region base n} (reg : Z -> Z).

(** A live object whose first word is no address of the heap passes the guard
    of [free]. *)
Lemma outside_freeable H h m p sz :
  heap_inv base n H h m -> (p, sz) ∈ a_live H -> ~ base <= rdw m p < base + 4096 * n -> freeable H m p.
Proof.
  intros [Hk _] Hp Hout. apply elem_of_live in Hp as (b & Hb & Ho & ->). exists b. split; [done|]. split; [done|]. intros Ht.
  destruct (hk_bucket _ _ _ _ _ _ Hk Hb) as (Hbo & _ & Hbp & _).
  assert (rdw m p ∈ b_free b) as Hf by (destruct (b_free b); [done|by right]).
  destruct (slot_mapped _ _ _ _ _ b _ Hk Hb (free_slot _ _ _ Hbo Hf)) as (_ & _ & _ & S1 & S2).
  destruct (is_page_bounds base n _ Hbp) as (B1 & B2 & B3 & _). destruct (class_div _ (bo_class _ _ Hbo)). lia.
Qed.

(** Freeing an object that [freeable] admits, with the frame of the caller. *)
Lemma free_frees H h w p sz :
  heap_inv base n H h (w_mem w) -> (p, sz) ∈ a_live H ->
  (free base (4096 * n) p h w = Panic "Trying to repeat free addr\n" /\ ~ freeable H (w_mem w) p) \/
  exists H' h' w', free base (4096 * n) p h w = Ok (h', w') /\ heap_inv base n H' h' (w_mem w') /\ w_io w' = w_io w /\
    a_live H ≡ₚ (p, sz) :: a_live H' /\ unchanged (heap_private base n H') (w_mem w) (w_mem w').
Proof.
  intros Hi Hp. pose proof Hi as [Hk _]. apply elem_of_live in Hp as (b & Hb & Ho & ->).
  pose proof (free_spec base n H h w b p Hi Hb Ho) as Hf. destruct (decide _) as [Hc|Hc]; [left|right; destruct Hf as (H' & h' & w' & ? & ? & ? & ? & ? & _); by exists H', h', w'].
  split; [done|]. intros (b' & Hb' & Ho' & Hn). apply Hn. replace b' with b; [done|].
  apply (same_bucket base n H h (w_mem w)); [done|done|done|].
  destruct (hk_bucket _ _ _ _ _ _ Hk Hb) as (Hbo & _ & Hbp & _), (hk_bucket _ _ _ _ _ _ Hk Hb') as (Hbo' & _ & Hbp' & _).
  destruct (slot_mapped _ _ _ _ _ b p Hk Hb (live_slot _ _ _ Hbo Ho)) as (_ & _ & _ & S1 & S2).
  destruct (slot_mapped _ _ _ _ _ b' p Hk Hb' (live_slot _ _ _ Hbo' Ho')) as (_ & _ & _ & T1 & T2).
  destruct (class_div _ (bo_class _ _ Hbo)), (class_div _ (bo_class _ _ Hbo')).
  destruct (decide (b_page b = b_page b')) as [|Hne]; [done|]. destruct (pages_apart base n _ _ Hbp Hbp' Hne); lia.
Qed.

(** Freeing the object of the arguments: the guard of [free] may mistake the
    first argument for a free slot; otherwise the heap is as before. *)
Definition args_freed (H : aheap) (w : world) (strs : list (list Z)) (io : list event) (r : outcome (heap * world)) : Prop :=
  (r = Panic "Trying to repeat free addr\n" /\ exists s, strs !! 2%nat = Some s /\ base <= arg_value s mod 2 ^ 64 < base + 4096 * n) \/
  exists H' h' w', r = Ok (h', w') /\ heap_inv base n H' h' (w_mem w') /\ a_live H' ≡ₚ a_live H /\
    unchanged (heap_private base n H) (w_mem w) (w_mem w') /\ w_io w' = io.

(** The life of the object that holds the arguments of a test. *)
Lemma args_object H h w argv strs s1 :
  heap_inv base n H h (w_mem w) -> (2 <= length argv <= 16)%nat ->
  args_at argv strs (w_mem w) (heap_private base n H) -> strs !! 1%nat = Some s1 ->
  let r := malloc base (u64 (8 * (Z.of_nat (length argv) - 2))) h w in
  (exists msg, r = Panic msg /\ scarce base n H) \/
  exists h1 w1 p m2, r = Ok (h1, w1, p) /\ p <> NULL /\ w_io w1 = w_io w /\
    read_args (Z.of_nat (length argv)) argv p (w_mem w1) = Ok m2 /\ arg_hex m2 argv 1 = Ok (arg_value s1) /\
    forall io, args_freed H w strs io (free base (4096 * n) p h1 (World m2 io)).
Proof.
  intros Hi Hlen Ha Hs1 r. subst r. rewrite u64_small by lia. set (len := 8 * (Z.of_nat (length argv) - 2)).
  pose proof (malloc_spec base n H h w len Hi ltac:(lia)) as Hs. destruct (Z.ltb_spec 4096 len) as [|_]; [lia|].
  destruct Hs as [(msg & -> & Hsc)|(H1 & h1 & m1 & p & j & -> & Hi1 & (HL & HU & Hfr) & _ & Hle & _)]; [left; eauto|right].
  assert ((p, class_size j) ∈ a_live H1) as Hp by (rewrite HL; left).
  destruct (object_facts base n H1 h1 m1 p _ Hi1 Hp) as (Hm & _ & Hpos & _ & Hsz & Hown).
  pose proof (new_object_private base n H H1 h1 m1 p _ Hi1 HL) as Hin.
  assert (args_at argv strs m1 (heap_private base n H)) as Ha1 by by eapply args_at_unchanged.
  destruct (read_args_spec argv strs m1 _ p _ Ha1 Hm Hin ltac:(lia) ltac:(lia)) as (m2 & E2 & U2 & Hv & H0).
  assert (args_at argv strs m2 (heap_private base n H)) as Ha2 by (eapply args_at_unchanged; [exact Ha1|by eapply unchanged_mono]).
  exists h1, (set_mem m1 w), p, m2. split; [done|]. split; [unfold NULL; lia|]. split; [done|]. split; [exact E2|].
  split; [exact (arg_hex_at argv strs m2 _ 1 s1 Ha2 Hs1)|]. intros io.
  assert (heap_inv base n H1 h1 m2) as Hi2 by (eapply (heap_client base n); [exact Hi1|exact U2|exact Hown]).
  destruct (free_frees H1 h1 (World m2 io) p _ Hi2 Hp) as [[-> Hnf]|(H' & h' & w' & -> & Hi' & Hio & HL' & U')].
  - left. split; [done|]. destruct (strs !! 2%nat) as [s|] eqn:Es.
    + exists s. split; [done|]. rewrite <- (Hv s eq_refl). apply dec_stable. intros Hout. apply Hnf.
      by apply (outside_freeable H1 h1 m2 p (class_size j)).
    + exfalso. apply Hnf. cbn [w_mem]. rewrite H0; [done|]. apply lookup_ge_None in Es.
      pose proof (Forall2_length _ _ _ Ha). lia.
  - right. exists H', h', w'. split; [done|]. split; [done|].
    assert (a_live H' ≡ₚ a_live H) as EL by (apply (Permutation_cons_inv (a := (p, class_size j))); by rewrite <- HL', HL).
    split; [done|]. split; [|done]. cbn [w_mem] in U'.
    eapply unchanged_trans; [exact HU|]. eapply unchanged_trans; [by eapply unchanged_mono|].
    eapply unchanged_mono; [exact U'|]. intros x. by apply private_live.
Qed.

(** What the test prints: the help without arguments, the registers for case 0. *)
Definition test_output (argc case_id : Z) : list event :=
  if argc =? 0 then [Printf "uart test help:\n\n" []; Printf "uart test 0	 - printf & dump reg test\n" []]
  else if case_id =? 0 then
    [Printf "            CPR:%#x\n" [reg 0xFEB500f4]; Printf "            ver:%#x\n" [reg 0xFEB500f8];
     Printf "  peripheral_id:%#x\n" [reg 0xFEB500fc]]
  else [].

Lemma test_run case_id p argc w :
  (let '(w, ret) := module_uart_test reg case_id p argc w in
   if ret =? CMD_RET_USAGE then (uart_help w, CMD_RET_SUCCESS) else (w, ret)) =
  (World (w_mem w) (w_io w ++ test_output argc case_id), 0).
Proof.
  unfold module_uart_test, test_output, uart_help, module_uart_test_help, uart_register_dump_test, printf, say.
  destruct (argc =? 0); [cbn; by rewrite <- app_assoc|]. destruct (case_id =? 0); cbn; rewrite <- ?app_assoc, ?app_nil_r; by destruct w.
Qed.

Lemma do_uart_test_spec H h w flag argv strs s1 :
  heap_inv base n H h (w_mem w) -> (2 <= length argv <= 16)%nat ->
  args_at argv strs (w_mem w) (heap_private base n H) -> strs !! 1%nat = Some s1 ->
  let r := do_uart_test base (4096 * n) reg flag (Z.of_nat (length argv)) argv h w in
  (exists msg, r = Panic msg /\ scarce base n H) \/
  (r = Panic "Trying to repeat free addr\n" /\ exists s, strs !! 2%nat = Some s /\ base <= arg_value s mod 2 ^ 64 < base + 4096 * n) \/
  exists H' h' w', r = Ok (h', w', CMD_RET_SUCCESS) /\ heap_inv base n H' h' (w_mem w') /\ a_live H' ≡ₚ a_live H /\
    unchanged (heap_private base n H) (w_mem w) (w_mem w') /\
    w_io w' = w_io w ++ test_output (Z.of_nat (length argv) - 2) (s32 (arg_value s1)).
Proof.
  intros Hi Hlen Ha Hs1 r. subst r. unfold do_uart_test. destruct (Z.ltb_spec (Z.of_nat (length argv)) 2) as [|_]; [lia|].
  destruct (args_object H h w argv strs s1 Hi Hlen Ha Hs1) as [(msg & -> & Hsc)|(h1 & w1 & p & m2 & -> & Hp & Hio & E2 & E1 & Hf)];
    [left; eauto|right]. cbn [obind].
  destruct (Z.eqb_spec p NULL); [done|]. rewrite E2. cbn [obind]. rewrite E1. cbn [obind]. rewrite test_run. cbn [w_mem w_io set_mem]. rewrite Hio.
  destruct (Hf (w_io w ++ test_output (Z.of_nat (length argv) - 2) (s32 (arg_value s1))))
    as [[-> Hs]|(H' & h' & w' & -> & Hi' & HL & HU & Hw)]; [left; by split|right].
  exists H', h', w'. auto.
Qed.
End handler.

(** ** Claim *)

Definition test_text : list Z := [116; 101; 115; 116].

(** The outcomes of a run of the test with the arguments [strs] of "test". *)
Definition test_done (base n : Z) (reg : Z -> Z) (H : aheap) (w : world) (strs : list (list Z)) (case : list Z)
    (r : outcome (heap * world * Z)) : Prop :=
  (exists msg, r = Panic msg /\ scarce base n H) \/
  (r = Panic "Trying to repeat free addr\n" /\ exists s, strs !! 2%nat = Some s /\ base <= arg_value s mod 2 ^ 64 < base + 4096 * n) \/
  exists H' h' w', r = Ok (h', w', CMD_RET_SUCCESS) /\ heap_inv base n H' h' (w_mem w') /\ a_live H' ≡ₚ a_live H /\
    unchanged (heap_private base n H) (w_mem w) (w_mem w') /\
    w_io w' = w_io w ++ test_output reg (Z.of_nat (length strs) - 2) (s32 (arg_value case)).

(** The uart command, from its words to the heap.  The arguments are
    strings that lie outside the allocator's own bytes.  Without a subcommand,
    or with one that does not abbreviate "test", the usage is asked for and
    nothing changes; "test" alone prints the help.  Otherwise the run ends:
    it succeeds, with the heap's invariant restored and exactly the same live
    objects as before (nothing leaks on any path), only bytes of the allocator
    changed, and the help printed when there is no argument behind the case,
    the registers for case 0, nothing for another case.  Or it panics: for
    lack of memory, with at most one page left, or because the first argument,
    which becomes the first word of the object that is freed, is an address of
    the heap. *)
Theorem do_uart_correct (base n : Z) (reg : Z -> Z) (H : aheap) (h : heap) (w : world) (test_name flag : Z) (argv : list Z) (strs : list (list Z)) :
  Region base n -> heap_inv base n H h (w_mem w) -> cstr (w_mem w) test_name test_text ->
  args_at argv strs (w_mem w) (heap_private base n H) -> Forall (fun p => 0 < p) argv -> (length argv <= 16)%nat ->
  let r := do_uart base (4096 * n) reg test_name flag (Z.of_nat (length argv)) argv h w in
  match strs with
  | _ :: sub :: rest =>
      if find_spec sub [test_text] then
        match rest with
        | [] => r = Ok (h, uart_help w, CMD_RET_SUCCESS)
        | case :: _ => test_done base n reg H w (sub :: rest) case r
        end
      else r = Ok (h, w, CMD_RET_USAGE)
  | _ => r = Ok (h, w, CMD_RET_USAGE)
  end.
Proof.
  intros HR Hi Ht Ha Hpos Hlen r. subst r. unfold do_uart. pose proof (Forall2_length _ _ _ Ha) as EL.
  destruct strs as [|s0 [|sub rest]]; destruct argv as [|a0 [|a1 argv]]; try done.
  destruct (Z.ltb_spec (Z.of_nat (length (a0 :: a1 :: argv))) 2) as [Hlt|_]; [cbn [length] in Hlt; lia|]. cbn [tail].
  apply Forall2_cons_1 in Ha as [_ Ha]. apply list.Forall_cons_1 in Hpos as [_ Hpos]. apply list.Forall_cons_1 in Hpos as [Hp1 _].
  change (arr_get (a1 :: argv) 0) with (Ok a1). cbn [obind]. pose proof Ha as ((Hs & _) & _)%Forall2_cons_1.
  rewrite (find_cmd_tbl_spec _ _ sub _ [test_text]) by (done || (constructor; [done|constructor])). cbn [obind].
  destruct (find_spec sub [test_text]); [|done].
  replace (Z.of_nat (length (a0 :: a1 :: argv)) - 1) with (Z.of_nat (length (a1 :: argv))) by (cbn [length]; lia).
  destruct rest as [|case rest].
  - destruct argv; [done|]. cbn [length] in EL. lia.
  - unfold test_done. rewrite <- (Forall2_length _ _ _ Ha). cbn [length] in Hlen, EL.
    apply (do_uart_test_spec base n reg H h w flag (a1 :: argv) (sub :: case :: rest) case); [done|cbn [length]; lia|done|done].
Qed.

(** "uart test 0 7" with the words at 100 and two free pages. *)
Definition uart_words : list Z := [117; 97; 114; 116; 0; 116; 101; 115; 116; 0; 48; 0; 55; 0].
Definition uart_mem : mem := write_bytes (mem_of 100 uart_words) 4096 (replicate (Z.to_nat 8192) 0).

Lemma uart_mem_facts : heap_inv 4096 2 empty_heap (heap0 pages2) uart_mem.
Proof.
  apply empty_heap_inv; [exact (hk_map _ _ _ _ _ (proj1 region2_inv))|].
  pose proof (bytes_at_mapped _ _ _ (write_bytes_at (mem_of 100 uart_words) 4096 (replicate (Z.to_nat 8192) 0))) as Hm.
  by rewrite length_replicate in Hm.
Qed.

Lemma uart_cstr p s : 100 <= p -> p + Z.of_nat (length s) < 200 -> cstr (mem_of 100 uart_words) p s -> cstr uart_mem p s.
Proof.
  intros H1 H2 [Hb HF]. split; [|done]. eapply bytes_at_ext; [|exact Hb]. intros x Hx. rewrite length_app in Hx. cbn in Hx.
  unfold uart_mem. apply lookup_write_bytes_ne. lia.
Qed.

Lemma uart_arg p s : 100 <= p -> p + Z.of_nat (length s) < 200 -> cstr (mem_of 100 uart_words) p s ->
  cstr uart_mem p s /\ apart (heap_private 4096 2 empty_heap) p (Z.of_nat (length s) + 1).
Proof. intros H1 H2 Hc. split; [by apply uart_cstr|]. intros x Hx [Hb _]. lia. Qed.

Lemma do_uart_correct_witness :
  exists h' w', do_uart 4096 (4096 * 2) (fun a => a) 105 0 4 [100; 105; 110; 112] (heap0 pages2) (World uart_mem []) = Ok (h', w', 0) /\
    w_io w' = [Printf "            CPR:%#x\n" [0xFEB500f4]; Printf "            ver:%#x\n" [0xFEB500f8];
               Printf "  peripheral_id:%#x\n" [0xFEB500fc]].
Proof.
  destruct (do_uart_correct 4096 2 (fun a => a) empty_heap (heap0 pages2) (World uart_mem []) 105 0 [100; 105; 110; 112]
    [[117; 97; 114; 116]; test_text; [48]; [55]]) as [(msg & _ & Hs)|[(_ & s & Es & Hv)|(H' & h' & w' & E & _ & _ & _ & Hio)]].
  - exact region2_region.
  - exact uart_mem_facts.
  - apply uart_cstr; [lia|vm_compute; done|]. split; [vm_compute; tauto|repeat constructor; lia].
  - repeat (apply Forall2_cons_2; [apply uart_arg; [lia|vm_compute; done|split; [vm_compute; tauto|repeat constructor; lia]]|]). constructor.
  - repeat constructor; lia.
  - cbn. lia.
  - by destruct (region2_plenty Hs).
  - injection Es as <-. vm_compute in Hv. destruct Hv as [Hv _]. by destruct Hv.
  - exists h', w'. split; [exact E|exact Hio].
Defined.
