(* ===== verification/Display.v ===== *)
(** * The banner and sizes (lib/display_options.c)

    [display_options] builds the banner in a buffer on the stack, whose
    address is [banner_buf], and prints it; [print_size] prints a number of
    bytes in units.  [lit] is the address the linker gives a string literal
    and [version_string] the address of the version. *)

From S2P Require Import Prelude CMem Str Fmt Console.

Local Open Scope Z_scope.
Local Open Scope c_scope.

Definition DISPLAY_OPTIONS_BANNER_LENGTH : Z := 200.
Definition BUILD_TAG : Z := NULL.

Section display.
Context (lit : string -> Z) (version_string : Z).

Definition display_options_get_banner_priv (newlines : bool) (build_tag buf size : Z) (m : mem) : outcome mem :=
  let! '(m, len) := snprintf m buf (u64 size) (lit "%s%s") [lit (if newlines then "\n\n" else ""); version_string] in
  let! '(m, len) :=
    if negb (build_tag =? NULL) && (len <? size) then
      let! '(m, n) := snprintf m (buf + len) (u64 (size - len)) (lit ", Build: %s") [build_tag] in
      Ok (m, s32 (len + n))
    else Ok (m, len) in
  let len := if size - 3 <? len then size - 3 else len in
  let len := if len <? 0 then 0 else len in
  let! '(m, _) := snprintf m (buf + len) (u64 (size - len)) (lit "\n\n") [] in
  Ok m.

Definition display_options_get_banner (newlines : bool) (buf size : Z) (m : mem) : outcome mem :=
  display_options_get_banner_priv newlines BUILD_TAG buf size m.

Context (banner_buf : Z).

Definition display_options (w : world) : outcome (world * Z) :=
  let! m := display_options_get_banner true banner_buf DISPLAY_OPTIONS_BANNER_LENGTH (w_mem w) in
  let! n := strlen m banner_buf in
  Ok (printf_str "%s" (read_bytes m banner_buf (Z.to_nat n)) (set_mem m w), 0).
End display.

(** ** print_size *)

(** 'E' 'P' 'T' 'G' 'M' 'K' *)
Definition names : list Z := [69; 80; 84; 71; 77; 75].

(** The first unit that is not larger than the size: its letter and its
    exponent, or no letter. *)
Definition find_unit (size : Z) : outcome (Z * Z) :=
  while 7 (fun '(i, d) =>
    if i <? 6 then
      if negb (Z.shiftr size d =? 0) then
        match names !! Z.to_nat i with Some c => brk (c, d) | None => Fault end
      else cont (i + 1, u64 (d - 10))
    else brk (0, d)) (0, 60).

(** Whole units and tenths, rounded. *)
Definition size_digits (size d : Z) : Z * Z :=
  let n := Z.shiftr size d in
  let f := Z.land size (u64 (Z.shiftl 1 d - 1)) in
  if negb (f =? 0) then
    let m := Z.shiftr (u64 (10 * f + Z.shiftl 1 (d - 1))) d in
    if 10 <=? m then (u64 (n + 1), m - 10) else (n, m)
  else (n, 0).

Definition print_size (size s : Z) (w : world) : outcome world :=
  let! '(c, d) := find_unit size in
  if c =? 0 then Ok (printf "%llu Bytes%s" [size; s] w) else
  let '(n, m) := size_digits size d in
  let w := printf "%lu" [n] w in
  let w := if negb (m =? 0) then printf ".%ld" [m] w else w in
  Ok (printf " %ciB%s" [c; s] w).
