(* ===== verification/DisplayFacts.v ===== *)
(** * The banner and sizes: facts *)

From S2P Require Import Prelude CMem Str StrFacts Strto Fmt FmtText FmtSpec FmtFormat Console Display.

Local Open Scope Z_scope.
Local Open Scope c_scope.

(** ** print_size *)

(** The unit of a size: the largest power of 1024 it reaches. *)
Lemma find_unit_spec size :
  0 <= size < 2 ^ 64 ->
  returns (find_unit size) (fun '(c, d) =>
    (c = 0 /\ size < 1024) \/ (c ∈ names /\ 10 <= d <= 60 /\ 2 ^ d <= size < 2 ^ (d + 10))).
Proof.
  intros Hs. unfold find_unit. apply (while_total (fun '(i, d) => 0 <= i <= 6 /\ d = 60 - 10 * i /\ size < 2 ^ (d + 10)) (fun '(i, _) => Z.to_nat (6 - i))).
  2: { split; [lia|]. split; [lia|]. cbn; lia. }
  2: { cbn; lia. }
  intros [i d] (Hi & -> & Hlt). unfold brk, cont. destruct (Z.ltb_spec i 6).
  2: { left. split; [done|]. replace i with 6 in Hlt by lia. exact Hlt. }
  rewrite Z.shiftr_div_pow2 by lia. pose proof (Z.pow_pos_nonneg 2 (60 - 10 * i) ltac:(lia) ltac:(lia)).
  destruct (Z.eqb_spec (size / 2 ^ (60 - 10 * i)) 0) as [E|E]; cbn [negb].
  - split; [|lia]. split; [lia|]. rewrite u64_small by lia. split; [lia|].
    apply Z.div_small_iff in E; [|lia]. replace (60 - 10 * i - 10 + 10) with (60 - 10 * i) by lia. lia.
  - destruct (lookup_lt_is_Some_2 names (Z.to_nat i)) as [c Hc]; [cbn; lia|]. rewrite Hc. right.
    split; [by eapply list_elem_of_lookup_2|]. split; [lia|]. split; [|done].
    destruct (Z.le_gt_cases (2 ^ (60 - 10 * i)) size); [done|]. rewrite Z.div_small in E by lia. lia.
Qed.

(** Whole units and tenths are the size rounded to the nearest tenth. *)
Lemma size_digits_round size d :
  0 <= size < 2 ^ 64 -> 10 <= d <= 60 ->
  let '(n, m) := size_digits size d in
  0 <= n /\ 0 <= m < 10 /\ 2 * Z.abs (10 * size - (10 * n + m) * 2 ^ d) <= 2 ^ d.
Proof.
  intros Hs Hd. unfold size_digits. rewrite !Z.shiftl_mul_pow2, !Z.mul_1_l by lia.
  pose proof (Z.pow_pos_nonneg 2 (d - 1) ltac:(lia) ltac:(lia)) as Hp.
  assert (2 ^ d = 2 * 2 ^ (d - 1)) as Ed by (rewrite <- Z.pow_succ_r by lia; f_equal; lia).
  assert (2 ^ d <= 2 ^ 60) as Hle by (apply Z.pow_le_mono_r; lia).
  rewrite u64_small by lia. replace (2 ^ d - 1) with (Z.ones d) by (rewrite Z.ones_equiv; lia). rewrite Z.land_ones, !Z.shiftr_div_pow2 by lia.
  pose proof (Z.div_mod size (2 ^ d) ltac:(lia)) as Hdm. pose proof (Z.mod_pos_bound size (2 ^ d) ltac:(lia)) as Hf.
  pose proof (Z.div_pos size (2 ^ d) ltac:(lia) ltac:(lia)) as Hn. set (n := size / 2 ^ d) in *. set (f := size mod 2 ^ d) in *.
  destruct (Z.eqb_spec f 0) as [E|E]; cbn [negb]; [split; [lia|]; split; [lia|nia]|].
  rewrite u64_small by lia. set (a := 10 * f + 2 ^ (d - 1)).
  pose proof (Z.div_mod a (2 ^ d) ltac:(lia)) as Ha. pose proof (Z.mod_pos_bound a (2 ^ d) ltac:(lia)) as Hr.
  assert (0 <= a / 2 ^ d < 11) as Hm by (split; [apply Z.div_pos; lia|apply Z.div_lt_upper_bound; lia]).
  set (m := a / 2 ^ d) in *. destruct (Z.leb_spec 10 m).
  - assert (n < 2 ^ 64 - 1) as Hnb.
    { assert (n <= 2 ^ 54); [|lia]. unfold n. apply Z.div_le_upper_bound; [lia|]. assert (2 ^ 10 <= 2 ^ d) by (apply Z.pow_le_mono_r; lia). nia. }
    rewrite u64_small by lia. split; [lia|]. split; [lia|]. nia.
  - split; [lia|]. split; [lia|]. nia.
Qed.

Lemma print_size_returns size s w :
  0 <= size < 2 ^ 64 -> returns (print_size size s w) (fun w' => w_mem w' = w_mem w).
Proof.
  intros Hs. unfold print_size. destruct (find_unit_spec size Hs) as ([c d] & -> & _). cbn [obind].
  destruct (c =? 0); [by apply returns_ok|]. destruct (size_digits size d) as [n m]. apply returns_ok. by destruct (m =? 0).
Qed.

(** ** The banner *)

Definition plain_s : item := Conv (Directive [] [] None [] 115).

Lemma plain_s_ok : item_ok plain_s.
Proof. split; cbn; [constructor|split; [split; [constructor|by vm_compute]|done]|done|set_solver|set_solver]. Qed.

Lemma renders_strings m args ptrs : forall space text,
  Forall2 (fun a s => string_arg m (u64 a) s) args ptrs -> renders m space (const plain_s <$> args) args text -> text = concat ptrs.
Proof.
  intros space text H. revert space text. induction H as [|a s args ptrs Hs H IH]; intros space text Hr; cbn in Hr; inversion Hr; subst; try done.
  cbn [concat]. f_equal; [|eauto]. match goal with H1 : shows _ _ _ ?t |- ?t = _ => destruct H1 as [E|s' _ Hs'|? ? ? E]; [done| |done] end.
  assert (s' = s) as -> by (unfold string_arg in *; destruct (u64 a =? NULL); [congruence|by eapply cstr_inj]).
  unfold padded. cbn -[Z.to_nat Z.sub]. by replace (Z.to_nat _) with 0%nat by lia.
Qed.

Section banner.
Context (lit : string -> Z) (version_string buf : Z) (m : mem) (version : list Z).
Context (Hb : 0 <= buf) (Hend : buf + 200 < 2 ^ 64) (Hmap : mapped m buf 200).

(** A literal, apart from the buffer. *)
Definition placed (p : Z) (s : list Z) : Prop :=
  0 < p < 2 ^ 64 /\ cstr m p s /\ Z.of_nat (length s) < 2 ^ 30 /\ clear_of buf (buf + 200) p (Z.of_nat (length s)).

Context (Lss : placed (lit "%s%s") [37; 115; 37; 115]) (Lnn : placed (lit "\n\n") [10; 10]) (Lv : placed version_string version).

Lemma placed_str_ok size p s : 0 <= size <= 200 -> placed p s -> str_ok buf (buf + size) m (u64 p).
Proof.
  intros Hs (Hp & Hc & Hl & Hcl). rewrite u64_small by lia. right. exists s. split; [done|]. split; [lia|]. unfold clear_of in *. lia.
Qed.

(** The banner: two newlines and the version, cut to leave room, and two
    newlines; nothing but the buffer changes. *)
Lemma banner_text :
  exists m', display_options_get_banner lit version_string true buf 200 m = Ok m' /\
    dom m' =@{gset Z} dom m /\ keeps buf (buf + 200) m m' /\ (wf_mem m -> wf_mem m') /\
    cstr m' buf (take 197 ([10; 10] ++ version) ++ [10; 10]).
Proof.
  pose proof Lss as (P1 & C1 & _ & D1). pose proof Lnn as (P2 & C2 & _ & D2). pose proof Lv as (P3 & C3 & B3 & D3).
  unfold display_options_get_banner, display_options_get_banner_priv, BUILD_TAG. cbv iota. rewrite u64_small by lia.
  set (args := [lit "\n\n"; version_string]).
  destruct (vsnprintf_renders m buf 200 (lit "%s%s") (const plain_s <$> args) args) as (text & Hren & _ & E).
  - constructor; [apply plain_s_ok|]. constructor; [apply plain_s_ok|constructor].
  - done.
  - done.
  - lia.
  - lia.
  - done.
  - done.
  - apply plain_args_ok. cbn. split; [done|]. split; [intros _; by apply (placed_str_ok 200 _ _ ltac:(lia) Lnn)|]. split; [done|]. split; [intros _; by apply (placed_str_ok 200 _ _ ltac:(lia) Lv)|done].
  - apply (renders_strings m args [[10; 10]; version]) in Hren.
    2: { assert (forall p s, placed p s -> string_arg m (u64 p) s) as Hsa.
         { intros p s (Hp & Hc & _). unfold string_arg. rewrite u64_small by lia. destruct (Z.eqb_spec p NULL) as [En|]; [unfold NULL in En; lia|done]. }
         constructor; [by apply Hsa|]. constructor; [by apply Hsa|constructor]. }
    cbn [concat] in Hren. rewrite app_nil_r in Hren. subst text. unfold snprintf at 1. rewrite E. cbn [obind Z.eqb NULL negb andb].
    set (t := [10; 10] ++ version). assert (Z.of_nat (length t) = 2 + Z.of_nat (length version)) as Elen by (unfold t; cbn [app length]; lia).
    assert (s32 (Z.of_nat (length t)) = Z.of_nat (length t)) as -> by (apply swrap_small; lia).
    assert ((if (if 200 - 3 <? Z.of_nat (length t) then 200 - 3 else Z.of_nat (length t)) <? 0 then 0
             else if 200 - 3 <? Z.of_nat (length t) then 200 - 3 else Z.of_nat (length t)) = Z.min 197 (Z.of_nat (length t))) as ->
      by (destruct (Z.ltb_spec (200 - 3) (Z.of_nat (length t))); case_cmp; lia).
    set (L := Z.min 197 (Z.of_nat (length t))). change (Z.to_nat (200 - 1)) with 199%nat. set (m1 := write_bytes m buf (take 199 t ++ [0])).
    assert (dom m1 =@{gset Z} dom m /\ keeps buf (buf + 200) m m1) as [Dm1 K1].
    { assert (Z.of_nat (length (take 199 t ++ [0])) <= 200) as Hl by (rewrite length_app, length_take; cbn [length]; lia). split.
      - apply dom_write_bytes. eapply mapped_sub; [exact Hmap|lia|lia].
      - intros x Hx. apply lookup_write_bytes_ne. lia. }
    rewrite u64_small by lia.
    destruct (vsnprintf_renders m1 (buf + L) (200 - L) (lit "\n\n") [Text 10; Text 10] []) as (text & Hren & _ & E2).
    + repeat constructor; lia.
    + by eapply cstr_keeps.
    + lia.
    + lia.
    + lia.
    + eapply mapped_dom; [exact Dm1|]. eapply mapped_sub; [exact Hmap|lia|lia].
    + unfold clear_of in *. cbn in *. lia.
    + done.
    + assert (text = [10; 10]) as -> by (inversion Hren as [|? ? ? ? ? H1| | |]; subst; inversion H1 as [|? ? ? ? ? H2| | |]; subst; by inversion H2).
      unfold snprintf. rewrite E2. destruct (Z.eqb_spec (200 - L) 0); [lia|]. rewrite take_ge by (cbn [length]; lia). cbn [obind app].
      eexists. split; [done|]. split; [|split; [|split]].
      * rewrite <- Dm1. apply dom_write_bytes. eapply mapped_dom; [exact Dm1|]. eapply mapped_sub; [exact Hmap|lia|cbn; lia].
      * intros x Hx. rewrite lookup_write_bytes_ne by (cbn; lia). by apply K1.
      * intros Hw. apply wf_mem_write; [apply wf_mem_write; [done|]|repeat constructor; lia]. apply list.Forall_app_2; [|repeat constructor; lia].
        apply list.Forall_take. unfold t. apply list.Forall_app_2; [repeat constructor; lia|]. destruct C3 as [_ HF].
        eapply list.Forall_impl; [exact HF|]. unfold byte_range. simpl. lia.
      * assert (take 197 t = take (Z.to_nat L) t) as -> by (destruct (decide (197 <= length t)%nat); [f_equal; lia|rewrite !take_ge by lia; done]).
        assert (Z.of_nat (length (take (Z.to_nat L) t)) = L) as EL by (rewrite length_take; lia).
        split; [|apply list.Forall_app_2; [apply list.Forall_take; unfold t; apply list.Forall_app_2; [repeat constructor; lia|apply C3]|repeat constructor; lia]].
        rewrite <- app_assoc. apply bytes_at_app. rewrite EL. split; [|apply write_bytes_at].
        apply bytes_at_write_bytes_ne; [|lia].
        pose proof (write_bytes_at m buf (take 199 t ++ [0])) as Hm1. fold m1 in Hm1. apply bytes_at_app in Hm1 as [Hm1 _].
        rewrite <- (take_drop (Z.to_nat L) (take 199 t)) in Hm1. apply bytes_at_app in Hm1 as [Hm1 _]. rewrite take_take in Hm1.
        by replace (Z.to_nat L `min` 199)%nat with (Z.to_nat L) in Hm1 by lia.
Qed.
End banner.

(** [display_options] succeeds and changes the buffer only. *)
Lemma display_options_returns lit version_string buf w version :
  0 <= buf -> buf + 200 < 2 ^ 64 -> mapped (w_mem w) buf 200 ->
  placed buf (w_mem w) (lit "%s%s") [37; 115; 37; 115] -> placed buf (w_mem w) (lit "\n\n") [10; 10] ->
  placed buf (w_mem w) version_string version ->
  returns (display_options lit version_string buf w) (fun '(w', r) => r = 0 /\
    dom (w_mem w') =@{gset Z} dom (w_mem w) /\ keeps buf (buf + 200) (w_mem w) (w_mem w') /\ (wf_mem (w_mem w) -> wf_mem (w_mem w'))).
Proof.
  intros Hb He Hm L1 L2 L3. unfold display_options, DISPLAY_OPTIONS_BANNER_LENGTH. destruct (banner_text lit version_string buf (w_mem w) version Hb He Hm L1 L2 L3) as (m' & -> & Hd & Hk & Hw & Hc).
  cbn [obind]. rewrite (strlen_cstr _ _ _ Hc). cbn [obind]. by apply returns_ok.
Qed.
