(* ===== verification/Boot.v ===== *)
(** * Early boot (common/board_f.c, common/init/board_init.c, include/initcall.h)

    Before relocation the board code lays out the top of memory: the image,
    the global data, the heap and the stack, from the top of RAM downwards.
    The global data is a structure in memory at [gd] (the register x18); its
    fields are read and written at their offsets.  The addresses the linker
    provides, the configured base and size of RAM and the addresses of the
    functions (which only a failure prints) are parameters. *)

From S2P Require Import Prelude CMem Str Console Pages Display.

Local Open Scope Z_scope.
Local Open Scope c_scope.

(** Offsets of the fields of [gd_t] (asm-generic/global_data.h) and its size. *)
Definition gd_flags : Z := 0.
Definition gd_baudrate : Z := 8.
Definition gd_ram_base : Z := 32.
Definition gd_ram_top : Z := 40.
Definition gd_relocaddr : Z := 48.
Definition gd_ram_size : Z := 56.
Definition gd_mon_len : Z := 64.
Definition gd_start_addr_sp : Z := 80.
Definition gd_reloc_off : Z := 88.
Definition gd_malloc_base : Z := 96.
Definition gd_malloc_limit : Z := 104.
Definition gd_new_gd : Z := 112.
Definition gd_bi_dram_start : Z := 216.
Definition gd_bi_dram_size : Z := 224.
Definition sizeof_gd : Z := 232.

Definition GD_FLG_RELOC : Z := 0x1.
Definition GD_FLG_SKIP_RELOC : Z := 0x800.
Definition CONFIG_START_ADDR_SP_SIZE : Z := 8 * 1024.
Definition CONFIG_PRINT_UART_BAUD : Z := 1500000.

Definition rounddown (x y : Z) : Z := x - x mod y.

Definition init_fnc : Type := world -> outcome (world * Z).

(** ** Reserving the early global data (board_init.c) *)

Definition board_init_f_alloc_reserve (top : Z) : Z := rounddown (u64 (top - sizeof_gd)) 16.

Definition board_init_f_init_reserve (base : Z) (w : world) : outcome world :=
  let! m := memset (w_mem w) base 0 sizeof_gd in Ok (set_mem m w).

Section boot.
Context (gd : Z) (_start __bss_end __image_copy_start : Z).
Context (CONFIG_RELOC_SYS_TEXT_BASE CONFIG_RELOC_SYS_BLOCK_SIZE : Z).
Context (lit : string -> Z) (version_string banner_buf : Z).

Definition gd_ld (field : Z) (w : world) : outcome Z := load64 (w_mem w) (gd + field).
Definition gd_st (field v : Z) (w : world) : outcome world :=
  let! m := store64 (w_mem w) (gd + field) v in Ok (set_mem m w).

(** [gd->field = f(gd->field)] *)
Definition gd_upd (field : Z) (f : Z -> Z) (w : world) : outcome world :=
  let! v := gd_ld field w in gd_st field (f v) w.

Definition setup_mon_len : init_fnc := fun w =>
  let! w := gd_st gd_mon_len (u64 (__bss_end - _start)) w in Ok (w, 0).

Definition board_get_usable_ram_top (total_size : Z) (w : world) : outcome Z :=
  let! top := gd_ld gd_ram_top w in
  if top <? CONFIG_RELOC_SYS_TEXT_BASE then Ok 0 else Ok top.

Definition board_early_init_f : init_fnc := fun w => Ok (w, 0).

Definition dram_init : init_fnc := fun w =>
  let! w := gd_st gd_ram_size CONFIG_RELOC_SYS_BLOCK_SIZE w in Ok (w, 0).

Definition get_effective_memsize (w : world) : outcome Z := gd_ld gd_ram_size w.

(** The tables are only reserved with CONFIG_ARMV8_CACHE. *)
Definition reserve_mmu : init_fnc := fun w => Ok (w, 0).

Definition setup_dest_addr : init_fnc := fun w =>
  let! w := gd_st gd_ram_base CONFIG_RELOC_SYS_TEXT_BASE w in
  let! base := gd_ld gd_ram_base w in
  let! size := get_effective_memsize w in
  let! w := gd_st gd_ram_top (u64 (base + size)) w in
  let! len := gd_ld gd_mon_len w in
  let! top := board_get_usable_ram_top len w in
  let! w := gd_st gd_ram_top top w in
  let! top := gd_ld gd_ram_top w in
  let! w := gd_st gd_relocaddr top w in
  let! len := gd_ld gd_mon_len w in
  let w := pr_info "Monitor len: %08lX\n" [len] w in
  let! size := gd_ld gd_ram_size w in
  let w := pr_info "Ram size: %08lX\n" [size] w in
  let! top := gd_ld gd_ram_top w in
  let w := pr_info "Ram top : %08lX\n" [top] w in
  Ok (w, 0).

Definition reserve_vmimage : init_fnc := fun w =>
  let! flags := gd_ld gd_flags w in
  let! w :=
    if Z.land flags GD_FLG_SKIP_RELOC =? 0 then
      let! len := gd_ld gd_mon_len w in
      let! w := gd_upd gd_relocaddr (fun a => u64 (a - len)) w in
      let! w := gd_upd gd_relocaddr (fun a => Z.ldiff a (4096 - 1)) w in
      let! a := gd_ld gd_relocaddr w in
      Ok (pr_info "Reserving %ldk for vmimage at: %08lx\n" [Z.shiftr len 10; a] w)
    else Ok w in
  let! a := gd_ld gd_relocaddr w in
  let! w := gd_st gd_start_addr_sp a w in
  Ok (w, 0).

Definition reserve_global_data : init_fnc := fun w =>
  let! w := gd_upd gd_start_addr_sp (fun a => u64 (a - sizeof_gd)) w in
  let! sp := gd_ld gd_start_addr_sp w in
  let! w := gd_st gd_new_gd sp w in
  let! sp := gd_ld gd_start_addr_sp w in
  Ok (pr_info "Reserving %zu Bytes for Global Data at: %08lx\n" [sizeof_gd; sp] w, 0).

Definition reserve_malloc : init_fnc := fun w =>
  let! w := gd_upd gd_start_addr_sp (fun a => rounddown a 4096) w in
  let! sp := gd_ld gd_start_addr_sp w in
  let! base := gd_ld gd_ram_base w in
  let size :=
    if u64 (sp - CONFIG_MALLOC_F_LEN - CONFIG_START_ADDR_SP_SIZE) <? base then
      rounddown (u64 (sp - base - CONFIG_START_ADDR_SP_SIZE)) 4096
    else rounddown CONFIG_MALLOC_F_LEN 4096 in
  let! w := gd_upd gd_start_addr_sp (fun a => u64 (a - size)) w in
  let! sp := gd_ld gd_start_addr_sp w in
  let! w := gd_st gd_malloc_base sp w in
  let! w := gd_st gd_malloc_limit size w in
  let! limit := gd_ld gd_malloc_limit w in
  let! base := gd_ld gd_malloc_base w in
  Ok (pr_info "Reserving %ldk for malloc at: %08lx\n" [Z.shiftr limit 10; base] w, 0).

Definition arch_reserve_stacks : init_fnc := fun w => Ok (w, 0).

Definition reserve_stacks : init_fnc := fun w =>
  let! w := gd_upd gd_start_addr_sp (fun a => u64 (a - 16)) w in
  let! w := gd_upd gd_start_addr_sp (fun a => Z.ldiff a 0xf) w in
  arch_reserve_stacks w.

(** No CONFIG_SYSMEM_* bank is configured. *)
Definition dram_init_banksize : init_fnc := fun w => Ok (w, 0).

(** One bank (CONFIG_NR_DRAM_BANKS). *)
Definition show_dram_config : init_fnc := fun w =>
  let w := pr_info "\nRAM Configuration:\n" [] w in
  let! size := gd_ld gd_bi_dram_size w in
  let size_sum := u64 (0 + size) in
  let! start := gd_ld gd_bi_dram_start w in
  let w := pr_info "Bank #%d: %llx " [0; start] w in
  let! size := gd_ld gd_bi_dram_size w in
  let! w := print_size size (lit "\n") w in
  let w := pr_info "DRAM:  " [] w in
  let! w := print_size size_sum (lit "") w in
  Ok (puts_lit "\n\n" w, 0).

Definition display_new_sp : init_fnc := fun w =>
  let! sp := gd_ld gd_start_addr_sp w in
  Ok (pr_info "New Stack Pointer is: %08lx\n" [sp] w, 0).

Definition setup_reloc : init_fnc := fun w =>
  let! flags := gd_ld gd_flags w in
  if negb (Z.land flags GD_FLG_SKIP_RELOC =? 0) then
    Ok (pr_info "Skipping relocation due to flag\n" [] w, 0)
  else
    let! a := gd_ld gd_relocaddr w in
    let! w := gd_st gd_reloc_off (u64 (a - __image_copy_start)) w in
    let! new := gd_ld gd_new_gd w in
    let! m := memcpy (w_mem w) new gd sizeof_gd in
    let w := set_mem m w in
    let! off := gd_ld gd_reloc_off w in
    let w := pr_info "Relocation Offset is: %08lx\n" [off] w in
    let! a := gd_ld gd_relocaddr w in
    let! new := gd_ld gd_new_gd w in
    let! sp := gd_ld gd_start_addr_sp w in
    Ok (pr_info "Relocating to %08lx, new gd at %08lx, sp at %08lx\n" [a; new; sp] w, 0).

Context (fn_addr : init_fnc -> Z) (init_sequence_addr : Z).

(** The calls up to the null pointer; a result other than 0 ends the run. *)
Fixpoint initcall_run_list (init_sequence : list init_fnc) (w : world) : outcome (world * Z) :=
  match init_sequence with
  | [] => Ok (w, 0)
  | f :: rest =>
      let! flags := gd_ld gd_flags w in
      let! reloc_ofs := if negb (Z.land flags GD_FLG_RELOC =? 0) then gd_ld gd_reloc_off w else Ok 0 in
      let! '(w, ret) := f w in
      if negb (ret =? 0) then
        Ok (printf "initcall sequence %p failed at call %p (err=%d)\n"
              [init_sequence_addr; u64 (fn_addr f - reloc_ofs); ret] w, -1)
      else initcall_run_list rest w
  end.

Definition init_sequence_f : list init_fnc :=
  [setup_mon_len; display_options lit version_string banner_buf; board_early_init_f; dram_init;
   setup_dest_addr; reserve_mmu; reserve_vmimage; reserve_global_data; reserve_malloc;
   reserve_stacks; dram_init_banksize; show_dram_config; display_new_sp; setup_reloc].

(** [timer_init] and [uart_init] do nothing on this board. *)
Definition board_init_f (boot_flags : Z) (w : world) : outcome world :=
  let! w := gd_st gd_flags boot_flags w in
  let! m := store32 (w_mem w) (gd + gd_baudrate) CONFIG_PRINT_UART_BAUD in
  let w := set_mem m w in
  let! '(w, ret) := initcall_run_list init_sequence_f w in
  if negb (ret =? 0) then Panic "### ERROR ### Please RESET the board ###\n" else Ok w.
End boot.
