(* ===== verification/BootFacts.v ===== *)
(** * Early boot: the layout of memory

    The fields of the global data as a function of their offsets; what every
    step of the sequence makes of them; the layout the sequence leaves. *)

From S2P Require Import Prelude CMem Str StrFacts StrSafe Console Words Fmt FmtText FmtSpec FmtFormat Pages PagesFacts Malloc MallocSpec HeapTheorems Display DisplayFacts Boot.

Local Open Scope Z_scope.
Local Open Scope c_scope.

(** Rounding down, with a mask and with a remainder. *)
Lemma ldiff_low x n : 0 <= n -> Z.ldiff x (Z.ones n) = x - x mod 2 ^ n.
Proof.
  intros Hn. rewrite Z.ldiff_ones_r, Z.shiftl_mul_pow2, Z.shiftr_div_pow2 by lia.
  pose proof (Z.div_mod x (2 ^ n) ltac:(pose proof (Z.pow_pos_nonneg 2 n); lia)). lia.
Qed.

Lemma ldiff_page x : Z.ldiff x 4095 = x - x mod 4096.
Proof. apply (ldiff_low x 12). lia. Qed.

Lemma ldiff_16 x : Z.ldiff x 0xf = x - x mod 16.
Proof. apply (ldiff_low x 4). lia. Qed.

Lemma page_range x : 0 <= x < 2 ^ 64 -> 0 <= x - x mod 4096 < 2 ^ 64.
Proof. intros. dlia. Qed.

Lemma le_bytes_range n v : Forall byte_range (le_bytes n v).
Proof. revert v. induction n as [|n IH]; intros v; constructor; auto with rock. Qed.

(** ** Fields *)

Definition fset (f : Z -> Z) (o v : Z) : Z -> Z := fun x => if x =? o then v else f x.

Lemma fset_same f o v : fset f o v o = v.
Proof. unfold fset. by rewrite Z.eqb_refl. Qed.
Lemma fset_other f o v x : (x =? o) = false -> fset f o v x = f x.
Proof. unfold fset. by intros ->. Qed.

(** Reading fields that were set. *)
Ltac fields := repeat first [rewrite fset_same | rewrite fset_other by reflexivity].

(** An offset of a 64-bit field. *)
Definition field (o : Z) : bool := (0 <=? o) && (o <=? 224) && (o mod 8 =? 0).

Section fields.
Context (gd : Z).

Definition gd_holds (m : mem) (f : Z -> Z) : Prop :=
  wf_mem m /\ mapped m gd sizeof_gd /\ forall o, field o = true -> rdw m (gd + o) = f o.

Local Abbreviation G := (span_of gd sizeof_gd).

Lemma field_spec o : field o = true -> 0 <= o <= 224 /\ o mod 8 = 0.
Proof. unfold field. rewrite !andb_true_iff, !Z.leb_le, Z.eqb_eq. lia. Qed.

Lemma gd_ld_ok w f o : gd_holds (w_mem w) f -> field o = true -> gd_ld gd o w = Ok (f o).
Proof.
  intros (_ & Hm & Hf) Ho. pose proof (field_spec o Ho). unfold gd_ld. rewrite load64_rdw; [by rewrite Hf|].
  eapply mapped_sub; [exact Hm|lia|unfold sizeof_gd; lia].
Qed.

Lemma gd_st_ok w f o v : gd_holds (w_mem w) f -> field o = true -> 0 <= v < 2 ^ 64 ->
  returns (gd_st gd o v w) (fun w' => gd_holds (w_mem w') (fset f o v) /\ unchanged G (w_mem w) (w_mem w')).
Proof.
  intros (Hwf & Hm & Hf) Ho Hv. pose proof (field_spec o Ho) as [Hr Ha]. unfold gd_st.
  assert (mapped (w_mem w) (gd + o) 8) as Hmo by (eapply mapped_sub; [exact Hm|lia|unfold sizeof_gd; lia]).
  pose proof (store_le_write 8 (w_mem w) (gd + o) v Hmo) as Ew. destruct (store64_spec (w_mem w) (gd + o) v Hmo) as (m' & E & Hu & Hw).
  assert (m' = write_bytes (w_mem w) (gd + o) (le_bytes 8 v)) as Em by (unfold store64 in E; congruence). rewrite E. cbn [obind]. apply returns_ok. cbn [w_mem set_mem]. split; [split; [|split]|].
  - rewrite Em. apply wf_mem_write; [done|apply le_bytes_range].
  - by eapply unchanged_mapped.
  - intros x Hx. pose proof (field_spec x Hx) as [Hxr Hxa]. unfold fset. destruct (Z.eqb_spec x o) as [->|Hne].
    + rewrite Hw. by apply Z.mod_small.
    + rewrite (rdn_unchanged 8 _ _ _ _ Hu); [by apply Hf|]. apply apart_span. dlia.
  - eapply unchanged_mono; [exact Hu|]. unfold span_of, sizeof_gd. lia.
Qed.

Lemma gd_upd_ok w f o g : gd_holds (w_mem w) f -> field o = true -> 0 <= g (f o) < 2 ^ 64 ->
  returns (gd_upd gd o g w) (fun w' => gd_holds (w_mem w') (fset f o (g (f o))) /\ unchanged G (w_mem w) (w_mem w')).
Proof. intros H Ho Hv. unfold gd_upd. rewrite (gd_ld_ok w f o H Ho). by apply gd_st_ok. Qed.
End fields.

(** A step of the sequence: it succeeds, gives the fields [f'] and changes
    memory only where [R] says. *)
Definition init_ok (gd : Z) (R : Z -> Prop) (m : mem) (f' : Z -> Z) (r : world * Z) : Prop :=
  r.2 = 0 /\ gd_holds gd (w_mem r.1) f' /\ unchanged R m (w_mem r.1).

Section steps.
Context (gd : Z) (R : Z -> Prop) (HR : forall x, span_of gd sizeof_gd x -> R x).
Context (_start __bss_end __image_copy_start TEXT BLOCK : Z) (lit : string -> Z).

Lemma st_R w f o v : gd_holds gd (w_mem w) f -> field o = true -> 0 <= v < 2 ^ 64 ->
  returns (gd_st gd o v w) (fun w' => gd_holds gd (w_mem w') (fset f o v) /\ unchanged R (w_mem w) (w_mem w')).
Proof.
  intros H Ho Hv. eapply returns_mono; [by apply gd_st_ok|]. intros w' [H1 H2]. split; [done|]. by eapply unchanged_mono.
Qed.

Lemma upd_R w f o g : gd_holds gd (w_mem w) f -> field o = true -> 0 <= g (f o) < 2 ^ 64 ->
  returns (gd_upd gd o g w) (fun w' => gd_holds gd (w_mem w') (fset f o (g (f o))) /\ unchanged R (w_mem w) (w_mem w')).
Proof.
  intros H Ho Hv. eapply returns_mono; [by apply gd_upd_ok|]. intros w' [H1 H2]. split; [done|]. by eapply unchanged_mono.
Qed.

Lemma obind_assoc {A B C} (c : outcome A) (k : A -> outcome B) (k' : B -> outcome C) :
  obind (obind c k) k' = obind c (fun x => obind (k x) k').
Proof. by destruct c. Qed.

(** Symbolic execution of one access. *)
Ltac ld := match goal with
  | H : gd_holds gd (w_mem ?w) ?f |- context [gd_ld gd ?o ?w'] =>
      rewrite (gd_ld_ok gd w' f o H (eq_refl : field o = true)); cbn [obind]; fields
  end.
Ltac run lem := rewrite ?obind_assoc; match goal with
  | H : gd_holds gd (w_mem ?w) ?f |- _ =>
      let w' := fresh "w" in let H' := fresh "Hgd" in let U := fresh "Hun" in
      eapply returns_bind; [eapply (lem _ f); [exact H|reflexivity|]|intros w' [H' U]; clear H; cbv beta zeta;
        unfold pr_info, printk in U; cbn [w_mem say] in U]
  end.
Ltac finish := apply returns_ok; split; [reflexivity|]; split; [eassumption|]; eauto using unchanged_trans, unchanged_refl.

Ltac conclude := apply returns_ok; eexists; split; [split; [reflexivity|]; split; [eassumption|]; eauto using unchanged_trans, unchanged_refl|]; fields.
Ltac other_fields := intros; unfold fset; repeat (case_cmp; [done|]); done.

Lemma setup_mon_len_ok w f : gd_holds gd (w_mem w) f ->
  returns (setup_mon_len gd _start __bss_end w) (init_ok gd R (w_mem w) (fset f gd_mon_len (u64 (__bss_end - _start)))).
Proof. intros H. unfold setup_mon_len. run st_R; [apply u64_range|]. finish. Qed.

Lemma dram_init_ok w f : gd_holds gd (w_mem w) f -> 0 <= BLOCK < 2 ^ 64 ->
  returns (dram_init gd BLOCK w) (init_ok gd R (w_mem w) (fset f gd_ram_size BLOCK)).
Proof. intros H HB. unfold dram_init. run st_R; [done|]. finish. Qed.

Lemma setup_dest_addr_ok w f : gd_holds gd (w_mem w) f -> f gd_ram_size = BLOCK -> 0 <= TEXT -> 0 <= BLOCK -> TEXT + BLOCK < 2 ^ 64 ->
  returns (setup_dest_addr gd TEXT w) (init_ok gd R (w_mem w)
    (fset (fset (fset (fset f gd_ram_base TEXT) gd_ram_top (TEXT + BLOCK)) gd_ram_top (TEXT + BLOCK)) gd_relocaddr (TEXT + BLOCK))).
Proof.
  intros H HB HT HB0 Hlt. unfold setup_dest_addr, get_effective_memsize, board_get_usable_ram_top. run st_R; [lia|]. do 2 ld. rewrite HB.
  rewrite u64_small by lia. run st_R; [lia|]. do 2 ld.
  destruct (Z.ltb_spec (TEXT + BLOCK) TEXT); [lia|]. cbn [obind]. run st_R; [lia|]. ld. run st_R; [lia|]. do 3 ld. finish.
Qed.

Definition image_at (f : Z -> Z) : Z :=
  if Z.land (f gd_flags) GD_FLG_SKIP_RELOC =? 0 then Z.ldiff (u64 (f gd_relocaddr - f gd_mon_len)) 4095 else f gd_relocaddr.

Lemma reserve_vmimage_ok w f : gd_holds gd (w_mem w) f -> 0 <= f gd_relocaddr < 2 ^ 64 ->
  returns (reserve_vmimage gd w) (fun r => exists f', init_ok gd R (w_mem w) f' r /\
    f' gd_relocaddr = image_at f /\ f' gd_start_addr_sp = image_at f /\
    forall o, o <> gd_relocaddr -> o <> gd_start_addr_sp -> f' o = f o).
Proof.
  intros H Hr. unfold reserve_vmimage, image_at. ld. destruct (Z.land (f gd_flags) GD_FLG_SKIP_RELOC =? 0).
  - ld. run upd_R; [apply u64_range|]. run upd_R; [fields; rewrite ldiff_page; apply page_range, u64_range|].
    ld. ld. run st_R; [change (4096 - 1) with 4095; rewrite ldiff_page; apply page_range, u64_range|].
    conclude. split; [done|]. split; [done|]. other_fields.
  - cbn [obind]. ld. run st_R; [done|]. conclude. split; [done|]. split; [done|]. other_fields.
Qed.

Lemma reserve_global_data_ok w f : gd_holds gd (w_mem w) f -> sizeof_gd <= f gd_start_addr_sp < 2 ^ 64 ->
  returns (reserve_global_data gd w) (fun r => exists f', init_ok gd R (w_mem w) f' r /\
    f' gd_start_addr_sp = f gd_start_addr_sp - sizeof_gd /\ f' gd_new_gd = f gd_start_addr_sp - sizeof_gd /\
    forall o, o <> gd_start_addr_sp -> o <> gd_new_gd -> f' o = f o).
Proof.
  unfold sizeof_gd. intros H Hr. unfold reserve_global_data, sizeof_gd. run upd_R; [apply u64_range|]. rewrite u64_small in * by lia. ld.
  run st_R; [lia|]. ld. conclude. split; [done|]. split; [done|]. other_fields.
Qed.

(** The heap below [sp]: what fits above the base and the stack, 64 KB at most. *)
Definition heap_size (sp base : Z) : Z :=
  if sp - CONFIG_MALLOC_F_LEN - CONFIG_START_ADDR_SP_SIZE <? base then
    (sp - base - CONFIG_START_ADDR_SP_SIZE) - (sp - base - CONFIG_START_ADDR_SP_SIZE) mod 4096
  else CONFIG_MALLOC_F_LEN.

Lemma heap_size_range sp base : base + CONFIG_START_ADDR_SP_SIZE <= sp ->
  0 <= heap_size sp base <= CONFIG_MALLOC_F_LEN /\ heap_size sp base mod 4096 = 0 /\ base + CONFIG_START_ADDR_SP_SIZE <= sp - heap_size sp base.
Proof.
  unfold heap_size, CONFIG_START_ADDR_SP_SIZE, CONFIG_MALLOC_F_LEN. intros H. destruct (Z.ltb_spec (sp - 64 * 1024 - 8 * 1024) base); dlia.
Qed.

Lemma reserve_malloc_ok w f : let sp := f gd_start_addr_sp - f gd_start_addr_sp mod 4096 in let base := f gd_ram_base in
  gd_holds gd (w_mem w) f -> 0 <= base -> base + CONFIG_START_ADDR_SP_SIZE <= sp -> f gd_start_addr_sp < 2 ^ 64 ->
  CONFIG_MALLOC_F_LEN + CONFIG_START_ADDR_SP_SIZE <= sp ->
  returns (reserve_malloc gd w) (fun r => exists f', init_ok gd R (w_mem w) f' r /\
    f' gd_start_addr_sp = sp - heap_size sp base /\ f' gd_malloc_base = sp - heap_size sp base /\ f' gd_malloc_limit = heap_size sp base /\
    forall o, o <> gd_start_addr_sp -> o <> gd_malloc_base -> o <> gd_malloc_limit -> f' o = f o).
Proof.
  intros sp base H Hb Hsp Hlt Hbig. pose proof (heap_size_range sp base Hsp) as (R1 & R2 & R3). pose proof (Z.mod_pos_bound (f gd_start_addr_sp) 4096 ltac:(lia)).
  assert (0 <= sp < 2 ^ 64) as Rs by (unfold sp, CONFIG_START_ADDR_SP_SIZE in *; lia).
  unfold reserve_malloc, rounddown. run upd_R; [exact Rs|]. fold sp in Hgd. do 2 ld. fold base.
  assert ((if u64 (sp - CONFIG_MALLOC_F_LEN - CONFIG_START_ADDR_SP_SIZE) <? base
    then u64 (sp - base - CONFIG_START_ADDR_SP_SIZE) - u64 (sp - base - CONFIG_START_ADDR_SP_SIZE) mod 4096
    else CONFIG_MALLOC_F_LEN - CONFIG_MALLOC_F_LEN mod 4096) = heap_size sp base) as ->.
  { clear - Rs Hsp Hbig Hb. clearbody sp base. unfold heap_size, CONFIG_START_ADDR_SP_SIZE, CONFIG_MALLOC_F_LEN in *.
    rewrite (u64_small (sp - 64 * 1024 - 8 * 1024)) by lia. rewrite (u64_small (sp - base - 8 * 1024)) by lia. case_cmp; reflexivity. }
  assert (0 <= sp - heap_size sp base < 2 ^ 64 /\ 0 <= heap_size sp base < 2 ^ 64) as [Rh Rz] by (unfold CONFIG_START_ADDR_SP_SIZE, CONFIG_MALLOC_F_LEN in R1, R3; lia).
  run upd_R; [apply u64_range|]. revert Hgd0. fields. rewrite u64_small by exact Rh. intros Hgd0. ld. run st_R; [exact Rh|]. run st_R; [exact Rz|].
  do 2 ld. conclude. split; [done|]. split; [done|]. split; [done|]. other_fields.
Qed.

Lemma reserve_stacks_ok w f : gd_holds gd (w_mem w) f -> 16 <= f gd_start_addr_sp < 2 ^ 64 ->
  returns (reserve_stacks gd w) (fun r => exists f', init_ok gd R (w_mem w) f' r /\
    f' gd_start_addr_sp = (f gd_start_addr_sp - 16) - (f gd_start_addr_sp - 16) mod 16 /\
    forall o, o <> gd_start_addr_sp -> f' o = f o).
Proof.
  intros H Hr. unfold reserve_stacks, arch_reserve_stacks. run upd_R; [apply u64_range|]. rewrite u64_small in Hgd by lia.
  run upd_R; [fields; rewrite ldiff_16; dlia|]. revert Hgd0. fields. rewrite ldiff_16. intros Hgd0. conclude. split; [done|]. other_fields.
Qed.

Lemma rdw_range m a : wf_mem m -> mapped m a 8 -> 0 <= rdw m a < 2 ^ 64.
Proof.
  intros Hw Hm. unfold rdn. pose proof (le_value_range (read_bytes m a 8) (wf_mem_read m a 8 Hw Hm)) as H. by rewrite length_read_bytes in H.
Qed.

Lemma show_dram_config_ok w f : gd_holds gd (w_mem w) f -> 0 <= f gd_bi_dram_size < 2 ^ 64 ->
  returns (show_dram_config gd lit w) (init_ok gd R (w_mem w) f).
Proof.
  intros H Hs. unfold show_dram_config. do 3 ld. eapply returns_bind; [by apply print_size_returns|]. intros w1 E1. cbv zeta.
  eapply returns_bind; [apply print_size_returns, u64_range|]. intros w2 E2. apply returns_ok. split; [done|]. cbn [fst].
  change (w_mem (puts_lit "\n\n" w2)) with (w_mem w2). rewrite E2. change (w_mem w1 = w_mem w) in E1. 
  change (gd_holds gd (w_mem w1) f /\ unchanged R (w_mem w) (w_mem w1)). rewrite E1. split; [done|apply unchanged_refl].
Qed.

Lemma display_new_sp_ok w f : gd_holds gd (w_mem w) f -> returns (display_new_sp gd w) (init_ok gd R (w_mem w) f).
Proof. intros H. unfold display_new_sp. ld. finish. Qed.

Lemma same_ok w f (c : world * Z) : gd_holds gd (w_mem w) f -> c = (w, 0) -> init_ok gd R (w_mem w) f c.
Proof. intros H ->. split; [done|]. split; [done|apply unchanged_refl]. Qed.

(** The copy of the global data. *)
Lemma memcpy_gd m new : wf_mem m -> mapped m gd sizeof_gd -> mapped m new sizeof_gd -> gd + sizeof_gd <= new \/ new + sizeof_gd <= gd ->
  exists m', memcpy m new gd sizeof_gd = Ok m' /\ wf_mem m' /\ unchanged (span_of new sizeof_gd) m m' /\
    read_bytes m' new 232 = read_bytes m' gd 232.
Proof.
  unfold sizeof_gd. intros Hw Hg Hn Hd. pose proof (wf_mem_read m gd 232 Hw Hg) as HF.
  pose proof (memcpy_write m new gd (read_bytes m gd 232)) as E. rewrite length_read_bytes in E. change (Z.of_nat 232) with 232 in E.
  exists (write_bytes m new (read_bytes m gd 232)). split; [apply E; [by apply read_bytes_at|done|done|unfold forward_ok; lia]|].
  split; [by apply wf_mem_write|]. split; [split|].
  - apply dom_write_bytes. by rewrite length_read_bytes.
  - intros x Hx. apply lookup_write_bytes_ne. rewrite length_read_bytes. unfold span_of in Hx. lia.
  - pose proof (write_bytes_at m new (read_bytes m gd 232)) as Hb. apply bytes_at_read_bytes in Hb. rewrite length_read_bytes in Hb. rewrite Hb.
    symmetry. apply read_bytes_ext. intros x Hx. apply lookup_write_bytes_ne. rewrite length_read_bytes. lia.
Qed.

Definition skip (f : Z -> Z) : bool := negb (Z.land (f gd_flags) GD_FLG_SKIP_RELOC =? 0).

Lemma setup_reloc_ok w f : let new := f gd_new_gd in
  gd_holds gd (w_mem w) f -> mapped (w_mem w) new sizeof_gd -> gd + sizeof_gd <= new \/ new + sizeof_gd <= gd ->
  (forall x, span_of new sizeof_gd x -> R x) ->
  returns (setup_reloc gd __image_copy_start w) (fun r => exists f', init_ok gd R (w_mem w) f' r /\
    (skip f = false -> f' gd_reloc_off = u64 (f gd_relocaddr - __image_copy_start) /\ read_bytes (w_mem r.1) new 232 = read_bytes (w_mem r.1) gd 232) /\
    forall o, o <> gd_reloc_off -> f' o = f o).
Proof.
  intros new H Hn Hd HRn. unfold setup_reloc. ld. fold (skip f). destruct (skip f).
  { apply returns_ok. exists f. split; [split; [done|]; split; [done|apply unchanged_refl]|done]. }
  ld. run st_R; [apply u64_range|]. ld. fold new. pose proof Hgd as (Hw & Hg & Hf).
  destruct (memcpy_gd (w_mem w0) new) as (m' & -> & Hw' & Hu & Hcopy); [done|done|by eapply unchanged_mapped|done|].
  assert (gd_holds gd (w_mem (set_mem m' w0)) (fset f gd_reloc_off (u64 (f gd_relocaddr - __image_copy_start)))) as Hgd'.
  { split; [done|]. split; [by eapply unchanged_mapped|]. intros o Ho. rewrite <- (Hf o Ho). apply field_spec in Ho.
    cbn [w_mem set_mem]. apply (rdn_unchanged 8 _ _ _ _ Hu), apart_span. unfold sizeof_gd in *. lia. }
  clear Hgd. cbn [obind]. do 4 ld. apply returns_ok. eexists. split; [split; [done|]; split; [exact Hgd'|]|].
  - eapply unchanged_trans; [exact Hun|]. by eapply unchanged_mono.
  - split; [|other_fields]. intros _. by fields.
Qed.

(** A call of the sequence. *)
Lemma run_call fn_addr seq_addr g gs w f (P : world -> Prop) (Q : world * Z -> Prop) :
  gd_holds gd (w_mem w) f -> returns (g w) (fun r => r.2 = 0 /\ P r.1) ->
  (forall w', P w' -> returns (initcall_run_list gd fn_addr seq_addr gs w') Q) ->
  returns (initcall_run_list gd fn_addr seq_addr (g :: gs) w) Q.
Proof.
  intros H Hg Hgs. cbn [initcall_run_list]. ld.
  assert (exists v, (if negb (Z.land (f gd_flags) GD_FLG_RELOC =? 0) then gd_ld gd gd_reloc_off w else Ok 0) = Ok v) as [v ->].
  { destruct (negb _); [|eauto]. exists (f gd_reloc_off). by apply gd_ld_ok. }
  cbn [obind]. destruct Hg as ([w' r] & -> & E & HP). cbn [fst snd] in *. subst r. cbn [obind Z.eqb negb]. by apply Hgs.
Qed.
End steps.
