(* ===== verification/BootTheorems.v ===== *)
(** * Early boot: the theorem

    The run of the whole sequence, and what the layout guarantees to the code
    that runs after it: the relocated image, the heap and the stack. *)

From S2P Require Import Prelude CMem Str StrFacts StrSafe Console Words Fmt FmtText FmtSpec FmtFormat Pages PagesFacts Malloc MallocSpec HeapTheorems Display DisplayFacts Boot BootFacts.

Local Open Scope Z_scope.
Local Open Scope c_scope.

Section boot.
Context (gd : Z) (_start __bss_end __image_copy_start TEXT BLOCK : Z) (lit : string -> Z) (version_string banner_buf : Z).
Context (fn_addr : init_fnc -> Z) (seq_addr : Z).

Definition mon_len : Z := __bss_end - _start.
Definition ram_top : Z := TEXT + BLOCK.

(** Where things go, from the flags. *)
Definition image (flags : Z) : Z :=
  if Z.land flags GD_FLG_SKIP_RELOC =? 0 then (ram_top - mon_len) - (ram_top - mon_len) mod 4096 else ram_top.
Definition new_gd (flags : Z) : Z := image flags - sizeof_gd.
Definition heap_end (flags : Z) : Z := new_gd flags - new_gd flags mod 4096.
Definition heap_len (flags : Z) : Z := heap_size (heap_end flags) TEXT.

Definition touched (flags : Z) (x : Z) : Prop :=
  span_of gd sizeof_gd x \/ span_of banner_buf 200 x \/ span_of (new_gd flags) sizeof_gd x.

(** A string the banner needs: apart from what is written. *)
Definition literal (m : mem) (p : Z) (s : list Z) : Prop :=
  placed banner_buf m p s /\ apart (span_of gd sizeof_gd) p (Z.of_nat (length s) + 1).

(** The machine at the call: RAM, the early global data, the stack buffer, the
    strings; an image that leaves room for everything. *)
Record boot_env (version : list Z) (m : mem) : Prop := {
  be_wf : wf_mem m;
  be_ram : CONFIG_MALLOC_F_LEN + 2 * CONFIG_START_ADDR_SP_SIZE <= TEXT /\ ram_top < 2 ^ 64 /\ mapped m TEXT BLOCK;
  be_gd : mapped m gd sizeof_gd /\ (gd + sizeof_gd <= ram_top - mon_len - 2 * 4096 \/ ram_top <= gd);
  be_banner : 0 <= banner_buf /\ banner_buf + 200 < 2 ^ 64 /\ mapped m banner_buf 200 /\
    (banner_buf + 200 <= gd \/ gd + sizeof_gd <= banner_buf);
  be_lits : literal m (lit "%s%s") [37; 115; 37; 115] /\ literal m (lit "\n\n") [10; 10] /\ literal m version_string version;
  be_image : 0 <= mon_len /\ mon_len + 3 * 4096 + CONFIG_START_ADDR_SP_SIZE <= BLOCK
}.

Lemma layout_bounds version m flags : boot_env version m ->
  TEXT + CONFIG_START_ADDR_SP_SIZE + 4096 <= new_gd flags /\ image flags <= ram_top /\
  (gd + sizeof_gd <= new_gd flags \/ new_gd flags + sizeof_gd <= gd).
Proof.
  intros [_ (R1 & R2 & _) (_ & Hg) _ _ (I1 & I2)]. unfold new_gd, image, sizeof_gd, CONFIG_START_ADDR_SP_SIZE, CONFIG_MALLOC_F_LEN, ram_top in *.
  destruct (_ =? 0); dlia.
Qed.

Lemma heap_bounds version m flags : boot_env version m ->
  let e := heap_end flags in let n := heap_len flags in
  0 <= n <= CONFIG_MALLOC_F_LEN /\ n mod 4096 = 0 /\ e mod 4096 = 0 /\ TEXT + CONFIG_START_ADDR_SP_SIZE <= e - n /\ e <= new_gd flags.
Proof.
  intros He. destruct (layout_bounds version m flags He) as (B1 & B2 & _).
  assert (TEXT + CONFIG_START_ADDR_SP_SIZE <= heap_end flags) as Hlo by (unfold heap_end; dlia).
  destruct (heap_size_range _ _ Hlo) as (H1 & H2 & H3). unfold heap_len. split; [done|]. split; [done|].
  split; [unfold heap_end; dlia|]. split; [done|]. unfold heap_end. dlia.
Qed.

Lemma literal_kept m m' p s : unchanged (span_of gd sizeof_gd) m m' -> literal m p s -> placed banner_buf m' p s.
Proof.
  intros Hu [(Hp & [Hc HF] & Hl & Hcl) Ha]. split; [done|]. split; [|done]. split; [|done].
  eapply bytes_at_ext; [|exact Hc]. intros x Hx. apply Hu, Ha. rewrite length_app in Hx. cbn in Hx. lia.
Qed.

(** A 32-bit field. *)
Lemma store_baudrate w f : gd_holds gd (w_mem w) f ->
  returns (store32 (w_mem w) (gd + gd_baudrate) CONFIG_PRINT_UART_BAUD) (fun m' =>
    (exists f', gd_holds gd m' f' /\ forall o, o <> gd_baudrate -> f' o = f o) /\ unchanged (span_of gd sizeof_gd) (w_mem w) m').
Proof.
  intros (Hw & Hm & Hf). unfold store32, gd_baudrate.
  assert (mapped (w_mem w) (gd + 8) (Z.of_nat 4)) as Hmo by (eapply mapped_sub; [exact Hm|lia|unfold sizeof_gd; lia]).
  pose proof (store_le_write 4 (w_mem w) (gd + 8) CONFIG_PRINT_UART_BAUD Hmo) as Ew.
  destruct (store_le_spec 4 (w_mem w) (gd + 8) CONFIG_PRINT_UART_BAUD Hmo) as (m' & E & Hu & _). exists m'. split; [done|].
  split; [|eapply unchanged_mono; [exact Hu|]; unfold span_of, sizeof_gd; lia].
  exists (fun o => if o =? 8 then rdw m' (gd + 8) else f o). split; [|intros o Ho; by destruct (Z.eqb_spec o 8)]. split; [|split].
  - assert (m' = write_bytes (w_mem w) (gd + 8) (le_bytes 4 CONFIG_PRINT_UART_BAUD)) as -> by congruence.
    apply wf_mem_write; [done|apply le_bytes_range].
  - by eapply unchanged_mapped.
  - intros o Ho. destruct (Z.eqb_spec o 8) as [->|Hne]; [done|]. rewrite <- (Hf o Ho). apply field_spec in Ho.
    apply (rdn_unchanged 8 _ _ _ _ Hu), apart_span. dlia.
Qed.

(** The fields once the sequence has run. *)
Record laid_out (flags : Z) (f : Z -> Z) : Prop := {
  lo_base : f gd_ram_base = TEXT;
  lo_top : f gd_ram_top = ram_top;
  lo_image : f gd_relocaddr = image flags;
  lo_gd : f gd_new_gd = new_gd flags;
  lo_heap : f gd_malloc_base = heap_end flags - heap_len flags /\ f gd_malloc_limit = heap_len flags;
  lo_stack : f gd_start_addr_sp = heap_end flags - heap_len flags - 16
}.

(** The state between two calls: what has changed, and what the fields are. *)
Definition between (R : Z -> Prop) (flags : Z) (m : mem) (P : (Z -> Z) -> Prop) (w : world) : Prop :=
  exists f, gd_holds gd (w_mem w) f /\ unchanged R m (w_mem w) /\
    f gd_flags = flags /\ 0 <= f gd_bi_dram_size < 2 ^ 64 /\ P f.

Lemma call_step R flags m (P P' : (Z -> Z) -> Prop) g gs w Q :
  between R flags m P w ->
  (forall f, gd_holds gd (w_mem w) f -> unchanged R m (w_mem w) -> f gd_flags = flags -> 0 <= f gd_bi_dram_size < 2 ^ 64 -> P f ->
    returns (g w) (fun r => exists f', init_ok gd R (w_mem w) f' r /\ f' gd_flags = f gd_flags /\
      f' gd_bi_dram_size = f gd_bi_dram_size /\ P' f')) ->
  (forall w', between R flags m P' w' -> returns (initcall_run_list gd fn_addr seq_addr gs w') Q) ->
  returns (initcall_run_list gd fn_addr seq_addr (g :: gs) w) Q.
Proof.
  intros (f & Hg & Hu & Ef & Ed & HP) Hstep Hgs. eapply (run_call gd fn_addr seq_addr g gs w f (between R flags m P')); [done| |done].
  eapply returns_mono; [by apply (Hstep f)|]. intros r (f' & (E0 & Hg' & Hu') & E1 & E2 & HP'). split; [done|].
  exists f'. split; [done|]. split; [by eapply unchanged_trans|]. split; [congruence|]. split; [by rewrite E2|done].
Qed.

(** The banner does not touch the fields. *)
Lemma call_display flags m version (P : (Z -> Z) -> Prop) gs w Q :
  boot_env version m -> between (span_of gd sizeof_gd) flags m P w ->
  (forall w', between (touched flags) flags m P w' -> returns (initcall_run_list gd fn_addr seq_addr gs w') Q) ->
  returns (initcall_run_list gd fn_addr seq_addr (display_options lit version_string banner_buf :: gs) w) Q.
Proof.
  intros [_ _ _ (B1 & B2 & B3 & B4) (L1 & L2 & L3) _] (f & (Hw & Hm & Hf) & Hu & Ef & Ed & HP) Hgs.
  eapply (run_call gd fn_addr seq_addr _ gs w f (between (touched flags) flags m P)); [by split; [|split]| |done].
  eapply returns_mono; [eapply display_options_returns; [done|done|by eapply unchanged_mapped|by eapply literal_kept..]|].
  intros [w' r] (-> & Hd & Hk & Hw'). split; [done|]. exists f. cbn [fst].
  assert (unchanged (span_of banner_buf 200) (w_mem w) (w_mem w')) as Hb by (split; [done|]; intros x Hx; by apply Hk).
  split; [split; [by apply Hw'|]; split; [by eapply unchanged_mapped|]|split; [|done]].
  - intros o Ho. rewrite <- (Hf o Ho). apply field_spec in Ho. apply (rdn_unchanged 8 _ _ _ _ Hb), apart_span. unfold sizeof_gd in B4. lia.
  - eapply unchanged_trans; (eapply unchanged_mono; [eassumption|]); unfold touched; tauto.
Qed.

Ltac chase := repeat first
  [ match goal with E : ?f ?o = _ |- context [?f ?o] => is_var f; rewrite E end
  | match goal with H : forall o, _ -> ?f o = _ |- context [?f ?c] => is_var f; rewrite (H c) by (vm_compute; discriminate) end
  | match goal with H : forall o, _ -> _ -> ?f o = _ |- context [?f ?c] => is_var f; rewrite (H c) by (vm_compute; discriminate) end
  | match goal with H : forall o, _ -> _ -> _ -> ?f o = _ |- context [?f ?c] => is_var f; rewrite (H c) by (vm_compute; discriminate) end
  | rewrite fset_same | rewrite fset_other by reflexivity ].

Lemma touched_gd flags x : span_of gd sizeof_gd x -> touched flags x.
Proof. by left. Qed.

(** What is known of the fields after the image, after the heap. *)
Definition after_dest (f : Z -> Z) : Prop :=
  f gd_mon_len = mon_len /\ f gd_ram_base = TEXT /\ f gd_ram_top = ram_top /\ f gd_relocaddr = ram_top.

Definition after_image (flags : Z) (f : Z -> Z) : Prop :=
  f gd_ram_base = TEXT /\ f gd_ram_top = ram_top /\ f gd_relocaddr = image flags /\ f gd_start_addr_sp = image flags.

Definition after_gd (flags : Z) (f : Z -> Z) : Prop :=
  f gd_ram_base = TEXT /\ f gd_ram_top = ram_top /\ f gd_relocaddr = image flags /\ f gd_new_gd = new_gd flags /\ f gd_start_addr_sp = new_gd flags.

Definition after_heap (flags : Z) (f : Z -> Z) : Prop :=
  f gd_ram_base = TEXT /\ f gd_ram_top = ram_top /\ f gd_relocaddr = image flags /\ f gd_new_gd = new_gd flags /\
  f gd_malloc_base = heap_end flags - heap_len flags /\ f gd_malloc_limit = heap_len flags /\ f gd_start_addr_sp = heap_end flags - heap_len flags.

(** What the sequence leaves when it has relocated the global data. *)
Definition relocated (flags : Z) (f : Z -> Z) (m : mem) : Prop :=
  Z.land flags GD_FLG_SKIP_RELOC = 0 ->
  f gd_reloc_off = u64 (image flags - __image_copy_start) /\ read_bytes m (new_gd flags) 232 = read_bytes m gd 232.

Definition booted (flags : Z) (m : mem) (w : world) : Prop :=
  between (touched flags) flags m (fun f => laid_out flags f /\ relocated flags f (w_mem w)) w.

Section sequence.
Context (version : list Z) (m : mem) (flags : Z) (Henv : boot_env version m).
Local Abbreviation T := (touched flags).
Local Abbreviation HT := (touched_gd flags).

Lemma reserve_phase gs w Q :
  between T flags m after_dest w ->
  (forall w', between T flags m (after_heap flags) w' -> returns (initcall_run_list gd fn_addr seq_addr gs w') Q) ->
  returns (initcall_run_list gd fn_addr seq_addr (reserve_mmu :: reserve_vmimage gd :: reserve_global_data gd :: reserve_malloc gd :: gs) w) Q.
Proof.
  intros Hw Hgs. pose proof (layout_bounds version m flags Henv) as (B1 & B2 & _). pose proof (heap_bounds version m flags Henv) as (H1 & H2 & H3 & H4 & H5).
  pose proof Henv as [_ (R1 & R2 & _) _ _ _ (I1 & I2)].
  unfold CONFIG_MALLOC_F_LEN, CONFIG_START_ADDR_SP_SIZE in B1, H1, H4, R1, I2. assert (0 <= TEXT) as HT0 by lia.
  eapply (call_step T flags m after_dest after_dest); [exact Hw| |].
  { intros f Hg _ _ _ HP. apply returns_ok. exists f. split; [by apply same_ok|done]. }
  clear w Hw. intros w Hw. eapply (call_step T flags m after_dest (after_image flags)); [exact Hw| |].
  { intros f Hg _ Ef _ (E1 & E2 & E3 & E4). eapply returns_mono; [apply (reserve_vmimage_ok gd T HT w f Hg)|].
    - rewrite E4. unfold ram_top in *. lia.
    - intros r (f' & Hok & F1 & F2 & F3). exists f'. split; [done|]. split; [by chase|]. split; [by chase|].
      assert (image_at f = image flags) as Ei.
      { unfold image_at, image. rewrite Ef, E1, E4. destruct (_ =? 0); [|done]. rewrite u64_small by (unfold ram_top in *; lia). apply ldiff_page. }
      unfold after_image. chase. rewrite Ei. done. }
  clear w Hw. intros w Hw. eapply (call_step T flags m (after_image flags) (after_gd flags)); [exact Hw| |].
  { intros f Hg _ _ _ (E1 & E2 & E3 & E4). eapply returns_mono; [apply (reserve_global_data_ok gd T HT w f Hg)|].
    - rewrite E4. unfold new_gd in B1. lia.
    - intros r (f' & Hok & F1 & F2 & F3). exists f'. split; [done|]. split; [by chase|]. split; [by chase|]. unfold after_gd. chase. done. }
  clear w Hw. intros w Hw. eapply (call_step T flags m (after_gd flags) (after_heap flags)); [exact Hw| |exact Hgs].
  intros f Hg _ _ _ (E1 & E2 & E3 & E4 & E5). eapply returns_mono; [apply (reserve_malloc_ok gd T HT w f Hg); rewrite ?E1, ?E5|].
  - done.
  - fold (heap_end flags). unfold CONFIG_START_ADDR_SP_SIZE. lia.
  - unfold new_gd in *. unfold sizeof_gd in *. lia.
  - fold (heap_end flags). unfold CONFIG_MALLOC_F_LEN, CONFIG_START_ADDR_SP_SIZE. lia.
  - intros r (f' & Hok & F1 & F2 & F3 & F4). rewrite E1, E5 in F1, F2, F3. exists f'. split; [done|]. split; [by chase|]. split; [by chase|].
    unfold after_heap. chase. done.
Qed.

Lemma final_phase w :
  between T flags m (after_heap flags) w ->
  returns (initcall_run_list gd fn_addr seq_addr [reserve_stacks gd; dram_init_banksize; show_dram_config gd lit; display_new_sp gd; setup_reloc gd __image_copy_start] w)
    (fun '(w', r) => r = 0 /\ booted flags m w').
Proof.
  intros Hw. pose proof (layout_bounds version m flags Henv) as (B1 & B2 & B3). pose proof (heap_bounds version m flags Henv) as (H1 & H2 & H3 & H4 & H5).
  pose proof Henv as [_ (R1 & R2 & R3) _ _ _ (I1 & I2)]. unfold CONFIG_MALLOC_F_LEN, CONFIG_START_ADDR_SP_SIZE in B1, H1, H4, R1, I2.
  eapply (call_step T flags m (after_heap flags) (laid_out flags)); [exact Hw| |].
  { intros f Hg _ _ _ (E1 & E2 & E3 & E4 & E5 & E6 & E7). eapply returns_mono; [apply (reserve_stacks_ok gd T HT w f Hg)|].
    - rewrite E7. unfold new_gd, sizeof_gd in *. lia.
    - intros r (f' & Hok & F1 & F2). exists f'. split; [done|]. split; [by chase|]. split; [by chase|].
      split; chase; try done. dlia. }
  clear w Hw. intros w Hw. eapply (call_step T flags m (laid_out flags) (laid_out flags)); [exact Hw| |].
  { intros f Hg _ _ _ HP. apply returns_ok. exists f. split; [by apply same_ok|done]. }
  clear w Hw. intros w Hw. eapply (call_step T flags m (laid_out flags) (laid_out flags)); [exact Hw| |].
  { intros f Hg _ _ Hd HP. eapply returns_mono; [by apply (show_dram_config_ok gd T lit w f Hg)|]. intros r Hok. by exists f. }
  clear w Hw. intros w Hw. eapply (call_step T flags m (laid_out flags) (laid_out flags)); [exact Hw| |].
  { intros f Hg _ _ _ HP. eapply returns_mono; [by apply (display_new_sp_ok gd T w f Hg)|]. intros r Hok. by exists f. }
  clear w Hw. intros w (f & Hg & Hu & Ef & Hd & HP). pose proof HP as [P1 P2 P3 P4 P5 P6].
  eapply (run_call gd fn_addr seq_addr _ [] w f (booted flags m)); [done| |].
  2: { intros w' Hb. cbn [initcall_run_list]. by apply returns_ok. }
  eapply returns_mono; [apply (setup_reloc_ok gd T HT __image_copy_start w f Hg); rewrite ?P4|].
  - eapply unchanged_mapped; [exact Hu|]. eapply mapped_sub; [exact R3|lia|]. unfold new_gd, ram_top in *. lia.
  - lia.
  - intros x Hx. right. by right.
  - intros r (f' & (E0 & Hg' & Hu') & F1 & F2). split; [done|]. exists f'. split; [done|]. split; [by eapply unchanged_trans|].
    split; [by chase|]. split; [by chase|]. split.
    + destruct P5 as [P5 P5']. split; chase; done.
    + intros Hs. destruct F1 as [F1 F1']; [unfold skip; rewrite Ef, Hs; done|]. rewrite F1, P3. by rewrite P4 in F1'.
Qed.

Lemma sequence_ok w :
  between (span_of gd sizeof_gd) flags m (fun _ => True) w ->
  returns (initcall_run_list gd fn_addr seq_addr
    (init_sequence_f gd _start __bss_end __image_copy_start TEXT BLOCK lit version_string banner_buf) w)
    (fun '(w', r) => r = 0 /\ booted flags m w').
Proof.
  intros Hw. pose proof Henv as [_ (R1 & R2 & _) _ _ _ (I1 & I2)]. unfold CONFIG_MALLOC_F_LEN, CONFIG_START_ADDR_SP_SIZE, ram_top in *.
  unfold init_sequence_f. set (G := span_of gd sizeof_gd).
  eapply (call_step G flags m (fun _ => True) (fun f => f gd_mon_len = mon_len)); [exact Hw| |].
  { intros f Hg _ _ _ _. eapply returns_mono; [apply (setup_mon_len_ok gd G (fun x H => H) _start __bss_end w f Hg)|].
    intros r Hok. eexists. split; [exact Hok|]. fields. split; [done|]. split; [done|]. apply u64_small. unfold mon_len in *. lia. }
  clear w Hw. intros w Hw. eapply call_display; [exact Henv|exact Hw|].
  clear w Hw. intros w Hw. eapply (call_step T flags m _ (fun f => f gd_mon_len = mon_len)); [exact Hw| |].
  { intros f Hg _ _ _ HP. apply returns_ok. exists f. split; [by apply same_ok|done]. }
  clear w Hw. intros w Hw. eapply (call_step T flags m _ (fun f => f gd_mon_len = mon_len /\ f gd_ram_size = BLOCK)); [exact Hw| |].
  { intros f Hg _ _ _ HP. eapply returns_mono; [apply (dram_init_ok gd T HT BLOCK w f Hg); lia|].
    intros r Hok. eexists. split; [exact Hok|]. fields. done. }
  clear w Hw. intros w Hw. eapply (call_step T flags m _ after_dest); [exact Hw| |].
  { intros f Hg _ _ _ [HP1 HP2]. eapply returns_mono; [apply (setup_dest_addr_ok gd T HT TEXT BLOCK w f Hg HP2); lia|].
    intros r Hok. eexists. split; [exact Hok|]. unfold after_dest. fields. done. }
  clear w Hw. intros w Hw. apply reserve_phase; [exact Hw|]. apply final_phase.
Qed.
End sequence.

Lemma board_init_f_booted version flags w :
  boot_env version (w_mem w) -> 0 <= flags < 2 ^ 64 ->
  returns (board_init_f gd _start __bss_end __image_copy_start TEXT BLOCK lit version_string banner_buf fn_addr seq_addr flags w)
    (booted flags (w_mem w)).
Proof.
  intros Henv Hf. pose proof Henv as [Hwf _ (Hm & _) _ _ _]. unfold board_init_f.
  assert (gd_holds gd (w_mem w) (fun o => rdw (w_mem w) (gd + o))) as Hg by done.
  assert (0 <= rdw (w_mem w) (gd + gd_bi_dram_size) < 2 ^ 64) as Hd.
  { apply rdw_range; [done|]. eapply mapped_sub; [exact Hm|unfold gd_bi_dram_size; lia|unfold sizeof_gd, gd_bi_dram_size; lia]. }
  eapply returns_bind; [apply (gd_st_ok gd w _ gd_flags flags Hg eq_refl Hf)|]. intros w1 [Hg1 Hu1].
  eapply returns_bind; [apply (store_baudrate w1 _ Hg1)|]. intros m2 [(f2 & Hg2 & F2) Hu2]. cbv zeta.
  eapply returns_bind; [apply (sequence_ok version (w_mem w) flags Henv)|].
  - exists f2. split; [done|]. split; [by eapply unchanged_trans|]. rewrite !F2 by (vm_compute; discriminate). fields. done.
  - intros [w' r] [-> Hb]. cbn [Z.eqb negb]. by apply returns_ok.
Qed.

(** The heap region of the layout is one that [memory_init] accepts. *)
Lemma heap_ready version m flags w : boot_env version m -> unchanged (touched flags) m (w_mem w) ->
  let b := heap_end flags - heap_len flags in let n := heap_len flags / 4096 in
  exists pg w', memory_init b (heap_len flags) pages0 w = Ok (pg, w') /\ heap_inv b n empty_heap (heap0 pg) (w_mem w').
Proof.
  intros Henv Hu b n. destruct (layout_bounds version m flags Henv) as (B1 & B2 & _). destruct (heap_bounds version m flags Henv) as (H1 & H2 & H3 & H4 & H5).
  destruct Henv as [_ (R1 & R2 & R3) _ _ _ _]. unfold CONFIG_MALLOC_F_LEN, CONFIG_START_ADDR_SP_SIZE in *.
  assert (heap_len flags = 4096 * n) as En by (unfold n; dlia). rewrite En in *.
  assert (Region b n) as HR.
  { split; [unfold b; lia|unfold b; rewrite En; dlia|change PAGING_PAGES with 16; lia|]. unfold b. rewrite En. unfold new_gd, sizeof_gd, ram_top in *. lia. }
  destruct (memory_init_spec b n pages0 w) as ([pg w'] & E & Hpg & Ew); [done|]. exists pg, w'. split; [done|]. rewrite Ew.
  apply empty_heap_inv; [done|]. eapply unchanged_mapped; [exact Hu|]. eapply mapped_sub; [exact R3|unfold b; rewrite En; lia|].
  unfold b. rewrite En. unfold new_gd, sizeof_gd, ram_top in *. lia.
Qed.

(** C10: the layout of memory before relocation.  Let RAM be [BLOCK] bytes from
    [TEXT], an image of [mon_len] bytes that leaves 20 KB, and the early global
    data and stack buffer apart from what is reserved.  [board_init_f] returns
    and has changed only the global data, its banner buffer and the copy of the
    global data.  From the top of RAM downwards, without overlap: the image
    (page aligned, when it is relocated at all), the new global data right below
    it, the heap (whole pages, 64 KB if they fit) and, 16 byte aligned right
    below the heap, the stack, with at least 8 KB to the base.  The new global
    data is a copy of the old, and [memory_init] on the reserved heap
    establishes the invariant of the allocator. *)
Theorem board_init_f_correct (version : list Z) (flags : Z) (w : world) :
  boot_env version (w_mem w) -> 0 <= flags < 2 ^ 64 ->
  returns (board_init_f gd _start __bss_end __image_copy_start TEXT BLOCK lit version_string banner_buf fn_addr seq_addr flags w) (fun w' =>
    let fld o := rdw (w_mem w') (gd + o) in
    let image := fld gd_relocaddr in let new := fld gd_new_gd in
    let heap := fld gd_malloc_base in let len := fld gd_malloc_limit in
    unchanged (fun x => span_of gd sizeof_gd x \/ span_of banner_buf 200 x \/ span_of new sizeof_gd x) (w_mem w) (w_mem w') /\
    (if Z.land flags GD_FLG_SKIP_RELOC =? 0 then
       image mod 4096 = 0 /\ image + mon_len <= TEXT + BLOCK /\ fld gd_reloc_off = u64 (image - __image_copy_start) /\
       read_bytes (w_mem w') new 232 = read_bytes (w_mem w') gd 232
     else image = TEXT + BLOCK) /\
    new + sizeof_gd = image /\ heap + len <= new /\
    heap mod 4096 = 0 /\ len mod 4096 = 0 /\ 0 <= len <= CONFIG_MALLOC_F_LEN /\
    (mon_len + CONFIG_MALLOC_F_LEN + 3 * 4096 + CONFIG_START_ADDR_SP_SIZE <= BLOCK -> len = CONFIG_MALLOC_F_LEN) /\
    fld gd_start_addr_sp = heap - 16 /\ TEXT + CONFIG_START_ADDR_SP_SIZE <= heap /\
    exists pg w2, memory_init heap len pages0 w' = Ok (pg, w2) /\ heap_inv heap (len / 4096) empty_heap (heap0 pg) (w_mem w2)).
Proof.
  intros Henv Hf. eapply returns_mono; [by apply (board_init_f_booted version)|]. intros w' (f & (_ & _ & Hfld) & Hu & _ & _ & [L1 L2 L3 L4 [L5 L6] L7] & Hr).
  destruct (layout_bounds version _ flags Henv) as (B1 & B2 & _). destruct (heap_bounds version _ flags Henv) as (H1 & H2 & H3 & H4 & H5).
  cbv beta zeta. rewrite !Hfld by reflexivity. rewrite L3, L4, L5, L6, L7. split; [exact Hu|]. split; [|split; [|split; [|split; [|split; [|split; [|split; [|split; [|split]]]]]]]].
  - unfold relocated in Hr. destruct (Z.eqb_spec (Z.land flags GD_FLG_SKIP_RELOC) 0) as [E|E].
    + destruct (Hr E) as [-> ->]. unfold image, ram_top. rewrite E. cbn [Z.eqb]. split; [dlia|]. split; [dlia|done].
    + unfold image. by destruct (Z.eqb_spec (Z.land flags GD_FLG_SKIP_RELOC) 0).
  - unfold new_gd. lia.
  - lia.
  - dlia.
  - done.
  - done.
  - intros Hbig. unfold heap_len, heap_size. case_cmp; [|done]. exfalso.
    unfold heap_end, new_gd, image, ram_top, sizeof_gd, CONFIG_START_ADDR_SP_SIZE, CONFIG_MALLOC_F_LEN in *. destruct (_ =? 0); destruct Henv as [_ _ _ _ _ [? _]]; dlia.
  - lia.
  - done.
  - by apply (heap_ready version (w_mem w)).
Qed.
End boot.

(** 32 KB of RAM at 0x20000, an image of one page, the early global data at
    0x1000, the banner buffer at 0x2000, the strings at 0x3000. *)
Definition demo_lit (s : string) : Z := if decide (s = "%s%s") then 0x3000 else 0x3008.
Definition demo_low : mem :=
  write_bytes (write_bytes (mem_of 0x3000 [37; 115; 37; 115; 0; 0; 0; 0; 10; 10; 0; 82; 0]) 0x1000 (replicate 232 0)) 0x2000 (replicate 200 0).
Definition demo_ram : mem := write_bytes demo_low 0x20000 (replicate (Z.to_nat 0x8000) 0).

Lemma demo_ram_low x : x < 0x20000 -> demo_ram !! x = demo_low !! x.
Proof. intros Hx. apply lookup_write_bytes_ne. lia. Qed.

Lemma demo_cstr p s : p + Z.of_nat (length s) < 0x20000 -> bytes_at demo_low p (s ++ [0]) -> Forall (fun b => 0 < b < 256) s -> cstr demo_ram p s.
Proof.
  intros Hp Hb HF. split; [|done]. eapply bytes_at_ext; [|exact Hb]. intros x Hx. apply demo_ram_low. rewrite length_app in Hx. cbn in Hx. lia.
Qed.

Lemma demo_literal p s :
  0x3000 <= p -> p + Z.of_nat (length s) < 0x4000 -> bytes_at demo_low p (s ++ [0]) -> Forall (fun b => 0 < b < 256) s -> literal 0x1000 0x2000 demo_ram p s.
Proof.
  intros Hp Hl Hb HF. split; [split; [lia|]; split; [apply demo_cstr; (done || lia)|]; split; [lia|]|].
  - right. lia.
  - apply apart_span. unfold sizeof_gd. lia.
Qed.

Lemma zeros_range n : Forall byte_range (replicate n 0).
Proof. apply list.Forall_replicate. unfold byte_range. lia. Qed.

Lemma demo_env : boot_env 0x1000 0 0x1000 0x20000 0x8000 demo_lit 0x300b 0x2000 [82] demo_ram.
Proof.
  assert (forall p n, mapped demo_low p n -> mapped demo_ram p n) as Hlow by (intros; by apply mapped_write_bytes).
  split.
  - apply wf_mem_write; [|apply zeros_range]. apply wf_mem_write; [|apply zeros_range]. apply wf_mem_write; [|apply zeros_range].
    apply wf_mem_write; [intros a b; by rewrite lookup_empty|]. repeat constructor; lia.
  - split; [by vm_compute|]. split; [by vm_compute|].
    pose proof (bytes_at_mapped _ _ _ (write_bytes_at demo_low 0x20000 (replicate (Z.to_nat 0x8000) 0))) as H. rewrite length_replicate in H.
    eapply mapped_sub; [exact H|lia|lia].
  - split; [|left; by vm_compute]. apply Hlow, mapped_write_bytes, (bytes_at_mapped _ _ (replicate 232 0)), write_bytes_at.
  - split; [lia|]. split; [lia|]. split; [|right; by vm_compute]. apply Hlow, (bytes_at_mapped _ _ (replicate 200 0)), write_bytes_at.
  - split; [|split]; apply demo_literal; try (vm_compute; repeat split; congruence); repeat constructor.
  - by vm_compute.
Qed.

Lemma board_init_f_correct_witness :
  returns (board_init_f 0x1000 0 0x1000 0 0x20000 0x8000 demo_lit 0x300b 0x2000 (fun _ => 0) 0 0 (World demo_ram [])) (fun w' =>
    rdw (w_mem w') (0x1000 + gd_relocaddr) mod 4096 = 0 /\
    rdw (w_mem w') (0x1000 + gd_start_addr_sp) = rdw (w_mem w') (0x1000 + gd_malloc_base) - 16).
Proof.
  eapply returns_mono; [apply (board_init_f_correct 0x1000 0 0x1000 0 0x20000 0x8000 demo_lit 0x300b 0x2000 (fun _ => 0) 0 [82] 0 (World demo_ram []))|].
  - exact demo_env.
  - lia.
  - intros w' (_ & (H1 & _) & _ & _ & _ & _ & _ & _ & H2 & _). split; [exact H1|exact H2].
Defined.
