(* ===== verification/Exception.v ===== *)
(** * Exception reports (arch/arm64/kernel/interrupts_64.c, lib/panic.c, lib/hang.c)

    What the handlers of unexpected exceptions print before they stop the
    machine.  The saved registers are a structure in memory; the fault address
    registers are parameters.  [panic] and [hang] do not return: their result
    is the world in which they loop for ever. *)

From Stdlib Require Import Ascii.
From S2P Require Import Prelude CMem Str StrFacts Console Words Display Boot.

Local Open Scope Z_scope.
Local Open Scope c_scope.

(** ** Stopping *)

Definition hang (w : world) : world := puts_lit "### ERROR ### Please RESET the board ###\n" w.

Definition panic_finish (w : world) : world := hang (putc 10 w).

Definition panic_str (str : Z) (w : world) : outcome world := let! w := puts str w in Ok (panic_finish w).

Definition panic (fmt : string) (args : list Z) (w : world) : world := panic_finish (printf fmt args w).

(** ** The report *)

(** [struct pt_regs]: the return address, then x0 to x30. *)
Definition pt_elr (regs : Z) : Z := regs.
Definition pt_reg (regs i : Z) : Z := regs + 8 + 8 * i.

Section report.
(** The global data, the exception level and the fault address registers. *)
Context (gd : Z) (el : Z) (far_el : Z -> Z) (hpfar_el2 : Z).

Definition dump_instr (regs : Z) (w : world) : outcome world :=
  let! elr := load64 (w_mem w) (pt_elr regs) in
  let addr := Z.ldiff elr 3 in
  let w := printf "Code: " [] w in
  while 6 (fun '(i, w) =>
    if i <? 1 then
      let! v := load32 (w_mem w) (addr + 4 * i) in
      cont (i + 1, printf (if i =? 0 then "(%08x) " else "%08x ") [v] w)
    else brk (printf "\n" [] w)) (-4, w).

Definition show_regs (regs : Z) (w : world) : outcome world :=
  let! flags := load64 (w_mem w) (gd + gd_flags) in
  let! elr := load64 (w_mem w) (pt_elr regs) in
  let! lr := load64 (w_mem w) (pt_reg regs 30) in
  let! w :=
    if negb (Z.land flags GD_FLG_RELOC =? 0) then
      let! reloc_off := load64 (w_mem w) (gd + gd_reloc_off) in
      Ok (printf "elr: %016lx lr : %016lx (reloc)\n" [u64 (elr - reloc_off); u64 (lr - reloc_off)] w)
    else Ok w in
  let w := printf "elr: %016lx lr : %016lx\n" [elr; lr] w in
  let! w := while 16 (fun '(i, w) =>
    if i <? 29 then
      let! a := load64 (w_mem w) (pt_reg regs i) in
      let! b := load64 (w_mem w) (pt_reg regs (i + 1)) in
      cont (i + 2, printf "x%-2d: %016lx x%-2d: %016lx\n" [i; a; i + 1; b] w)
    else brk w) (0, w) in
  dump_instr regs (printf "\n" [] w).

Definition get_pa_fault : Z := if (el =? 1) || (el =? 2) || (el =? 3) then far_el el else 0.
Definition get_ipa_fault : Z := if el =? 2 then hpfar_el2 else 0.

(** A handler prints its line and the registers and stops.  [quoted] spells the
    name of the exception as the source does, between escaped quotes. *)
Definition quoted (name : string) : string := ("\" ++ String "034"%char (name ++ "\" ++ String "034"%char EmptyString))%string.

Definition stop_with (text : string) (pt_regs esr : Z) (w : world) : outcome world :=
  let w := printf text [esr] w in
  let! w := show_regs pt_regs w in
  Ok (panic "Resetting CPU ...\n" [] w).

Definition do_bad_sync := stop_with ("Bad mode in " ++ quoted "Synchronous Abort" ++ " handler, esr 0x%08x\n").
Definition do_bad_irq := stop_with ("Bad mode in " ++ quoted "Irq" ++ " handler, esr 0x%08x\n").
Definition do_bad_fiq := stop_with ("Bad mode in " ++ quoted "Fiq" ++ " handler, esr 0x%08x\n").
Definition do_bad_error := stop_with ("Bad mode in " ++ quoted "Error" ++ " handler, esr 0x%08x\n").

Definition do_sync (pt_regs esr : Z) (w : world) : outcome world :=
  let w := printf (quoted "Synchronous Abort" ++ " handler, esr 0x%08x\n") [esr] w in
  let! w := show_regs pt_regs w in
  let w := printf "\n IPA:0x%llx VA:0x%llx\n" [get_ipa_fault; get_pa_fault] w in
  Ok (panic "Resetting CPU ...\n" [] w).

Definition do_error := stop_with (quoted "Error" ++ " handler, esr 0x%08x\n").
End report.

(** ** What a report says *)

Definition rd32 : mem -> Z -> Z := rdn 4.

Section shows.
Context (gd el : Z) (far_el : Z -> Z) (hpfar_el2 : Z).

Definition reloc_line (m : mem) (regs : Z) : list event :=
  if Z.land (rdw m (gd + gd_flags)) GD_FLG_RELOC =? 0 then []
  else [Printf "elr: %016lx lr : %016lx (reloc)\n"
          [u64 (rdw m regs - rdw m (gd + gd_reloc_off)); u64 (rdw m (pt_reg regs 30) - rdw m (gd + gd_reloc_off))]].

Definition pair_line (m : mem) (regs i : Z) : event :=
  Printf "x%-2d: %016lx x%-2d: %016lx\n" [i; rdw m (pt_reg regs i); i + 1; rdw m (pt_reg regs (i + 1))].

Definition reg_lines (m : mem) (regs : Z) : list event := pair_line m regs <$> [0; 2; 4; 6; 8; 10; 12; 14; 16; 18; 20; 22; 24; 26; 28].

(** The four instructions before the one that was interrupted, and that one. *)
Definition code_lines (m : mem) (regs : Z) : list event :=
  let a := Z.ldiff (rdw m regs) 3 in
  [Printf "Code: " []; Printf "%08x " [rd32 m (a - 16)]; Printf "%08x " [rd32 m (a - 12)]; Printf "%08x " [rd32 m (a - 8)];
   Printf "%08x " [rd32 m (a - 4)]; Printf "(%08x) " [rd32 m a]; Printf "\n" []].

Definition front (m : mem) (regs : Z) : list event :=
  reloc_line m regs ++ [Printf "elr: %016lx lr : %016lx\n" [rdw m regs; rdw m (pt_reg regs 30)]] ++
  reg_lines m regs ++ [Printf "\n" []].

Definition report (m : mem) (regs : Z) : list event := front m regs ++ code_lines m regs.

Lemma load32_rd32 m a : mapped m a 4 -> load32 m a = Ok (rd32 m a).
Proof. apply (load_le_rdn 4). Qed.

Lemma dump_instr_spec m io regs :
  mapped m regs 256 -> mapped m (Z.ldiff (rdw m regs) 3 - 16) 20 ->
  dump_instr regs (World m io) = Ok (World m (io ++ code_lines m regs)).
Proof.
  intros Hr Hc. unfold dump_instr, pt_elr. cbn [w_mem]. rewrite load64_rdw by (eapply mapped_sub; [exact Hr|lia|lia]). cbn [obind].
  set (a := Z.ldiff (rdw m regs) 3) in *.
  assert (forall i, -4 <= i <= 0 -> load32 m (a + 4 * i) = Ok (rd32 m (a + 4 * i))) as Hl.
  { intros i Hi. apply load32_rd32. eapply mapped_sub; [exact Hc|lia|lia]. }
  match goal with |- while 6 ?f _ = _ => set (body := f) end.
  assert (forall i io, -4 <= i <= 0 -> body (i, World m io) =
    cont (i + 1, World m (io ++ [Printf (if i =? 0 then "(%08x) " else "%08x ") [rd32 m (a + 4 * i)]]))) as Hb.
  { intros i io' Hi. unfold body. destruct (Z.ltb_spec i 1); [|lia]. cbn [w_mem]. by rewrite Hl. }
  assert (forall io, body (1, World m io) = brk (World m (io ++ [Printf "\n" []]))) as He by done. clearbody body.
  unfold printf, say. cbn [w_mem w_io]. do 5 (rewrite while_S, Hb by lia; loop_next). rewrite while_S.
  change (-4 + 1 + 1 + 1 + 1 + 1) with 1. rewrite He. loop_next. unfold code_lines. fold a. rewrite <- !app_assoc. cbn [app].
  change (-4 + 1) with (-3). change (-3 + 1) with (-2). change (-2 + 1) with (-1). change (-1 + 1) with 0. cbn [Z.eqb].
  change (4 * -4) with (-16). change (4 * -3) with (-12). change (4 * -2) with (-8). change (4 * -1) with (-4). change (4 * 0) with 0.
  change (a + -16) with (a - 16). change (a + -12) with (a - 12). change (a + -8) with (a - 8). change (a + -4) with (a - 4).
  by rewrite Z.add_0_r.
Qed.

Lemma reg_loop m io regs :
  mapped m regs 256 ->
  while 16 (fun '(i, w) =>
    if i <? 29 then
      let! a := load64 (w_mem w) (pt_reg regs i) in
      let! b := load64 (w_mem w) (pt_reg regs (i + 1)) in
      cont (i + 2, printf "x%-2d: %016lx x%-2d: %016lx\n" [i; a; i + 1; b] w)
    else brk w) (0, World m io) = Ok (World m (io ++ reg_lines m regs)).
Proof.
  intros Hr. match goal with |- while 16 ?f _ = _ => set (body := f) end.
  assert (forall i io, 0 <= i < 29 -> body (i, World m io) = cont (i + 2, World m (io ++ [pair_line m regs i]))) as Hb.
  { intros i io' Hi. unfold body. destruct (Z.ltb_spec i 29); [|lia]. cbn [w_mem].
    rewrite !load64_rdw by (eapply mapped_sub; [exact Hr|unfold pt_reg; lia|unfold pt_reg; lia]). reflexivity. }
  assert (forall io, body (30, World m io) = brk (World m io)) as He by done. clearbody body.
  do 15 (rewrite while_S, Hb by lia; loop_next; cbn [Z.add Pos.add Pos.succ]). rewrite while_S, He. loop_next.
  unfold reg_lines. rewrite <- !app_assoc. reflexivity.
Qed.

(** The registers are printed in any case; then come the instructions. *)
Lemma show_regs_front m io regs :
  mapped m regs 256 -> mapped m gd sizeof_gd ->
  show_regs gd regs (World m io) = dump_instr regs (World m (io ++ front m regs)).
Proof.
  intros Hr Hg. unfold show_regs, pt_elr. cbn [w_mem].
  rewrite (load64_rdw m (gd + gd_flags)) by (eapply mapped_sub; [exact Hg|unfold gd_flags; lia|unfold gd_flags, sizeof_gd; lia]). cbn [obind].
  rewrite (load64_rdw m regs) by (eapply mapped_sub; [exact Hr|lia|lia]). cbn [obind].
  rewrite (load64_rdw m (pt_reg regs 30)) by (eapply mapped_sub; [exact Hr|unfold pt_reg; lia|unfold pt_reg; lia]). cbn [obind].
  assert (load64 m (gd + gd_reloc_off) = Ok (rdw m (gd + gd_reloc_off))) as Ho.
  { apply load64_rdw. eapply mapped_sub; [exact Hg|unfold gd_reloc_off; lia|unfold gd_reloc_off, sizeof_gd; lia]. }
  unfold front, reloc_line. destruct (Z.land (rdw m (gd + gd_flags)) GD_FLG_RELOC =? 0); cbn [negb]; rewrite ?Ho; cbn [obind];
    unfold printf at 1 2, say at 1 2; cbn [w_mem w_io]; rewrite reg_loop by done; cbn [obind]; unfold printf, say; cbn [w_mem w_io];
    rewrite <- !app_assoc; reflexivity.
Qed.

Lemma dump_instr_fault m io regs :
  mapped m regs 256 -> m !! (Z.ldiff (rdw m regs) 3 - 16) = None -> dump_instr regs (World m io) = Fault.
Proof.
  intros Hr Hc. unfold dump_instr, pt_elr. cbn [w_mem]. rewrite load64_rdw by (eapply mapped_sub; [exact Hr|lia|lia]). cbn [obind].
  set (a := Z.ldiff (rdw m regs) 3) in *.
  assert (load32 m (a + 4 * -4) = Fault) as Hl.
  { replace (a + 4 * -4) with (a - 16) by lia. unfold load32. cbn [load_le]. unfold load8 at 1. by rewrite Hc. }
  match goal with |- while 6 ?f ?st = _ => assert (f st = Fault) as Hf; [|by rewrite while_S, Hf] end.
  cbv beta iota. change (-4 <? 1) with true. cbv iota. unfold printf at 1, say. cbn [w_mem]. by rewrite Hl.
Qed.
End shows.

(** ** Claim *)

(** C37: the report of a synchronous abort.  With the saved registers and the
    global data in memory, [do_sync] prints the syndrome; return address and
    link register, once more relative to the link address when the image was
    relocated; x0 to x29 in order; the five instruction words up to the
    interrupted one; and the fault addresses of the current exception level.
    Then it stops the machine with the reset message, and no memory has
    changed.  When the instruction words cannot be read, as after a jump to an
    address that is not mapped, the report faults itself and the machine does
    not stop with a message. *)
Theorem do_sync_correct (gd el : Z) (far_el : Z -> Z) (hpfar_el2 : Z) (m : mem) (io : list event) (regs esr : Z) :
  mapped m regs 256 -> mapped m gd sizeof_gd ->
  let code := Z.ldiff (rdw m regs) 3 - 16 in
  (mapped m code 20 ->
   do_sync gd el far_el hpfar_el2 regs esr (World m io) =
     Ok (World m (io ++ [Printf (quoted "Synchronous Abort" ++ " handler, esr 0x%08x\n") [esr]] ++ report gd m regs ++
       [Printf "\n IPA:0x%llx VA:0x%llx\n" [if el =? 2 then hpfar_el2 else 0; if (1 <=? el) && (el <=? 3) then far_el el else 0];
        Printf "Resetting CPU ...\n" []; Putc 10; PutsLit "### ERROR ### Please RESET the board ###\n"]))) /\
  (m !! code = None -> do_sync gd el far_el hpfar_el2 regs esr (World m io) = Fault).
Proof.
  intros Hr Hg code. unfold do_sync. assert (forall text, printf text [esr] (World m io) = World m (io ++ [Printf text [esr]])) as -> by done.
  rewrite show_regs_front by done. split; intros Hc; [|by rewrite dump_instr_fault].
  rewrite dump_instr_spec by done. cbn [obind].
  unfold panic, panic_finish, hang, puts_lit, putc, printf, say, get_pa_fault, get_ipa_fault. cbn [w_mem w_io].
  replace ((el =? 1) || (el =? 2) || (el =? 3)) with ((1 <=? el) && (el <=? 3)) by lia.
  unfold report. rewrite <- !app_assoc. reflexivity.
Qed.

(** Registers at 0x1000, global data at 0x2000, code at 0x3000. *)
Definition abort_mem : mem :=
  write_bytes (write_bytes (mem_of 0x1000 ([16; 0x30; 0; 0; 0; 0; 0; 0] ++ replicate 248 0)) 0x2000 (replicate 232 0)) 0x3000 (replicate 20 7).

Lemma abort_mem_facts :
  mapped abort_mem 0x1000 256 /\ mapped abort_mem 0x2000 sizeof_gd /\ mapped abort_mem 0x3000 20 /\ rdw abort_mem 0x1000 = 0x3010.
Proof.
  split; [|split; [|split]].
  - apply mapped_write_bytes, mapped_write_bytes. apply (bytes_at_mapped _ _ ([16; 0x30; 0; 0; 0; 0; 0; 0] ++ replicate 248 0)), write_bytes_at.
  - apply mapped_write_bytes. apply (bytes_at_mapped _ _ (replicate 232 0)), write_bytes_at.
  - apply (bytes_at_mapped _ _ (replicate 20 7)), write_bytes_at.
  - vm_compute. reflexivity.
Qed.

Lemma do_sync_correct_witness :
  exists w, do_sync 0x2000 3 (fun _ => 0xdead0) 0 0x1000 0x96000045 (World abort_mem []) = Ok w /\ w_mem w = abort_mem /\
    last (w_io w) = Some (PutsLit "### ERROR ### Please RESET the board ###\n").
Proof.
  destruct abort_mem_facts as (H1 & H2 & H3 & E).
  destruct (do_sync_correct 0x2000 3 (fun _ => 0xdead0) 0 abort_mem [] 0x1000 0x96000045 H1 H2) as [Hs _].
  eexists. split; [apply Hs; rewrite E; exact H3|]. split; reflexivity.
Defined.
