(* ===== verification/Charset.v ===== *)
(** * Character encodings (lib/charset.c, include/capitalization.h)

    UTF-8 and UTF-16 one code point at a time and whole strings at a time,
    letter case and the string functions over 16-bit units.

    An argument of type pointer to pointer is an [option Z]: [None] when it is
    NULL, otherwise the pointer it points to; the function returns the new one.
    [get_code] takes the stream reader as an argument, as in the source. *)

From S2P Require Import Prelude CMem Str Console.

Local Open Scope Z_scope.
Local Open Scope c_scope.

Abbreviation pptr := (option Z).

(** [!p || !*p] *)
Definition null_pp (p : pptr) : bool := match p with Some a => a =? NULL | None => true end.

(** ['?'] *)
Definition QUESTION : Z := 63.

(** ** UTF-8 *)

Section reader.
Context {S : Type} (read_u8 : S -> outcome (Z * S)).

Definition is_cont (ch : Z) : bool := negb ((ch <? 0x80) || (0xbf <? ch)).

(** The last two bytes: [ch] is the one before the last. *)
Definition get_code_tail (code ch : Z) (data : S) : outcome (Z * S) :=
  let ch := Z.land ch 0x3f in
  let code := code + Z.shiftl ch 6 in
  let! '(ch, data) := read_u8 data in
  if negb (is_cont ch) then Ok (QUESTION, data) else
  Ok (Z.land ch 0x3f + code, data).

(** The last three bytes: [ch] holds the bits of the first of them. *)
Definition get_code_mid (code ch : Z) (data : S) : outcome (Z * S) :=
  let code := code + Z.shiftl ch 12 in
  if ((0xD800 <=? code) && (code <=? 0xDFFF)) || (0x110000 <=? code) then Ok (QUESTION, data) else
  let! '(ch, data) := read_u8 data in
  if negb (is_cont ch) then Ok (QUESTION, data) else
  get_code_tail code ch data.

Definition get_code (data : S) : outcome (Z * S) :=
  let! '(ch, data) := read_u8 data in
  if ch =? 0 then Ok (0, data) else
  if (0xc2 <=? ch) && (ch <=? 0xf4) then
    if 0xe0 <=? ch then
      if 0xf0 <=? ch then
        let code := Z.shiftl (Z.land ch 0x07) 18 in
        let! '(ch, data) := read_u8 data in
        if negb (is_cont ch) then Ok (QUESTION, data) else
        get_code_mid code (Z.land ch 0x3f) data
      else get_code_mid 0 (Z.land ch 0x0f) data
    else get_code_tail 0 ch data
  else if 0x80 <=? ch then Ok (QUESTION, data)
  else Ok (ch, data).
End reader.

Definition read_string (m : mem) (src : pptr) : outcome (Z * pptr) :=
  match src with
  | None => Ok (0, src)
  | Some p =>
      if p =? NULL then Ok (0, src) else
      let! c := load8 m p in
      if c =? 0 then Ok (0, src) else Ok (c, Some (p + 1))
  end.

(** [getc] waits for the next character: the console is the sequence of the
    values it returns, the state is the number of those consumed. *)
Definition read_console (getc : nat -> Z) (pos : nat) : outcome (Z * nat) :=
  let ch := getc pos in
  let ch := if ch <? 0 then 0 else ch in
  Ok (u8 ch, S pos).

(** The result, the value stored through [code] if any, and the console. *)
Definition console_read_unicode (tstc : bool) (getc : nat -> Z) (pos : nat)
    : outcome (Z * option Z * nat) :=
  if negb tstc then Ok (1, None, pos) else
  let! '(code, pos) := get_code (read_console getc) pos in
  Ok (0, Some code, pos).

Definition utf8_get (m : mem) (src : pptr) : outcome (Z * pptr) := get_code (read_string m) src.

Definition bad_code (code : Z) : bool :=
  ((0xD800 <=? code) && (code <=? 0xDFFF)) || (0x110000 <=? code).

(** The result is the value returned, the memory and the new [*dst]. *)
Definition utf8_put (m : mem) (code : Z) (dst : pptr) : outcome (Z * mem * pptr) :=
  match dst with
  | None => Ok (-1, m, dst)
  | Some d =>
      if d =? NULL then Ok (-1, m, dst) else
      if bad_code code then Ok (-1, m, dst) else
      if code <=? 0x007F then
        let! m := store8 m d code in
        Ok (0, m, Some (d + 1))
      else
        let! '(m, d) :=
          if code <=? 0x07FF then
            let! m := store8 m d (Z.lor (Z.shiftr code 6) 0xC0) in
            Ok (m, d)
          else
            let! '(m, d) :=
              if code <? 0x10000 then
                let! m := store8 m d (Z.lor (Z.shiftr code 12) 0xE0) in
                Ok (m, d)
              else
                let! m := store8 m d (Z.lor (Z.shiftr code 18) 0xF0) in
                let d := d + 1 in
                let! m := store8 m d (Z.lor (Z.land (Z.shiftr code 12) 0x3F) 0x80) in
                Ok (m, d) in
            let d := d + 1 in
            let! m := store8 m d (Z.lor (Z.land (Z.shiftr code 6) 0x3F) 0x80) in
            Ok (m, d) in
        let d := d + 1 in
        let! m := store8 m d (Z.lor (Z.land code 0x3F) 0x80) in
        Ok (0, m, Some (d + 1))
  end.

(** ** UTF-16 *)

Definition utf16_get (m : mem) (src : pptr) : outcome (Z * pptr) :=
  match src with
  | None => Ok (-1, src)
  | Some p =>
      if p =? NULL then Ok (-1, src) else
      let! code := load16 m p in
      if code =? 0 then Ok (0, src) else
      let p := p + 2 in
      if (0xDC00 <=? code) && (code <=? 0xDFFF) then Ok (-1, Some p) else
      if (0xD800 <=? code) && (code <=? 0xDBFF) then
        let! code2 := load16 m p in
        if code2 =? 0 then Ok (-1, Some p) else
        let code := Z.land code 0x3ff in
        let code := Z.shiftl code 10 in
        let code := code + 0x10000 in
        let p := p + 2 in
        if (code2 <=? 0xDC00) || (0xDFFF <=? code2) then Ok (-1, Some p) else
        let code2 := Z.land code2 0x3ff in
        Ok (code + code2, Some p)
      else Ok (code, Some p)
  end.

Definition utf16_put (m : mem) (code : Z) (dst : pptr) : outcome (Z * mem * pptr) :=
  match dst with
  | None => Ok (-1, m, dst)
  | Some d =>
      if d =? NULL then Ok (-1, m, dst) else
      if bad_code code then Ok (-1, m, dst) else
      if code <? 0x10000 then
        let! m := store16 m d code in
        Ok (0, m, Some (d + 2))
      else
        let code := code - 0x10000 in
        let! m := store16 m d (Z.lor (Z.shiftr code 10) 0xD800) in
        let d := d + 2 in
        let! m := store16 m d (Z.lor (Z.land code 0x3ff) 0xDC00) in
        Ok (0, m, Some (d + 2))
  end.

(** ** Strings *)

(** In the loops below [src] is not NULL, so [*src] is read through it. *)
Definition deref8 (m : mem) (src : pptr) : outcome Z :=
  match src with Some p => load8 m p | None => Fault end.
Definition deref16 (m : mem) (src : pptr) : outcome Z :=
  match src with Some p => load16 m p | None => Fault end.

(** The units reserved for a code. *)
Definition utf16_units (code : Z) : Z :=
  if code <? 0 then 1 else if code <? 0x10000 then 1 else 2.

Definition utf8_utf16_strnlen (m : mem) (src count : Z) : outcome Z :=
  while (fuel_of m) (fun '(src, count, len) =>
    let! c := deref8 m src in
    if (c =? 0) || (count =? 0) then brk len else
    let! '(code, src) := utf8_get m src in
    if code =? 0 then brk len else
    cont (src, count - 1, len + utf16_units code)) (Some src, count, 0).

Definition utf8_utf16_strncpy (m : mem) (dst : pptr) (src count : Z) : outcome (Z * mem * pptr) :=
  if (src =? NULL) || null_pp dst then Ok (-1, m, dst) else
  let! '(m, dst) :=
    while (fuel_of m) (fun '(m, dst, src, count) =>
      if count =? 0 then brk (m, dst) else
      let! c := deref8 m src in
      if c =? 0 then brk (m, dst) else
      let! '(code, src) := utf8_get m src in
      let code := if code <? 0 then QUESTION else code in
      let! '(_, m, dst) := utf16_put m code dst in
      cont (m, dst, src, count - 1)) (m, dst, Some src, count) in
  let! m := store16 m (default NULL dst) 0 in
  Ok (0, m, dst).

Definition utf16_strnlen (m : mem) (src count : Z) : outcome Z :=
  while (fuel_of m) (fun '(src, count, len) =>
    let! c := deref16 m src in
    if (c =? 0) || (count =? 0) then brk len else
    let! '(code, src) := utf16_get m src in
    if code =? 0 then brk len else
    cont (src, count - 1, len + 1)) (Some src, count, 0).

(** The bytes reserved for a code. *)
Definition utf8_units (code : Z) : Z :=
  if code <? 0 then 1 else if code <? 0x80 then 1 else if code <? 0x800 then 2
  else if code <? 0x10000 then 3 else 4.

Definition utf16_utf8_strnlen (m : mem) (src count : Z) : outcome Z :=
  while (fuel_of m) (fun '(src, count, len) =>
    let! c := deref16 m src in
    if (c =? 0) || (count =? 0) then brk len else
    let! '(code, src) := utf16_get m src in
    if code =? 0 then brk len else
    cont (src, count - 1, len + utf8_units code)) (Some src, count, 0).

Definition utf16_utf8_strncpy (m : mem) (dst : pptr) (src count : Z) : outcome (Z * mem * pptr) :=
  if (src =? NULL) || null_pp dst then Ok (-1, m, dst) else
  let! '(m, dst) :=
    while (fuel_of m) (fun '(m, dst, src, count) =>
      if count =? 0 then brk (m, dst) else
      let! c := deref16 m src in
      if c =? 0 then brk (m, dst) else
      let! '(code, src) := utf16_get m src in
      let code := if code <? 0 then QUESTION else code in
      let! '(_, m, dst) := utf8_put m code dst in
      cont (m, dst, src, count - 1)) (m, dst, Some src, count) in
  let! m := store8 m (default NULL dst) 0 in
  Ok (0, m, dst).

(** ** Letter case *)

(** The tables of the two code pages, upper and lower case; the first is the
    one of this configuration. *)
Definition CP437_CAPITALIZATION_TABLE : list (Z * Z) :=
  [(0x00C4, 0x00E4); (0x00C5, 0x00E5); (0x00C6, 0x00E6); (0x00C7, 0x00E7); (0x00C9, 0x00E9);
   (0x00D1, 0x00F1); (0x00D6, 0x00F6); (0x00DC, 0x00FC); (0x03A3, 0x03C3); (0x03A6, 0x03C6);
   (0x0000, 0x0000)].

Definition CP1250_CAPITALIZATION_TABLE : list (Z * Z) :=
  [(0x00C1, 0x00E1); (0x00C2, 0x00E2); (0x00C4, 0x00E4); (0x00C7, 0x00E7); (0x00C9, 0x00E9);
   (0x00CB, 0x00EB); (0x00CD, 0x00ED); (0x00CE, 0x00EE); (0x00D3, 0x00F3); (0x00D4, 0x00F4);
   (0x00D6, 0x00F6); (0x00DA, 0x00FA); (0x00DC, 0x00FC); (0x00DD, 0x00FD); (0x0102, 0x0103);
   (0x0104, 0x0105); (0x0106, 0x0107); (0x010C, 0x010D); (0x010E, 0x010F); (0x0110, 0x0111);
   (0x0118, 0x0119); (0x011A, 0x011B); (0x0139, 0x013A); (0x013D, 0x013E); (0x0141, 0x0142);
   (0x0143, 0x0144); (0x0147, 0x0148); (0x0150, 0x0151); (0x0154, 0x0155); (0x0158, 0x0159);
   (0x015A, 0x015B); (0x015E, 0x015F); (0x0160, 0x0161); (0x0162, 0x0163); (0x0164, 0x0165);
   (0x016E, 0x016F); (0x0170, 0x0171); (0x0179, 0x017A); (0x017B, 0x017C); (0x017D, 0x017E);
   (0x0000, 0x0000)].

Section case_table.
Context (capitalization_table : list (Z * Z)).

Fixpoint find_lower (l : list (Z * Z)) (code : Z) : Z :=
  match l with
  | [] => code
  | (upper, lower) :: l =>
      if upper =? 0 then code else if upper =? code then lower else find_lower l code
  end.

Definition utf_to_lower (code : Z) : Z :=
  if code <=? 0x7f then
    if (65 <=? code) && (code <=? 90) then code + 0x20 else code
  else find_lower capitalization_table code.

Fixpoint find_upper (l : list (Z * Z)) (code : Z) : Z :=
  match l with
  | [] => code
  | (upper, lower) :: l =>
      if lower =? 0 then code else if lower =? code then upper else find_upper l code
  end.

Definition utf_to_upper (code : Z) : Z :=
  if code <=? 0x7f then
    if (97 <=? code) && (code <=? 122) then code - 0x20 else code
  else find_upper capitalization_table code.
End case_table.

(** ** Strings of 16-bit units *)

Definition u16_strncmp (m : mem) (s1 s2 n : Z) : outcome Z :=
  while (fuel_of m) (fun '(s1, s2, n, ret) =>
    if n =? 0 then brk ret else
    let! a := load16 m s1 in
    let! b := load16 m s2 in
    let ret := a - b in
    if negb (ret =? 0) || (a =? 0) then brk ret
    else cont (s1 + 2, s2 + 2, n - 1, ret)) (s1, s2, n, 0).

Definition u16_strlen (m : mem) (inp : Z) : outcome Z :=
  let! pos :=
    while (fuel_of m) (fun pos =>
      let! a := load8 m pos in
      if negb (a =? 0) then cont (pos + 2) else
      let! b := load8 m (pos + 1) in
      if negb (b =? 0) then cont (pos + 2) else brk pos) inp in
  Ok (Z.shiftr (pos - inp) 1).

Definition u16_strnlen (m : mem) (inp count : Z) : outcome Z :=
  while (fuel_of m) (fun '(i, count) =>
    if count =? 0 then brk i else
    let! a := load16 m (inp + 2 * i) in
    if a =? 0 then brk i else cont (i + 1, count - 1)) (0, count).

Definition u16_strcpy (m : mem) (dest src : Z) : outcome mem :=
  while (fuel_of m) (fun '(m, dest, src) =>
    let! a := load16 m src in
    let! m := store16 m dest a in
    let! b := load16 m src in
    if b =? 0 then brk m else cont (m, dest + 2, src + 2)) (m, dest, src).

(** [malloc] is the allocator, with its state. *)
Definition u16_strdup {A : Type} (malloc : Z -> A -> world -> outcome (A * world * Z))
    (src : Z) (h : A) (w : world) : outcome (A * world * Z) :=
  if src =? NULL then Ok (h, w, NULL) else
  let! n := u16_strlen (w_mem w) src in
  let len := (n + 1) * 2 in
  let! '(h, w, new) := malloc len h w in
  if new =? NULL then Ok (h, w, NULL) else
  let! m := memcpy (w_mem w) new src len in
  Ok (h, set_mem m w, new).

(** One byte of output. *)
Definition put8 (m : mem) (dest v : Z) : outcome (mem * Z) :=
  let! m := store8 m dest v in
  Ok (m, dest + 1).

(** The four bytes of a code above 0xffff. *)
Definition put_utf8_4 (m : mem) (dest code : Z) : outcome (mem * Z) :=
  let! '(m, dest) := put8 m dest (Z.lor (Z.shiftr code 18) 0xF0) in
  let! '(m, dest) := put8 m dest (Z.lor (Z.land (Z.shiftr code 12) 0x3F) 0x80) in
  let! '(m, dest) := put8 m dest (Z.lor (Z.land (Z.shiftr code 6) 0x3F) 0x80) in
  put8 m dest (Z.lor (Z.land code 0x3F) 0x80).

(** One round of the loop of [utf16_to_utf8]. *)
Definition utf16_to_utf8_step (st : mem * Z * Z * Z * Z) : outcome ((mem * Z * Z * Z * Z) + (mem * Z)) :=
  let '(m, dest, src, code_high, size) := st in
  if size =? 0 then brk (m, dest) else
  let size := size - 1 in
  let! code := load16 m src in
  let src := src + 2 in
  if negb (code_high =? 0) then
    if (0xDC00 <=? code) && (code <=? 0xDFFF) then
      let code := u32 (Z.shiftl (code_high - 0xD800) 10 + (code - 0xDC00) + 0x10000) in
      let! '(m, dest) := put_utf8_4 m dest code in
      cont (m, dest, src, 0, size)
    else
      let! '(m, dest) := put8 m dest QUESTION in
      cont (m, dest, src - 2, 0, size)
  else if code <=? 0x007F then
    let! '(m, dest) := put8 m dest code in
    cont (m, dest, src, code_high, size)
  else if code <=? 0x07FF then
    let! '(m, dest) := put8 m dest (Z.lor (Z.shiftr code 6) 0xC0) in
    let! '(m, dest) := put8 m dest (Z.lor (Z.land code 0x3F) 0x80) in
    cont (m, dest, src, code_high, size)
  else if (0xD800 <=? code) && (code <=? 0xDBFF) then
    cont (m, dest, src, code, size)
  else if (0xDC00 <=? code) && (code <=? 0xDFFF) then
    let! '(m, dest) := put8 m dest QUESTION in
    cont (m, dest, src, code_high, size)
  else if code <? 0x10000 then
    let! '(m, dest) := put8 m dest (Z.lor (Z.shiftr code 12) 0xE0) in
    let! '(m, dest) := put8 m dest (Z.lor (Z.land (Z.shiftr code 6) 0x3F) 0x80) in
    let! '(m, dest) := put8 m dest (Z.lor (Z.land code 0x3F) 0x80) in
    cont (m, dest, src, code_high, size)
  else
    let! '(m, dest) := put_utf8_4 m dest code in
    cont (m, dest, src, code_high, size).

Definition utf16_to_utf8 (m : mem) (dest src size : Z) : outcome (mem * Z) :=
  while (S (Z.to_nat size)) utf16_to_utf8_step (m, dest, src, 0, size).
