(* ===== verification/CharsetFacts.v ===== *)
(** * Correctness of the character encodings

    The reference encodings [utf8_enc] and [utf16_enc] are arithmetic; what
    [utf8_put] and [utf16_put] store is the encoding, what [utf8_get] and
    [utf16_get] read from an encoding is the code point, and the string
    functions map one encoding to the other. *)

From S2P Require Import Prelude CMem Ctype Str StrFacts Charset.

Local Open Scope Z_scope.
Local Open Scope c_scope.

(** A Unicode scalar value. *)
Definition scalar (c : Z) : Prop := 0 <= c < 0x110000 /\ ~ (0xD800 <= c <= 0xDFFF).

Definition utf8_enc (c : Z) : list Z :=
  if c <=? 0x7F then [c]
  else if c <=? 0x7FF then [0xC0 + c / 2 ^ 6; 0x80 + c mod 2 ^ 6]
  else if c <? 0x10000 then [0xE0 + c / 2 ^ 12; 0x80 + c / 2 ^ 6 mod 2 ^ 6; 0x80 + c mod 2 ^ 6]
  else [0xF0 + c / 2 ^ 18; 0x80 + c / 2 ^ 12 mod 2 ^ 6; 0x80 + c / 2 ^ 6 mod 2 ^ 6; 0x80 + c mod 2 ^ 6].

Definition utf16_enc (c : Z) : list Z :=
  if c <? 0x10000 then [c]
  else [0xD800 + (c - 0x10000) / 2 ^ 10; 0xDC00 + (c - 0x10000) mod 2 ^ 10].

Lemma bad_code_scalar c : scalar c -> bad_code c = false.
Proof. unfold scalar, bad_code. intros H. repeat case_cmp; simpl; try done; lia. Qed.

(** Results that end in a pointer. *)
Ltac ok_ptr := ok_eq; try (f_equal; lia).

(** The three field operations of the codecs. *)
Lemma shiftr_6 c : Z.shiftr c 6 = c / 2 ^ 6.
Proof. by apply Z.shiftr_div_pow2. Qed.

Lemma shiftr_10 c : Z.shiftr c 10 = c / 2 ^ 10.
Proof. by apply Z.shiftr_div_pow2. Qed.

Lemma shiftr_12 c : Z.shiftr c 12 = c / 2 ^ 12.
Proof. by apply Z.shiftr_div_pow2. Qed.

Lemma shiftr_18 c : Z.shiftr c 18 = c / 2 ^ 18.
Proof. by apply Z.shiftr_div_pow2. Qed.

Lemma land_3f c : Z.land c 0x3F = c mod 2 ^ 6.
Proof. exact (land_mask 6 c ltac:(lia)). Qed.

Lemma land_3ff c : Z.land c 0x3ff = c mod 2 ^ 10.
Proof. exact (land_mask 10 c ltac:(lia)). Qed.

Lemma lor_high x i a : 0 <= a -> 0 <= x < 2 ^ a -> 0 <= i -> Z.lor x (i * 2 ^ a) = x + i * 2 ^ a.
Proof.
  intros Ha Hx Hi. apply (lor_field x i a (Z.log2 i + 1)); [done|pose proof (Z.log2_nonneg i); lia|..].
  - rewrite Z.div_small by lia. done.
  - split; [done|]. destruct (decide (i = 0)) as [->|]; [done|].
    pose proof (Z.log2_spec i ltac:(lia)) as H. unfold Z.succ in H. lia.
Qed.

Lemma lor_80 x : 0 <= x < 2 ^ 6 -> u8 (Z.lor x 0x80) = 0x80 + x.
Proof.
  intros H. change 0x80 with (2 * 2 ^ 6) at 1. rewrite lor_high by lia.
  rewrite u8_small; [lia|unfold byte_range; lia].
Qed.

Lemma lor_c0 x : 0 <= x < 2 ^ 5 -> u8 (Z.lor x 0xC0) = 0xC0 + x.
Proof.
  intros H. change 0xC0 with (6 * 2 ^ 5) at 1. rewrite lor_high by lia.
  rewrite u8_small; [lia|unfold byte_range; lia].
Qed.

Lemma lor_e0 x : 0 <= x < 2 ^ 4 -> u8 (Z.lor x 0xE0) = 0xE0 + x.
Proof.
  intros H. change 0xE0 with (14 * 2 ^ 4) at 1. rewrite lor_high by lia.
  rewrite u8_small; [lia|unfold byte_range; lia].
Qed.

Lemma lor_f0 x : 0 <= x < 2 ^ 3 -> u8 (Z.lor x 0xF0) = 0xF0 + x.
Proof.
  intros H. change 0xF0 with (30 * 2 ^ 3) at 1. rewrite lor_high by lia.
  rewrite u8_small; [lia|unfold byte_range; lia].
Qed.

Create Rewrite HintDb code.
#[export] Hint Rewrite shiftr_6 shiftr_10 shiftr_12 shiftr_18 land_3f land_3ff : code.

(** ** Storing UTF-8 *)

Lemma insert_is_Some (m : mem) p v q : is_Some (m !! q) -> is_Some (<[p := v]> m !! q).
Proof. intros [x H]. destruct (decide (p = q)) as [->|]; [rewrite lookup_insert_eq|rewrite lookup_insert_ne by done]; eauto. Qed.

(** Execute the byte stores of a straight-line program into a mapped buffer. *)
Ltac run_stores Hm :=
  repeat (rewrite store8_mapped by (repeat apply insert_is_Some; apply Hm; lia); cbn [obind]).

Lemma utf8_put_spec m c d :
  scalar c -> d <> NULL -> mapped m d (Z.of_nat (length (utf8_enc c))) ->
  utf8_put m c (Some d) =
    Ok (0, write_bytes m d (utf8_enc c), Some (d + Z.of_nat (length (utf8_enc c)))).
Proof.
  intros Hs Hd Hm. unfold utf8_put. destruct (Z.eqb_spec d NULL) as [|_]; [done|].
  rewrite bad_code_scalar by done. destruct Hs as [Hr Hn]. unfold utf8_enc in *.
  autorewrite with code. destruct (Z.leb_spec c 0x7F); [|destruct (Z.leb_spec c 0x7FF); [|case_cmp]];
    cbn [length write_bytes] in *; run_stores Hm.
  - rewrite u8_small by (unfold byte_range; lia). done.
  - rewrite lor_c0, lor_80 by dlia. ok_ptr.
  - rewrite lor_e0, !lor_80 by dlia. ok_ptr.
  - rewrite lor_f0, !lor_80 by dlia. ok_ptr.
Qed.

(** ** Reading UTF-8 *)

(** The same program reading from a list. *)
Definition read_list (l : list Z) : outcome (Z * list Z) :=
  Ok match l with [] => (0, []) | b :: l' => (b, l') end.

Definition utf8_dec (s : list Z) : Z * list Z :=
  match get_code read_list s with Ok r => r | _ => (0, s) end.

Lemma cont_byte x : 0 <= x < 2 ^ 6 -> is_cont (0x80 + x) = true /\ (0x80 + x) mod 2 ^ 6 = x.
Proof. intros H. split; [unfold is_cont; repeat case_cmp; simpl; lia|dlia]. Qed.

(** Solve the comparisons of a decoder on bytes given by their fields. *)
Ltac decide_cmps := repeat (case_cmp; try lia); cbn [andb orb negb].

(** The decoder on the fields of an encoding. *)
Lemma tail_enc code a b t :
  0 <= a < 2 ^ 6 -> 0 <= b < 2 ^ 6 ->
  get_code_tail read_list code (0x80 + a) ((0x80 + b) :: t) = Ok (code + a * 2 ^ 6 + b, t).
Proof.
  intros Ha Hb. unfold get_code_tail. cbn [read_list obind]. destruct (cont_byte b Hb) as [-> Eb].
  destruct (cont_byte a Ha) as [_ Ea]. cbn [negb]. rewrite !land_3f, Ea, Eb, Z.shiftl_mul_pow2 by lia. ok_eq.
Qed.

Lemma mid_enc code x a b t :
  0 <= a < 2 ^ 6 -> 0 <= b < 2 ^ 6 -> code mod 2 ^ 12 = 0 -> 0 <= x ->
  0 <= code + x * 2 ^ 12 < 0x110000 ->
  get_code_mid read_list code x ((0x80 + a) :: (0x80 + b) :: t) = Ok (code + x * 2 ^ 12 + a * 2 ^ 6 + b, t).
Proof.
  intros Ha Hb Hc Hx Hr. unfold get_code_mid. rewrite Z.shiftl_mul_pow2 by lia.
  assert (exists k, code = k * 2 ^ 12) as [k ->] by (exists (code / 2 ^ 12); dlia). decide_cmps;
    cbn [read_list obind]; destruct (cont_byte a Ha) as [-> _]; cbn [negb]; by rewrite tail_enc.
Qed.

Lemma utf8_dec_enc c t : scalar c -> c <> 0 -> utf8_dec (utf8_enc c ++ t) = (c, t).
Proof.
  intros [Hr Hn] H0. unfold utf8_dec, utf8_enc.
  destruct (Z.leb_spec c 0x7F); [|destruct (Z.leb_spec c 0x7FF); [|destruct (Z.ltb_spec c 0x10000)]];
    cbn [app]; unfold get_code; cbn [read_list obind].
  - decide_cmps. done.
  - assert (2 <= c / 2 ^ 6 < 2 ^ 5) by dlia. decide_cmps.
    replace (0xC0 + c / 2 ^ 6) with (0x80 + (2 ^ 6 + c / 2 ^ 6)) by lia.
    unfold get_code_tail. cbn [read_list obind]. destruct (cont_byte (c mod 2 ^ 6)) as [-> E]; [dlia|].
    cbn [negb]. rewrite !land_3f, E, Z.shiftl_mul_pow2 by lia. cbv beta iota. f_equal. dlia.
  - assert (0 <= c / 2 ^ 12 < 2 ^ 4) by dlia. decide_cmps.
    change 0x0f with (2 ^ 4 - 1). rewrite land_mask by lia.
    replace ((0xE0 + c / 2 ^ 12) mod 2 ^ 4) with (c / 2 ^ 12) by dlia.
    rewrite mid_enc by dlia. cbv beta iota. f_equal. dlia.
  - assert (0 <= c / 2 ^ 18 < 5) by dlia. decide_cmps.
    destruct (cont_byte (c / 2 ^ 12 mod 2 ^ 6)) as [-> E]; [dlia|]. cbn [negb].
    change 0x07 with (2 ^ 3 - 1). rewrite land_mask, land_3f, E, Z.shiftl_mul_pow2 by lia.
    replace ((0xF0 + c / 2 ^ 18) mod 2 ^ 3) with (c / 2 ^ 18) by dlia.
    rewrite mid_enc by dlia. cbv beta iota. f_equal. dlia.
Qed.

(** Two readers that deliver the same bytes give the same code; [R0] relates
    the states before the first read and [R] those after it. *)
Definition same_reads {S1 S2} (r1 : S1 -> outcome (Z * S1)) (r2 : S2 -> outcome (Z * S2)) (R0 R : S1 -> S2 -> Prop) : Prop :=
  forall a b, R0 a b -> exists v a' b', r1 a = Ok (v, a') /\ r2 b = Ok (v, b') /\ R a' b'.

Lemma get_code_sim {S1 S2} (r1 : S1 -> outcome (Z * S1)) (r2 : S2 -> outcome (Z * S2)) (R0 R : S1 -> S2 -> Prop) :
  same_reads r1 r2 R0 R -> same_reads r1 r2 R R -> same_reads (get_code r1) (get_code r2) R0 R.
Proof.
  intros H0 Hr. assert (forall code ch, same_reads (get_code_tail r1 code ch) (get_code_tail r2 code ch) R R) as Htail.
  { intros code ch a b Hab. unfold get_code_tail. destruct (Hr a b Hab) as (v & a1 & b1 & -> & -> & H1).
    cbn [obind]. destruct (is_cont v); cbn [negb]; eauto 10. }
  assert (forall code ch, same_reads (get_code_mid r1 code ch) (get_code_mid r2 code ch) R R) as Hmid.
  { intros code ch a b Hab. unfold get_code_mid. case_match; [eauto 10|].
    destruct (Hr a b Hab) as (v & a1 & b1 & -> & -> & H1). cbn [obind]. destruct (is_cont v); cbn [negb]; [|eauto 10].
    by apply Htail. }
  intros a b Hab. unfold get_code. destruct (H0 a b Hab) as (v & a1 & b1 & -> & -> & H1). cbn [obind].
  destruct (v =? 0); [eauto 10|]. destruct ((0xc2 <=? v) && (v <=? 0xf4)); [|destruct (0x80 <=? v); eauto 10].
  destruct (0xe0 <=? v); [|by apply Htail]. destruct (0xf0 <=? v); [|by apply Hmid].
  destruct (Hr a1 b1 H1) as (v2 & a2 & b2 & -> & -> & H2). cbn [obind]. destruct (is_cont v2); cbn [negb]; [|eauto 10].
  by apply Hmid.
Qed.

(** Pointer and list: the list lies at the pointer, and is what is left of [s]. *)
Definition reading (p : Z) (s : list Z) (src : pptr) (l : list Z) : Prop :=
  exists k, s = k ++ l /\ src = Some (p + Z.of_nat (length k)).

Lemma utf8_get_spec m p s :
  cstr m p s -> 0 < p ->
  exists k, s = k ++ (utf8_dec s).2 /\
    utf8_get m (Some p) = Ok ((utf8_dec s).1, Some (p + Z.of_nat (length k))).
Proof.
  intros Hs Hp.
  assert (same_reads (read_string m) read_list (reading p s) (reading p s)) as Hr.
  { intros a b (k & -> & ->). unfold read_string. destruct (Z.eqb_spec (p + Z.of_nat (length k)) NULL) as [E|_]; [unfold NULL in E; lia|].
    destruct Hs as [Hb HF]. apply list.Forall_app in HF as [_ HF]. rewrite <- app_assoc in Hb. apply bytes_at_app in Hb as [_ Hb].
    destruct b as [|x b]; cbn [app] in Hb; rewrite (load8_at _ _ _ _ Hb); cbn [obind].
    + exists 0, (Some (p + Z.of_nat (length k))), []. split; [done|]. split; [done|]. by exists k.
    + apply list.Forall_cons in HF as [Hx _]. destruct (Z.eqb_spec x 0); [lia|].
      exists x, (Some (p + Z.of_nat (length k) + 1)), b. split; [done|]. split; [done|].
      exists (k ++ [x]). split; [by rewrite <- app_assoc|]. rewrite length_app. f_equal. simpl. lia. }
  destruct (get_code_sim _ _ _ _ Hr Hr (Some p) s) as (c & a' & b' & E1 & E2 & (k & Ek & Ea)).
  - exists []. split; [done|]. f_equal. simpl. lia.
  - exists k. unfold utf8_dec. rewrite E2. cbn [fst snd]. split; [done|]. unfold utf8_get. rewrite E1, Ea. done.
Qed.

(** The decoder makes progress. *)
Lemma utf8_dec_progress b s : (length (utf8_dec (b :: s)).2 <= length s)%nat.
Proof.
  assert (forall R0, (forall a b : list Z, R0 a b -> a = b /\ (exists x, a = x :: s)) \/
                     (forall a b : list Z, R0 a b -> a = b /\ (length a <= length s)%nat) ->
    same_reads read_list read_list R0 (fun a b => a = b /\ (length a <= length s)%nat)) as Hr.
  { intros R0 H0 a b' Hab. unfold read_list. destruct H0 as [H0|H0]; apply H0 in Hab as [<- H].
    - destruct H as [x ->]. eauto 10.
    - destruct a as [|y a]; [eauto 10|]. simpl in H. exists y, a, a. split; [done|]. split; [done|]. split; [done|lia]. }
  destruct (get_code_sim read_list read_list (fun a b' => a = b' /\ exists x, a = x :: s)
              (fun a b => a = b /\ (length a <= length s)%nat) (Hr _ (or_introl (fun _ _ H => H))) (Hr _ (or_intror (fun _ _ H => H))) (b :: s) (b :: s))
    as (c & a' & b' & E & _ & _ & Hlen); [eauto|].
  unfold utf8_dec. by rewrite E.
Qed.

Lemma read_list_bytes l : Forall byte_range l -> exists b l', read_list l = Ok (b, l') /\ byte_range b /\ Forall byte_range l'.
Proof.
  intros H. destruct l as [|b l]; [by exists 0, []|]. apply list.Forall_cons in H as [H1 H2]. by exists b, l.
Qed.

Lemma land_3f_range c : 0 <= Z.land c 0x3F < 2 ^ 6.
Proof. rewrite land_3f. apply Z.mod_pos_bound. lia. Qed.

Lemma tail_range code ch l :
  0 <= code < 0x110000 -> code mod 2 ^ 12 = 0 -> Forall byte_range l ->
  exists c l', get_code_tail read_list code ch l = Ok (c, l') /\ 0 <= c < 0x110000 /\ Forall byte_range l'.
Proof.
  intros Hc Hm Hl. unfold get_code_tail. destruct (read_list_bytes l Hl) as (b & l' & -> & Hb & Hl'). cbn [obind].
  pose proof (land_3f_range ch). pose proof (land_3f_range b). rewrite Z.shiftl_mul_pow2 by lia.
  destruct (is_cont b); cbn [negb]; eexists _, l'; split; [done| |done|]; [|split; [unfold QUESTION; lia|done]].
  split; [|done]. dlia.
Qed.

Lemma mid_range code x l :
  0 <= code -> code mod 2 ^ 12 = 0 -> 0 <= x -> Forall byte_range l ->
  exists c l', get_code_mid read_list code x l = Ok (c, l') /\ 0 <= c < 0x110000 /\ Forall byte_range l'.
Proof.
  intros Hc Hm Hx Hl. unfold get_code_mid. rewrite Z.shiftl_mul_pow2 by lia. case_match eqn:E.
  { eexists _, l. split; [done|]. split; [unfold QUESTION; lia|done]. }
  apply orb_false_iff in E as [_ E]. apply Z.leb_gt in E.
  destruct (read_list_bytes l Hl) as (b & l' & -> & Hb & Hl'). cbn [obind].
  destruct (is_cont b); cbn [negb]; [apply tail_range; [lia|dlia|done]|].
  eexists _, l'. split; [done|]. split; [unfold QUESTION; lia|done].
Qed.

Lemma utf8_dec_range s : Forall byte_range s -> 0 <= (utf8_dec s).1 < 0x110000.
Proof.
  intros Hs. assert (exists c l', get_code read_list s = Ok (c, l') /\ 0 <= c < 0x110000 /\ Forall byte_range l') as H.
  { unfold get_code. destruct (read_list_bytes s Hs) as (b & l & -> & Hb & Hl). cbn [obind]. unfold byte_range in Hb.
    destruct (b =? 0); [by exists 0, l|]. destruct ((0xc2 <=? b) && (b <=? 0xf4)).
    - destruct (0xe0 <=? b); [|by apply tail_range]. destruct (0xf0 <=? b).
      + destruct (read_list_bytes l Hl) as (b' & l' & -> & Hb' & Hl'). cbn [obind].
        destruct (is_cont b'); cbn [negb]; [|exists QUESTION, l'; split; [done|]; split; [unfold QUESTION; lia|done]].
        change 0x07 with (2 ^ 3 - 1). rewrite land_mask, Z.shiftl_mul_pow2 by lia. pose proof (land_3f_range b').
        apply mid_range; [|dlia|lia|done]. pose proof (Z.mod_pos_bound b (2 ^ 3)). lia.
      + change 0x0f with (2 ^ 4 - 1). rewrite land_mask by lia. apply mid_range; [done|done|dlia|done].
    - destruct (0x80 <=? b); [exists QUESTION, l; unfold QUESTION; split; [done|]; split; [lia|done]|].
      exists b, l. split; [done|]. split; [lia|done]. }
  destruct H as (c & l' & E & H & _). unfold utf8_dec. by rewrite E.
Qed.

(** ** UTF-16 *)

(** Units in memory. *)
Definition bytes16 (us : list Z) : list Z := flat_map (le_bytes 2) us.

Definition wstr (m : mem) (p : Z) (us : list Z) : Prop :=
  bytes_at m p (bytes16 (us ++ [0])) /\ Forall (fun u => 0 < u < 2 ^ 16) us.

Lemma length_bytes16 us : length (bytes16 us) = (2 * length us)%nat.
Proof. unfold bytes16. induction us as [|u us IH]; [done|]. cbn [flat_map]. rewrite length_app, length_le_bytes, IH. simpl. lia. Qed.

Lemma bytes16_app us vs : bytes16 (us ++ vs) = bytes16 us ++ bytes16 vs.
Proof. apply flat_map_app. Qed.

Lemma bytes16_flat_map (f : Z -> list Z) l : bytes16 (flat_map f l) = flat_map (fun c => bytes16 (f c)) l.
Proof. induction l as [|c l IH]; [done|]. cbn [flat_map]. by rewrite bytes16_app, IH. Qed.

Lemma lor_d800 x : 0 <= x < 2 ^ 10 -> Z.lor x 0xD800 = 0xD800 + x.
Proof. intros H. change 0xD800 with (54 * 2 ^ 10) at 1. rewrite lor_high by lia. lia. Qed.

Lemma lor_dc00 x : 0 <= x < 2 ^ 10 -> Z.lor x 0xDC00 = 0xDC00 + x.
Proof. intros H. change 0xDC00 with (55 * 2 ^ 10) at 1. rewrite lor_high by lia. lia. Qed.

(** What [utf16_put] stores for a code that is not negative. *)
Definition put16 (c : Z) : list Z := if bad_code c then [] else utf16_enc c.

Lemma utf16_put_spec m c d :
  0 <= c -> d <> NULL -> mapped m d (2 * Z.of_nat (length (put16 c))) ->
  utf16_put m c (Some d) =
    Ok (if bad_code c then -1 else 0, write_bytes m d (bytes16 (put16 c)), Some (d + 2 * Z.of_nat (length (put16 c)))).
Proof.
  intros Hc Hd. unfold utf16_put, put16. destruct (Z.eqb_spec d NULL) as [|_]; [done|].
  destruct (bad_code c) eqn:Hb; [intros _; ok_eq; f_equal; simpl; lia|].
  apply orb_false_iff in Hb as [_ Hb]. apply Z.leb_gt in Hb. unfold utf16_enc.
  destruct (Z.ltb_spec c 0x10000); cbn [length]; intros Hm.
  - unfold store16. by rewrite store_le_write.
  - autorewrite with code. unfold store16. rewrite store_le_write by (eapply mapped_sub; [exact Hm|lia|lia]). cbn [obind].
    rewrite store_le_write by (apply mapped_write_bytes; eapply mapped_sub; [exact Hm|lia|lia]). cbn [obind].
    rewrite lor_d800, lor_dc00 by dlia. ok_ptr.
    cbn [bytes16 flat_map]. rewrite app_nil_r, write_bytes_app, length_le_bytes. done.
Qed.

(** The decoder of the code on a list of units. *)
Definition utf16_dec (us : list Z) : Z * list Z :=
  match us with
  | [] => (0, [])
  | u :: r =>
      if (0xDC00 <=? u) && (u <=? 0xDFFF) then (-1, r)
      else if (0xD800 <=? u) && (u <=? 0xDBFF) then
        match r with
        | [] => (-1, [])
        | v :: r => if (v <=? 0xDC00) || (0xDFFF <=? v) then (-1, r)
                    else (u mod 2 ^ 10 * 2 ^ 10 + 0x10000 + v mod 2 ^ 10, r)
        end
      else (u, r)
  end.

Lemma load16_unit m p u l : bytes_at m p (bytes16 (u :: l)) -> 0 <= u < 2 ^ 16 ->
  load16 m p = Ok u /\ bytes_at m (p + 2) (bytes16 l).
Proof.
  intros H Hu. cbn [bytes16 flat_map] in H. split.
  - apply load_le_at in H. rewrite length_le_bytes, le_value_bytes in H. unfold load16. rewrite H.
    by rewrite Z.mod_small.
  - apply bytes_at_app in H as [_ H]. by rewrite length_le_bytes in H.
Qed.

Lemma wstr_tail m p u us : wstr m p (u :: us) -> wstr m (p + 2) us.
Proof. intros [H HF]. apply list.Forall_cons in HF as [Hu HF]. split; [|done]. eapply load16_unit; [exact H|lia]. Qed.

Lemma wstr_load m p us : wstr m p us -> load16 m p = Ok (hd 0 us).
Proof.
  intros [H HF]. destruct us as [|u us]; [by apply (load16_unit m p 0 []) in H as [H _]|].
  apply list.Forall_cons in HF as [Hu _]. cbn [app] in H. apply load16_unit in H as [H _]; [done|lia].
Qed.

Lemma utf16_get_spec m p us :
  wstr m p us -> 0 < p ->
  exists k, us = k ++ (utf16_dec us).2 /\
    utf16_get m (Some p) = Ok ((utf16_dec us).1, Some (p + 2 * Z.of_nat (length k))).
Proof.
  intros Hw Hp. unfold utf16_get. destruct (Z.eqb_spec p NULL) as [->|_]; [done|].
  rewrite (wstr_load _ _ _ Hw). cbn [obind]. destruct us as [|u us]; cbn [hd utf16_dec].
  { exists []. split; [done|]. cbn [length]. ok_ptr. }
  pose proof (wstr_tail _ _ _ _ Hw) as Hw2. destruct Hw as [_ HF]. apply list.Forall_cons in HF as [Hu HF].
  destruct (Z.eqb_spec u 0); [lia|]. destruct ((0xDC00 <=? u) && (u <=? 0xDFFF)).
  { exists [u]. split; [done|]. cbn [length]. ok_ptr. }
  destruct ((0xD800 <=? u) && (u <=? 0xDBFF)); [|exists [u]; split; [done|]; cbn [length]; ok_ptr].
  rewrite (wstr_load _ _ _ Hw2). cbn [obind]. destruct us as [|v us]; cbn [hd].
  { exists [u]. split; [done|]. cbn [length]. ok_ptr. }
  apply list.Forall_cons in HF as [Hv _]. destruct (Z.eqb_spec v 0); [lia|].
  exists [u; v]. cbn [length]. destruct ((v <=? 0xDC00) || (0xDFFF <=? v)).
  { split; [done|]. ok_ptr. }
  split; [done|]. rewrite !land_3ff, Z.shiftl_mul_pow2 by lia. ok_ptr.
Qed.

(** The code points whose low surrogate [utf16_get] refuses: the first and the
    last of every 1024 above the basic plane. *)
Definition lost (c : Z) : bool :=
  (0x10000 <=? c) && ((c mod 2 ^ 10 =? 0) || (c mod 2 ^ 10 =? 1023)).

Lemma utf16_dec_enc c t : scalar c -> utf16_dec (utf16_enc c ++ t) = (if lost c then -1 else c, t).
Proof.
  intros [Hr Hn]. unfold utf16_enc, lost. destruct (Z.ltb_spec c 0x10000) as [Hc|Hc]; cbn [app utf16_dec].
  - destruct (Z.leb_spec 0x10000 c); [lia|]. cbn [andb]. decide_cmps; done.
  - destruct (Z.leb_spec 0x10000 c); [|lia]. cbn [andb].
    set (hi := (c - 0x10000) / 2 ^ 10). set (lo := (c - 0x10000) mod 2 ^ 10).
    assert (c = 0x10000 + hi * 2 ^ 10 + lo /\ 0 <= hi < 2 ^ 10 /\ 0 <= lo < 2 ^ 10) as (Ec & Hhi & Hlo) by (subst hi lo; dlia).
    clearbody hi lo. replace (c mod 2 ^ 10) with lo by dlia.
    replace ((0xD800 + hi) mod 2 ^ 10) with hi by dlia. replace ((0xDC00 + lo) mod 2 ^ 10) with lo by dlia.
    decide_cmps; try done; f_equal; lia.
Qed.

Lemma cstr_suffix m p k l : cstr m p (k ++ l) -> cstr m (p + Z.of_nat (length k)) l.
Proof.
  intros [Hb HF]. rewrite <- app_assoc in Hb. apply bytes_at_app in Hb as [_ Hb]. apply list.Forall_app in HF as [_ HF].
  by split.
Qed.

Lemma cstr_load m p s : cstr m p s -> load8 m p = Ok (hd 0 s).
Proof. intros [Hb _]. destruct s; by eapply load8_at. Qed.

Lemma cstr_bytes_range m p s : cstr m p s -> Forall byte_range s.
Proof. intros [_ HF]. eapply list.Forall_impl; [exact HF|]. unfold byte_range. lia. Qed.

Lemma utf16_dec_progress u us : (length (utf16_dec (u :: us)).2 <= length us)%nat.
Proof. cbn [utf16_dec]. repeat case_match; simpl; lia. Qed.

Lemma utf16_dec_scalar u us : Forall (fun u => 0 < u < 2 ^ 16) (u :: us) ->
  (utf16_dec (u :: us)).1 = -1 \/ scalar (utf16_dec (u :: us)).1.
Proof.
  intros HF. apply list.Forall_cons in HF as [Hu HF]. cbn [utf16_dec]. unfold scalar.
  destruct (Z.leb_spec 0xDC00 u), (Z.leb_spec u 0xDFFF), (Z.leb_spec 0xD800 u), (Z.leb_spec u 0xDBFF);
    cbn [andb fst]; try (left; done); try (right; lia); destruct us as [|v us]; cbn [fst]; try (left; done);
    (case_match; [by left|]); right; cbn [fst]; dlia.
Qed.

(** ** Converting strings

    Both conversions are the same loop: read a code, write its encoding.  A
    source is a list of units of [w] bytes at an address; [dec] is what [get]
    does to it and [out] the bytes [put] writes for a code. *)
Class Conversion (w : Z) (src_at : mem -> Z -> list Z -> Prop) (deref : mem -> pptr -> outcome Z)
    (get : mem -> pptr -> outcome (Z * pptr)) (put : mem -> Z -> pptr -> outcome (Z * mem * pptr))
    (dec : list Z -> Z * list Z) (out : Z -> list Z) : Prop := {
  cv_get : forall m p s, src_at m p s -> 0 < p ->
    exists k, s = k ++ (dec s).2 /\ get m (Some p) = Ok ((dec s).1, Some (p + w * Z.of_nat (length k)));
  cv_deref : forall m p s, src_at m p s -> deref m (Some p) = Ok (hd 0 s);
  cv_nonzero : forall m p b s, src_at m p (b :: s) -> b <> 0;
  cv_suffix : forall m p k l, src_at m p (k ++ l) -> src_at m (p + w * Z.of_nat (length k)) l;
  cv_frame : forall m p s d l, src_at m p s ->
    d + Z.of_nat (length l) <= p \/ p + w * (Z.of_nat (length s) + 1) <= d -> src_at (write_bytes m d l) p s;
  cv_progress : forall b s, (length (dec (b :: s)).2 <= length s)%nat;
  cv_put : forall m p b s m' d, src_at m p (b :: s) -> d <> NULL ->
    let c := (dec (b :: s)).1 in
    let code := if c <? 0 then QUESTION else c in
    mapped m' d (Z.of_nat (length (out c))) ->
    exists rc, put m' code (Some d) = Ok (rc, write_bytes m' d (out c), Some (d + Z.of_nat (length (out c))));
  cv_w : 0 < w
}.

Section convert.
Context {w src_at deref get put dec out} `{!Conversion w src_at deref get put dec out}.

Fixpoint codes (n : nat) (s : list Z) : list Z :=
  match n, s with
  | S n, _ :: _ => (dec s).1 :: codes n (dec s).2
  | _, _ => []
  end.

Lemma convert_loop fuel m d p s count :
  (length s < fuel)%nat -> 0 <= count -> src_at m p s -> 0 < p -> 0 < d ->
  let l := flat_map out (codes (Z.to_nat count) s) in
  mapped m d (Z.of_nat (length l)) ->
  d + Z.of_nat (length l) <= p \/ p + w * (Z.of_nat (length s) + 1) <= d ->
  while fuel (fun '(m, dst, src, count) =>
      if count =? 0 then brk (m, dst) else
      let! c := deref m src in
      if c =? 0 then brk (m, dst) else
      let! '(code, src) := get m src in
      let code := if code <? 0 then QUESTION else code in
      let! '(_, m, dst) := put m code dst in
      cont (m, dst, src, count - 1)) (m, Some d, Some p, count) =
    Ok (write_bytes m d l, Some (d + Z.of_nat (length l))).
Proof.
  revert m d p s count. pose proof cv_w as Hw. induction fuel as [|fuel IH]; intros m d p s count Hf Hc Hs Hp Hd l Hm Hdis; [lia|].
  rewrite while_S. subst l. destruct (Z.eqb_spec count 0) as [->|Hc0].
  { loop_next. simpl. ok_ptr. }
  rewrite (cv_deref _ _ _ Hs). cbn [obind]. destruct s as [|b s]; cbn [hd].
  { destruct (Z.to_nat count); simpl; ok_ptr. }
  destruct (Z.eqb_spec b 0) as [->|_]; [by destruct (cv_nonzero _ _ _ _ Hs)|].
  destruct (cv_get m p (b :: s) Hs Hp) as (k & Ek & ->). cbn [obind].
  pose proof (cv_progress b s) as Hpr. pose proof (cv_put _ _ _ _ m d Hs ltac:(unfold NULL; lia)) as Hput.
  assert (codes (Z.to_nat count) (b :: s) = (dec (b :: s)).1 :: codes (Z.to_nat (count - 1)) (dec (b :: s)).2) as Eu.
  { replace (Z.to_nat count) with (S (Z.to_nat (count - 1))) by lia. done. }
  rewrite Eu in *. destruct (dec (b :: s)) as [c t]. cbn [fst snd flat_map] in *. rewrite length_app in *.
  destruct Hput as [rc ->]; [eapply mapped_sub; [exact Hm|lia|lia]|]. cbn [obind]. loop_next.
  assert (Z.of_nat (length (b :: s)) = Z.of_nat (length k) + Z.of_nat (length t)) as El by (rewrite Ek, length_app; lia).
  rewrite (IH _ _ _ t).
  - rewrite write_bytes_app. ok_ptr.
  - simpl in Hf. lia.
  - lia.
  - apply cv_frame; [rewrite Ek in Hs; by apply cv_suffix|]. nia.
  - nia.
  - lia.
  - apply mapped_write_bytes. eapply mapped_sub; [exact Hm|lia|lia].
  - nia.
Qed.

(** Codes up to the first that is zero. *)
Fixpoint until_zero (l : list Z) : list Z :=
  match l with
  | [] => []
  | c :: l => if c =? 0 then [] else c :: until_zero l
  end.

Definition total (units : Z -> Z) (l : list Z) : Z := fold_right (fun c n => units c + n) 0 l.

Lemma length_loop (units : Z -> Z) fuel m p s count len :
  (length s < fuel)%nat -> 0 <= count -> src_at m p s -> 0 < p ->
  while fuel (fun '(src, count, len) =>
    let! c := deref m src in
    if (c =? 0) || (count =? 0) then brk len else
    let! '(code, src) := get m src in
    if code =? 0 then brk len else
    cont (src, count - 1, len + units code)) (Some p, count, len) =
    Ok (len + total units (until_zero (codes (Z.to_nat count) s))).
Proof.
  revert p s count len. pose proof cv_w as Hw. induction fuel as [|fuel IH]; intros p s count len Hf Hc Hs Hp; [lia|].
  rewrite while_S, (cv_deref _ _ _ Hs). cbn [obind]. destruct s as [|b s]; cbn [hd].
  { destruct (Z.to_nat count); simpl; ok_ptr. }
  destruct (Z.eqb_spec b 0) as [->|_]; [by destruct (cv_nonzero _ _ _ _ Hs)|]. cbn [orb].
  destruct (Z.eqb_spec count 0) as [->|Hc0]; [simpl; ok_ptr|].
  destruct (cv_get m p (b :: s) Hs Hp) as (k & Ek & ->). cbn [obind].
  pose proof (cv_progress b s) as Hpr. replace (Z.to_nat count) with (S (Z.to_nat (count - 1))) by lia. cbn [codes until_zero].
  destruct (dec (b :: s)) as [c t]. cbn [fst snd] in *. destruct (Z.eqb_spec c 0); [simpl; ok_ptr|].
  loop_next. rewrite (IH _ t).
  - cbn [total fold_right]. f_equal. unfold total. lia.
  - simpl in Hf. lia.
  - lia.
  - rewrite Ek in Hs. by apply cv_suffix.
  - nia.
Qed.
End convert.

Lemma codes_enc (dec : list Z -> Z * list Z) (enc : Z -> list Z) (f : Z -> Z) n cs :
  Forall (fun c => enc c <> [] /\ forall t, dec (enc c ++ t) = (f c, t)) cs ->
  codes (dec := dec) n (flat_map enc cs) = map f (take n cs).
Proof.
  revert n. induction cs as [|c cs IH]; intros n HF; [by destruct n|].
  apply list.Forall_cons in HF as [[Hn Hc] HF]. destruct n as [|n]; [done|]. cbn [flat_map take map].
  rewrite <- IH by done. specialize (Hc (flat_map enc cs)). destruct (enc c) as [|b l]; [done|].
  cbn [app] in *. cbn [codes]. by rewrite Hc.
Qed.

#[export] Instance utf8_to_utf16 : Conversion 1 cstr deref8 utf8_get utf16_put utf8_dec (fun c => bytes16 (put16 c)).
Proof.
  split; try done.
  - intros m p s Hs Hp. destruct (utf8_get_spec m p s Hs Hp) as (k & Ek & ->). exists k. split; [done|]. ok_ptr.
  - intros m p s Hs. by apply cstr_load.
  - intros m p b s [_ HF]. apply list.Forall_cons in HF as [? _]. lia.
  - intros m p k l Hs. rewrite Z.mul_1_l. by apply cstr_suffix.
  - intros m p s d l Hs Hd. apply cstr_write_ne; [done|lia].
  - intros b s. apply utf8_dec_progress.
  - intros m p b s m' d Hs Hd c code Hm. subst code. pose proof (utf8_dec_range _ (cstr_bytes_range _ _ _ Hs)) as Hr.
    fold c in Hr. destruct (Z.ltb_spec c 0); [lia|]. rewrite length_bytes16 in *.
    rewrite utf16_put_spec; [|lia|done|eapply mapped_sub; [exact Hm|lia|lia]]. eexists. ok_ptr.
Qed.

#[export] Instance utf16_to_utf8_strings :
  Conversion 2 wstr deref16 utf16_get utf8_put utf16_dec (fun c => utf8_enc (if c <? 0 then QUESTION else c)).
Proof.
  split; try done.
  - intros m p s Hs Hp. by apply utf16_get_spec.
  - intros m p s Hs. by apply wstr_load.
  - intros m p b s [_ HF]. apply list.Forall_cons in HF as [? _]. lia.
  - intros m p k l Hs. revert p Hs. induction k as [|u k IH]; intros p Hs.
    + by replace (p + 2 * Z.of_nat (length [])) with p by (simpl; lia).
    + apply wstr_tail, IH in Hs. by replace (p + 2 * Z.of_nat (length (u :: k))) with (p + 2 + 2 * Z.of_nat (length k)) by (simpl; lia).
  - intros m p s d l [Hs HF] Hd. split; [|done]. apply bytes_at_write_bytes_ne; [done|].
    rewrite length_bytes16, length_app. simpl. lia.
  - intros b s. apply utf16_dec_progress.
  - intros m p b s m' d [_ HF] Hd c code Hm. pose proof (utf16_dec_scalar b s HF) as Hsc. fold c in Hsc.
    exists 0. apply utf8_put_spec; [|done|done]. unfold code.
    destruct Hsc as [->|Hsc]; [by split; unfold QUESTION; simpl; lia|]. destruct (Z.ltb_spec c 0); [destruct Hsc; lia|done].
Qed.

(** The codes a string is read as. *)
Definition utf8_codes (count : Z) (s : list Z) : list Z := codes (dec := utf8_dec) (Z.to_nat count) s.
Definition utf16_codes (count : Z) (us : list Z) : list Z := codes (dec := utf16_dec) (Z.to_nat count) us.

(** Distance of the output from the source. *)
Definition clear_of (d n p k : Z) : Prop := d + n <= p \/ p + k <= d.

Lemma utf8_utf16_strncpy_spec m p s d count :
  cstr m p s -> 0 < p -> 0 < d -> 0 <= count ->
  let b := bytes16 (flat_map put16 (utf8_codes count s) ++ [0]) in
  mapped m d (Z.of_nat (length b)) -> clear_of d (Z.of_nat (length b)) p (Z.of_nat (length s) + 1) ->
  utf8_utf16_strncpy m (Some d) p count = Ok (0, write_bytes m d b, Some (d + Z.of_nat (length b) - 2)).
Proof.
  intros Hs Hp Hd Hc b Hm Hcl. unfold utf8_utf16_strncpy, null_pp.
  destruct (Z.eqb_spec p NULL) as [->|_]; [done|]. destruct (Z.eqb_spec d NULL) as [->|_]; [done|]. cbn [orb].
  assert (b = flat_map (fun c => bytes16 (put16 c)) (utf8_codes count s) ++ [0; 0]) as Eb.
  { unfold b. by rewrite bytes16_app, bytes16_flat_map. }
  rewrite Eb in *. clear Eb b. rewrite length_app in *. cbn [length] in *. unfold clear_of in Hcl.
  unfold utf8_codes in *. rewrite (convert_loop (fuel_of m) m d p s count).
  - cbn [obind default id]. set (l := flat_map _ _) in *. unfold store16.
    rewrite store_le_write by (apply mapped_write_bytes; eapply mapped_sub; [exact Hm|lia|lia]). cbn [obind]. rewrite write_bytes_app. ok_ptr.
  - pose proof (cstr_size _ _ _ Hs). unfold fuel_of. lia.
  - done.
  - done.
  - done.
  - done.
  - eapply mapped_sub; [exact Hm|lia|lia].
  - lia.
Qed.

Lemma utf8_utf16_strnlen_spec m p s count :
  cstr m p s -> 0 < p -> 0 <= count ->
  utf8_utf16_strnlen m p count = Ok (total utf16_units (until_zero (utf8_codes count s))).
Proof.
  intros Hs Hp Hc. unfold utf8_utf16_strnlen. rewrite (length_loop utf16_units _ m p s count 0); [reflexivity| |done|done|done].
  pose proof (cstr_size _ _ _ Hs). unfold fuel_of. lia.
Qed.

Lemma utf16_utf8_strncpy_spec m p us d count :
  wstr m p us -> 0 < p -> 0 < d -> 0 <= count ->
  let b := flat_map (fun c => utf8_enc (if c <? 0 then QUESTION else c)) (utf16_codes count us) ++ [0] in
  mapped m d (Z.of_nat (length b)) -> clear_of d (Z.of_nat (length b)) p (2 * (Z.of_nat (length us) + 1)) ->
  utf16_utf8_strncpy m (Some d) p count = Ok (0, write_bytes m d b, Some (d + Z.of_nat (length b) - 1)).
Proof.
  intros Hs Hp Hd Hc b Hm Hcl. unfold utf16_utf8_strncpy, null_pp. subst b.
  destruct (Z.eqb_spec p NULL) as [->|_]; [done|]. destruct (Z.eqb_spec d NULL) as [->|_]; [done|]. cbn [orb].
  rewrite length_app in *. cbn [length] in *. unfold clear_of in Hcl.
  unfold utf16_codes in *. rewrite (convert_loop (fuel_of m) m d p us count).
  - cbn [obind default id]. set (l := flat_map _ _) in *.
    rewrite store8_mapped by (apply (mapped_write_bytes m d l d (Z.of_nat (length l + 1)) Hm); lia). cbn [obind]. rewrite write_bytes_app. ok_ptr.
  - destruct Hs as [Hs _]. apply bytes_at_size in Hs. rewrite length_bytes16, length_app in Hs. unfold fuel_of. simpl in Hs. lia.
  - done.
  - done.
  - done.
  - done.
  - eapply mapped_sub; [exact Hm|lia|lia].
  - lia.
Qed.

Lemma utf16_utf8_strnlen_spec m p us count :
  wstr m p us -> 0 < p -> 0 <= count ->
  utf16_utf8_strnlen m p count = Ok (total utf8_units (until_zero (utf16_codes count us))).
Proof.
  intros Hs Hp Hc. unfold utf16_utf8_strnlen. rewrite (length_loop utf8_units _ m p us count 0); [reflexivity| |done|done|done].
  destruct Hs as [Hs _]. apply bytes_at_size in Hs. rewrite length_bytes16, length_app in Hs. unfold fuel_of. simpl in Hs. lia.
Qed.

(** ** Well-formed strings *)

Definition text (cs : list Z) : Prop := Forall (fun c => scalar c /\ c <> 0) cs.

Lemma utf8_codes_enc count cs : text cs -> utf8_codes count (flat_map utf8_enc cs) = take (Z.to_nat count) cs.
Proof.
  intros H. unfold utf8_codes. rewrite (codes_enc utf8_dec utf8_enc (fun c => c)); [apply map_id|].
  eapply list.Forall_impl; [exact H|]. intros c [Hs Hc]. split; [unfold utf8_enc; by repeat case_match|].
  intros t. by apply utf8_dec_enc.
Qed.

(** What [utf16_get] makes of a code point. *)
Definition seen16 (c : Z) : Z := if lost c then -1 else c.

Lemma utf16_codes_enc count cs : text cs -> utf16_codes count (flat_map utf16_enc cs) = map seen16 (take (Z.to_nat count) cs).
Proof.
  intros H. unfold utf16_codes. apply (codes_enc utf16_dec utf16_enc).
  eapply list.Forall_impl; [exact H|]. intros c [Hs Hc]. split; [unfold utf16_enc; by case_match|].
  intros t. by apply utf16_dec_enc.
Qed.

Lemma text_take n cs : text cs -> text (take n cs).
Proof. apply list.Forall_take. Qed.

Lemma put16_text cs : text cs -> flat_map put16 cs = flat_map utf16_enc cs.
Proof.
  induction 1 as [|c l [Hs _] _ IH]; [done|]. cbn [flat_map]. rewrite IH. unfold put16. by rewrite bad_code_scalar.
Qed.

Lemma until_zero_text cs : text cs -> until_zero cs = cs.
Proof. induction 1 as [|c l [_ Hc] _ IH]; [done|]. cbn [until_zero]. destruct (Z.eqb_spec c 0); [done|]. by rewrite IH. Qed.

Lemma total_units16 cs : text cs -> total utf16_units cs = Z.of_nat (length (flat_map utf16_enc cs)).
Proof.
  induction 1 as [|c l [[Hr _] _] _ IH]; [done|]. cbn [total fold_right flat_map]. fold (total utf16_units l). rewrite length_app, IH.
  unfold utf16_units, utf16_enc. destruct (Z.ltb_spec c 0); [lia|]. destruct (c <? 0x10000); simpl; lia.
Qed.

Lemma total_units8 cs : Forall (fun c => 0 <= c) cs -> total utf8_units cs = Z.of_nat (length (flat_map utf8_enc cs)).
Proof.
  induction 1 as [|c l Hc _ IH]; [done|]. cbn [total fold_right flat_map]. fold (total utf8_units l). rewrite length_app, IH.
  unfold utf8_units, utf8_enc. decide_cmps; simpl; lia.
Qed.
