(* ===== verification/CharsetTheorems.v ===== *)
(** * Character encodings: the theorems

    Round trips of single code points, conversion of strings, and the
    equivalence of [utf16_to_utf8] with the reference encoding. *)

From S2P Require Import Prelude CMem Ctype Str StrFacts Charset CharsetFacts.

Local Open Scope Z_scope.
Local Open Scope c_scope.

(** ** [utf16_to_utf8] *)

Lemma scalar_units c : scalar c -> Forall (fun u => 0 <= u < 2 ^ 16) (utf16_enc c).
Proof.
  intros [Hr _]. unfold utf16_enc. destruct (Z.ltb_spec c 0x10000); repeat constructor; dlia.
Qed.

(** A code point of the basic plane takes one round. *)
Lemma step_basic m dest src c size :
  scalar c -> c < 0x10000 -> load16 m src = Ok c -> mapped m dest (Z.of_nat (length (utf8_enc c))) -> size <> 0 ->
  utf16_to_utf8_step (m, dest, src, 0, size) =
    cont (write_bytes m dest (utf8_enc c), dest + Z.of_nat (length (utf8_enc c)), src + 2, 0, size - 1).
Proof.
  intros [Hr Hn] Hc Hl Hm Hsz. unfold utf16_to_utf8_step, utf8_enc in *. destruct (Z.eqb_spec size 0); [done|].
  rewrite Hl. cbn [obind negb Z.eqb]. unfold put8. destruct (Z.ltb_spec c 0x10000); [|lia].
  destruct (Z.leb_spec c 0x7F); [|destruct (Z.leb_spec c 0x7FF)]; cbn [length write_bytes] in *.
  - run_stores Hm. rewrite u8_small by (unfold byte_range; lia). done.
  - run_stores Hm. autorewrite with code. rewrite lor_c0, lor_80 by dlia.
    do 2 f_equal. repeat apply (f_equal2 pair); first [done|lia].
  - decide_cmps; try done; run_stores Hm; autorewrite with code; rewrite lor_e0, !lor_80 by dlia;
      do 2 f_equal; repeat apply (f_equal2 pair); first [done|lia].
Qed.

(** A surrogate pair takes two. *)
Lemma step_high m dest src u size :
  0xD800 <= u <= 0xDBFF -> load16 m src = Ok u -> size <> 0 ->
  utf16_to_utf8_step (m, dest, src, 0, size) = cont (m, dest, src + 2, u, size - 1).
Proof.
  intros Hu Hl Hsz. unfold utf16_to_utf8_step. destruct (Z.eqb_spec size 0); [done|]. rewrite Hl. cbn [obind negb Z.eqb].
  decide_cmps; done.
Qed.

Lemma step_low m dest src c size :
  0x10000 <= c < 0x110000 -> load16 m src = Ok (0xDC00 + (c - 0x10000) mod 2 ^ 10) ->
  mapped m dest (Z.of_nat (length (utf8_enc c))) -> size <> 0 ->
  utf16_to_utf8_step (m, dest, src, 0xD800 + (c - 0x10000) / 2 ^ 10, size) =
    cont (write_bytes m dest (utf8_enc c), dest + Z.of_nat (length (utf8_enc c)), src + 2, 0, size - 1).
Proof.
  intros Hc Hl Hm Hsz. unfold utf16_to_utf8_step. destruct (Z.eqb_spec size 0); [done|]. rewrite Hl. cbn [obind].
  destruct (Z.eqb_spec (0xD800 + (c - 0x10000) / 2 ^ 10) 0); [dlia|]. cbn [negb].
  assert (0 <= (c - 0x10000) mod 2 ^ 10 < 2 ^ 10) by (apply Z.mod_pos_bound; lia). decide_cmps.
  rewrite Z.shiftl_mul_pow2 by lia. rewrite u32_small by dlia.
  replace ((0xD800 + (c - 0x10000) / 2 ^ 10 - 0xD800) * 2 ^ 10 + (0xDC00 + (c - 0x10000) mod 2 ^ 10 - 0xDC00) + 0x10000)
    with c by dlia.
  unfold utf8_enc in *. destruct (Z.leb_spec c 0x7F); [lia|]. destruct (Z.leb_spec c 0x7FF); [lia|].
  destruct (Z.ltb_spec c 0x10000); [lia|]. cbn [length write_bytes] in *. unfold put_utf8_4, put8. run_stores Hm.
  autorewrite with code. rewrite lor_f0, !lor_80 by dlia.
  do 2 f_equal. repeat apply (f_equal2 pair); first [done|lia].
Qed.

Lemma utf16_to_utf8_loop cs fuel m dest src :
  Forall scalar cs ->
  let us := flat_map utf16_enc cs in
  let bs := flat_map utf8_enc cs in
  (length us < fuel)%nat -> bytes_at m src (bytes16 us) -> mapped m dest (Z.of_nat (length bs)) ->
  clear_of dest (Z.of_nat (length bs)) src (2 * Z.of_nat (length us)) ->
  while fuel utf16_to_utf8_step (m, dest, src, 0, Z.of_nat (length us)) =
    Ok (write_bytes m dest bs, dest + Z.of_nat (length bs)).
Proof.
  revert fuel m dest src. induction cs as [|c cs IH]; intros fuel m dest src HF us bs Hf Hb Hm Hcl.
  { destruct fuel; [simpl in Hf; lia|]. rewrite while_S. simpl. ok_ptr. }
  apply list.Forall_cons in HF as [Hs HF]. subst us bs. cbn [flat_map] in *. rewrite !length_app in *.
  rewrite bytes16_app in Hb. apply bytes_at_app in Hb as [Hb1 Hb2]. rewrite length_bytes16 in Hb2.
  unfold clear_of in *. pose proof (scalar_units c Hs) as HU.
  assert (mapped m dest (Z.of_nat (length (utf8_enc c)))) as Hm1 by (eapply mapped_sub; [exact Hm|lia|lia]).
  assert (forall fuel, (length (flat_map utf16_enc cs) < fuel)%nat ->
    while fuel utf16_to_utf8_step (write_bytes m dest (utf8_enc c), dest + Z.of_nat (length (utf8_enc c)),
      src + 2 * Z.of_nat (length (utf16_enc c)), 0, Z.of_nat (length (flat_map utf16_enc cs))) =
    Ok (write_bytes m dest (utf8_enc c ++ flat_map utf8_enc cs),
        dest + Z.of_nat (length (utf8_enc c) + length (flat_map utf8_enc cs)))) as Hrest.
  { intros fuel' Hf'. rewrite IH; [rewrite write_bytes_app; ok_ptr|done|done| | |lia].
    - replace (2 * Z.of_nat (length (utf16_enc c))) with (Z.of_nat (2 * length (utf16_enc c))) by lia.
      apply bytes_at_write_bytes_ne; [done|]. rewrite length_bytes16. lia.
    - apply mapped_write_bytes. eapply mapped_sub; [exact Hm|lia|lia]. }
  destruct fuel as [|fuel]; [lia|]. unfold utf16_enc in Hb1, HU, Hrest, Hf |- *. destruct (Z.ltb_spec c 0x10000) as [Hc|Hc]; cbn [length] in *.
  - apply list.Forall_cons in HU as [Hu _]. destruct (load16_unit _ _ _ _ Hb1 Hu) as [Hl _].
    rewrite while_S, (step_basic _ _ _ c) by (done || lia). loop_next.
    replace (Z.of_nat (1 + length (flat_map utf16_enc cs)) - 1) with (Z.of_nat (length (flat_map utf16_enc cs))) by lia.
    rewrite <- Hrest with (fuel := fuel) by lia. f_equal. repeat apply (f_equal2 pair); first [done|lia].
  - apply list.Forall_cons in HU as [Hu HU]. apply list.Forall_cons in HU as [Hv _].
    destruct (load16_unit _ _ _ _ Hb1 Hu) as [Hl Hb3]. destruct (load16_unit _ _ _ _ Hb3 Hv) as [Hl2 _].
    destruct Hs as [Hr _]. rewrite while_S, (step_high _ _ _ (0xD800 + (c - 0x10000) / 2 ^ 10)) by (done || dlia). loop_next.
    destruct fuel as [|fuel]; [lia|]. rewrite while_S, step_low by (done || lia). loop_next.
    replace (Z.of_nat (2 + length (flat_map utf16_enc cs)) - 1 - 1) with (Z.of_nat (length (flat_map utf16_enc cs))) by lia.
    rewrite <- Hrest with (fuel := fuel) by lia. f_equal. repeat apply (f_equal2 pair); first [done|lia].
Qed.

(** ** Reading back what was stored *)

Lemma utf8_enc_bytes c : scalar c -> c <> 0 -> Forall (fun b => 0 < b < 256) (utf8_enc c).
Proof.
  intros [Hr _] H0. unfold utf8_enc. destruct (Z.leb_spec c 0x7F); [|destruct (Z.leb_spec c 0x7FF); [|case_cmp]];
    repeat constructor; dlia.
Qed.

Lemma utf16_enc_units c : scalar c -> c <> 0 -> Forall (fun u => 0 < u < 2 ^ 16) (utf16_enc c).
Proof. intros [Hr _] H0. unfold utf16_enc. destruct (Z.ltb_spec c 0x10000); repeat constructor; dlia. Qed.

Lemma bytes_at_after m d l k :
  bytes_at m (d + Z.of_nat (length l)) k -> bytes_at (write_bytes m d l) d (l ++ k).
Proof.
  intros H. apply bytes_at_app. split; [apply write_bytes_at|]. apply bytes_at_write_bytes_ne; [done|lia].
Qed.

Lemma utf8_roundtrip m c d :
  scalar c -> c <> 0 -> 0 < d -> mapped m d (Z.of_nat (length (utf8_enc c))) ->
  m !! (d + Z.of_nat (length (utf8_enc c))) = Some 0 ->
  exists m' e, utf8_put m c (Some d) = Ok (0, m', Some e) /\ utf8_get m' (Some d) = Ok (c, Some e).
Proof.
  intros Hs H0 Hd Hm Hz. eexists _, _. split; [by apply utf8_put_spec; [|unfold NULL; lia|]|].
  assert (cstr (write_bytes m d (utf8_enc c)) d (utf8_enc c)) as Hc.
  { split; [by apply bytes_at_after|by apply utf8_enc_bytes]. }
  destruct (utf8_get_spec _ _ _ Hc Hd) as (k & Ek & ->).
  pose proof (utf8_dec_enc c [] Hs H0) as E. rewrite app_nil_r in E. rewrite E in *. cbn [fst snd] in *.
  rewrite app_nil_r in Ek. by rewrite Ek.
Qed.

Lemma utf16_roundtrip m c d :
  scalar c -> c <> 0 -> 0 < d -> mapped m d (2 * Z.of_nat (length (utf16_enc c))) ->
  bytes_at m (d + 2 * Z.of_nat (length (utf16_enc c))) [0; 0] ->
  exists m' e, utf16_put m c (Some d) = Ok (0, m', Some e) /\ utf16_get m' (Some d) = Ok (seen16 c, Some e).
Proof.
  intros Hs H0 Hd Hm Hz. pose proof (bad_code_scalar c Hs) as Hbad.
  assert (put16 c = utf16_enc c) as Ep by (unfold put16; by rewrite Hbad).
  pose proof (utf16_put_spec m c d) as Hput. rewrite Ep, Hbad in Hput.
  eexists _, _. split; [apply Hput; [destruct Hs; lia|unfold NULL; lia|done]|].
  assert (wstr (write_bytes m d (bytes16 (utf16_enc c))) d (utf16_enc c)) as Hw.
  { split; [|by apply utf16_enc_units]. rewrite bytes16_app. apply bytes_at_after. rewrite length_bytes16.
    by replace (Z.of_nat (2 * length (utf16_enc c))) with (2 * Z.of_nat (length (utf16_enc c))) by lia. }
  destruct (utf16_get_spec _ _ _ Hw Hd) as (k & Ek & ->).
  pose proof (utf16_dec_enc c [] Hs) as E. rewrite app_nil_r in E. rewrite E in *. cbn [fst snd] in *.
  rewrite app_nil_r in Ek. by rewrite Ek.
Qed.

(** ** Claims *)

(** C28: reading back a code point.  For every Unicode scalar value other than
    zero: what [utf8_put] stores, [utf8_get] reads as the same code point, and
    both stop at the same address; what [utf16_put] stores, [utf16_get] reads
    as the same code point, except that it answers -1 when the low surrogate
    is 0xDC00 or 0xDFFF, that is for the first and the last of every 1024 code
    points above the basic plane. *)
Theorem code_point_roundtrip (m : mem) (c d : Z) :
  scalar c -> c <> 0 -> 0 < d ->
  (mapped m d (Z.of_nat (length (utf8_enc c))) -> m !! (d + Z.of_nat (length (utf8_enc c))) = Some 0 ->
   exists m' e, utf8_put m c (Some d) = Ok (0, m', Some e) /\ utf8_get m' (Some d) = Ok (c, Some e)) /\
  (mapped m d (2 * Z.of_nat (length (utf16_enc c))) -> bytes_at m (d + 2 * Z.of_nat (length (utf16_enc c))) [0; 0] ->
   exists m' e, utf16_put m c (Some d) = Ok (0, m', Some e) /\
     utf16_get m' (Some d) = Ok (if lost c then -1 else c, Some e)).
Proof. intros Hs H0 Hd. split; intros; [by apply utf8_roundtrip|by apply utf16_roundtrip]. Qed.

Lemma code_point_roundtrip_witness :
  let m := mem_of 16 [0; 0; 0; 0; 0; 0] in
  (exists m' e, utf8_put m 0x20AC (Some 16) = Ok (0, m', Some e) /\ utf8_get m' (Some 16) = Ok (0x20AC, Some e)) /\
  (exists m' e, utf16_put m 0x10000 (Some 16) = Ok (0, m', Some e) /\ utf16_get m' (Some 16) = Ok (-1, Some e)).
Proof.
  intros m. assert (bytes_at m 16 [0; 0; 0; 0; 0; 0]) as Hb by apply write_bytes_at.
  assert (scalar 0x20AC /\ scalar 0x10000) as [H1 H2] by (unfold scalar; lia). split.
  - apply (code_point_roundtrip m 0x20AC 16); [done|done|done| |reflexivity].
    eapply mapped_sub; [exact (bytes_at_mapped _ _ _ Hb)|lia|vm_compute; congruence].
  - apply (code_point_roundtrip m 0x10000 16); [done|done|done| |repeat split; reflexivity].
    eapply mapped_sub; [exact (bytes_at_mapped _ _ _ Hb)|lia|vm_compute; congruence].
Defined.

(** UTF-8 to UTF-16 on any string.  Whatever the bytes of a terminated
    string are, [utf8_utf16_strncpy] ends, writes exactly the units of the
    codes it decodes and a terminator, advances the pointer to the terminator
    and changes nothing else; [utf8_utf16_strnlen] returns the units of the
    codes before the first one that decodes to zero (an overlong sequence
    does), so it is the size of the output exactly when there is none. *)
Theorem utf8_utf16_any (m : mem) (p d count : Z) (s : list Z) :
  cstr m p s -> 0 < p -> 0 < d -> 0 <= count ->
  let units := flat_map put16 (utf8_codes count s) in
  mapped m d (2 * (Z.of_nat (length units) + 1)) ->
  clear_of d (2 * (Z.of_nat (length units) + 1)) p (Z.of_nat (length s) + 1) ->
  utf8_utf16_strncpy m (Some d) p count =
    Ok (0, write_bytes m d (bytes16 (units ++ [0])), Some (d + 2 * Z.of_nat (length units))) /\
  utf8_utf16_strnlen m p count = Ok (total utf16_units (until_zero (utf8_codes count s))).
Proof.
  intros Hs Hp Hd Hc units Hm Hcl. split; [|by apply utf8_utf16_strnlen_spec].
  assert (Z.of_nat (length (bytes16 (units ++ [0]))) = 2 * (Z.of_nat (length units) + 1)) as El.
  { rewrite length_bytes16, length_app. simpl. lia. }
  rewrite (utf8_utf16_strncpy_spec m p s d count); fold units; rewrite ?El; try done. ok_ptr.
Qed.

(** An overlong encoding of zero before two letters. *)
Definition overlong : list Z := [0xE0; 0x80; 0x80; 65; 66].
Definition overlong_mem : mem := mem_of 16 (overlong ++ [0; 0; 0; 0; 0; 0; 0; 0; 0; 0]).

Lemma utf8_utf16_any_witness :
  utf8_utf16_strncpy overlong_mem (Some 22) 16 100 = Ok (0, write_bytes overlong_mem 22 (bytes16 [0; 65; 66; 0]), Some 28) /\
  utf8_utf16_strnlen overlong_mem 16 100 = Ok 0.
Proof.
  assert (bytes_at overlong_mem 16 (overlong ++ [0; 0; 0; 0; 0; 0; 0; 0; 0; 0])) as Hb by apply write_bytes_at.
  apply (utf8_utf16_any overlong_mem 16 22 100 overlong); [|done|done|done| |].
  - split; [|unfold overlong; repeat constructor; lia].
    change (overlong ++ [0; 0; 0; 0; 0; 0; 0; 0; 0; 0]) with ((overlong ++ [0]) ++ [0; 0; 0; 0; 0; 0; 0; 0; 0]) in Hb.
    by apply bytes_at_app in Hb as [Hb _].
  - eapply mapped_sub; [exact (bytes_at_mapped _ _ _ Hb)|lia|vm_compute; congruence].
  - right. vm_compute. congruence.
Defined.

(** ** Well-formed strings *)

(** The code points that arrive when UTF-16 is read: a question mark for each
    one that [utf16_get] refuses. *)
Definition arriving (cs : list Z) : list Z := map (fun c => if lost c then QUESTION else c) cs.

Lemma lost_zero c : scalar c -> c <> 0 -> (if seen16 c <? 0 then QUESTION else seen16 c) = (if lost c then QUESTION else c).
Proof. intros [Hr _] H. unfold seen16. destruct (lost c); [done|]. destruct (Z.ltb_spec c 0); [lia|done]. Qed.

Lemma seen_enc cs : text cs ->
  flat_map (fun c => utf8_enc (if c <? 0 then QUESTION else c)) (map seen16 cs) = flat_map utf8_enc (arriving cs).
Proof.
  induction 1 as [|c l [Hs Hc] _ IH]; [done|]. cbn [map flat_map arriving]. fold (arriving l). by rewrite lost_zero, IH.
Qed.

Lemma until_zero_seen cs : text cs -> until_zero (map seen16 cs) = map seen16 cs.
Proof.
  induction 1 as [|c l [_ Hc] _ IH]; [done|]. cbn [map until_zero]. rewrite IH. unfold seen16.
  destruct (lost c); [done|]. by destruct (Z.eqb_spec c 0).
Qed.

Lemma total_seen cs : text cs -> total utf8_units (map seen16 cs) = Z.of_nat (length (flat_map utf8_enc (arriving cs))).
Proof.
  intros H. rewrite <- total_units8.
  - induction H as [|c l [[Hr _] Hc] _ IH]; [done|]. cbn [map total fold_right arriving].
    fold (arriving l) (total utf8_units (map seen16 l)) (total utf8_units (arriving l)). rewrite IH. unfold seen16.
    by destruct (lost c).
  - induction H as [|c l [[Hr _] Hc] _ IH]; [constructor|]. cbn [arriving map]. constructor; [|done].
    destruct (lost c); [done|lia].
Qed.

(** C18: well-formed strings.  For every text (a list of nonzero Unicode scalar
    values) and every count, [utf8_utf16_strncpy] turns its UTF-8 encoding
    into the UTF-16 encoding of its first [count] code points, terminated, and
    [utf8_utf16_strnlen] is the length of it; [utf16_utf8_strncpy] and
    [utf16_utf8_strnlen] do the converse, with a question mark in place of
    each code point whose low surrogate [utf16_get] refuses. *)
Theorem strings_convert (m : mem) (p d count : Z) (cs : list Z) :
  text cs -> 0 < p -> 0 < d -> 0 <= count ->
  let cs' := take (Z.to_nat count) cs in
  (let units := flat_map utf16_enc cs' in
   let n := 2 * (Z.of_nat (length units) + 1) in
   cstr m p (flat_map utf8_enc cs) -> mapped m d n ->
   clear_of d n p (Z.of_nat (length (flat_map utf8_enc cs)) + 1) ->
   utf8_utf16_strnlen m p count = Ok (Z.of_nat (length units)) /\
   utf8_utf16_strncpy m (Some d) p count =
     Ok (0, write_bytes m d (bytes16 (units ++ [0])), Some (d + 2 * Z.of_nat (length units)))) /\
  (let bytes := flat_map utf8_enc (arriving cs') in
   let n := Z.of_nat (length bytes) + 1 in
   wstr m p (flat_map utf16_enc cs) -> mapped m d n ->
   clear_of d n p (2 * (Z.of_nat (length (flat_map utf16_enc cs)) + 1)) ->
   utf16_utf8_strnlen m p count = Ok (Z.of_nat (length bytes)) /\
   utf16_utf8_strncpy m (Some d) p count =
     Ok (0, write_bytes m d (bytes ++ [0]), Some (d + Z.of_nat (length bytes)))).
Proof.
  intros Ht Hp Hd Hc cs'. pose proof (text_take (Z.to_nat count) _ Ht) as Ht'. fold cs' in Ht'. split.
  - intros units n Hs Hm Hcl.
    assert (flat_map put16 (utf8_codes count (flat_map utf8_enc cs)) = units) as Eu.
    { rewrite utf8_codes_enc by done. by apply put16_text. }
    assert (Z.of_nat (length (bytes16 (units ++ [0]))) = n) as El by (rewrite length_bytes16, length_app; unfold n; simpl; lia).
    rewrite (utf8_utf16_strnlen_spec _ _ _ _ Hs Hp Hc), utf8_codes_enc by done. fold cs'.
    rewrite until_zero_text, total_units16 by done. split; [done|].
    rewrite (utf8_utf16_strncpy_spec m p _ d count Hs Hp Hd Hc); rewrite ?Eu, ?El; try done. unfold n. ok_ptr.
  - intros bytes n Hs Hm Hcl.
    assert (flat_map (fun c => utf8_enc (if c <? 0 then QUESTION else c)) (utf16_codes count (flat_map utf16_enc cs)) = bytes) as Eb.
    { rewrite utf16_codes_enc by done. by apply seen_enc. }
    assert (Z.of_nat (length (bytes ++ [0])) = n) as El by (rewrite length_app; unfold n; simpl; lia).
    rewrite (utf16_utf8_strnlen_spec _ _ _ _ Hs Hp Hc), utf16_codes_enc by done. fold cs'.
    rewrite until_zero_seen, total_seen by done. split; [done|].
    rewrite (utf16_utf8_strncpy_spec m p _ d count Hs Hp Hd Hc); rewrite ?Eb, ?El; try done. unfold n. ok_ptr.
Qed.

(** The text "A", the euro sign, U+1F600, as UTF-8 with room behind it. *)
Definition demo_text : list Z := [65; 0x20AC; 0x1F600].
Definition demo_text_mem : mem := mem_of 16 (flat_map utf8_enc demo_text ++ replicate 20 0).

Lemma demo_text_ok : text demo_text.
Proof. repeat constructor; unfold scalar; lia. Qed.

Lemma strings_convert_witness :
  utf8_utf16_strnlen demo_text_mem 16 10 = Ok 4 /\
  utf8_utf16_strncpy demo_text_mem (Some 26) 16 10 =
    Ok (0, write_bytes demo_text_mem 26 (bytes16 [65; 0x20AC; 0xD83D; 0xDE00; 0]), Some 34).
Proof.
  assert (bytes_at demo_text_mem 16 (flat_map utf8_enc demo_text ++ replicate 20 0)) as Hb by apply write_bytes_at.
  apply (strings_convert demo_text_mem 16 26 10 demo_text); [exact demo_text_ok|done|done|done|..].
  - split; [|repeat constructor; vm_compute; congruence].
    change (replicate 20 0) with ([0] ++ replicate 19 0) in Hb. rewrite app_assoc in Hb. by apply bytes_at_app in Hb as [Hb _].
  - eapply mapped_sub; [exact (bytes_at_mapped _ _ _ Hb)|lia|vm_compute; congruence].
  - right. vm_compute. congruence.
Defined.

(** The second converter.  [utf16_to_utf8], which keeps a pending high
    surrogate across rounds instead of reading pairs, computes the reference
    encoding: given the UTF-16 encoding of any list of scalar values (zero and
    the code points [utf16_get] refuses included) and its length, it writes
    exactly their UTF-8 encoding and returns the end of it. *)
Theorem utf16_to_utf8_correct (m : mem) (dest src : Z) (cs : list Z) :
  Forall scalar cs -> bytes_at m src (bytes16 (flat_map utf16_enc cs)) ->
  mapped m dest (Z.of_nat (length (flat_map utf8_enc cs))) ->
  clear_of dest (Z.of_nat (length (flat_map utf8_enc cs))) src (2 * Z.of_nat (length (flat_map utf16_enc cs))) ->
  utf16_to_utf8 m dest src (Z.of_nat (length (flat_map utf16_enc cs))) =
    Ok (write_bytes m dest (flat_map utf8_enc cs), dest + Z.of_nat (length (flat_map utf8_enc cs))).
Proof. intros HF Hb Hm Hcl. unfold utf16_to_utf8. apply utf16_to_utf8_loop; [done|lia|done|done|done]. Qed.

Lemma utf16_to_utf8_correct_witness :
  let m := mem_of 16 (bytes16 [0x20AC; 0xD800; 0xDC00] ++ replicate 10 0) in
  utf16_to_utf8 m 22 16 3 = Ok (write_bytes m 22 [0xE2; 0x82; 0xAC; 0xF0; 0x90; 0x80; 0x80], 29).
Proof.
  intros m. assert (bytes_at m 16 (bytes16 [0x20AC; 0xD800; 0xDC00] ++ replicate 10 0)) as Hb by apply write_bytes_at.
  apply (utf16_to_utf8_correct m 22 16 [0x20AC; 0x10000]).
  - repeat constructor; unfold scalar; lia.
  - by apply bytes_at_app in Hb as [Hb _].
  - eapply mapped_sub; [exact (bytes_at_mapped _ _ _ Hb)|lia|vm_compute; congruence].
  - right. vm_compute. congruence.
Defined.
