(* ===== verification/Device.v ===== *)
(** * Devices

    Code that talks to a device: memory-mapped registers and system registers.
    The device is not part of the program; it is the parameter [hardware],
    which answers a read from the history of the accesses made so far, so that
    it may be any device with any state.  The history, oldest access first, is
    the trace of a run.

    A computation in the monad [M] passes the data of the driver and the trace
    along and may panic or fault. *)

From S2P Require Import Prelude CMem.
From stdpp Require Import strings.

Local Open Scope Z_scope.
Local Open Scope c_scope.

Inductive access : Type :=
  | ReadL (addr v : Z)
  | WriteL (addr v : Z)
  | ReadQ (addr v : Z)
  | WriteQ (addr v : Z)
  | MRS (reg : string) (v : Z)
  | MSR (reg : string) (v : Z)
  | Delay (us : Z)
  | Message (fmt : string) (args : list Z).

Abbreviation trace := (list access).

Record hardware : Type := Hardware {
  mmio : trace -> Z -> Z;
  sysreg : trace -> string -> Z
}.

Section monad.
Context {D : Type}.

Definition M (A : Type) : Type := D -> trace -> outcome (A * D * trace).

Definition ret {A} (a : A) : M A := fun d t => Ok (a, d, t).

Definition mbind_ {A B} (c : M A) (k : A -> M B) : M B :=
  fun d t => let! '(a, d, t) := c d t in k a d t.

Definition get_data : M D := fun d t => Ok (d, d, t).
Definition put_data (d : D) : M unit := fun _ t => Ok (tt, d, t).
Definition emit (e : access) : M unit := fun d t => Ok (tt, d, t ++ [e]).
Definition fail_panic {A} (msg : string) : M A := fun _ _ => Panic msg.

(** A loop in the monad. *)
Fixpoint mwhile {S R} (fuel : nat) (body : S -> M (S + R)) (s : S) : M R :=
  match fuel with
  | O => fun _ _ => OutOfFuel
  | Datatypes.S fuel =>
      mbind_ (body s) (fun r => match r with inl s' => mwhile fuel body s' | inr r => ret r end)
  end.
End monad.
Arguments M : clear implicits.

Notation "'do!' x := c 'in' k" := (mbind_ c (fun x => k))
  (at level 10, x name, c at level 100, k at level 200) : c_scope.
Notation "'seq!' c 'then' k" := (mbind_ c (fun _ => k))
  (at level 10, c at level 100, k at level 200) : c_scope.

Section access.
Context (hw : hardware) {D : Type}.

Definition readl_relaxed (a : Z) : M D Z :=
  fun d t => let v := u32 (mmio hw t a) in Ok (v, d, t ++ [ReadL a v]).
Definition readq_relaxed (a : Z) : M D Z :=
  fun d t => let v := u64 (mmio hw t a) in Ok (v, d, t ++ [ReadQ a v]).
Definition writel_relaxed (v a : Z) : M D unit := emit (WriteL a (u32 v)).
Definition writeq_relaxed (v a : Z) : M D unit := emit (WriteQ a (u64 v)).
Definition read_sysreg_s (r : string) : M D Z :=
  fun d t => let v := u64 (sysreg hw t r) in Ok (v, d, t ++ [MRS r v]).
Definition write_sysreg_s (v : Z) (r : string) : M D unit := emit (MSR r (u64 v)).
Definition udelay (us : Z) : M D unit := emit (Delay us).
Definition message (fmt : string) (args : list Z) : M D unit := emit (Message fmt args).
End access.

(** ** Runs

    [runs c s t Q]: from driver state [s] and trace [t] the computation
    returns, and [Q] holds of the result, the new state and the accesses it
    added. *)

Definition runs {D A} (c : M D A) (d : D) (t : trace) (Q : A -> D -> trace -> Prop) : Prop :=
  exists a d' l, c d t = Ok (a, d', t ++ l) /\ Q a d' l.

Lemma runs_ret {D A} (a : A) (d : D) t Q : Q a d [] -> runs (ret a) d t Q.
Proof. intros H. exists a, d, []. by rewrite app_nil_r. Qed.

Lemma runs_bind {D A B} (c : M D A) (k : A -> M D B) d t P Q :
  runs c d t P -> (forall a d' l, P a d' l -> runs (k a) d' (t ++ l) (fun b d'' l' => Q b d'' (l ++ l'))) ->
  runs (mbind_ c k) d t Q.
Proof.
  intros (a & d1 & l1 & E1 & H1) Hk. destruct (Hk a d1 l1 H1) as (b & d2 & l2 & E2 & H2).
  exists b, d2, (l1 ++ l2). split; [|done]. unfold mbind_. rewrite E1. cbn [obind]. by rewrite E2, app_assoc.
Qed.

Lemma runs_mono {D A} (c : M D A) d t (P Q : A -> D -> trace -> Prop) :
  runs c d t P -> (forall a d' l, P a d' l -> Q a d' l) -> runs c d t Q.
Proof. intros (a & d1 & l1 & E1 & H1) H. exists a, d1, l1. auto. Qed.

Lemma runs_emit {D} e (d : D) t Q : Q tt d [e] -> runs (emit e) d t Q.
Proof. intros H. by exists tt, d, [e]. Qed.
