(* ===== verification/Uart.v ===== *)
(** * The serial console: uart.c, printf and printk

    The driver polls the line status register and writes bytes to the
    transmit register; [printf] and [printk] format into a buffer on the stack
    and hand it to [puts].  The data of the driver ([con]) is the memory it
    reads strings from and the message level; the device is the parameter of
    [Device].  Where a routine has a buffer on the stack, its address is a
    parameter, and so is the number of polls after which a waiting loop of the
    model gives up. *)

From S2P Require Import Prelude CMem Ctype Str StrFacts Strto Fmt FmtText FmtSpec FmtFormat Console Device Command.

Local Open Scope Z_scope.
Local Open Scope c_scope.

Record con : Type := Con {
  c_mem : mem;
  message_logleve : Z
}.

Abbreviation C := (M con).

(** ** Registers (uart.h) *)

Definition UART2_BASE : Z := 0xFEB50000.
Definition UART_BASE : Z := UART2_BASE.
Definition up_thr : Z := UART_BASE + 0x0.
Definition up_rbr : Z := UART_BASE + 0x0.
Definition up_lsr : Z := UART_BASE + 0x14.
Definition LSR_TEMT : Z := Z.shiftl 1 6.
Definition LSR_DR : Z := Z.shiftl 1 0.

Definition CONFIG_SYS_PBSIZE : Z := 1024.

(** A function of memory in the monad. *)
Definition on_mem {A} (f : mem -> outcome (mem * A)) : C A :=
  fun d t => let! '(m, a) := f (c_mem d) in Ok (a, Con m (message_logleve d), t).
Definition load_char (p : Z) : C Z := on_mem (fun m => let! c := load8 m p in Ok (m, c)).

Section driver.
Context (hw : hardware) (polls : nat).

(** [while (!(readl(&up->lsr) & bit));] *)
Definition wait_lsr (bit : Z) : C unit :=
  mwhile polls (fun _ =>
    do! v := readl_relaxed hw up_lsr in
    if Z.land v bit =? 0 then ret (inl tt) else ret (inr tt)) tt.

(** The part of [putc] behind its test for a newline. *)
Definition putc_raw (c : Z) : C unit :=
  seq! wait_lsr LSR_TEMT then writel_relaxed c up_thr.

(** A newline first makes the call [putc('\r')], which is no newline. *)
Definition putc (c : Z) : C unit :=
  if c =? 10 then seq! putc_raw 13 then putc_raw c else putc_raw c.

Definition getc : C Z :=
  seq! wait_lsr LSR_DR then
  do! v := readl_relaxed hw up_rbr in ret (Z.land v 0xff).

Definition puts (s : Z) : C unit :=
  do! d := get_data in
  mwhile (fuel_of (c_mem d)) (fun s =>
    do! c := load_char s in
    if c =? 0 then ret (inr tt) else
    seq! (if c =? 10 then putc 13 else ret tt) then
    seq! putc c then
    ret (inl (s + 1))) s.

Definition uart_init : C unit := ret tt.

(** ** printf *)

Definition printf (printbuffer fmt : Z) (args : list Z) : C Z :=
  do! i := on_mem (fun m => vscnprintf m printbuffer CONFIG_SYS_PBSIZE fmt args) in
  let i := u32 i in
  if i <=? 0 then ret (s32 i) else
  seq! puts printbuffer then ret (s32 i).

Definition vprintf (printbuffer fmt : Z) (args : list Z) : C Z :=
  do! i := on_mem (fun m => vscnprintf m printbuffer CONFIG_SYS_PBSIZE fmt args) in
  let i := u32 i in
  if i <=? 0 then ret (s32 i) else
  seq! puts printbuffer then ret (s32 i).

(** ** printk *)

Definition KERN_SOH_ASCII : Z := 1.
Definition LOGLEVEL_DEFAULT : Z := 52.

Definition printk_get_level (buffer : Z) : C Z :=
  do! c0 := load_char buffer in
  if negb (c0 =? KERN_SOH_ASCII) then ret 0 else
  do! c1 := load_char (buffer + 1) in
  if c1 =? 0 then ret 0 else
  if ((48 <=? c1) && (c1 <=? 55)) || (c1 =? 100) || (c1 =? 99) then ret c1 else ret 0.

Definition printk (log_buf fmt : Z) (args : list Z) : C Z :=
  do! i := on_mem (fun m => vsprintf m log_buf fmt args) in
  do! d := get_data in
  do! r := mwhile (fuel_of (c_mem d)) (fun '(buf, i, level) =>
    do! kern_level := printk_get_level buf in
    if kern_level =? 0 then ret (inr (buf, i, level)) else
    let level := if (48 <=? kern_level) && (kern_level <=? 55) then kern_level - 48 else LOGLEVEL_DEFAULT - 48 in
    ret (inl (buf + 2, s32 (i - 2), level))) (log_buf, i, LOGLEVEL_DEFAULT - 48) in
  let '(buf, i, level) := r in
  do! d := get_data in
  if level <=? message_logleve d then seq! puts buf then ret i else ret i.

(** ** The debug command *)

(** [msg] is the address of the literal "current message loglevel: %d\n",
    [printbuffer] that of the buffer of [printf]. *)
Definition do_debug (msg printbuffer : Z) (flag argc : Z) (argv : list Z) : C Z :=
  do! d := get_data in
  if argc =? 1 then
    seq! printf printbuffer msg [message_logleve d] then ret CMD_RET_SUCCESS
  else
    do! level := on_mem (fun m => let! '(v, _) := simple_strtoul m (default NULL (argv !! 1%nat)) 16 in Ok (m, v)) in
    let level := u8 level in
    if 8 <=? level then ret CMD_RET_FAILURE else
    do! d := get_data in
    seq! put_data (Con (c_mem d) level) then ret CMD_RET_SUCCESS.
End driver.
