(* ===== verification/UartFacts.v ===== *)
(** * The serial console: what goes over the wire

    [transmits l bs]: the accesses [l] send the bytes [bs], each of them
    written to the transmit register after the status register was read until
    it said that the transmitter is empty, and nothing else touches the
    device.  [wire] is the line discipline: what the bytes of a string become. *)

From S2P Require Import Prelude CMem Ctype Str StrFacts Strto Fmt FmtText FmtSpec FmtFormat Console Device Command Uart.

Local Open Scope Z_scope.
Local Open Scope c_scope.

(** ** A device that becomes ready *)

Section ready.
Context (hw : hardware).

(** The trace after [k] more reads of the status register. *)
Fixpoint polled (k : nat) (t : trace) : trace :=
  match k with
  | O => t
  | S k => polled k (t ++ [ReadL up_lsr (u32 (mmio hw t up_lsr))])
  end.

(** Whatever happened before, one of the next [n] reads of the status register
    shows bit [b]. *)
Definition ready (n : nat) (b : Z) : Prop :=
  forall t, exists k, (k < n)%nat /\ Z.testbit (u32 (mmio hw (polled k t) up_lsr)) b = true.
End ready.

(** A polling loop: the last read, and only it, shows the bit. *)
Definition waited (b : Z) (l : trace) : Prop :=
  exists busy v, l = busy ++ [ReadL up_lsr v] /\ Z.testbit v b = true /\
    Forall (fun e => exists x, e = ReadL up_lsr x /\ Z.testbit x b = false) busy.

Inductive transmits : trace -> list Z -> Prop :=
  | T_nil : transmits [] []
  | T_byte wait l c bs : waited 6 wait -> transmits l bs -> transmits (wait ++ WriteL up_thr c :: l) (c :: bs).

Lemma transmits_app l k bs cs : transmits l bs -> transmits k cs -> transmits (l ++ k) (bs ++ cs).
Proof.
  induction 1 as [|wait l c bs Hw Hl IH]; intros Hk; [done|]. rewrite <- app_assoc. cbn [app]. apply T_byte; auto.
Qed.

(** A newline is sent as two carriage returns and a line feed by [puts], as one
    and a line feed by [putc]. *)
Definition wire_char (c : Z) : list Z := if c =? 10 then [13; 10] else [c].
Definition wire (s : list Z) : list Z := flat_map (fun c => if c =? 10 then 13 :: wire_char c else wire_char c) s.

(** ** The driver *)

Section driver.
Context (hw : hardware) (polls : nat).

Lemma wait_lsr_runs bit b (d : con) t :
  bit = Z.shiftl 1 b -> 0 <= b -> ready hw polls b ->
  runs (wait_lsr hw polls bit) d t (fun _ d' l => d' = d /\ waited b l).
Proof.
  intros -> Hb Hr. specialize (Hr t). unfold wait_lsr. revert t Hr. induction polls as [|n IH]; intros t (k & Hk & Ht); [lia|].
  cbn [mwhile]. unfold mbind_ at 1 2. unfold readl_relaxed at 1. cbn [obind]. set (v := u32 (mmio hw t up_lsr)) in *.
  destruct (Z.testbit v b) eqn:Ev.
  - exists tt, d, [ReadL up_lsr v]. unfold mbind_ at 1, readl_relaxed at 1. cbn [obind]. fold v. rewrite land_bit, Ev by done. split; [done|].
    split; [done|]. exists [], v. auto.
  - destruct k as [|k]; [cbn [polled] in Ht; fold v in Ht; congruence|]. cbn [polled] in Ht. fold v in Ht.
    destruct (IH (t ++ [ReadL up_lsr v])) as (a & d' & l & E & -> & busy & x & -> & Hx & HF); [exists k; split; [lia|done]|].
    exists a, d, (ReadL up_lsr v :: busy ++ [ReadL up_lsr x]). split.
    + unfold mbind_ at 1, readl_relaxed at 1. cbn [obind]. fold v. rewrite land_bit, Ev by done. cbn [negb ret obind].
      etrans; [exact E|]. by rewrite <- app_assoc.
    + split; [done|]. exists (ReadL up_lsr v :: busy), x. split; [done|]. split; [done|]. constructor; eauto.
Qed.

(** [c] leaves the data alone and sends the bytes [bs]. *)
Definition sends {A} (c : C A) (d : con) (t : trace) (bs : list Z) (Q : A -> Prop) : Prop :=
  runs c d t (fun a d' l => d' = d /\ transmits l bs /\ Q a).

Lemma sends_bind {A B} (c : C A) (k : A -> C B) d t bs cs P Q :
  sends c d t bs P -> (forall a t', P a -> sends (k a) d t' cs Q) -> sends (mbind_ c k) d t (bs ++ cs) Q.
Proof.
  intros Hc Hk. eapply runs_bind; [exact Hc|]. cbv beta. intros a d' l (-> & Hl & Ha).
  eapply runs_mono; [by apply Hk|]. cbv beta. intros b d'' l' (-> & Hl' & Hb). auto using transmits_app.
Qed.

Lemma sends_ret {A} (a : A) d t (Q : A -> Prop) : Q a -> sends (ret a) d t [] Q.
Proof. intros H. apply runs_ret. repeat split; [constructor|done]. Qed.

Lemma sends_bind_nil {A B} (c : C A) (k : A -> C B) d t bs P Q :
  sends c d t [] P -> (forall a t', P a -> sends (k a) d t' bs Q) -> sends (mbind_ c k) d t bs Q.
Proof. intros Hc Hk. apply (sends_bind c k d t [] bs P Q); auto. Qed.

Context (Hready : ready hw polls 6).

Lemma putc_raw_sends c d t : 0 <= c < 2 ^ 32 -> sends (putc_raw hw polls c) d t [c] (fun _ => True).
Proof.
  intros Hc. eapply runs_bind; [apply (wait_lsr_runs LSR_TEMT 6); [done|lia|done]|]. cbv beta. intros _ d' l (-> & Hw).
  apply runs_emit. rewrite u32_small by done. split; [done|]. split; [|done]. apply T_byte; [done|constructor].
Qed.

Lemma putc_sends c d t : 0 <= c < 2 ^ 32 -> sends (putc hw polls c) d t (wire_char c) (fun _ => True).
Proof.
  intros Hc. unfold putc, wire_char. destruct (Z.eqb_spec c 10) as [->|]; [|by apply putc_raw_sends].
  apply (sends_bind _ _ _ _ [13] [10] (fun _ => True)); [apply putc_raw_sends; lia|]. intros _ t' _. by apply putc_raw_sends.
Qed.

Lemma load_char_sends p c d t : c_mem d !! p = Some c -> sends (load_char p) d t [] (fun x => x = c).
Proof.
  intros H. exists c, d, []. unfold load_char, on_mem, load8. rewrite H. cbn [obind]. rewrite app_nil_r. split; [by destruct d|].
  repeat split. constructor.
Qed.

Lemma puts_loop s : forall p fuel d t,
  cstr (c_mem d) p s -> (length s < fuel)%nat ->
  sends (mwhile fuel (fun s =>
    do! c := load_char s in
    if c =? 0 then ret (inr tt) else
    seq! (if c =? 10 then putc hw polls 13 else ret tt) then
    seq! putc hw polls c then
    ret (inl (s + 1))) p) d t (wire s) (fun _ => True).
Proof.
  induction s as [|c s IH]; intros p fuel d t Hs Hf; (destruct fuel as [|fuel]; [cbn in Hf; lia|]); cbn [mwhile].
  - apply (sends_bind_nil _ _ _ _ _ (fun r => r = inr tt)); [|by intros r t' ->; apply sends_ret].
    eapply sends_bind_nil; [apply load_char_sends; apply Hs|]. intros x t' ->. by apply sends_ret.
  - destruct (cstr_cons _ _ _ _ Hs) as (Hl & Hc & Hs'). unfold load8 in Hl. destruct (c_mem d !! p) eqn:Ep; [|done]. injection Hl as ->.
    cbn [wire flat_map]. fold (wire s).
    apply (sends_bind _ _ _ _ _ _ (fun r => r = inl (p + 1))).
    + eapply sends_bind_nil; [by apply load_char_sends|]. intros x t' ->. destruct (Z.eqb_spec c 0); [lia|].
      replace (if c =? 10 then 13 :: wire_char c else wire_char c) with ((if c =? 10 then [13] else []) ++ wire_char c) by by destruct (c =? 10).
      apply (sends_bind _ _ _ _ _ _ (fun _ => True)); [case_cmp; [apply (putc_sends 13); lia|by apply sends_ret]|].
      intros _ t'' _. rewrite <- (app_nil_r (wire_char c)). eapply sends_bind; [apply putc_sends; lia|].
      intros _ t3 _. by apply sends_ret.
    + intros r t' ->. apply IH; [done|cbn in Hf; lia].
Qed.

Lemma puts_sends p s d t : cstr (c_mem d) p s -> sends (puts hw polls p) d t (wire s) (fun _ => True).
Proof.
  intros Hs. unfold puts. eapply sends_bind_nil; [apply (sends_ret d d t (fun a => a = d)); done|].
  intros a t' ->. apply puts_loop; [done|]. by eapply cstr_fuel.
Qed.
End driver.
