(* ===== verification/UartTheorems.v ===== *)
(** * The serial console: claims

    [printf] and [printk] down to the wire, and the message level. *)

From S2P Require Import Prelude CMem Ctype Str StrFacts Strto Fmt FmtText FmtSpec FmtFormat Console Device Command Uart UartFacts.

Local Open Scope Z_scope.
Local Open Scope c_scope.

(** ** Texts are bytes *)

Lemma replicate_bytes n c : byte_range c -> Forall byte_range (replicate n c).
Proof. intros Hc. by apply list.Forall_replicate. Qed.

Lemma padded_bytes left w s : Forall byte_range s -> Forall byte_range (padded left w s).
Proof.
  intros Hs. unfold padded. destruct left; apply list.Forall_app_2; try done; apply replicate_bytes; unfold byte_range; lia.
Qed.

Lemma number_text_bytes num base w prec type ds : Forall byte_range ds -> Forall byte_range (number_text num base w prec type ds).
Proof.
  intros Hd. unfold number_text. destruct (number_sign num w type) as [[sign x] size] eqn:E.
  assert (byte_range sign) as Hs by (unfold number_sign in E; repeat case_match; injection E as <- <- <-; unfold byte_range; lia).
  assert (byte_range 32 /\ byte_range 48 /\ byte_range (Z.lor 88 (Z.land type SMALL))) as (H32 & H48 & Hx).
  { destruct (land_small type) as [-> | ->]; unfold byte_range; change (Z.lor 88 0) with 88; change (Z.lor 88 32) with 120; lia. }
  cbv zeta. assert (Forall byte_range (reverse ds)) by by apply Forall_reverse.
  repeat (apply list.Forall_app_2); repeat case_match; auto using replicate_bytes.
Qed.

Lemma shows_bytes m d a text : shows m d a text -> Forall byte_range text.
Proof.
  destruct 1 as [_|s _ Hs shown|base extra ds _ type num Hr _].
  - apply padded_bytes. constructor; [apply u8_range|constructor].
  - apply padded_bytes. unfold shown. assert (Forall byte_range s).
    { unfold string_arg in Hs. case_match; [|by apply cstr_byte_range, Hs]. subst s. cbn. repeat (constructor; [unfold byte_range; lia|]). constructor. }
    case_match; [done|by apply list.Forall_take].
  - apply number_text_bytes. by eapply represents_bytes.
Qed.

Lemma renders_bytes m space items args text : Forall item_ok items -> renders m space items args text -> Forall byte_range text.
Proof.
  intros HF H. induction H; apply list.Forall_cons_1 in HF as [Hi HF] || (by constructor); specialize (IHrenders HF).
  - constructor; [destruct Hi; unfold byte_range; lia|done].
  - constructor; [unfold byte_range; lia|done].
  - apply list.Forall_app_2; [by eapply shows_bytes|done].
  - apply list.Forall_app_2; [|done]. apply padded_bytes. constructor; [unfold byte_range; lia|constructor].
Qed.

(** ** Strings in buffers *)

(** The part of the bytes that C sees as a string. *)
Definition until_nul (l : list Z) : list Z := take (span (fun c => negb (c =? 0)) l) l.

Lemma until_nul_cstr m p l : bytes_at m p (l ++ [0]) -> Forall byte_range l -> cstr m p (until_nul l).
Proof.
  unfold until_nul. revert p. induction l as [|c l IH]; intros p Hm HF; [split; [done|constructor]|].
  destruct Hm as [Hc Hm]. apply list.Forall_cons_1 in HF as [Hr HF]. destruct (IH _ Hm HF) as [H1 H2]. cbn [span].
  destruct (Z.eqb_spec c 0) as [->|Hn]; cbn [negb take].
  - split; [done|constructor].
  - split; [split; done|]. constructor; [unfold byte_range in Hr; lia|done].
Qed.

(** What [printf] returns for a text of [n] bytes, [n] as the [int] that
    [vsnprintf] reports. *)
Definition printed (n : Z) : Z := if (0 <=? n) && (n <? 1024) then n else 1023.

Section printf.
Context (hw : hardware) (polls : nat) (Hready : ready hw polls 6).

Lemma vscnprintf_renders (m : mem) (buf fmt : Z) (items : list item) (args : list Z) :
  Forall item_ok items -> cstr m fmt (spelling items) -> 0 <= buf -> buf + 1024 < 2 ^ 64 -> mapped m buf 1024 ->
  clear_of buf (buf + 1024) fmt (Z.of_nat (length (spelling items))) -> args_ok buf (buf + 1024) m 1024 items args ->
  exists text, renders m 1024 items args text /\ (Z.of_nat (length text) <= 1024 -> means m items args text) /\
    vscnprintf m buf CONFIG_SYS_PBSIZE fmt args =
      Ok (write_bytes m buf (take 1023 text ++ [0]), printed (s32 (Z.of_nat (length text)))).
Proof.
  intros HF Hf Hb He Hm Hc Ha. destruct (vsnprintf_renders m buf 1024 fmt items args) as (text & Ht & Hme & E); auto; [lia|].
  exists text. split; [done|]. split; [done|]. unfold vscnprintf. change CONFIG_SYS_PBSIZE with 1024. rewrite E. cbn [obind]. unfold printed.
  change (Z.to_nat (1024 - 1)) with 1023%nat. set (n := s32 _).
  assert (- 2 ^ 31 <= n < 2 ^ 31) as Hn by (apply (swrap_range 32); lia). clearbody n.
  destruct (Z.leb_spec 0 n); cbn [andb].
  - rewrite u64_small by lia. by destruct (n <? 1024).
  - destruct (Z.ltb_spec (u64 n) 1024) as [Hlt|]; [|done]. exfalso. unfold u64 in Hlt.
    rewrite <- (Z.mod_add n 1), Z.mod_small in Hlt by lia. lia.
Qed.

Lemma printf_runs d t buf fmt args m' text :
  Forall byte_range text ->
  vscnprintf (c_mem d) buf CONFIG_SYS_PBSIZE fmt args = Ok (m', printed (s32 (Z.of_nat (length text)))) ->
  m' = write_bytes (c_mem d) buf (take 1023 text ++ [0]) ->
  let i := printed (s32 (Z.of_nat (length text))) in
  runs (printf hw polls buf fmt args) d t (fun r d' l =>
    r = i /\ d' = Con m' (message_logleve d) /\ transmits l (if i =? 0 then [] else wire (until_nul (take 1023 text)))).
Proof.
  intros HF E Hm i. fold i in E. assert (0 <= i < 1024) as Hi by (unfold i, printed; repeat case_cmp; cbn; lia).
  unfold printf. eapply (runs_bind _ _ _ _ (fun a d' l => a = i /\ d' = Con m' (message_logleve d) /\ l = [])).
  { exists i, (Con m' (message_logleve d)), []. unfold on_mem. rewrite E. cbn [obind]. by rewrite app_nil_r. }
  intros a d' l (-> & -> & ->). cbn [app]. rewrite app_nil_r, u32_small by lia. rewrite (swrap_small 32) by lia.
  destruct (Z.leb_spec i 0), (Z.eqb_spec i 0); try lia.
  { apply runs_ret. repeat split. constructor. }
  rewrite <- (app_nil_r (wire _)). eapply runs_mono.
  - eapply (sends_bind _ _ _ _ _ _ (fun _ => True) (fun r => r = i)); [|intros; by apply sends_ret].
    apply puts_sends; [done|]. cbn [c_mem]. apply until_nul_cstr; [rewrite Hm; apply write_bytes_at|by apply list.Forall_take].
  - cbv beta. intros r d'' l (-> & Hl & ->). auto.
Qed.
End printf.

(** ** printk *)

Definition is_level (k : Z) : bool := ((48 <=? k) && (k <=? 55)) || (k =? 100) || (k =? 99).

(** The level markers at the head of a message, and the message proper. *)
Fixpoint split_levels (s : list Z) : list Z * list Z :=
  match s with
  | c :: k :: s' =>
      if (c =? KERN_SOH_ASCII) && is_level k then let '(ks, body) := split_levels s' in (k :: ks, body) else ([], s)
  | _ => ([], s)
  end.

(** The level a marker stands for, and that of a message: the last marker's. *)
Definition level_of (k : Z) : Z := if (48 <=? k) && (k <=? 55) then k - 48 else 4.
Definition message_level (ks : list Z) : Z := default 4 (level_of <$> last ks).

Section printk.
Context (hw : hardware) (polls : nat) (Hready : ready hw polls 6).

Lemma get_level_sends p s (d : con) t :
  cstr (c_mem d) p s ->
  sends (printk_get_level p) d t [] (fun r =>
    r = match s with c :: k :: _ => if (c =? KERN_SOH_ASCII) && is_level k then k else 0 | _ => 0 end).
Proof.
  intros Hs. unfold printk_get_level. destruct s as [|c s].
  { eapply sends_bind_nil; [apply load_char_sends; apply Hs|]. intros x t' ->. by apply sends_ret. }
  destruct Hs as [[Hc Hm] HF]. apply list.Forall_cons_1 in HF as [Hr HF].
  eapply sends_bind_nil; [by apply load_char_sends|]. intros x t' ->.
  destruct (c =? KERN_SOH_ASCII) eqn:Ec; cbn [negb]; [|apply sends_ret; by destruct s].
  destruct s as [|k s].
  { eapply sends_bind_nil; [apply load_char_sends; apply Hm|]. intros x t'' ->. by apply sends_ret. }
  eapply sends_bind_nil; [apply load_char_sends; apply Hm|]. intros x t'' ->. apply list.Forall_cons_1 in HF as [Hk _].
  destruct (Z.eqb_spec k 0); [lia|]. cbn [andb]. fold (is_level k). destruct (is_level k); by apply sends_ret.
Qed.

Lemma s32_s32_sub i j : s32 (s32 i - j) = s32 (i - j).
Proof.
  unfold s32, swrap. change (32 - 1) with 31. f_equal.
  replace ((i + 2 ^ 31) mod 2 ^ 32 - 2 ^ 31 - j + 2 ^ 31) with ((i + 2 ^ 31) mod 2 ^ 32 - j) by lia.
  rewrite Zminus_mod_idemp_l. f_equal. lia.
Qed.

Lemma is_level_nz k : is_level k = true -> k <> 0.
Proof. intros H ->. done. Qed.

Lemma levels_loop ks body : forall s p fuel i level d t,
  cstr (c_mem d) p s -> split_levels s = (ks, body) -> s32 i = i -> (length s < fuel)%nat ->
  sends (mwhile fuel (fun '(buf, i, level) =>
    do! kern_level := printk_get_level buf in
    if kern_level =? 0 then ret (inr (buf, i, level)) else
    let level := if (48 <=? kern_level) && (kern_level <=? 55) then kern_level - 48 else LOGLEVEL_DEFAULT - 48 in
    ret (inl (buf + 2, s32 (i - 2), level))) (p, i, level)) d t []
    (fun '(buf, i', level') => cstr (c_mem d) buf body /\ i' = s32 (i - 2 * Z.of_nat (length ks)) /\
      level' = default level (level_of <$> last ks)).
Proof.
  induction ks as [|k ks IH]; intros s p fuel i level d t Hs Hks Hi Hf; (destruct fuel as [|fuel]; [lia|]); cbn [mwhile].
  - apply (sends_bind_nil _ _ _ _ _ (fun r => r = inr (p, i, level))).
    + eapply sends_bind_nil; [by eapply get_level_sends|]. intros r t' ->.
      assert (match s with c :: k :: _ => if (c =? KERN_SOH_ASCII) && is_level k then k else 0 | _ => 0 end = 0) as ->;
        [|by apply sends_ret].
      destruct s as [|c [|k s]]; [done..|]. cbn [split_levels] in Hks. destruct ((c =? KERN_SOH_ASCII) && is_level k); [|done].
      by destruct (split_levels s).
    + intros r t' ->. apply sends_ret. assert (s = body) as <-.
      { destruct s as [|c [|k s]]; cbn [split_levels] in Hks; [congruence..|].
        destruct ((c =? KERN_SOH_ASCII) && is_level k); [by destruct (split_levels s)|congruence]. }
      split; [done|]. split; [|done]. cbn [length]. by replace (i - 2 * Z.of_nat 0) with i by lia.
  - destruct s as [|c [|k' s]]; [done..|]. cbn [split_levels] in Hks.
    destruct ((c =? KERN_SOH_ASCII) && is_level k') eqn:Ec; [|done]. destruct (split_levels s) as [ks' body'] eqn:Es.
    injection Hks as -> -> ->.
    apply (sends_bind_nil _ _ _ _ _ (fun r => r = inl (p + 2, s32 (i - 2), level_of k))).
    + eapply sends_bind_nil; [by eapply get_level_sends|]. intros r t' ->. rewrite Ec. apply andb_prop in Ec as [_ Hk].
      apply is_level_nz in Hk. destruct (Z.eqb_spec k 0); [done|]. by apply sends_ret.
    + intros r t' ->. eapply runs_mono; [apply (IH s (p + 2))|].
      * apply cstr_tail, cstr_tail in Hs. by replace (p + 2) with (p + 1 + 1) by lia.
      * done.
      * rewrite <- (Z.sub_0_r (s32 (i - 2))), s32_s32_sub at 1. f_equal. lia.
      * cbn [length] in Hf. lia.
      * cbv beta. intros [[buf i'] level'] d' l (-> & Hl & Hb & -> & ->). split; [done|]. split; [done|]. split; [done|]. split.
        -- rewrite s32_s32_sub. f_equal. cbn [length]. lia.
        -- destruct ks as [|k2 ks]; [done|]. rewrite last_cons_cons. by destruct (last (k2 :: ks)) eqn:E; [|apply last_None in E].
Qed.
End printk.

(** ** Input, the console events and the message level *)

(** [getc] waits for a byte and takes exactly one from the receive register. *)
Lemma getc_takes hw polls (d : con) t :
  ready hw polls 0 ->
  runs (getc hw polls) d t (fun r d' l => d' = d /\
    exists wait v, waited 0 wait /\ l = wait ++ [ReadL up_rbr v] /\ r = v mod 256).
Proof.
  intros Hr. unfold getc. eapply runs_bind; [apply (wait_lsr_runs hw polls LSR_DR 0); [done|lia|done]|].
  cbv beta. intros _ d' l (-> & Hw). unfold runs, mbind_, readl_relaxed. cbn [obind ret]. set (v := u32 _).
  exists (Z.land v 0xff), d, [ReadL up_rbr v]. split; [done|]. split; [done|]. exists l, v. split; [done|]. split; [done|].
  change 255 with (2 ^ 8 - 1). by rewrite land_mask.
Qed.

(** The event that [Console.puts] records is what the driver sends. *)
Lemma console_puts_wire hw polls p s (w : world) lvl t :
  ready hw polls 6 -> cstr (w_mem w) p s ->
  Console.puts p w = Ok (say (Puts s) w) /\ sends (puts hw polls p) (Con (w_mem w) lvl) t (wire s) (fun _ => True).
Proof.
  intros Hr Hs. split; [|by apply puts_sends]. unfold Console.puts. rewrite (strlen_cstr _ _ _ Hs). cbn [obind]. rewrite Nat2Z.id.
  by rewrite bytes_at_read_bytes by by apply cstr_bytes.
Qed.

Lemma do_debug_sets hw polls msg pb flag p s rest v e (d : con) t :
  cstr (c_mem d) p s -> simple_strtoul (c_mem d) p 16 = Ok (v, e) ->
  do_debug hw polls msg pb flag 2 (rest :: [p]) d t =
    Ok (if u8 v <? 8 then (CMD_RET_SUCCESS, Con (c_mem d) (u8 v), t) else (CMD_RET_FAILURE, d, t)).
Proof.
  intros Hs E. unfold do_debug, mbind_, get_data, on_mem. cbn [obind Z.eqb Pos.eqb lookup list_lookup default]. 
  cbn. rewrite E. cbn [obind]. destruct d as [m lvl]. cbn [c_mem message_logleve].
  destruct (Z.leb_spec 8 (u8 v)), (Z.ltb_spec (u8 v) 8); done || lia.
Qed.

(** ** Claims *)


(** A port whose transmitter is busy on every other read. *)
Definition lazy_port : hardware :=
  Hardware (fun t _ => if Nat.even (length t) then 0 else 0x60) (fun _ _ => 0).

Lemma lazy_port_ready : ready lazy_port 2 6.
Proof.
  intros t. destruct (Nat.even (length t)) eqn:E.
  - exists 1%nat. split; [lia|]. cbn [polled lazy_port mmio]. rewrite length_app, Nat.add_1_r, Nat.even_succ, <- Nat.negb_even, E. done.
  - exists 0%nat. split; [lia|]. cbn [polled lazy_port mmio]. by rewrite E.
Qed.

(** "n=%d\n" *)
Definition hello_items : list item := [Text 110; Text 61; Conv (Directive [] [] None [] 100); Text 10].
Definition hello_mem : mem := write_bytes (mem_of 100 (spelling hello_items ++ [0])) 0x1000 (replicate 1024 0).

Lemma hello_mem_facts :
  cstr hello_mem 100 (spelling hello_items) /\ mapped hello_mem 0x1000 1024.
Proof.
  split; [split; [vm_compute; repeat split|repeat constructor]|].
  apply (bytes_at_mapped _ 0x1000 (replicate 1024 0)), write_bytes_at.
Qed.


(** C36: [printk] filters by level.  Let [vsprintf] leave the string [s] in the
    buffer and report [i].  [printk] strips all the level markers at its head,
    takes the last one as the level of the message (4 without a marker, and for
    the markers 'd' and 'c'), and transmits the rest if the level is at most
    the message level and nothing otherwise; it returns [i] less two for every
    marker. *)
Theorem printk_correct (hw : hardware) (polls : nat) (d : con) (t : trace) (buf fmt : Z) (args : list Z) (m' : mem) (i : Z) (s : list Z) :
  ready hw polls 6 -> vsprintf (c_mem d) buf fmt args = Ok (m', i) -> - 2 ^ 31 <= i < 2 ^ 31 -> cstr m' buf s ->
  let '(ks, body) := split_levels s in
  runs (printk hw polls buf fmt args) d t (fun r d' l =>
    r = s32 (i - 2 * Z.of_nat (length ks)) /\ d' = Con m' (message_logleve d) /\
    transmits l (if message_level ks <=? message_logleve d then wire body else [])).
Proof.
  intros Hr E Hi Hs. destruct (split_levels s) as [ks body] eqn:Es. unfold printk.
  set (d1 := Con m' (message_logleve d)).
  eapply (runs_bind _ _ _ _ (fun a d' l => a = i /\ d' = d1 /\ l = [])).
  { exists i, d1, []. unfold on_mem. rewrite E. cbn [obind]. by rewrite app_nil_r. }
  intros a d' l (-> & -> & ->). cbn [app]. rewrite app_nil_r.
  eapply runs_mono with (P := fun r d' l => d' = d1 /\ transmits l _ /\ r = s32 (i - 2 * Z.of_nat (length ks))); [|cbv beta; intros r d' l (-> & ? & ->); eauto].
  eapply (sends_bind_nil _ _ _ _ _ (fun a => a = d1)); [by apply sends_ret|]. intros a t' ->.
  eapply sends_bind_nil.
  { apply (levels_loop ks body s); [exact Hs|done|by apply (swrap_small 32)|by eapply cstr_fuel]. }
  intros [[buf' i'] level] t2 (Hb & -> & ->). eapply (sends_bind_nil _ _ _ _ _ (fun a => a = d1)); [by apply sends_ret|]. intros a t3 ->.
  change (message_logleve d1) with (message_logleve d). unfold message_level. change (LOGLEVEL_DEFAULT - 48) with 4.
  destruct (_ <=? _); [|by apply sends_ret]. rewrite <- (app_nil_r (wire body)).
  apply (sends_bind _ _ _ _ _ _ (fun _ => True)); [by apply puts_sends|]. intros _ t4 _. by apply sends_ret.
Qed.

(** KERN_ERR "e%d" *)
Definition err_mem : mem := write_bytes (mem_of 100 [1; 51; 101; 37; 100; 0]) 0x1000 (replicate 16 0).

Lemma printk_correct_witness :
  runs (printk lazy_port 2 0x1000 100 [42]) (Con err_mem 7) [] (fun r _ l => r = 3 /\ transmits l [101; 52; 50]) /\
  runs (printk lazy_port 2 0x1000 100 [42]) (Con err_mem 2) [] (fun r _ l => r = 3 /\ transmits l []).
Proof.
  assert (exists m', vsprintf err_mem 0x1000 100 [42] = Ok (m', 5) /\ cstr m' 0x1000 [1; 51; 101; 52; 50]) as (m' & E & Hs).
  { eexists. split; [vm_compute; reflexivity|]. split; [vm_compute; repeat split|repeat constructor]. }
  split.
  - eapply runs_mono; [apply (printk_correct lazy_port 2 (Con err_mem 7) [] 0x1000 100 [42] m' 5 _ lazy_port_ready E ltac:(lia) Hs)|].
    cbn. intros r d l (-> & _ & Hl). split; [reflexivity|exact Hl].
  - eapply runs_mono; [apply (printk_correct lazy_port 2 (Con err_mem 2) [] 0x1000 100 [42] m' 5 _ lazy_port_ready E ltac:(lia) Hs)|].
    cbn. intros r d l (-> & _ & Hl). split; [reflexivity|exact Hl].
Defined.
