(* ===== verification/Gic.v ===== *)
(** * The interrupt controller driver (module/gicv3/irq-gicv3.c, irq-gic-common.c)

    Distributor, redistributor and CPU interface: initialisation, the
    per-interrupt operations, and the type of an interrupt.  The driver's data
    is the record [irq_gic_v3] and the table of handlers (common/interrupt.c,
    see [Interrupt]); registers belong to the [hardware].

    Barriers (isb), cpu_relax and messages at debug level are left out.  The wait loops poll at most as
    often as the code allows, which is their fuel.  The scan over the
    redistributors stops at the frame the hardware marks as the last one; the
    number of frames is the parameter [frames]. *)

From S2P Require Import Prelude CMem Device.
From stdpp Require Import strings.

Local Open Scope string_scope.
Local Open Scope Z_scope.
Local Open Scope c_scope.

Record irq_gic_v3 : Type := GicData {
  has_rss : bool;
  dist_base : Z;
  rdist_base : Z;
  has_vlpis : bool;
  gic_irqs : Z;
  gic_typer : Z;
  has_direct_lpi : bool
}.

(** A handler is the address of its code, 0 when there is none. *)
Record irq_handler_struct : Type := IrqHandler {
  irqid : Z;
  handler : Z;
  arg : Z;
  irqname : string;
  irqflags : Z
}.

Record gic_state : Type := GicState {
  gic_data : irq_gic_v3;
  irq_handler_tab : gmap Z irq_handler_struct
}.

Abbreviation G := (M gic_state).

(** ** Registers *)

Definition GICD_CTLR : Z := 0x0000.
Definition GICD_TYPER : Z := 0x0004.
Definition GICD_IGROUPR : Z := 0x0080.
Definition GICD_ISENABLER : Z := 0x0100.
Definition GICD_ICENABLER : Z := 0x0180.
Definition GICD_ISPENDR : Z := 0x0200.
Definition GICD_ICPENDR : Z := 0x0280.
Definition GICD_ISACTIVER : Z := 0x0300.
Definition GICD_ICACTIVER : Z := 0x0380.
Definition GICD_ICACTIVERn : Z := 0x0380.
Definition GICD_ICFGR : Z := 0x0C00.
Definition GICD_IGRPMODR : Z := 0x0D00.
Definition GICD_IROUTER : Z := 0x6100.
Definition GICD_PIDR2 : Z := 0xFFE8.
Definition GICD_CTLR_RWP : Z := Z.shiftl 1 31.
Definition GICD_CTLR_DS : Z := Z.shiftl 1 6.
Definition GICD_CTLR_ENABLE_G1 : Z := 1.
Definition GICD_TYPER_RSS : Z := Z.shiftl 1 26.
Definition GICD_TYPER_LPIS : Z := Z.shiftl 1 17.
Definition GICD_TYPER_MBIS : Z := Z.shiftl 1 16.
Definition GICD_TYPER_IRQS (typer : Z) : Z := (Z.land typer 0x1f + 1) * 32.
Definition GIC_PIDR2_ARCH_MASK : Z := 0xf0.
Definition GIC_PIDR2_ARCH_GICv3 : Z := 0x30.
Definition GIC_PIDR2_ARCH_GICv4 : Z := 0x40.
Definition GICR_CTLR : Z := GICD_CTLR.
Definition GICR_TYPER : Z := 0x0008.
Definition GICR_WAKER : Z := 0x0014.
Definition GICR_PWRR : Z := 0x0024.
Definition GICR_PIDR2 : Z := GICD_PIDR2.
Definition GICR_CTLR_RWP : Z := Z.shiftl 1 3.
Definition GICR_WAKER_ProcessorSleep : Z := Z.shiftl 1 1.
Definition GICR_WAKER_ChildrenAsleep : Z := Z.shiftl 1 2.
Definition GICR_SGI_BASE : Z := 0x10000.
Definition GICR_IGROUPR0 : Z := GICD_IGROUPR.
Definition GICR_IGRPMODR0 : Z := GICD_IGRPMODR.
Definition GICR_TYPER_VLPIS : Z := Z.shiftl 1 1.
Definition GICR_TYPER_DirectLPIS : Z := Z.shiftl 1 3.
Definition GICR_TYPER_LAST : Z := Z.shiftl 1 4.
Definition GICR_OFFSET : Z := 2 * 0x10000.
Definition GIC_DIST_ENABLE_SET : Z := 0x100.
Definition GIC_DIST_ENABLE_CLEAR : Z := 0x180.
Definition GIC_DIST_ACTIVE_CLEAR : Z := 0x380.
Definition GIC_DIST_PRI : Z := 0x400.
Definition GIC_DIST_CONFIG : Z := 0xc00.
Definition GICD_INT_ACTLOW_LVLTRIG : Z := 0x0.
Definition GICD_INT_EN_CLR_X32 : Z := 0xffffffff.
Definition GICD_INT_EN_SET_SGI : Z := 0x0000ffff.
Definition GICD_INT_EN_CLR_PPI : Z := 0xffff0000.
Definition GICD_INT_DEF_PRI : Z := 0xa0.
Definition GICD_INT_DEF_PRI_X4 : Z :=
  Z.lor (Z.lor (Z.lor (Z.shiftl GICD_INT_DEF_PRI 24) (Z.shiftl GICD_INT_DEF_PRI 16)) (Z.shiftl GICD_INT_DEF_PRI 8))
        GICD_INT_DEF_PRI.
Definition ICC_SRE_EL1_SRE : Z := 1.
Definition ICC_CTLR_EL1_PRI_BITS_SHIFT : Z := 8.
Definition ICC_CTLR_EL1_PRI_BITS_MASK : Z := Z.shiftl 0x7 ICC_CTLR_EL1_PRI_BITS_SHIFT.
Definition ICC_CTLR_EL1_EOImode_drop : Z := Z.shiftl 1 1.
Definition ICC_IGRPEN0_EL1_MASK : Z := 1.
Definition ICC_IGRPEN1_EL1_MASK : Z := 1.
Definition GICC_IAR_INT_MASK : Z := 0xffffff.
Definition MPIDR_HWID_BITMASK : Z := 0xff00ffffff.
Definition DEFAULT_PMR_VALUE : Z := 0xff.
Definition GICV3_DIST_BASE : Z := 0xFE600000.
Definition GICV3_RDIST_0_BASE : Z := GICV3_DIST_BASE + 0x60000.
Definition SZ_64K : Z := 0x10000.
Definition SZ_128K : Z := 0x20000.
Definition CPU_NUM : Z := 1.
Definition ENODEV : Z := 19.
Definition EINVAL : Z := 22.
Definition LPI_IRQ_MIN : Z := 8192.
Definition MAX_IRQ_ID : Z := LPI_IRQ_MIN + 32.

Definition MPIDR_LEVEL_SHIFT (level : Z) : Z := Z.shiftl (Z.shiftr (Z.shiftl 1 level) 1) 3.
Definition MPIDR_AFFINITY_LEVEL (mpidr level : Z) : Z :=
  Z.land (Z.shiftr mpidr (MPIDR_LEVEL_SHIFT level)) 0xff.

(** A bit mask is not zero. *)
Definition flag (v mask : Z) : bool := negb (Z.land v mask =? 0).

Section gic.
Context (hw : hardware) (frames : nat).
Local Abbreviation readl_relaxed := (readl_relaxed hw).
Local Abbreviation readq_relaxed := (readq_relaxed hw).
Local Abbreviation read_sysreg_s := (read_sysreg_s hw).

Definition data : G irq_gic_v3 := do! s := get_data in ret (gic_data s).
Definition set_data (f : irq_gic_v3 -> irq_gic_v3) : G unit :=
  do! s := get_data in put_data (GicState (f (gic_data s)) (irq_handler_tab s)).

(** ** Low-level accessors (arm-gic-v3.h) *)

Definition gic_write_eoir (irq : Z) : G unit := write_sysreg_s (u32 irq) "ICC_EOIR1_EL1".
Definition gic_write_dir (irq : Z) : G unit := write_sysreg_s (u32 irq) "ICC_DIR_EL1".
Definition gic_write_ctlr (v : Z) : G unit := write_sysreg_s (u32 v) "ICC_CTLR_EL1".
Definition gic_read_ctlr : G Z := do! v := read_sysreg_s "ICC_CTLR_EL1" in ret (u32 v).
Definition gic_write_grpen1 (v : Z) : G unit := write_sysreg_s (u32 v) "ICC_IGRPEN1_EL1".
Definition gic_read_sre : G Z := do! v := read_sysreg_s "ICC_SRE_EL1" in ret (u32 v).
Definition gic_write_sre (v : Z) : G unit := write_sysreg_s (u32 v) "ICC_SRE_EL1".
Definition gic_write_bpr1 (v : Z) : G unit := write_sysreg_s (u32 v) "ICC_BPR1_EL1".
Definition gic_read_typer (a : Z) : G Z := readq_relaxed a.
Definition gic_write_irouter (v a : Z) : G unit := writeq_relaxed v a.

Definition gic_enable_sre : G bool :=
  do! v := gic_read_sre in
  if flag v ICC_SRE_EL1_SRE then ret true else
  let v := Z.lor v ICC_SRE_EL1_SRE in
  seq! gic_write_sre v then
  do! v := gic_read_sre in
  ret (flag v ICC_SRE_EL1_SRE).

(** ** Waiting *)

(** Poll the register at [a] until the bits [rwp] are clear, one microsecond
    apart and at most [limit] times. *)
Definition wait_for_rwp (limit : nat) (a rwp : Z) (err : string) : G unit :=
  mwhile (S limit) (fun count =>
    do! v := readl_relaxed a in
    if negb (flag v rwp) then ret (inr tt) else
    let count := count - 1 in
    if count =? 0 then seq! message err [] then ret (inr tt) else
    seq! udelay 1 then
    ret (inl count)) (Z.of_nat limit).

Definition ONE_SECOND : nat := Z.to_nat 1000000.

Definition gic_do_wait_for_rwp (base : Z) : G unit :=
  wait_for_rwp ONE_SECOND (base + GICD_CTLR) GICD_CTLR_RWP "ERROR: RWP timeout, gone fishing\n".

Definition gic_dist_wait_for_rwp : G unit :=
  do! g := data in gic_do_wait_for_rwp (dist_base g).

Definition gic_do_wait_for_redist_rwp (base : Z) : G unit :=
  wait_for_rwp ONE_SECOND (base + GICR_CTLR) GICR_CTLR_RWP "ERROR: RDIST RWP timeout, gone fishing\n".

Definition gic_redist_wait_for_rwp : G unit :=
  do! g := data in gic_do_wait_for_redist_rwp (rdist_base g).

(** ** Distributor *)

Definition gic_validate_dist_version (base : Z) : G Z :=
  do! reg := readl_relaxed (base + GICD_PIDR2) in
  let reg := Z.land reg GIC_PIDR2_ARCH_MASK in
  if negb (reg =? GIC_PIDR2_ARCH_GICv3) && negb (reg =? GIC_PIDR2_ARCH_GICv4) then ret (- ENODEV)
  else ret 0.

Definition gic_mpidr_to_affinity (mpidr : Z) : Z :=
  Z.lor (Z.lor (Z.lor (Z.shiftl (MPIDR_AFFINITY_LEVEL mpidr 3) 32) (Z.shiftl (MPIDR_AFFINITY_LEVEL mpidr 2) 16))
               (Z.shiftl (MPIDR_AFFINITY_LEVEL mpidr 1) 8))
        (MPIDR_AFFINITY_LEVEL mpidr 0).

(** [for (i = start; i < limit; i += step) body(i)] *)
Definition for_loop (start limit step : Z) (body : Z -> G unit) : G unit :=
  mwhile (S (Z.to_nat (limit - start))) (fun i =>
    if i <? limit then seq! body i then ret (inl (i + step)) else ret (inr tt)) start.

(** The wait is passed as a function that may be missing. *)
Definition sync (sync_access : option (G unit)) : G unit :=
  match sync_access with Some f => f | None => ret tt end.

Definition gic_dist_config (base irqs : Z) (sync_access : option (G unit)) : G unit :=
  seq! for_loop 32 irqs 16 (fun i => writel_relaxed GICD_INT_ACTLOW_LVLTRIG (base + GICD_ICFGR + i / 4)) then
  seq! for_loop 32 irqs 32 (fun i => writel_relaxed GICD_INT_DEF_PRI_X4 (base + GIC_DIST_PRI + i / 8)) then
  seq! for_loop 32 irqs 32 (fun i =>
        seq! writel_relaxed GICD_INT_EN_CLR_X32 (base + GIC_DIST_ACTIVE_CLEAR + i / 8) then
        writel_relaxed GICD_INT_EN_CLR_X32 (base + GIC_DIST_ENABLE_CLEAR + i / 8)) then
  sync sync_access.

Definition read_cpuid_mpidr : G Z := read_sysreg_s "MPIDR_EL1".

Definition gic_dist_init : G unit :=
  do! g := data in
  let base := dist_base g in
  seq! writel_relaxed 0 (base + GICD_CTLR) then
  seq! gic_dist_wait_for_rwp then
  seq! for_loop 32 (gic_irqs g) 32 (fun i => writel_relaxed (-1) (base + GICD_IGROUPR + i / 8)) then
  seq! gic_dist_config base (gic_irqs g) (Some gic_dist_wait_for_rwp) then
  do! v := readl_relaxed (base + GICD_CTLR) in
  seq! writel_relaxed (Z.lor v GICD_CTLR_DS) (base + GICD_CTLR) then
  seq! gic_dist_wait_for_rwp then
  seq! writel_relaxed (Z.lor (Z.lor (Z.shiftl 1 5) (Z.shiftl 1 1)) GICD_CTLR_ENABLE_G1) (base + GICD_CTLR) then
  do! mpidr := read_cpuid_mpidr in
  let mpidr := Z.land mpidr MPIDR_HWID_BITMASK in
  let affinity := gic_mpidr_to_affinity mpidr in
  for_loop 32 (gic_irqs g) 1 (fun i => gic_write_irouter affinity (base + GICD_IROUTER + i * 8)).

(** ** Redistributors *)

(** [fn] answers 0 to stop.  The state of the loop: pointer and count. *)
Definition gic_iterate_rdists (fn : Z -> G Z) : G Z :=
  do! g := data in
  let ptr := rdist_base g in
  do! reg := readl_relaxed (ptr + GICR_PIDR2) in
  let reg := Z.land reg GIC_PIDR2_ARCH_MASK in
  if negb (reg =? GIC_PIDR2_ARCH_GICv3) && negb (reg =? GIC_PIDR2_ARCH_GICv4) then
    seq! message "No redistributor present @%p\n" [ptr] then ret (- ENODEV)
  else
    do! found := mwhile (S frames) (fun '(ptr, count) =>
      do! typer := gic_read_typer (ptr + GICR_TYPER) in
      seq! message "CPU%d: GICR_TYPER:0x%lx \n" [count; typer] then
      do! r := fn ptr in
      if r =? 0 then ret (inr None) else
      let ptr := ptr + SZ_64K * 2 in
      let ptr := if flag typer GICR_TYPER_VLPIS then ptr + SZ_64K * 2 else ptr in
      let count := count + 1 in
      if negb (flag typer GICR_TYPER_LAST) then ret (inl (ptr, count)) else ret (inr (Some count)))
      (ptr, 0) in
    match found with
    | None => ret 0
    | Some count =>
        if negb (count =? CPU_NUM) then
          seq! message "WARN no Redistributor present to %d core.!\n" [CPU_NUM] then ret 0
        else ret 0
    end.

Definition __gic_update_vlpi_properties (ptr : Z) : G Z :=
  do! typer := gic_read_typer (ptr + GICR_TYPER) in
  seq! set_data (fun g => GicData (has_rss g) (dist_base g) (rdist_base g) (has_vlpis g && flag typer GICR_TYPER_VLPIS)
                          (gic_irqs g) (gic_typer g) (has_direct_lpi g && flag typer GICR_TYPER_DirectLPIS)) then
  ret 1.

Definition gic_update_vlpi_properties : G unit :=
  seq! gic_iterate_rdists __gic_update_vlpi_properties then
  do! g := data in
  message "%sVLPI support, %sdirect LPI support\n" [Z.b2z (has_vlpis g); Z.b2z (has_direct_lpi g)].

Definition __gic_populate_rdist (ptr : Z) : G Z :=
  do! mpidr := read_cpuid_mpidr in
  let mpidr := Z.land mpidr MPIDR_HWID_BITMASK in
  let aff := u32 (Z.lor (Z.lor (Z.lor (Z.shiftl (MPIDR_AFFINITY_LEVEL mpidr 3) 24) (Z.shiftl (MPIDR_AFFINITY_LEVEL mpidr 2) 16))
                               (Z.shiftl (MPIDR_AFFINITY_LEVEL mpidr 1) 8))
                        (MPIDR_AFFINITY_LEVEL mpidr 0)) in
  do! typer := gic_read_typer (ptr + GICR_TYPER) in
  if Z.shiftr typer 32 =? aff then
    seq! message "CPU0: found redistributor %lx region %p\n" [mpidr; ptr] then ret 0
  else ret 1.

Definition gic_populate_rdist : G Z :=
  do! r := gic_iterate_rdists __gic_populate_rdist in
  if r =? 0 then ret 0 else
  do! mpidr := read_cpuid_mpidr in
  seq! message "CPU0: mpidr %lx has no re-distributor!\n" [Z.land mpidr MPIDR_HWID_BITMASK] then
  ret (- ENODEV).

(** Switch the redistributor at [rbase] on or off, waiting [limit] rounds. *)
Definition wake_redist (limit : nat) (enable : bool) (rbase : Z) : G unit :=
  do! v := readl_relaxed (rbase + GICR_PWRR) in
  seq! writel_relaxed (Z.ldiff v 0x1) (rbase + GICR_PWRR) then
  seq! gic_redist_wait_for_rwp then
  do! v := readl_relaxed (rbase + GICR_WAKER) in
  let v := if enable then Z.ldiff v GICR_WAKER_ProcessorSleep else Z.lor v GICR_WAKER_ProcessorSleep in
  seq! writel_relaxed v (rbase + GICR_WAKER) then
  do! stop := (if enable then ret false else
               do! v := readl_relaxed (rbase + GICR_WAKER) in ret (negb (flag v GICR_WAKER_ProcessorSleep))) in
  if stop : bool then ret tt else
  do! count := mwhile (S limit) (fun count =>
    let count := count - 1 in
    if count =? 0 then ret (inr count) else
    do! v := readl_relaxed (rbase + GICR_WAKER) in
    if xorb enable (flag v GICR_WAKER_ChildrenAsleep) then ret (inr count) else
    seq! udelay 1 then
    ret (inl count)) (Z.of_nat limit) in
  if count =? 0 then message "redistributor failed to %s...\n" [Z.b2z enable] else ret tt.

Definition gic_enable_redist (enable : bool) : G unit :=
  do! g := data in wake_redist ONE_SECOND enable (rdist_base g).

Definition gic_wakeup_redist (enable : bool) (rbase : Z) : G unit := wake_redist (Z.to_nat 1000) enable rbase.

Definition gic_cpu_config (base : Z) (sync_access : option (G unit)) : G unit :=
  seq! writel_relaxed GICD_INT_EN_CLR_X32 (base + GIC_DIST_ACTIVE_CLEAR) then
  seq! writel_relaxed GICD_INT_EN_CLR_PPI (base + GIC_DIST_ENABLE_CLEAR) then
  seq! writel_relaxed GICD_INT_EN_SET_SGI (base + GIC_DIST_ENABLE_SET) then
  seq! for_loop 0 32 4 (fun i => writel_relaxed GICD_INT_DEF_PRI_X4 (base + GIC_DIST_PRI + i * 4 / 4)) then
  sync sync_access.

(** ** CPU interface *)

(** The active priority registers of group [n], by number of priority bits,
    with the fall-through of the switch. *)
Definition clear_active_priorities (r0 r1 r2 r3 : string) (pribits : Z) : G unit :=
  seq! (if (pribits =? 8) || (pribits =? 7) then
         seq! write_sysreg_s 0 r3 then write_sysreg_s 0 r2
       else ret tt) then
  seq! (if (6 <=? pribits) && (pribits <=? 8) then write_sysreg_s 0 r1 else ret tt) then
  (if (4 <=? pribits) && (pribits <=? 8) then write_sysreg_s 0 r0 else ret tt).

Definition gic_cpu_sys_reg_init : G unit :=
  do! ok := gic_enable_sre in
  if negb ok then fail_panic "GIC: unable to set SRE (disabled at EL2), panic ahead\n" else
  do! pribits := gic_read_ctlr in
  let pribits := Z.land pribits ICC_CTLR_EL1_PRI_BITS_MASK in
  let pribits := Z.shiftr pribits ICC_CTLR_EL1_PRI_BITS_SHIFT in
  let pribits := pribits + 1 in
  seq! write_sysreg_s (Z.shiftl 1 (8 - pribits)) "ICC_PMR_EL1" then
  do! v := read_sysreg_s "ICC_PMR_EL1" in
  let group0 := negb (u32 v =? 0) in
  seq! write_sysreg_s DEFAULT_PMR_VALUE "ICC_PMR_EL1" then
  seq! gic_write_bpr1 0 then
  seq! gic_write_ctlr ICC_CTLR_EL1_EOImode_drop then
  seq! (if group0 then clear_active_priorities "ICC_AP0R0_EL1" "ICC_AP0R1_EL1" "ICC_AP0R2_EL1" "ICC_AP0R3_EL1" pribits
       else ret tt) then
  seq! clear_active_priorities "ICC_AP1R0_EL1" "ICC_AP1R1_EL1" "ICC_AP1R2_EL1" "ICC_AP1R3_EL1" pribits then
  gic_write_grpen1 1.

Definition gic_cpu_init : G unit :=
  do! g := data in
  let rd_sgi_base := rdist_base g + GICR_SGI_BASE in
  do! r := gic_populate_rdist in
  if negb (r =? 0) then ret tt else
  seq! gic_enable_redist true then
  seq! writel_relaxed (-1) (rd_sgi_base + GICR_IGROUPR0) then
  seq! writel_relaxed 0 (rd_sgi_base + GICR_IGRPMODR0) then
  seq! write_sysreg_s ICC_IGRPEN0_EL1_MASK "ICC_IGRPEN0_EL1" then
  seq! write_sysreg_s ICC_IGRPEN1_EL1_MASK "ICC_IGRPEN1_EL1" then
  seq! write_sysreg_s 0xff "ICC_PMR_EL1" then
  seq! gic_cpu_config rd_sgi_base (Some gic_redist_wait_for_rwp) then
  gic_cpu_sys_reg_init.

Definition gic_dist_supports_lpis : G bool :=
  do! g := data in
  do! v := readl_relaxed (dist_base g + GICD_TYPER) in
  ret (flag v GICD_TYPER_LPIS).

Definition gic_init_bases (dist rdist : Z) : G Z :=
  do! typer := readl_relaxed (dist + GICD_TYPER) in
  let irqs := GICD_TYPER_IRQS typer in
  let irqs := if 1020 <? irqs then 1020 else irqs in
  let rss := flag typer GICD_TYPER_RSS in
  seq! set_data (fun g => GicData rss (dist_base g) (rdist_base g) true irqs typer true) then
  seq! message "Distributor has %sRange Selector support, Support %d irq\n" [Z.b2z rss; irqs] then
  seq! (if flag typer GICD_TYPER_MBIS then message "Gicv3 support MBIs, TODO MSI!\n" [] else ret tt) then
  seq! gic_dist_init then
  seq! gic_cpu_init then
  do! lpis := gic_dist_supports_lpis in
  seq! (if lpis : bool then message "Support LPIs,TODO!\n" [] else ret tt) then
  ret 0.

Definition gic_init : G unit :=
  let dist := GICV3_DIST_BASE in
  let rdist := GICV3_RDIST_0_BASE in
  seq! set_data (fun g => GicData (has_rss g) dist rdist (has_vlpis g) (gic_irqs g) (gic_typer g) (has_direct_lpi g)) then
  do! r := gic_validate_dist_version dist in
  if negb (r =? 0) then fail_panic "Gicv3: no distributor detected, giving up!\n" else
  do! r := gic_init_bases dist rdist in
  if negb (r =? 0) then fail_panic "Gicv3: Init gic bases failed! (%d)\n" else
  ret tt.

(** ** One interrupt *)

Definition gic_get_cpuid : G Z :=
  do! mpidr := read_sysreg_s "MPIDR_EL1" in
  let mpidr := u32 mpidr in
  let affinity2 := Z.land (Z.shiftr mpidr 16) 0xff in
  ret (u32 (4 * affinity2 + Z.land (Z.shiftr mpidr 8) 0xff)).

Definition gic_data_rdist_rd_base : G Z :=
  do! g := data in
  do! cpu := gic_get_cpuid in
  ret (rdist_base g + cpu * SZ_128K).

Definition gic_data_rdist_sgi_base : G Z :=
  do! b := gic_data_rdist_rd_base in ret (b + SZ_64K).

Definition gic_irq_in_rdist (irq : Z) : bool := irq <? 32.

Definition gic_peek_irq (irq offset : Z) : G bool :=
  let mask := Z.shiftl 1 (irq mod 32) in
  do! base := (if gic_irq_in_rdist irq then gic_data_rdist_sgi_base else do! g := data in ret (dist_base g)) in
  do! v := readl_relaxed (base + offset + irq / 32 * 4) in
  ret (flag v mask).

Definition gic_poke_irq (irq offset : Z) : G unit :=
  let mask := Z.shiftl 1 (irq mod 32) in
  if gic_irq_in_rdist irq then
    do! base := gic_data_rdist_sgi_base in
    seq! udelay 5 then
    seq! writel_relaxed mask (base + offset + irq / 32 * 4) then
    gic_redist_wait_for_rwp
  else
    do! g := data in
    let base := dist_base g in
    seq! writel_relaxed mask (base + offset + irq / 32 * 4) then
    gic_dist_wait_for_rwp.

Definition gic_mask_irq (irq : Z) : G unit := gic_poke_irq irq GICD_ICENABLER.
Definition gic_unmask_irq (irq : Z) : G unit := gic_poke_irq irq GICD_ISENABLER.
Definition gic_eoimode1_mask_irq (irq : Z) : G unit := gic_mask_irq irq.
Definition irq_mask (irq : Z) : G unit := gic_eoimode1_mask_irq irq.
Definition irq_unmask (irq : Z) : G unit := gic_unmask_irq irq.

Inductive irqchip_irq_state : Type :=
  | IRQCHIP_STATE_PENDING | IRQCHIP_STATE_ACTIVE | IRQCHIP_STATE_MASKED | IRQCHIP_STATE_LINE_LEVEL.

Definition gic_irq_set_irqchip_state (irq : Z) (which : irqchip_irq_state) (val : bool) : G Z :=
  do! g := data in
  if gic_irqs g <=? irq then ret (- EINVAL) else
  match which with
  | IRQCHIP_STATE_PENDING => seq! gic_poke_irq irq (if val then GICD_ISPENDR else GICD_ICPENDR) then ret 0
  | IRQCHIP_STATE_ACTIVE => seq! gic_poke_irq irq (if val then GICD_ISACTIVER else GICD_ICACTIVER) then ret 0
  | IRQCHIP_STATE_MASKED => seq! gic_poke_irq irq (if val then GICD_ICENABLER else GICD_ISENABLER) then ret 0
  | IRQCHIP_STATE_LINE_LEVEL => ret (- EINVAL)
  end.

Definition gic_eoimode1_eoi_irq (irq : Z) : G unit :=
  if 8192 <=? irq then message "irq %d TODO\n" [irq] else gic_write_dir irq.

Definition irq_eoi (irq : Z) : G unit := gic_eoimode1_eoi_irq irq.

Definition IRQ_TYPE_EDGE_RISING : Z := 1.
Definition IRQ_TYPE_EDGE_BOTH : Z := 3.
Definition IRQ_TYPE_LEVEL_HIGH : Z := 4.
Definition IRQ_TYPE_LEVEL_MASK : Z := 12.

Definition gic_configure_irq (irq type base : Z) (sync_access : option (G unit)) : G Z :=
  let confmask := u32 (Z.shiftl 0x2 (irq mod 16 * 2)) in
  let confoff := irq / 16 * 4 in
  do! oldval := readl_relaxed (base + GIC_DIST_CONFIG + confoff) in
  let val := if flag type IRQ_TYPE_LEVEL_MASK then Z.ldiff oldval confmask
             else if flag type IRQ_TYPE_EDGE_BOTH then Z.lor oldval confmask else oldval in
  if val =? oldval then ret 0 else
  seq! writel_relaxed val (base + GIC_DIST_CONFIG + confoff) then
  do! now := readl_relaxed (base + GIC_DIST_CONFIG + confoff) in
  do! r := (if negb (now =? val) then
              if 32 <=? irq then seq! message "irq %d >= 32\n" [irq] then ret (- EINVAL)
              else seq! message "GIC: PPI%d is secure or misconfigured\n" [irq - 16] then ret 0
            else ret 0) in
  seq! sync sync_access then
  ret r.

Definition gic_set_type (irq type : Z) : G Z :=
  if irq <? 16 then ret (- EINVAL) else
  if (32 <=? irq) && negb (type =? IRQ_TYPE_LEVEL_HIGH) && negb (type =? IRQ_TYPE_EDGE_RISING) then ret (- EINVAL) else
  if gic_irq_in_rdist irq then
    do! base := gic_data_rdist_sgi_base in
    gic_configure_irq irq type base (Some gic_redist_wait_for_rwp)
  else
    do! g := data in
    gic_configure_irq irq type (dist_base g) (Some gic_dist_wait_for_rwp).

Definition irq_set_type (irq type : Z) : G Z := gic_set_type irq type.

(** The value stored through [val], where one is. *)
Definition gic_irq_get_irqchip_state (irq : Z) (which : irqchip_irq_state) : G (Z * option bool) :=
  do! g := data in
  if gic_irqs g <=? irq then ret (- EINVAL, None) else
  match which with
  | IRQCHIP_STATE_PENDING => do! v := gic_peek_irq irq GICD_ISPENDR in ret (0, Some v)
  | IRQCHIP_STATE_ACTIVE => do! v := gic_peek_irq irq GICD_ISACTIVER in ret (0, Some v)
  | IRQCHIP_STATE_MASKED => do! v := gic_peek_irq irq GICD_ISENABLER in ret (0, Some (negb v))
  | IRQCHIP_STATE_LINE_LEVEL => ret (- EINVAL, None)
  end.

Definition irq_get_irqchip_state (irq : Z) (which : irqchip_irq_state) : G (Z * option bool) :=
  gic_irq_get_irqchip_state irq which.
Definition irq_set_irqchip_state (irq : Z) (which : irqchip_irq_state) (val : bool) : G Z :=
  gic_irq_set_irqchip_state irq which val.

Definition enable_irq (irq : Z) : G unit := irq_unmask irq.
Definition disable_irq (irq : Z) : G unit := irq_mask irq.

Definition gicv3_clean_active_irq (irq : Z) : G unit := gic_poke_irq irq GICD_ICACTIVERn.

(** ** Secondary cores *)

Definition get_gicr_sgi_base : G Z :=
  do! cpuid := gic_get_cpuid in
  do! g := data in
  ret (rdist_base g + cpuid * GICR_OFFSET + GICR_SGI_BASE).

Definition gicr_wait_for_rwp : G unit :=
  do! b := get_gicr_sgi_base in gic_do_wait_for_redist_rwp b.

Definition gicr_init : G unit :=
  do! cpuid := gic_get_cpuid in
  do! g := data in
  let gicr_base := rdist_base g + cpuid * GICR_OFFSET in
  let rd_sgi_base := gicr_base + GICR_SGI_BASE in
  do! daif := read_sysreg_s "DAIF" in
  let daif := Z.ldiff (u32 daif) (Z.shiftl 0x3 6) in
  seq! write_sysreg_s daif "DAIF" then
  seq! gic_wakeup_redist true gicr_base then
  seq! writel_relaxed (-1) (rd_sgi_base + GICR_IGROUPR0) then
  seq! writel_relaxed 0 (rd_sgi_base + GICR_IGRPMODR0) then
  seq! write_sysreg_s ICC_IGRPEN0_EL1_MASK "ICC_IGRPEN0_EL1" then
  seq! write_sysreg_s ICC_IGRPEN1_EL1_MASK "ICC_IGRPEN1_EL1" then
  seq! write_sysreg_s 0xff "ICC_PMR_EL1" then
  seq! gic_cpu_config rd_sgi_base (Some gicr_wait_for_rwp) then
  gic_cpu_sys_reg_init.
End gic.
