(* ===== verification/Interrupt.v ===== *)
(** * Interrupt handlers (common/interrupt.c and the dispatcher of irq-gicv3.c)

    [irq_handler_tab] is an array of MAX_IRQ_ID + 1 entries, all zero at first;
    an access outside it is a fault.  The section .section_irq_table, which the
    linker fills with the handlers declared in the source, is the list
    [irq_table].  The code of a handler is not part of this file: [invoke] is
    what calling the function at an address with an argument does. *)

From S2P Require Import Prelude CMem Device Gic.
From stdpp Require Import strings.

Local Open Scope string_scope.
Local Open Scope Z_scope.
Local Open Scope c_scope.

Definition ISR_ATTR_A55 : Z := 0x4.
Definition ISR_ATTR_GEN : Z := 0x4.

Definition no_handler : irq_handler_struct := IrqHandler 0 0 0 "" 0.

Section interrupt.
Context (hw : hardware) (frames : nat).
Context (irq_table : list irq_handler_struct) (invoke : Z -> Z -> G unit).

Definition tab_get (i : Z) : G irq_handler_struct := fun s t =>
  if (0 <=? i) && (i <=? MAX_IRQ_ID) then Ok (default no_handler (irq_handler_tab s !! i), s, t) else Fault.

Definition tab_set (i : Z) (e : irq_handler_struct) : G unit := fun s t =>
  if (0 <=? i) && (i <=? MAX_IRQ_ID) then
    Ok (tt, GicState (gic_data s) (<[i := e]> (irq_handler_tab s)), t)
  else Fault.

Definition gic_register_irq (irq handler flags arg : Z) (name : string) : G unit :=
  if MAX_IRQ_ID <=? irq then message "%s-> irq id is not right.\n" [] else
  seq! tab_set irq (IrqHandler irq handler arg name flags) then
  if irq <? LPI_IRQ_MIN then enable_irq hw irq else ret tt.

Definition gic_unregister_irq (irq : Z) : G unit :=
  if MAX_IRQ_ID <=? irq then message "%s-> irq id is not right.\n" [] else
  do! e := tab_get irq in
  seq! tab_set irq (IrqHandler (irqid e) NULL (arg e) (irqname e) (irqflags e)) then
  disable_irq hw irq.

(** Register the entries of the table that satisfy [f]. *)
Fixpoint register_all (f : irq_handler_struct -> bool) (l : list irq_handler_struct) : G unit :=
  match l with
  | [] => ret tt
  | e :: l =>
      seq! (if f e then gic_register_irq (irqid e) (handler e) (irqflags e) (arg e) (irqname e) else ret tt) then
      register_all f l
  end.

Definition irq_table_init : G unit := register_all (fun e => flag ISR_ATTR_GEN (irqflags e)) irq_table.

(** The interrupt mask bits of the processor. *)
Definition local_irq_disable : G unit := write_sysreg_s 3 "DAIFSet".
Definition local_irq_enable : G unit := write_sysreg_s 3 "DAIFClr".

Definition interrupt_init : G Z :=
  seq! local_irq_disable then
  seq! gic_init hw frames then
  seq! irq_table_init then
  seq! local_irq_enable then
  ret 0.

(** [irq] is an [int]; the callee takes it as unsigned. *)
Definition irq_install_handler (irq handler arg flag : Z) : G Z :=
  seq! gic_register_irq (u32 irq) handler flag arg "soft install" then
  ret 0.

Definition irq_free_handler (irq : Z) : G unit :=
  seq! gic_unregister_irq (u32 irq) then
  register_all (fun e => (u32 irq =? irqid e) && flag ISR_ATTR_A55 (irqflags e)) irq_table.

Definition do_irq_handle : G unit :=
  do! irqstat := read_sysreg_s hw "ICC_IAR1_EL1" in
  let irqstat := u32 irqstat in
  let irqnr := Z.land irqstat GICC_IAR_INT_MASK in
  if (irqnr <? 1020) || (LPI_IRQ_MIN <=? irqnr) then
    seq! gic_write_eoir irqnr then
    do! e := tab_get irqnr in
    seq! (if negb (handler e =? NULL) then invoke (handler e) (arg e)
          else message "%d Not Found handler.please Check IRQ_DEFINE.\n" [irqnr]) then
    if irqnr <? 1020 then gicv3_clean_active_irq hw (s32 irqstat) else ret tt
  else ret tt.

Definition do_irq : G unit := do_irq_handle.
Definition do_fiq : G unit := do_irq_handle.
End interrupt.
