(* ===== verification/GicFacts.v ===== *)
(** * The interrupt controller driver: what a run writes

    The writes among the accesses of a run determine the state of the
    controller, by the documented meaning of its registers: a 1 written to a
    set-register sets a bit, a 1 written to a clear-register clears it. *)

From S2P Require Import Prelude CMem Device Gic.
From stdpp Require Import strings.

Local Open Scope Z_scope.
Local Open Scope c_scope.

(** ** Writes *)

Fixpoint writes (t : trace) : list (Z * Z) :=
  match t with
  | [] => []
  | WriteL a v :: t | WriteQ a v :: t => (a, v) :: writes t
  | _ :: t => writes t
  end.

Lemma writes_app t u : writes (t ++ u) = writes t ++ writes u.
Proof. induction t as [|e t IH]; [done|]. cbn [app writes]. destruct e; rewrite IH; done. Qed.

(** A computation that leaves the driver's data alone and makes the writes [ws]. *)
Definition makes {A} (c : G A) (s : gic_state) (t : trace) (ws : list (Z * Z)) (Q : A -> Prop) : Prop :=
  runs c s t (fun a s' l => s' = s /\ writes l = ws /\ Q a).

Lemma makes_bind {A B} (c : G A) (k : A -> G B) s t ws ws' P Q :
  makes c s t ws P -> (forall a t', P a -> makes (k a) s t' ws' Q) -> makes (mbind_ c k) s t (ws ++ ws') Q.
Proof.
  intros Hc Hk. eapply runs_bind; [exact Hc|]. cbv beta. intros a s' l (-> & <- & Ha).
  eapply runs_mono; [by apply Hk|]. cbv beta. intros b s'' l' (-> & <- & Hb). by rewrite writes_app.
Qed.

Lemma makes_seq {A B} (c : G A) (k : A -> G B) s t ws ws' w P Q :
  makes c s t ws P -> (forall a t', P a -> makes (k a) s t' ws' Q) -> w = ws ++ ws' -> makes (mbind_ c k) s t w Q.
Proof. intros Hc Hk ->. by eapply makes_bind. Qed.

(** The same, with the writes so far known to the continuation. *)
Lemma makes_seqw {A B} (c : G A) (k : A -> G B) s t ws ws' w P Q :
  makes c s t ws P -> (forall a t', P a -> writes t' = writes t ++ ws -> makes (k a) s t' ws' Q) ->
  w = ws ++ ws' -> makes (mbind_ c k) s t w Q.
Proof.
  intros Hc Hk ->. eapply runs_bind; [exact Hc|]. cbv beta. intros a s' l (-> & <- & Ha).
  eapply runs_mono; [apply Hk; [done|apply writes_app]|]. cbv beta. intros b s'' l' (-> & <- & Hb). by rewrite writes_app.
Qed.

Lemma makes_ret {A} (a : A) s t (Q : A -> Prop) : Q a -> makes (ret a) s t [] Q.
Proof. intros H. by apply runs_ret. Qed.

Lemma makes_mono {A} (c : G A) s t ws (P Q : A -> Prop) : makes c s t ws P -> (forall a, P a -> Q a) -> makes c s t ws Q.
Proof. intros H HPQ. eapply runs_mono; [exact H|]. cbv beta. intros a s' l (-> & <- & Ha). auto. Qed.

Section facts.
Context (hw : hardware).

Lemma makes_readl a s t : makes (readl_relaxed hw a) s t [] (fun v => v = u32 (mmio hw t a)).
Proof. eexists _, s, [ReadL a _]. split; [reflexivity|]. done. Qed.

Lemma makes_readq a s t : makes (readq_relaxed hw a) s t [] (fun v => v = u64 (mmio hw t a)).
Proof. eexists _, s, [ReadQ a _]. split; [reflexivity|]. done. Qed.

Lemma makes_mrs r s t : makes (read_sysreg_s hw r) s t [] (fun v => v = u64 (sysreg hw t r)).
Proof. eexists _, s, [MRS r _]. split; [reflexivity|]. done. Qed.

Lemma makes_writel v a s t : makes (writel_relaxed v a) s t [(a, u32 v)] (fun _ => True).
Proof. by apply runs_emit. Qed.

Lemma makes_writeq v a s t : makes (writeq_relaxed v a) s t [(a, u64 v)] (fun _ => True).
Proof. by apply runs_emit. Qed.

Lemma makes_msr v r s t : makes (write_sysreg_s v r) s t [] (fun _ => True).
Proof. by apply runs_emit. Qed.

Lemma makes_delay us s t : makes (udelay us) s t [] (fun _ => True).
Proof. by apply runs_emit. Qed.

Lemma makes_message f l s t : makes (message f l) s t [] (fun _ => True).
Proof. by apply runs_emit. Qed.

Lemma makes_data s t : makes data s t [] (fun g => g = gic_data s).
Proof. eexists _, s, []. split; [unfold data, get_data, mbind_; cbn [obind ret]; by rewrite app_nil_r|]. done. Qed.

Lemma makes_while {S R} (I : S -> Prop) (mu : S -> nat) (Q : R -> Prop) (body : S -> G (S + R)) s fuel x t :
  (forall x t, I x -> makes (body x) s t [] (fun r => match r with inl x' => I x' /\ (mu x' < mu x)%nat | inr r => Q r end)) ->
  I x -> (mu x < fuel)%nat -> makes (mwhile fuel body x) s t [] Q.
Proof.
  intros Hb HI Hmu. revert x t HI Hmu. induction fuel as [|fuel IH]; intros x t HI Hmu; [lia|]. cbn [mwhile].
  eapply makes_seq; [by apply Hb|..]; [|done]. intros [x'|r] t'.
  - intros [HI' Hlt]. apply IH; [done|lia].
  - intros Hr. by apply makes_ret.
Qed.

(** Every wait ends, whatever the device answers, and writes nothing. *)
Lemma makes_wait limit a rwp err s t :
  (0 < limit)%nat -> makes (wait_for_rwp hw limit a rwp err) s t [] (fun _ => True).
Proof.
  intros Hl. unfold wait_for_rwp. apply (makes_while (fun c => 0 < c <= Z.of_nat limit) Z.to_nat); [|lia|lia].
  clear t. intros c t Hc. eapply makes_seq; [apply makes_readl|..]; [|done]. intros v t1 _.
  destruct (negb (flag v rwp)); [by apply makes_ret|]. destruct (Z.eqb_spec (c - 1) 0).
  - eapply makes_seq; [apply makes_message|..]; [|done]. intros ? t2 _. by apply makes_ret.
  - eapply makes_seq; [apply makes_delay|..]; [|done]. intros ? t2 _. apply makes_ret. lia.
Qed.

Lemma makes_dist_wait s t : makes (gic_dist_wait_for_rwp hw) s t [] (fun _ => True).
Proof. eapply makes_seq; [apply makes_data|..]; [|done]. intros g t' _. apply makes_wait. unfold ONE_SECOND. lia. Qed.

Lemma makes_redist_wait s t : makes (gic_redist_wait_for_rwp hw) s t [] (fun _ => True).
Proof. eapply makes_seq; [apply makes_data|..]; [|done]. intros g t' _. apply makes_wait. unfold ONE_SECOND. lia. Qed.

(** ** One interrupt *)

(** The identification register of a core does not change. *)
Context (mpidr : Z) (Hmpidr : forall t, u64 (sysreg hw t "MPIDR_EL1") = mpidr).

Definition cpu_of (mpidr : Z) : Z :=
  u32 (4 * Z.land (Z.shiftr (u32 mpidr) 16) 0xff + Z.land (Z.shiftr (u32 mpidr) 8) 0xff).

(** The registers of interrupt [i] lie at [irq_base g i]. *)
Definition irq_base (g : irq_gic_v3) (i : Z) : Z :=
  if i <? 32 then rdist_base g + cpu_of mpidr * 0x20000 + 0x10000 else dist_base g.

Lemma makes_cpuid s t : makes (gic_get_cpuid hw) s t [] (fun c => c = cpu_of mpidr).
Proof. eapply makes_seq; [apply makes_mrs|..]; [|done]. intros v t2 ->. rewrite Hmpidr. by apply makes_ret. Qed.

Lemma makes_rd_base s t :
  makes (gic_data_rdist_rd_base hw) s t [] (fun b => b = rdist_base (gic_data s) + cpu_of mpidr * 0x20000).
Proof.
  eapply makes_seq; [apply makes_data|..]; [|done]. intros g t1 ->.
  eapply makes_seq; [apply makes_cpuid|..]; [|done]. intros c t' ->. by apply makes_ret.
Qed.

Lemma makes_sgi_base s t :
  makes (gic_data_rdist_sgi_base hw) s t [] (fun b => b = rdist_base (gic_data s) + cpu_of mpidr * 0x20000 + 0x10000).
Proof. eapply makes_seq; [apply makes_rd_base|..]; [|done]. intros b t1 ->. by apply makes_ret. Qed.

Lemma makes_poke irq off s t :
  makes (gic_poke_irq hw irq off) s t
    [(irq_base (gic_data s) irq + off + irq / 32 * 4, 2 ^ (irq mod 32))] (fun _ => True).
Proof.
  assert (u32 (Z.shiftl 1 (irq mod 32)) = 2 ^ (irq mod 32)) as Em.
  { rewrite Z.shiftl_1_l. apply u32_small. pose proof (Z.mod_pos_bound irq 32). split; [apply Z.pow_nonneg; lia|].
    apply Z.pow_lt_mono_r; lia. }
  unfold gic_poke_irq, irq_base, gic_irq_in_rdist. destruct (irq <? 32).
  - eapply makes_seq; [apply makes_sgi_base|..]; [|done]. intros b t1 ->.
    eapply makes_seq; [apply makes_delay|..]; [|done]. intros _ t2 _.
    eapply makes_seq; [apply makes_writel|intros _ t3 _; apply makes_redist_wait|]. by rewrite Em.
  - eapply makes_seq; [apply makes_data|..]; [|done]. intros g t1 ->.
    eapply makes_seq; [apply makes_writel|intros _ t3 _; apply makes_dist_wait|]. by rewrite Em.
Qed.

Lemma testbit_u32 v k : 0 <= k < 32 -> Z.testbit (u32 v) k = Z.testbit v k.
Proof. intros H. unfold u32. apply Z.mod_pow2_bits_low. lia. Qed.

Lemma flag_bit v k : 0 <= k -> flag v (Z.shiftl 1 k) = Z.testbit v k.
Proof. intros Hk. unfold flag. by rewrite land_bit, negb_involutive. Qed.

Lemma makes_peek irq off s t :
  makes (gic_peek_irq hw irq off) s t [] (fun b => exists t', writes t' = writes t /\
    b = Z.testbit (u32 (mmio hw t' (irq_base (gic_data s) irq + off + irq / 32 * 4))) (irq mod 32)).
Proof.
  unfold gic_peek_irq, irq_base, gic_irq_in_rdist.
  eapply (makes_seqw _ _ _ _ [] [] [] (fun b => b = if irq <? 32 then _ else _)); [| |done].
  - destruct (irq <? 32); [apply makes_sgi_base|].
    eapply makes_seq; [apply makes_data|..]; [|done]. intros g t1 ->. by apply makes_ret.
  - intros b t1 -> E1. rewrite app_nil_r in E1. eapply makes_seq; [apply makes_readl|..]; [|done].
    intros v t2 ->. apply makes_ret. exists t1. split; [done|]. apply flag_bit. apply Z.mod_pos_bound. lia.
Qed.
End facts.

(** ** The state of the controller *)

(** Three bits per interrupt, each with its set- and its clear-register. *)
Inductive kind : Type := Enable | Pending | Active.

#[export] Instance kind_eq_dec : EqDecision kind.
Proof. solve_decision. Defined.

Definition set_reg (k : kind) : Z :=
  match k with Enable => GICD_ISENABLER | Pending => GICD_ISPENDR | Active => GICD_ISACTIVER end.
Definition clr_reg (k : kind) : Z :=
  match k with Enable => GICD_ICENABLER | Pending => GICD_ICPENDR | Active => GICD_ICACTIVER end.

Definition bit_step (base : Z) (k : kind) (i : Z) (b : bool) (w : Z * Z) : bool :=
  let '(a, v) := w in
  if (a =? base + set_reg k + i / 32 * 4) && Z.testbit v (i mod 32) then true
  else if (a =? base + clr_reg k + i / 32 * 4) && Z.testbit v (i mod 32) then false
  else b.

(** The bit after the writes of a trace, clear at reset. *)
Definition chip (base : Z) (k : kind) (i : Z) (t : trace) : bool := fold_left (bit_step base k i) (writes t) false.

Lemma chip_app base k i t l : chip base k i (t ++ l) = fold_left (bit_step base k i) (writes l) (chip base k i t).
Proof. unfold chip. by rewrite writes_app, fold_left_app. Qed.

(** The register of value [val]. *)
Definition reg_for (k : kind) (val : bool) : Z := if val then set_reg k else clr_reg k.

(** Frames of registers do not overlap. *)
Record layout (mpidr : Z) (g : irq_gic_v3) : Prop := {
  lay_frames : dist_base g + 0x10000 <= rdist_base g;
  lay_irqs : gic_irqs g <= 1020
}.

Lemma cpu_of_range mpidr : 0 <= cpu_of mpidr.
Proof. apply u32_range. Qed.

Lemma irq_base_eq mpidr g i j o o' :
  dist_base g + 0x10000 <= rdist_base g -> 0 <= o < 0x8000 -> 0 <= o' < 0x8000 ->
  irq_base mpidr g i + o = irq_base mpidr g j + o' -> (i < 32 <-> j < 32) /\ o = o'.
Proof.
  intros Hl Ho Ho'. pose proof (cpu_of_range mpidr). unfold irq_base. repeat case_cmp; intros; lia.
Qed.

Lemma reg_inj k k' val val' a a' :
  0 <= a < 0x80 -> 0 <= a' < 0x80 -> reg_for k val + a = reg_for k' val' + a' -> k = k' /\ val = val' /\ a = a'.
Proof.
  unfold reg_for, set_reg, clr_reg. destruct k, k', val, val';
    unfold GICD_ISENABLER, GICD_ISPENDR, GICD_ISACTIVER, GICD_ICENABLER, GICD_ICPENDR, GICD_ICACTIVER;
    intros Ha Ha' E; first [lia | split; [done|split; [done|lia]]].
Qed.

Lemma reg_range k val : 0x100 <= reg_for k val < 0x400.
Proof. by destruct k, val. Qed.

(** One poke changes one bit of one interrupt. *)
Lemma poke_effect mpidr g k val irq k' j b :
  layout mpidr g -> 0 <= irq < 1020 -> 0 <= j < 1020 ->
  bit_step (irq_base mpidr g j) k' j b (irq_base mpidr g irq + reg_for k val + irq / 32 * 4, 2 ^ (irq mod 32)) =
    if decide (k' = k /\ j = irq) then val else b.
Proof.
  intros [Hl _] Hi Hj. unfold bit_step.
  assert (forall v, (irq_base mpidr g irq + reg_for k val + irq / 32 * 4 =? irq_base mpidr g j + reg_for k' v + j / 32 * 4)
            && Z.testbit (2 ^ (irq mod 32)) (j mod 32) = bool_decide (k' = k /\ j = irq /\ v = val)) as Hreg.
  { intros v. rewrite Z.pow2_bits_eqb by (apply Z.mod_pos_bound; lia).
    pose proof (reg_range k val). pose proof (reg_range k' v). assert (0 <= irq / 32 * 4 < 0x80 /\ 0 <= j / 32 * 4 < 0x80) as [H1 H2] by dlia.
    case_bool_decide as Hd.
    - destruct Hd as (-> & -> & ->). by rewrite !Z.eqb_refl.
    - apply andb_false_iff. destruct (Z.eqb_spec (irq mod 32) (j mod 32)) as [Em|]; [left|by right]. apply Z.eqb_neq. intros E.
      destruct (irq_base_eq mpidr g irq j (reg_for k val + irq / 32 * 4) (reg_for k' v + j / 32 * 4) Hl) as [_ Eo]; [lia|lia|lia|].
      destruct (reg_inj _ _ _ _ _ _ H1 H2 Eo) as (-> & -> & Ea). apply Hd. split; [done|]. split; [|done]. dlia. }
  pose proof (Hreg true) as Ht. pose proof (Hreg false) as Hf. cbn [reg_for] in Ht, Hf. rewrite Ht, Hf.
  destruct (decide (k' = k /\ j = irq)) as [[-> ->]|Hd].
  - destruct val; [by rewrite bool_decide_true|]. rewrite bool_decide_false by naive_solver. by rewrite bool_decide_true.
  - rewrite !bool_decide_false by naive_solver. done.
Qed.

(** ** Loops of writes *)

(** The values of [i] in [for (i = lo; i < hi; i += step)]. *)
Fixpoint steps (n : nat) (lo hi step : Z) : list Z :=
  match n with
  | O => []
  | S n => if lo <? hi then lo :: steps n (lo + step) hi step else []
  end.

Definition range (lo hi step : Z) : list Z := steps (S (Z.to_nat (hi - lo))) lo hi step.

Lemma makes_for lo hi step (body : Z -> G unit) (w : Z -> list (Z * Z)) s t :
  0 < step -> (forall i t, makes (body i) s t (w i) (fun _ => True)) ->
  makes (for_loop lo hi step body) s t (flat_map w (range lo hi step)) (fun _ => True).
Proof.
  intros Hs Hb. unfold for_loop, range. assert (forall n i t, (Z.to_nat (hi - i) < n)%nat ->
    makes (mwhile n (fun i => if i <? hi then seq! body i then ret (inl (i + step)) else ret (inr tt)) i) s t
      (flat_map w (steps n i hi step)) (fun _ => True)) as H; [|apply H; lia].
  induction n as [|n IH]; intros i t' Hn; [lia|]. cbn [mwhile steps]. destruct (Z.ltb_spec i hi).
  - cbn [flat_map]. eapply (makes_seq _ _ _ _ (w i) _ _ (fun r => r = inl (i + step))); [|intros r t2 ->; apply IH; lia|done].
    eapply (makes_seq _ _ _ _ (w i) []); [apply Hb|intros _ t2 _; by apply makes_ret|by rewrite app_nil_r].
  - eapply (makes_seq _ _ _ _ [] [] _ (fun r => r = inr tt)); [by apply makes_ret|intros r t2 ->; by apply makes_ret|done].
Qed.

Lemma elem_of_range lo hi step i :
  0 < step -> i ∈ range lo hi step <-> lo <= i < hi /\ (i - lo) mod step = 0.
Proof.
  intros Hs. unfold range. assert (forall n lo, (Z.to_nat (hi - lo) < n)%nat ->
    i ∈ steps n lo hi step <-> lo <= i < hi /\ (i - lo) mod step = 0) as H; [|apply H; lia].
  induction n as [|n IH]; intros l Hn; [lia|]. cbn [steps]. destruct (Z.ltb_spec l hi); [|split; [by intros ?%elem_of_nil|lia]].
  rewrite elem_of_cons, IH by lia. split.
  - intros [->|[? Hm]]; [rewrite Z.sub_diag, Z.mod_0_l by lia; lia|]. split; [lia|].
    replace (i - l) with (i - (l + step) + 1 * step) by lia. by rewrite Z.mod_add by lia.
  - intros [? Hm]. destruct (decide (i = l)) as [|Hne]; [by left|right].
    assert (step <= i - l) as Hle.
    { destruct (Z.lt_ge_cases (i - l) step); [|lia]. rewrite Z.mod_small in Hm; lia. }
    split; [lia|]. replace (i - (l + step)) with (i - l + (-1) * step) by lia. by rewrite Z.mod_add by lia.
Qed.

(** The value last written to a register. *)
Definition last_write (a : Z) (ws : list (Z * Z)) : option Z :=
  fold_left (fun o w => if w.1 =? a then Some w.2 else o) ws None.

Lemma last_write_app a ws ws' : last_write a (ws ++ ws') = match last_write a ws' with Some v => Some v | None => last_write a ws end.
Proof.
  unfold last_write. rewrite fold_left_app. generalize (fold_left (fun o w => if w.1 =? a then Some w.2 else o) ws None).
  induction ws' as [|w ws' IH] using rev_ind; intros o; [done|]. rewrite !fold_left_app. cbn [fold_left].
  destruct (w.1 =? a); [done|]. apply IH.
Qed.

Lemma last_write_none a ws : (forall v, (a, v) ∉ ws) -> last_write a ws = None.
Proof.
  induction ws as [|[x v] ws IH] using rev_ind; intros H; [done|]. rewrite last_write_app. unfold last_write at 1.
  cbn [fold_left fst snd]. destruct (Z.eqb_spec x a) as [->|]; [destruct (H v); set_solver|]. apply IH. set_solver.
Qed.

Lemma last_write_some a v ws : (a, v) ∈ ws -> (forall v', (a, v') ∈ ws -> v' = v) -> last_write a ws = Some v.
Proof.
  induction ws as [|[x v0] ws IH] using rev_ind; intros Hin H; [by apply elem_of_nil in Hin|]. rewrite last_write_app.
  unfold last_write at 1. cbn [fold_left fst snd]. destruct (Z.eqb_spec x a) as [->|Hne]; [f_equal; apply H; set_solver|].
  apply IH; [|set_solver]. set_solver.
Qed.

(** A bit that is cleared and not set any more. *)
Lemma bit_cleared base k i ws b :
  (exists v, (base + clr_reg k + i / 32 * 4, v) ∈ ws /\ Z.testbit v (i mod 32) = true) \/ b = false ->
  (forall v, (base + set_reg k + i / 32 * 4, v) ∉ ws) -> fold_left (bit_step base k i) ws b = false.
Proof.
  revert b. induction ws as [|[a v] ws IH]; intros b Hc Hs; cbn [fold_left].
  - destruct Hc as [(v & H & _)|]; [by apply elem_of_nil in H|done].
  - apply IH; [|intros v' H; apply (Hs v'); by right].
    unfold bit_step. destruct (Z.eqb_spec a (base + set_reg k + i / 32 * 4)) as [->|_]; [destruct (Hs v); by left|]. cbn [andb].
    destruct Hc as [(v' & Hin & Ht)| -> ]; [|right; by case_match].
    apply elem_of_cons in Hin as [E|Hin]; [|left; by exists v'].
    injection E as <- <-. right. by rewrite Z.eqb_refl, Ht.
Qed.

Lemma bit_untouched base k i ws b :
  (forall v, (base + set_reg k + i / 32 * 4, v) ∉ ws) -> (forall v, (base + clr_reg k + i / 32 * 4, v) ∉ ws) ->
  fold_left (bit_step base k i) ws b = b.
Proof.
  revert b. induction ws as [|[a v] ws IH]; intros b Hs Hc; cbn [fold_left]; [done|].
  rewrite IH; [|intros v' H; apply (Hs v'); by right|intros v' H; apply (Hc v'); by right].
  unfold bit_step. destruct (Z.eqb_spec a (base + set_reg k + i / 32 * 4)) as [->|_]; [destruct (Hs v); by left|].
  destruct (Z.eqb_spec a (base + clr_reg k + i / 32 * 4)) as [->|_]; [destruct (Hc v); by left|]. done.
Qed.
