(* ===== verification/GicInit.v ===== *)
(** * The interrupt controller driver: initialisation

    What [gic_init] leaves in the registers of the distributor, whatever the
    hardware answers. *)

From S2P Require Import Prelude CMem Device Gic GicFacts.
From stdpp Require Import strings.

Local Open Scope Z_scope.
Local Open Scope c_scope.

(** [tame msg c s t W Q]: [c] panics with [msg], or returns with [Q], leaving
    the driver's data alone and making writes that satisfy [W]. *)
Definition tame {A} (msg : string) (c : G A) (s : gic_state) (t : trace) (W : list (Z * Z) -> Prop) (Q : A -> Prop) : Prop :=
  c s t = Panic msg \/ exists ws, W ws /\ makes c s t ws Q.

Lemma tame_makes {A} msg (c : G A) s t ws (W : list (Z * Z) -> Prop) Q : makes c s t ws Q -> W ws -> tame msg c s t W Q.
Proof. intros H HW. right. by exists ws. Qed.

Lemma tame_ret {A} msg (a : A) s t (W : list (Z * Z) -> Prop) (Q : A -> Prop) : W [] -> Q a -> tame msg (ret a) s t W Q.
Proof. intros HW HQ. eapply tame_makes; [by apply makes_ret|done]. Qed.

(** A step with known writes, then the rest. *)
Lemma tame_step {A B} msg (c : G A) (k : A -> G B) s t ws W P Q :
  makes c s t ws P -> (forall a t', P a -> tame msg (k a) s t' (fun ws' => W (ws ++ ws')) Q) -> tame msg (mbind_ c k) s t W Q.
Proof.
  intros (a & d & l & E & -> & Ew & Ha) Hk. destruct (Hk a (t ++ l) Ha) as [Hp|(ws' & HW & Hm)].
  - left. unfold mbind_. rewrite E. exact Hp.
  - right. exists (ws ++ ws'). split; [done|]. destruct Hm as (b & d' & l' & E' & -> & Ew' & Hb).
    exists b, s, (l ++ l'). split; [unfold mbind_; rewrite E; cbn [obind]; by rewrite E', app_assoc|].
    by rewrite writes_app, Ew, Ew'.
Qed.

(** Steps whose writes satisfy a property of single writes. *)
Lemma tame_bind {A B} msg (c : G A) (k : A -> G B) s t (R : Z * Z -> Prop) P Q :
  tame msg c s t (Forall R) P -> (forall a t', P a -> tame msg (k a) s t' (Forall R) Q) -> tame msg (mbind_ c k) s t (Forall R) Q.
Proof.
  intros [Hp|(ws & Hws & Hm)] Hk; [left; unfold mbind_; by rewrite Hp|].
  eapply tame_step; [exact Hm|]. cbv beta. intros a t' Ha. destruct (Hk a t' Ha) as [Hp|(ws' & Hws' & Hm')]; [by left|].
  right. exists ws'. split; [by apply list.Forall_app|done].
Qed.

(** A step whose writes are known up to a property, then the rest. *)
Lemma tame_then {A B} msg (c : G A) (k : A -> G B) s t (W W' : list (Z * Z) -> Prop) P Q :
  tame msg c s t W P -> (forall ws a t', W ws -> P a -> tame msg (k a) s t' (fun ws' => W' (ws ++ ws')) Q) -> tame msg (mbind_ c k) s t W' Q.
Proof.
  intros [Hp|(ws & Hws & Hm)] Hk; [left; unfold mbind_; by rewrite Hp|]. eapply tame_step; [exact Hm|]. cbv beta. intros a t' Ha. by apply Hk.
Qed.

Lemma tame_mono {A} msg (c : G A) s t (W W' : list (Z * Z) -> Prop) (P Q : A -> Prop) :
  tame msg c s t W P -> (forall ws, W ws -> W' ws) -> (forall a, P a -> Q a) -> tame msg c s t W' Q.
Proof. intros [Hp|(ws & Hws & Hm)] HW HQ; [by left|]. right. exists ws. split; [auto|by eapply makes_mono]. Qed.

Definition NO_SRE : string := "GIC: unable to set SRE (disabled at EL2), panic ahead\n".
Definition NO_DIST : string := "Gicv3: no distributor detected, giving up!\n".

Section init.
Context (hw : hardware) (frames : nat).
Context (mpidr : Z) (Hmpidr : forall t, u64 (sysreg hw t "MPIDR_EL1") = mpidr).

Definition boot_affinity : Z := u64 (gic_mpidr_to_affinity (Z.land mpidr MPIDR_HWID_BITMASK)).

(** ** The distributor *)

Definition config_writes (base n : Z) : list (Z * Z) :=
  flat_map (fun i => [(base + GICD_ICFGR + i / 4, 0)]) (range 32 n 16) ++
  flat_map (fun i => [(base + GIC_DIST_PRI + i / 8, u32 GICD_INT_DEF_PRI_X4)]) (range 32 n 32) ++
  flat_map (fun i => [(base + GIC_DIST_ACTIVE_CLEAR + i / 8, 0xffffffff); (base + GIC_DIST_ENABLE_CLEAR + i / 8, 0xffffffff)])
    (range 32 n 32).

Definition dist_writes (base n ctlr : Z) : list (Z * Z) :=
  [(base + GICD_CTLR, 0)] ++
  flat_map (fun i => [(base + GICD_IGROUPR + i / 8, 0xffffffff)]) (range 32 n 32) ++
  config_writes base n ++
  [(base + GICD_CTLR, ctlr); (base + GICD_CTLR, 0x23)] ++
  flat_map (fun i => [(base + GICD_IROUTER + i * 8, boot_affinity)]) (range 32 n 1).

Lemma makes_dist_config base n s t :
  makes (gic_dist_config base n (Some (gic_dist_wait_for_rwp hw))) s t (config_writes base n) (fun _ => True).
Proof.
  unfold gic_dist_config, config_writes.
  eapply makes_seq; [apply (makes_for 32 n 16 _ (fun i => [(base + GICD_ICFGR + i / 4, 0)])); [lia|intros; apply makes_writel]| |reflexivity].
  intros _ t1 _.
  eapply makes_seq; [apply (makes_for 32 n 32 _ (fun i => [(base + GIC_DIST_PRI + i / 8, u32 GICD_INT_DEF_PRI_X4)])); [lia|intros; apply makes_writel]| |reflexivity].
  intros _ t2 _. eapply makes_seq; [|intros _ t3 _; apply makes_dist_wait|by rewrite app_nil_r].
  apply (makes_for 32 n 32 _ (fun i => [(base + GIC_DIST_ACTIVE_CLEAR + i / 8, 0xffffffff); (base + GIC_DIST_ENABLE_CLEAR + i / 8, 0xffffffff)])); [lia|]. intros i t3.
  eapply makes_seq; [apply makes_writel|intros _ t4 _; apply makes_writel|reflexivity].
Qed.

Lemma tame_dist_init msg s t :
  tame msg (gic_dist_init hw) s t
    (fun ws => exists ctlr, ws = dist_writes (dist_base (gic_data s)) (gic_irqs (gic_data s)) ctlr) (fun _ => True).
Proof.
  unfold gic_dist_init. eapply tame_step; [apply makes_data|]. intros g t1 ->.
  set (base := dist_base (gic_data s)). set (n := gic_irqs (gic_data s)).
  eapply tame_step; [apply makes_writel|]. intros _ t2 _. eapply tame_step; [apply makes_dist_wait|]. intros _ t3 _.
  eapply tame_step; [apply (makes_for 32 n 32 _ (fun i => [(base + GICD_IGROUPR + i / 8, 0xffffffff)])); [lia|intros; apply makes_writel]|].
  intros _ t4 _. eapply tame_step; [apply makes_dist_config|]. intros _ t5 _.
  eapply tame_step; [apply makes_readl|]. intros v t6 _. eapply tame_step; [apply makes_writel|]. intros _ t7 _.
  eapply tame_step; [apply makes_dist_wait|]. intros _ t8 _. eapply tame_step; [apply makes_writel|]. intros _ t9 _.
  eapply tame_step; [apply makes_mrs|]. intros m t10 ->. rewrite Hmpidr.
  eapply tame_makes.
  - apply (makes_for 32 n 1 _ (fun i => [(base + GICD_IROUTER + i * 8, boot_affinity)])); [lia|intros; apply makes_writeq].
  - exists (u32 (Z.lor v GICD_CTLR_DS)). unfold dist_writes. cbn [app]. reflexivity.
Qed.

(** ** The redistributor and the CPU interface *)

(** Writes at or above an address. *)
Definition from (b : Z) (w : Z * Z) : Prop := b <= w.1.

Lemma tame_quiet {A} msg (c : G A) s t R Q : makes c s t [] Q -> tame msg c s t (Forall R) Q.
Proof. intros H. eapply tame_makes; [exact H|constructor]. Qed.

Lemma tame_writel msg v a s t b : b <= a -> tame msg (writel_relaxed v a) s t (Forall (from b)) (fun _ => True).
Proof. intros H. eapply tame_makes; [apply makes_writel|by repeat constructor]. Qed.

(** The scan stops at the latest at the frame marked as the last. *)
Definition last_frame (rbase : Z) : Prop :=
  forall t a, rbase + 0x20000 * Z.of_nat frames <= a -> flag (u64 (mmio hw t (a + GICR_TYPER))) GICR_TYPER_LAST = true.

Lemma makes_iterate fn s t :
  last_frame (rdist_base (gic_data s)) -> (forall p t, makes (fn p) s t [] (fun _ => True)) ->
  makes (gic_iterate_rdists hw frames fn) s t [] (fun _ => True).
Proof.
  intros Hlast Hfn. unfold gic_iterate_rdists. eapply makes_seq; [apply makes_data|..]; [|done]. intros g t1 ->.
  eapply makes_seq; [apply makes_readl|..]; [|done]. intros reg t2 _. case_match.
  { eapply makes_seq; [apply makes_message|..]; [|done]. intros _ t3 _. by apply makes_ret. }
  eapply (makes_seq _ _ _ _ [] [] _ (fun _ => True)); [|intros r t3 _; destruct r as [c|]; [|by apply makes_ret]|done].
  - apply (makes_while (fun '(p, c) => rdist_base (gic_data s) + 0x20000 * c <= p /\ 0 <= c <= Z.of_nat frames)
             (fun '(p, c) => Z.to_nat (Z.of_nat frames - c)) (fun _ => True)); [|lia|lia].
    clear t t1 t2. intros [p c] t [Hp Hc]. eapply makes_seq; [apply makes_readq|..]; [|done]. intros typer t1 Ety.
    eapply makes_seq; [apply makes_message|..]; [|done]. intros _ t2 _.
    eapply makes_seq; [apply Hfn|..]; [|done]. intros r t3 _. destruct (r =? 0); [by apply makes_ret|].
    destruct (flag typer GICR_TYPER_LAST) eqn:El; cbn [negb]; [by apply makes_ret|]. apply makes_ret. unfold SZ_64K.
    assert (c < Z.of_nat frames) as Hlt.
    { destruct (Z.lt_ge_cases c (Z.of_nat frames)); [done|]. rewrite Ety, Hlast in El by lia. done. }
    split; [|lia]. destruct (flag typer GICR_TYPER_VLPIS); lia.
  - case_match; [|by apply makes_ret].
    eapply makes_seq; [apply makes_message|..]; [|done]. intros _ t4 _. by apply makes_ret.
Qed.

Lemma makes_populate s t :
  last_frame (rdist_base (gic_data s)) -> makes (gic_populate_rdist hw frames) s t [] (fun _ => True).
Proof.
  intros Hlast. eapply makes_seq; [apply makes_iterate; [done|]|..]; [| |done].
  - intros p t1. eapply makes_seq; [apply makes_mrs|..]; [|done]. intros m t2 _.
    eapply makes_seq; [apply makes_readq|..]; [|done]. intros ty t3 _. case_match; [|by apply makes_ret].
    eapply makes_seq; [apply makes_message|..]; [|done]. intros _ t4 _. by apply makes_ret.
  - intros r t1 _. case_match; [by apply makes_ret|]. eapply makes_seq; [apply makes_mrs|..]; [|done]. intros m t2 _.
    eapply makes_seq; [apply makes_message|..]; [|done]. intros _ t4 _. by apply makes_ret.
Qed.

(** The writes to the redistributor at [rb]: power, wake-up, groups, and the
    active, enable and priority registers of the private interrupts. *)
Definition redist_writes (rb power waker : Z) : list (Z * Z) :=
  [(rb + 0x24, power); (rb + 0x14, waker); (rb + 0x10080, 0xffffffff); (rb + 0x10d00, 0);
   (rb + 0x10380, 0xffffffff); (rb + 0x10180, 0xffff0000); (rb + 0x10100, 0xffff)] ++
  ((fun i => (rb + 0x10400 + i, 0xa0a0a0a0)) <$> [0; 4; 8; 12; 16; 20; 24; 28]).

Lemma tame_wake msg limit rbase s t :
  (0 < limit)%nat -> tame msg (wake_redist hw limit true rbase) s t
    (fun ws => exists power waker, ws = [(rbase + 0x24, power); (rbase + 0x14, waker)] /\ Z.testbit waker 1 = false) (fun _ => True).
Proof.
  intros Hl. unfold wake_redist. eapply tame_step; [apply makes_readl|]. intros v t1 _.
  eapply tame_step; [apply makes_writel|]. intros _ t2 _. eapply tame_step; [apply makes_redist_wait|]. intros _ t3 _.
  eapply tame_step; [apply makes_readl|]. intros v2 t4 _. eapply tame_step; [apply makes_writel|]. intros _ t5 _.
  cbn [obind]. eapply (tame_step _ _ _ _ _ [] _ (fun b => b = false)); [by apply makes_ret|]. intros b t6 ->.
  eapply (tame_step _ _ _ _ _ [] _ (fun _ => True)).
  - apply (makes_while (fun c => 0 < c) Z.to_nat); [|lia|lia]. clear. intros c t Hc.
    destruct (Z.eqb_spec (c - 1) 0); [by apply makes_ret|]. eapply makes_seq; [apply makes_readl|..]; [|done]. intros v t1 _.
    case_match; [by apply makes_ret|]. eapply makes_seq; [apply makes_delay|..]; [|done]. intros _ t2 _. apply makes_ret. lia.
  - intros c t7 _. eapply (tame_makes _ _ _ _ []); [case_match; [apply makes_message|by apply makes_ret]|]. cbn [app].
    do 2 eexists. split; [reflexivity|]. rewrite testbit_u32 by lia. by rewrite Z.ldiff_spec, andb_false_r.
Qed.

Lemma makes_cpu_config base wait s t :
  (forall t, makes wait s t [] (fun _ => True)) ->
  makes (gic_cpu_config base (Some wait)) s t
    ([(base + 0x380, 0xffffffff); (base + 0x180, 0xffff0000); (base + 0x100, 0xffff)] ++
     flat_map (fun i => [(base + 0x400 + i * 4 / 4, 0xa0a0a0a0)]) (range 0 32 4)) (fun _ => True).
Proof.
  intros Hw. unfold gic_cpu_config.
  do 3 (eapply makes_seq; [apply makes_writel| |reflexivity]; let t' := fresh "t" in intros _ t' _).
  eapply makes_seq; [|intros _ t4 _; apply Hw|by rewrite app_nil_r].
  apply (makes_for 0 32 4 _ (fun i => [(base + GIC_DIST_PRI + i * 4 / 4, u32 GICD_INT_DEF_PRI_X4)])); [lia|intros; apply makes_writel].
Qed.

Lemma makes_clear r0 r1 r2 r3 n s t : makes (clear_active_priorities r0 r1 r2 r3 n) s t [] (fun _ => True).
Proof.
  unfold clear_active_priorities. eapply (makes_seq _ _ _ _ [] [] _ (fun _ => True)); [|intros _ t1 _|done].
  - case_match; [|by apply makes_ret]. eapply (makes_seq _ _ _ _ [] [] _ (fun _ => True)); [apply makes_msr|intros _ t2 _; apply makes_msr|done].
  - eapply (makes_seq _ _ _ _ [] [] _ (fun _ => True)); [case_match; [apply makes_msr|by apply makes_ret]|intros _ t2 _|done].
    case_match; [apply makes_msr|by apply makes_ret].
Qed.

Lemma makes_enable_sre s t : makes (gic_enable_sre hw) s t [] (fun _ => True).
Proof.
  unfold gic_enable_sre. assert (forall t, makes (gic_read_sre hw) s t [] (fun _ => True)) as Hr.
  { intros t1. eapply makes_seq; [apply makes_mrs|..]; [|done]. intros v t2 _. by apply makes_ret. }
  eapply makes_seq; [apply Hr|..]; [|done]. intros v t1 _. case_match; [by apply makes_ret|].
  eapply makes_seq; [apply makes_msr|..]; [|done]. intros _ t2 _. eapply makes_seq; [apply Hr|..]; [|done]. intros v2 t3 _. by apply makes_ret.
Qed.

Lemma tame_sys_reg_init s t R : tame NO_SRE (gic_cpu_sys_reg_init hw) s t (Forall R) (fun _ => True).
Proof.
  unfold gic_cpu_sys_reg_init. eapply tame_bind; [apply tame_quiet, makes_enable_sre|]. intros [] t1 _; cbn [negb]; [|by left].
  eapply (tame_bind _ _ _ _ _ _ (fun _ => True)).
  { apply tame_quiet. eapply makes_seq; [apply makes_mrs|..]; [|done]. intros v t2 _. by apply makes_ret. }
  intros p t2 _. eapply tame_bind; [apply tame_quiet, makes_msr|]. intros _ t3 _.
  eapply tame_bind; [apply tame_quiet, makes_mrs|]. intros v t4 _.
  do 3 (eapply tame_bind; [apply tame_quiet, makes_msr|]; let t' := fresh "t" in intros _ t' _).
  eapply (tame_bind _ _ _ _ _ _ (fun _ => True)); [case_match; [apply tame_quiet, makes_clear|by apply tame_ret]|].
  intros _ t8 _. eapply tame_bind; [apply tame_quiet, makes_clear|]. intros _ t9 _. apply tame_quiet, makes_msr.
Qed.

(** What [gic_cpu_init] writes to registers in memory. *)
Definition cpu_writes (rb : Z) (ws : list (Z * Z)) : Prop :=
  ws = [] \/ exists power waker, ws = redist_writes rb power waker /\ Z.testbit waker 1 = false.

Lemma cpu_writes_from rb ws : cpu_writes rb ws -> Forall (from rb) ws.
Proof.
  intros [->|(p & w & -> & _)]; [constructor|]. unfold redist_writes. cbn. repeat (constructor; [unfold from; cbn; lia|]). constructor.
Qed.

Lemma tame_cpu_init s t :
  last_frame (rdist_base (gic_data s)) ->
  tame NO_SRE (gic_cpu_init hw frames) s t (cpu_writes (rdist_base (gic_data s))) (fun _ => True).
Proof.
  intros Hlast. set (rb := rdist_base (gic_data s)). unfold gic_cpu_init. eapply tame_step; [apply makes_data|]. intros g t1 ->.
  eapply tame_step; [by apply makes_populate|]. intros r t2 _. case_match; [apply tame_ret; [by left|done]|].
  eapply tame_then.
  { unfold gic_enable_redist. eapply tame_step; [apply makes_data|]. intros g t3 ->. cbn [app]. apply tame_wake. unfold ONE_SECOND. lia. }
  cbv beta. intros ws _ t3 (power & waker & -> & Hw) _.
  do 2 (eapply tame_step; [apply makes_writel|]; let t' := fresh "t" in intros _ t' _).
  do 3 (eapply tame_step; [apply makes_msr|]; let t' := fresh "t" in intros _ t' _).
  eapply tame_step; [apply makes_cpu_config; intros; apply makes_redist_wait|]. intros _ t9 _.
  eapply tame_mono; [apply (tame_sys_reg_init s t9 (fun _ => False))| |done]. intros ws Hws. cbv beta.
  assert (ws = []) as -> by (destruct Hws; done). right. exists power, waker. split; [|done].
  unfold redist_writes. fold rb. unfold GICR_SGI_BASE, GICR_IGROUPR0, GICR_IGRPMODR0, GICD_IGROUPR, GICD_IGRPMODR.
  change (range 0 32 4) with [0; 4; 8; 12; 16; 20; 24; 28]. cbn [flat_map app fmap list_fmap]. rewrite <- !Z.add_assoc. reflexivity.
Qed.
End init.

(** ** The writes of the distributor *)

Lemma elem_of_singles {A} (f : A -> Z * Z) (l : list A) (w : Z * Z) :
  w ∈ flat_map (fun i => [f i]) l <-> exists i, i ∈ l /\ w = f i.
Proof.
  rewrite list_elem_of_In, in_flat_map. split.
  - intros (i & Hi & [<-|[]]). exists i. split; [by apply list_elem_of_In|done].
  - intros (i & Hi & ->). exists i. split; [by apply list_elem_of_In|by left].
Qed.

Lemma elem_of_pairs {A} (f g : A -> Z * Z) (l : list A) (w : Z * Z) :
  w ∈ flat_map (fun i => [f i; g i]) l <-> exists i, i ∈ l /\ (w = f i \/ w = g i).
Proof.
  rewrite list_elem_of_In, in_flat_map. split.
  - intros (i & Hi & [<-|[<-|[]]]); exists i; (split; [by apply list_elem_of_In|auto]).
  - intros (i & Hi & [->| ->]); exists i; (split; [by apply list_elem_of_In|cbn; auto]).
Qed.

(** Which register a write of the initialisation goes to, as offset from the
    base of the distributor, and its value. *)
Definition dist_write (mpidr n ctlr o v : Z) : Prop :=
  o = 0 /\ (v = 0 \/ v = ctlr \/ v = 0x23) \/
  (exists q, 1 <= q /\ 32 * q < n /\ (o = 0x80 + 4 * q /\ v = 0xffffffff \/ o = 0x400 + 4 * q /\ v = 0xa0a0a0a0 \/
                        o = 0x380 + 4 * q /\ v = 0xffffffff \/ o = 0x180 + 4 * q /\ v = 0xffffffff)) \/
  (exists q, 2 <= q /\ 16 * q < n /\ o = 0xc00 + 4 * q /\ v = 0) \/
  (exists i, 32 <= i < n /\ o = 0x6100 + 8 * i /\ v = boot_affinity mpidr).

Lemma range_32 n i : i ∈ range 32 n 32 <-> exists q, 1 <= q /\ 32 * q < n /\ i = 32 * q.
Proof.
  rewrite elem_of_range by lia. split.
  - intros [? ?]. exists (i / 32). dlia.
  - intros (q & ? & ? & ->). split; [lia|]. replace (32 * q - 32) with ((q - 1) * 32) by lia. apply Z.mod_mul. lia.
Qed.

Lemma range_16 n i : i ∈ range 32 n 16 <-> exists q, 2 <= q /\ 16 * q < n /\ i = 16 * q.
Proof.
  rewrite elem_of_range by lia. split.
  - intros [? ?]. exists (i / 16). dlia.
  - intros (q & ? & ? & ->). split; [lia|]. replace (16 * q - 32) with ((q - 2) * 16) by lia. apply Z.mod_mul. lia.
Qed.

Lemma range_1 n i : i ∈ range 32 n 1 <-> 32 <= i < n.
Proof. rewrite elem_of_range by lia. rewrite Z.mod_1_r. tauto. Qed.

Lemma div_32_8 q : 32 * q / 8 = 4 * q.
Proof. dlia. Qed.
Lemma div_16_4 q : 16 * q / 4 = 4 * q.
Proof. dlia. Qed.

Lemma dist_writes_spec mpidr base n ctlr a v :
  (a, v) ∈ dist_writes mpidr base n ctlr <-> dist_write mpidr n ctlr (a - base) v.
Proof.
  unfold dist_writes, config_writes, dist_write. rewrite !elem_of_app, !elem_of_cons, elem_of_nil, !elem_of_singles, elem_of_pairs.
  setoid_rewrite range_32. setoid_rewrite range_16. setoid_rewrite range_1.
  unfold GICD_CTLR, GICD_IGROUPR, GICD_ICFGR, GIC_DIST_PRI, GIC_DIST_ACTIVE_CLEAR, GIC_DIST_ENABLE_CLEAR, GICD_IROUTER.
  change (u32 GICD_INT_DEF_PRI_X4) with 0xa0a0a0a0. split.
  - intros H. destruct H as [H|[H|[H|H]]].
    + destruct H as [[= -> ->]|[]]. left. lia.
    + destruct H as (i & (q & H1 & H2 & ->) & [= -> ->]). right. left. exists q. rewrite div_32_8. lia.
    + destruct H as [(i & (q & H1 & H2 & ->) & [= -> ->])|[(i & (q & H1 & H2 & ->) & [= -> ->])|(i & (q & H1 & H2 & ->) & [[= -> ->]|[= -> ->]])]].
      * right. right. left. exists q. rewrite div_16_4. lia.
      * right. left. exists q. rewrite div_32_8. lia.
      * right. left. exists q. rewrite div_32_8. lia.
      * right. left. exists q. rewrite div_32_8. lia.
    + destruct H as [[[= -> ->]|[[= -> ->]|[]]]|(i & Hi & [= -> ->])]; [left; lia|left; lia|].
      right. right. right. exists i. lia.
  - intros H. assert (a = base + (a - base)) as Ea by lia. destruct H as [[Ho Hv]|[(q & H1 & H2 & H)|[(q & H1 & H2 & Ho & ->)|(i & Hi & Ho & ->)]]].
    + rewrite Ho in Ea. destruct Hv as [->|[->| ->]]; [left; left; f_equal; lia|right; right; right; left; left; f_equal; lia|right; right; right; left; right; left; f_equal; lia].
    + destruct H as [[Ho ->]|[[Ho ->]|[[Ho ->]|[Ho ->]]]].
      * right. left. exists (32 * q). split; [by exists q|]. rewrite div_32_8. f_equal. lia.
      * right. right. left. right. left. exists (32 * q). split; [by exists q|]. rewrite div_32_8. f_equal. lia.
      * right. right. left. right. right. exists (32 * q). split; [by exists q|]. left. rewrite div_32_8. f_equal. lia.
      * right. right. left. right. right. exists (32 * q). split; [by exists q|]. right. rewrite div_32_8. f_equal. lia.
    + right. right. left. left. exists (16 * q). split; [by exists q|]. rewrite div_16_4. f_equal. lia.
    + right. right. right. right. exists i. split; [done|]. f_equal. lia.
Qed.

(** A shared interrupt after the initialisation, [t] being the trace before
    it and [l] what it added: disabled, not active, pending as before, in
    group 1, level triggered; routed to the booting core from interrupt 64 on,
    with the default priority written for none from 128 on. *)
Record spi_ready (mpidr base : Z) (t l : trace) (i : Z) : Prop := {
  spi_disabled : chip base Enable i (t ++ l) = false;
  spi_inactive : chip base Active i (t ++ l) = false;
  spi_pending : chip base Pending i (t ++ l) = chip base Pending i t;
  spi_group : last_write (base + GICD_IGROUPR + i / 32 * 4) (writes l) = Some 0xffffffff;
  spi_level : last_write (base + GICD_ICFGR + i / 16 * 4) (writes l) = Some 0;
  spi_route : last_write (base + 0x6000 + 8 * i) (writes l) = if i <? 64 then None else Some (boot_affinity mpidr);
  spi_priority : 128 <= i -> last_write (base + GIC_DIST_PRI + i / 4 * 4) (writes l) = None
}.

Section ready.
Context (mpidr base rbase n ctlr : Z) (rest : list (Z * Z)).
Context (Hr : base + 0x10000 <= rbase) (Hn : n <= 1020) (Hrest : Forall (from rbase) rest).

(** Writes of the redistributor are elsewhere. *)
Lemma rest_not a v : a < base + 0x10000 -> (a, v) ∈ dist_writes mpidr base n ctlr ++ rest -> dist_write mpidr n ctlr (a - base) v.
Proof.
  intros Ha Hin. apply elem_of_app in Hin as [Hin|Hin]; [by apply dist_writes_spec|].
  rewrite list.Forall_forall in Hrest. specialize (Hrest _ Hin). unfold from in Hrest. cbn [fst] in Hrest. lia.
Qed.

Ltac reg_cases H :=
  unfold dist_write in H;
  destruct H as [[H ?]|[(? & ? & ? & [[H ?]|[[H ?]|[[H ?]|[H ?]]]])|[(? & ? & ? & H & ?)|(? & ? & H & ?)]]].

Lemma dist_writes_in o v : dist_write mpidr n ctlr o v -> (base + o, v) ∈ dist_writes mpidr base n ctlr ++ rest.
Proof. intros H. apply elem_of_app. left. apply dist_writes_spec. by replace (base + o - base) with o by lia. Qed.

Lemma spi_ready_intro t l i :
  32 <= i < n -> writes l = dist_writes mpidr base n ctlr ++ rest -> spi_ready mpidr base t l i.
Proof.
  intros Hi Hl.
  assert (forall a v, a < base + 0x10000 -> (a, v) ∈ writes l -> dist_write mpidr n ctlr (a - base) v) as Hin.
  { rewrite Hl. apply rest_not. }
  assert (forall o v, dist_write mpidr n ctlr o v -> (base + o, v) ∈ writes l) as Hput.
  { rewrite Hl. apply dist_writes_in. }
  clear Hl. assert (0 <= i / 32 <= 31 /\ 1 <= i / 32) as [Hq Hq1] by dlia.
  assert (Z.testbit 0xffffffff (i mod 32) = true) as Hb.
  { change 0xffffffff with (Z.ones 32). apply Z.ones_spec_low. apply Z.mod_pos_bound. lia. }
  split.
  - rewrite chip_app. apply bit_cleared.
    + left. exists 0xffffffff. split; [|done]. rewrite <- Z.add_assoc. apply Hput. right. left. exists (i / 32).
      unfold clr_reg, GICD_ICENABLER. dlia.
    + intros v H. apply Hin in H; unfold set_reg, GICD_ISENABLER in *; [|lia]. reg_cases H; lia.
  - rewrite chip_app. apply bit_cleared.
    + left. exists 0xffffffff. split; [|done]. rewrite <- Z.add_assoc. apply Hput. right. left. exists (i / 32).
      unfold clr_reg, GICD_ICACTIVER. dlia.
    + intros v H. apply Hin in H; unfold set_reg, GICD_ISACTIVER in *; [|lia]. reg_cases H; lia.
  - rewrite chip_app. apply bit_untouched; intros v H; (apply Hin in H; unfold set_reg, clr_reg, GICD_ISPENDR, GICD_ICPENDR in *; [|lia]);
      reg_cases H; lia.
  - apply last_write_some.
    + rewrite <- Z.add_assoc. apply Hput. right. left. exists (i / 32). unfold GICD_IGROUPR. dlia.
    + intros v H. apply Hin in H; unfold GICD_IGROUPR in *; [|lia]. reg_cases H; lia.
  - apply last_write_some.
    + rewrite <- Z.add_assoc. apply Hput. right. right. left. exists (i / 16). unfold GICD_ICFGR. dlia.
    + intros v H. apply Hin in H; unfold GICD_ICFGR in *; [|dlia]. reg_cases H; dlia.
  - destruct (Z.ltb_spec i 64).
    + apply last_write_none. intros v H'. apply Hin in H'; [|lia]. reg_cases H'; lia.
    + apply last_write_some.
      * rewrite <- Z.add_assoc. apply Hput. right. right. right. exists (i - 32). lia.
      * intros v H'. apply Hin in H'; [|lia]. reg_cases H'; lia.
  - intros H128. apply last_write_none. intros v H. apply Hin in H; unfold GIC_DIST_PRI in *; [|dlia]. reg_cases H; dlia.
Qed.
End ready.

Lemma dist_write_below mpidr n ctlr base a v :
  n <= 1020 -> dist_write mpidr n ctlr (a - base) v -> a < base + 0x60000.
Proof.
  intros Hn H. unfold dist_write in H.
  destruct H as [[H ?]|[(? & ? & ? & [[H ?]|[[H ?]|[[H ?]|[H ?]]]])|[(? & ? & ? & H & ?)|(? & ? & H & ?)]]]; lia.
Qed.

(** The last write to the control register enables group 1 and routing. *)
Lemma dist_enabled mpidr base rb n ctlr rest :
  base < rb -> Forall (from rb) rest -> last_write (base + GICD_CTLR) (dist_writes mpidr base n ctlr ++ rest) = Some 0x23.
Proof.
  intros Hr HF. unfold dist_writes. rewrite !app_assoc, <- !app_assoc, !last_write_app. unfold GICD_CTLR. rewrite Z.add_0_r.
  rewrite (last_write_none base rest).
  2: { intros v Hin. rewrite list.Forall_forall in HF. specialize (HF _ Hin). unfold from in HF. cbn [fst] in HF. lia. }
  rewrite (last_write_none base (flat_map _ (range 32 n 1))).
  2: { intros v Hin. apply elem_of_singles in Hin as (i & Hi%range_1 & [= E _]). unfold GICD_IROUTER in E. lia. }
  unfold last_write at 1. cbn [fold_left fst snd]. by rewrite Z.eqb_refl.
Qed.

(** The private interrupts of the first core after the initialisation: the
    software interrupts enabled and the others not, none active, group 1,
    default priority; the redistributor is told to wake. *)
Record private_ready (rb : Z) (t l : trace) : Prop := {
  priv_enabled : forall i, 0 <= i < 32 -> chip (rb + 0x10000) Enable i (t ++ l) = (i <? 16);
  priv_inactive : forall i, 0 <= i < 32 -> chip (rb + 0x10000) Active i (t ++ l) = false;
  priv_group : last_write (rb + 0x10080) (writes l) = Some 0xffffffff;
  priv_priority : forall i, 0 <= i < 32 -> last_write (rb + 0x10400 + i / 4 * 4) (writes l) = Some 0xa0a0a0a0;
  priv_awake : exists w, last_write (rb + 0x14) (writes l) = Some w /\ Z.testbit w 1 = false
}.

(** The numbers of the private interrupts, one by one. *)
Lemma private_cases (P : Z -> Prop) : Forall P (seqZ 0 32) -> forall i, 0 <= i < 32 -> P i.
Proof. intros HF i Hi. rewrite list.Forall_forall in HF. apply HF, elem_of_seqZ. lia. Qed.

Ltac each_private :=
  apply private_cases; let l := eval vm_compute in (seqZ 0 32) in change (seqZ 0 32) with l;
  repeat (apply list.Forall_cons_2; [vm_compute; reflexivity|]); apply list.Forall_nil_2.

Lemma redist_enables power waker b : forall i, 0 <= i < 32 ->
  fold_left (bit_step (GICV3_RDIST_0_BASE + 0x10000) Enable i) (redist_writes GICV3_RDIST_0_BASE power waker) b = (i <? 16).
Proof. each_private. Qed.

Lemma redist_deactivates power waker b : forall i, 0 <= i < 32 ->
  fold_left (bit_step (GICV3_RDIST_0_BASE + 0x10000) Active i) (redist_writes GICV3_RDIST_0_BASE power waker) b = false.
Proof. each_private. Qed.

Lemma redist_priority power waker : forall i, 0 <= i < 32 ->
  last_write (GICV3_RDIST_0_BASE + 0x10400 + i / 4 * 4) (redist_writes GICV3_RDIST_0_BASE power waker) = Some 0xa0a0a0a0.
Proof. each_private. Qed.

Lemma private_ready_intro t l ws power waker :
  writes l = ws ++ redist_writes GICV3_RDIST_0_BASE power waker -> Z.testbit waker 1 = false -> private_ready GICV3_RDIST_0_BASE t l.
Proof.
  intros W Hw. split.
  - intros i Hi. rewrite chip_app, W, fold_left_app. by apply redist_enables.
  - intros i Hi. rewrite chip_app, W, fold_left_app. by apply redist_deactivates.
  - rewrite W, last_write_app. reflexivity.
  - intros i Hi. rewrite W, last_write_app. by rewrite redist_priority.
  - exists waker. split; [|done]. rewrite W, last_write_app. reflexivity.
Qed.

(** ** The steps of [gic_init] *)

Lemma after_set {B} f (k : unit -> G B) s t :
  mbind_ (set_data f) k s t = k tt (GicState (f (gic_data s)) (irq_handler_tab s)) t.
Proof. done. Qed.

(** A step whose result is known, at the head of a computation. *)
Lemma after_makes {A B} (c : G A) (k : A -> G B) s t ws P :
  makes c s t ws P -> exists a l, P a /\ writes l = ws /\ mbind_ c k s t = k a s (t ++ l).
Proof.
  intros (a & d & l & E & -> & W & Ha). exists a, l. split; [done|]. split; [done|]. unfold mbind_. by rewrite E.
Qed.

Lemma makes_validate hw base s t :
  makes (gic_validate_dist_version hw base) s t [] (fun _ => True).
Proof. eapply makes_seq; [apply makes_readl|..]; [|done]. intros v t1 _. cbv zeta. case_match; by apply makes_ret. Qed.

(** What [gic_init_bases] does after it has recorded the type. *)
Definition init_tail (hw : hardware) (frames : nat) (typer : Z) : G Z :=
  seq! message "Distributor has %sRange Selector support, Support %d irq\n"
         [Z.b2z (flag typer GICD_TYPER_RSS); (if 1020 <? GICD_TYPER_IRQS typer then 1020 else GICD_TYPER_IRQS typer)] then
  seq! (if flag typer GICD_TYPER_MBIS then message "Gicv3 support MBIs, TODO MSI!\n" [] else ret tt) then
  seq! gic_dist_init hw then
  seq! gic_cpu_init hw frames then
  do! lpis := gic_dist_supports_lpis hw in
  seq! (if lpis : bool then message "Support LPIs,TODO!\n" [] else ret tt) then
  ret 0.

Lemma gic_init_bases_eq hw frames dist rdist :
  gic_init_bases hw frames dist rdist =
    (do! typer := readl_relaxed hw (dist + GICD_TYPER) in
     seq! set_data (fun g => GicData (flag typer GICD_TYPER_RSS) (dist_base g) (rdist_base g) true
                       (if 1020 <? GICD_TYPER_IRQS typer then 1020 else GICD_TYPER_IRQS typer) typer true) then
     init_tail hw frames typer).
Proof. done. Qed.

Lemma tame_init_tail hw frames mpidr typer s t :
  (forall t, u64 (sysreg hw t "MPIDR_EL1") = mpidr) -> last_frame hw frames (rdist_base (gic_data s)) ->
  tame NO_SRE (init_tail hw frames typer) s t (fun ws => exists ctlr rest,
    ws = dist_writes mpidr (dist_base (gic_data s)) (gic_irqs (gic_data s)) ctlr ++ rest /\
    cpu_writes (rdist_base (gic_data s)) rest) (fun r => r = 0).
Proof.
  intros Hmp Hlast. unfold init_tail. eapply tame_step; [apply makes_message|]. intros _ t1 _.
  eapply (tame_step _ _ _ _ _ [] _ (fun _ => True)); [case_match; [apply makes_message|by apply makes_ret]|]. intros _ t2 _.
  destruct (tame_dist_init hw mpidr Hmp NO_SRE s t2) as [Hp|(ws & (ctlr & ->) & Hm)]; [left; unfold mbind_ at 1; by rewrite Hp|].
  eapply tame_step; [exact Hm|]. intros _ t3 _.
  destruct (tame_cpu_init hw frames s t3 Hlast) as [Hp|(rest & Hrest & Hm2)]; [left; unfold mbind_ at 1; by rewrite Hp|].
  eapply tame_step; [exact Hm2|]. intros _ t4 _.
  eapply (tame_step _ _ _ _ _ [] _ (fun _ => True)).
  { eapply makes_seq; [apply makes_data|..]; [|done]. intros g t5 ->. eapply makes_seq; [apply makes_readl|..]; [|done].
    intros v t6 _. by apply makes_ret. }
  intros lpis t5 _. eapply (tame_step _ _ _ _ _ [] _ (fun _ => True)); [case_match; [apply makes_message|by apply makes_ret]|].
  intros _ t6 _. apply tame_ret; [|done]. exists ctlr, rest. split; [|done]. cbn [app]. by rewrite app_nil_r.
Qed.

Lemma gic_init_spec (hw : hardware) (frames : nat) (mpidr : Z) (s : gic_state) (t : trace) :
  (forall t, u64 (sysreg hw t "MPIDR_EL1") = mpidr) -> last_frame hw frames GICV3_RDIST_0_BASE ->
  gic_init hw frames s t = Panic NO_DIST \/ gic_init hw frames s t = Panic NO_SRE \/
  exists s' l, gic_init hw frames s t = Ok (tt, s', t ++ l) /\ irq_handler_tab s' = irq_handler_tab s /\
    dist_base (gic_data s') = GICV3_DIST_BASE /\ rdist_base (gic_data s') = GICV3_RDIST_0_BASE /\
    32 <= gic_irqs (gic_data s') <= 1020 /\
    (forall i, 32 <= i < gic_irqs (gic_data s') -> spi_ready mpidr GICV3_DIST_BASE t l i) /\
    last_write (GICV3_DIST_BASE + GICD_CTLR) (writes l) = Some 0x23 /\
    (Forall (fun w => w.1 < GICV3_RDIST_0_BASE) (writes l) \/ private_ready GICV3_RDIST_0_BASE t l).
Proof.
  intros Hmp Hlast. remember (gic_init hw frames s t) as R eqn:ER.
  unfold gic_init in ER. rewrite after_set in ER. set (s1 := GicState _ (irq_handler_tab s)) in ER.
  match type of ER with _ = mbind_ ?c ?k s1 t =>
    destruct (after_makes c k s1 t _ _ (makes_validate hw GICV3_DIST_BASE s1 t)) as (r & l1 & _ & W1 & E1) end.
  rewrite E1 in ER. clear E1. destruct (negb (r =? 0)); [by left|]. right.
  unfold mbind_ at 1 in ER. rewrite gic_init_bases_eq in ER.
  destruct (makes_readl hw (GICV3_DIST_BASE + GICD_TYPER) s1 (t ++ l1)) as (typer & ? & l2 & E & -> & W2 & _).
  unfold mbind_ at 1 in ER. rewrite E in ER. cbn [obind] in ER. rewrite after_set in ER.
  set (n := if 1020 <? GICD_TYPER_IRQS typer then 1020 else GICD_TYPER_IRQS typer) in ER.
  set (s2 := GicState _ (irq_handler_tab s1)) in ER.
  assert (32 <= n <= 1020) as Hn.
  { unfold n, GICD_TYPER_IRQS. pose proof (land_mask 5 typer ltac:(lia)) as El. change (2 ^ 5 - 1) with 0x1f in El. rewrite El.
    case_cmp; dlia. }
  destruct (tame_init_tail hw frames mpidr typer s2 ((t ++ l1) ++ l2) Hmp Hlast) as [Hp|(ws & (ctlr & rest & -> & Hrest) & Hm)].
  { left. by rewrite ER, Hp. }
  right. destruct Hm as (r' & s3 & l3 & Em & -> & W3 & ->). exists s2, (l1 ++ l2 ++ l3).
  rewrite ER, Em. split; [cbn [obind ret]; by rewrite !app_assoc|].
  split; [done|]. split; [done|]. split; [done|]. split; [done|]. change (gic_irqs (gic_data s2)) with n in *.
  assert (writes (l1 ++ l2 ++ l3) = dist_writes mpidr GICV3_DIST_BASE n ctlr ++ rest) as W by (rewrite !writes_app, W1, W2; exact W3).
  split; [|split].
  - intros i Hi. apply (spi_ready_intro mpidr GICV3_DIST_BASE GICV3_RDIST_0_BASE n ctlr rest); [done|lia|by apply cpu_writes_from|done|exact W].
  - rewrite W. by apply (dist_enabled mpidr GICV3_DIST_BASE GICV3_RDIST_0_BASE), cpu_writes_from.
  - destruct Hrest as [->|(power & waker & -> & Hw)].
    + left. rewrite W, app_nil_r. apply list.Forall_forall. intros [a v] Hav%dist_writes_spec. by apply dist_write_below in Hav; [|lia].
    + right. by eapply private_ready_intro.
Qed.

(** ** Claim *)


(** A controller whose registers read 0x30: version 3, 544 interrupts, one
    redistributor frame, never busy. *)
Definition demo_hw : hardware :=
  Hardware (fun _ _ => 0x30) (fun _ r => if String.eqb r "ICC_SRE_EL1" then 1 else 0).

Definition reset_state : gic_state := GicState (GicData false 0 0 false 0 0 false) ∅.

