(* ===== verification/IrqTheorems.v ===== *)
(** * Interrupts: the theorems

    Setting and reading the state of an interrupt, and from registering a
    handler to its call. *)

From S2P Require Import Prelude CMem Device Gic GicFacts Interrupt.
From stdpp Require Import strings.

Local Open Scope Z_scope.
Local Open Scope c_scope.

(** The bit an [irqchip_irq_state] is about and its value; masked means not
    enabled. *)
Definition kind_of (which : irqchip_irq_state) (val : bool) : option (kind * bool) :=
  match which with
  | IRQCHIP_STATE_PENDING => Some (Pending, val)
  | IRQCHIP_STATE_ACTIVE => Some (Active, val)
  | IRQCHIP_STATE_MASKED => Some (Enable, negb val)
  | IRQCHIP_STATE_LINE_LEVEL => None
  end.

(** The set-registers read as the bits they control. *)
Definition reads_back (hw : hardware) (mpidr : Z) (g : irq_gic_v3) : Prop :=
  forall t k i, 0 <= i < 1020 ->
    Z.testbit (mmio hw t (irq_base mpidr g i + set_reg k + i / 32 * 4)) (i mod 32) = chip (irq_base mpidr g i) k i t.

(** The only effect of a run is one bit of one interrupt. *)
Definition only_bit (mpidr : Z) (g : irq_gic_v3) (k : kind) (irq : Z) (b : bool) (t t' : trace) : Prop :=
  forall k' j, 0 <= j < 1020 ->
    chip (irq_base mpidr g j) k' j t' = if decide (k' = k /\ j = irq) then b else chip (irq_base mpidr g j) k' j t.

Lemma with_data {B} (k : irq_gic_v3 -> G B) s t : mbind_ data k s t = k (gic_data s) s t.
Proof. done. Qed.

Section irq.
Context (hw : hardware) (mpidr : Z) (Hmpidr : forall t, u64 (sysreg hw t "MPIDR_EL1") = mpidr).

Lemma poke_bit irq k val s t :
  layout mpidr (gic_data s) -> 0 <= irq < 1020 ->
  exists t', gic_poke_irq hw irq (reg_for k val) s t = Ok (tt, s, t') /\ only_bit mpidr (gic_data s) k irq val t t'.
Proof.
  intros Hl Hi. destruct (makes_poke hw mpidr Hmpidr irq (reg_for k val) s t) as ([] & s' & l & E & -> & W & _).
  exists (t ++ l). split; [done|]. intros k' j Hj. rewrite chip_app, W. cbn [fold_left]. by apply poke_effect.
Qed.

Lemma set_state_eq irq which val s t :
  irq_set_irqchip_state hw irq which val s t =
    if gic_irqs (gic_data s) <=? irq then Ok (- EINVAL, s, t) else
    match kind_of which val with
    | Some (k, b) => let! '(_, s', t') := gic_poke_irq hw irq (reg_for k b) s t in Ok (0, s', t')
    | None => Ok (- EINVAL, s, t)
    end.
Proof.
  unfold irq_set_irqchip_state, gic_irq_set_irqchip_state. rewrite with_data.
  destruct (gic_irqs (gic_data s) <=? irq); [done|]. destruct which, val; reflexivity.
Qed.

Lemma get_state_bit irq which val k b s t :
  kind_of which val = Some (k, b) -> reads_back hw mpidr (gic_data s) -> 0 <= irq < gic_irqs (gic_data s) ->
  gic_irqs (gic_data s) <= 1020 -> chip (irq_base mpidr (gic_data s) irq) k irq t = b ->
  exists t', irq_get_irqchip_state hw irq which s t = Ok ((0, Some val), s, t').
Proof.
  intros Hk Hrb Hi Hn Hb. destruct (makes_peek hw mpidr Hmpidr irq (set_reg k) s t) as (v & s' & l & E & -> & _ & (t' & Wt & Ev)).
  rewrite testbit_u32, Hrb in Ev by first [lia|apply Z.mod_pos_bound; lia].
  assert (v = b) as -> by (rewrite Ev, <- Hb; unfold chip; by rewrite Wt).
  exists (t ++ l). unfold irq_get_irqchip_state, gic_irq_get_irqchip_state. rewrite with_data.
  destruct (Z.leb_spec (gic_irqs (gic_data s)) irq); [lia|].
  destruct which; cbn [kind_of] in Hk; [injection Hk as <- <-..|done]; cbn [set_reg] in E; unfold mbind_, ret; rewrite E;
    cbn [obind]; by rewrite ?negb_involutive.
Qed.
End irq.

(** ** Claims *)

(** C29: the state of an interrupt.  On hardware with a constant core number
    and register frames that do not overlap, [irq_set_irqchip_state] refuses
    an interrupt the controller does not have and the line level with
    -EINVAL, touching no register; otherwise it returns 0 after changing
    exactly one bit of exactly that interrupt (pending, active, or enabled for
    masked), and [irq_get_irqchip_state] then returns the value that was set,
    where the registers read as the bits they control. *)
Theorem irqchip_state_correct (hw : hardware) (mpidr : Z) (s : gic_state) (t : trace) (irq : Z)
    (which : irqchip_irq_state) (val : bool) :
  (forall t, u64 (sysreg hw t "MPIDR_EL1") = mpidr) -> layout mpidr (gic_data s) -> 0 <= irq ->
  match (if gic_irqs (gic_data s) <=? irq then None else kind_of which val) with
  | None => irq_set_irqchip_state hw irq which val s t = Ok (- EINVAL, s, t)
  | Some (k, b) => exists t', irq_set_irqchip_state hw irq which val s t = Ok (0, s, t') /\
      only_bit mpidr (gic_data s) k irq b t t' /\
      (reads_back hw mpidr (gic_data s) -> exists t'', irq_get_irqchip_state hw irq which s t' = Ok ((0, Some val), s, t''))
  end.
Proof.
  intros Hmp Hl Hi. rewrite set_state_eq. destruct (Z.leb_spec (gic_irqs (gic_data s)) irq); [done|].
  destruct (kind_of which val) as [[k b]|] eqn:Ek; [|done]. pose proof (lay_irqs _ _ Hl) as Hn.
  destruct (poke_bit hw mpidr Hmp irq k b s t Hl ltac:(lia)) as (t' & E & Hbit). rewrite E. cbn [obind].
  exists t'. split; [done|]. split; [done|]. intros Hrb.
  apply (get_state_bit hw mpidr Hmp irq which val k b); [done|done|lia|done|].
  rewrite Hbit by lia. by rewrite decide_True.
Qed.

(** A controller that reads back what was written to it, on core 0. *)
Definition word_of (f : Z -> bool) : Z := fold_right (fun b v => if f b then Z.setbit v b else v) 0 (seqZ 0 32).

Lemma testbit_word f b : 0 <= b < 32 -> Z.testbit (word_of f) b = f b.
Proof.
  intros Hb. unfold word_of. assert (forall l, Forall (fun x => 0 <= x) l ->
    Z.testbit (fold_right (fun b v => if f b then Z.setbit v b else v) 0 l) b = bool_decide (b ∈ l) && f b) as H.
  { induction 1 as [|x l Hx _ IH]; [by rewrite Z.bits_0|]. cbn [fold_right]. destruct (decide (x = b)) as [->|Hne].
    - rewrite bool_decide_true by by left. destruct (f b) eqn:E; [rewrite Z.setbit_eqb by done; by rewrite Z.eqb_refl|].
      rewrite IH. by rewrite andb_false_r.
    - rewrite (bool_decide_ext (b ∈ x :: l) (b ∈ l)) by set_solver. rewrite <- IH. destruct (f x); [|done].
      rewrite Z.setbit_eqb by done. by destruct (Z.eqb_spec x b). }
  rewrite H; [rewrite bool_decide_true; [done|apply elem_of_seqZ; lia]|].
  apply list.Forall_forall. intros x Hx%elem_of_seqZ. lia.
Qed.

Definition echo_state : gic_state :=
  GicState (GicData false GICV3_DIST_BASE GICV3_RDIST_0_BASE false 544 0 false) ∅.

Definition echo_hw : hardware :=
  Hardware (fun t a => word_of (fun b =>
      existsb (fun k => existsb (fun q =>
        (a =? irq_base 0 (gic_data echo_state) (32 * q + b) + set_reg k + q * 4) &&
        chip (irq_base 0 (gic_data echo_state) (32 * q + b)) k (32 * q + b) t) (seqZ 0 32)) [Enable; Pending; Active]))
    (fun _ _ => 0).

Lemma echo_layout : layout 0 (gic_data echo_state).
Proof. split; vm_compute; congruence. Qed.

Lemma echo_reads_back : reads_back echo_hw 0 (gic_data echo_state).
Proof.
  intros t k i Hi. cbn [mmio echo_hw]. rewrite testbit_word by (apply Z.mod_pos_bound; lia).
  apply eq_true_iff_eq. rewrite existsb_exists. split.
  - intros (k' & _ & H). apply existsb_exists in H as (q & Hq & H). apply list_elem_of_In, elem_of_seqZ in Hq.
    apply andb_true_iff in H as [Ha Hc]. apply Z.eqb_eq in Ha.
    pose proof (reg_range k true). pose proof (reg_range k' true). unfold reg_for in *.
    destruct (irq_base_eq 0 (gic_data echo_state) i (32 * q + i mod 32) (set_reg k + i / 32 * 4) (set_reg k' + q * 4)) as [_ Eo];
      [vm_compute; congruence|dlia|lia|lia|].
    destruct (reg_inj k k' true true (i / 32 * 4) (q * 4)) as (-> & _ & Eq); [dlia|lia|exact Eo|].
    replace (32 * q + i mod 32) with i in Hc by dlia. exact Hc.
  - intros Hc. exists k. split; [destruct k; simpl; tauto|]. apply existsb_exists. exists (i / 32).
    split; [apply list_elem_of_In, elem_of_seqZ; dlia|]. replace (32 * (i / 32) + i mod 32) with i by dlia.
    by rewrite Z.eqb_refl, Hc.
Qed.

Lemma irqchip_state_correct_witness :
  exists t' t'', irq_set_irqchip_state echo_hw 77 IRQCHIP_STATE_MASKED false echo_state [] = Ok (0, echo_state, t') /\
    only_bit 0 (gic_data echo_state) Enable 77 true [] t' /\
    irq_get_irqchip_state echo_hw 77 IRQCHIP_STATE_MASKED echo_state t' = Ok ((0, Some false), echo_state, t'').
Proof.
  destruct (irqchip_state_correct echo_hw 0 echo_state [] 77 IRQCHIP_STATE_MASKED false) as (t' & E & Hb & Hg);
    [done|exact echo_layout|done|].
  destruct (Hg echo_reads_back) as (t'' & Eg). exists t', t''. split; [exact E|]. split; [exact Hb|exact Eg].
Defined.

(** ** Dispatch *)

(** The dispatcher with interrupt number [n], acknowledged as [stat], with the
    steps in sequence. *)
Definition dispatch (hw : hardware) (invoke : Z -> Z -> G unit) (stat : Z) (s : gic_state) (t : trace) : outcome (unit * gic_state * trace) :=
  let n := Z.land stat GICC_IAR_INT_MASK in
  let t := t ++ [MRS "ICC_IAR1_EL1" stat] in
  if (1020 <=? n) && (n <? LPI_IRQ_MIN) then Ok (tt, s, t) else
  if MAX_IRQ_ID <? n then Fault else
  let e := default no_handler (irq_handler_tab s !! n) in
  let t := t ++ [MSR "ICC_EOIR1_EL1" n] in
  let! '(_, s, t) :=
    if handler e =? NULL then Ok (tt, s, t ++ [Message "%d Not Found handler.please Check IRQ_DEFINE.\n" [n]])
    else invoke (handler e) (arg e) s t in
  if n <? 1020 then gicv3_clean_active_irq hw stat s t else Ok (tt, s, t).

Lemma do_irq_handle_dispatch (hw : hardware) (invoke : Z -> Z -> G unit) (s : gic_state) (t : trace) (stat : Z) :
  u64 (sysreg hw t "ICC_IAR1_EL1") = stat -> stat < 2 ^ 31 ->
  do_irq_handle hw invoke s t = dispatch hw invoke stat s t.
Proof.
  intros Hs Hr. pose proof (u64_range (sysreg hw t "ICC_IAR1_EL1")) as Hr0. rewrite Hs in Hr0.
  unfold do_irq_handle, dispatch, mbind_ at 1, read_sysreg_s. rewrite Hs. cbn [obind]. rewrite u32_small by lia.
  unfold s32. rewrite swrap_small by lia.
  pose proof (land_mask 24 stat ltac:(lia)) as El. change (2 ^ 24 - 1) with GICC_IAR_INT_MASK in El.
  set (n := Z.land stat GICC_IAR_INT_MASK) in *. assert (0 <= n) as Hn by (rewrite El; apply Z.mod_pos_bound; lia).
  destruct (Z.leb_spec 1020 n), (Z.ltb_spec n 1020); try lia; cbn [andb orb].
  - unfold LPI_IRQ_MIN, MAX_IRQ_ID in *. destruct (Z.leb_spec 8192 n), (Z.ltb_spec n 8192); try lia; [|done].
    unfold mbind_, gic_write_eoir, write_sysreg_s, emit, tab_get. cbn [obind]. rewrite (u32_small n), u64_small by (rewrite El; dlia).
    destruct (Z.leb_spec 0 n); [|lia]. cbn [andb]. unfold MAX_IRQ_ID, LPI_IRQ_MIN.
    destruct (Z.leb_spec n (8192 + 32)), (Z.ltb_spec (8192 + 32) n); try lia; [|done]. cbn [obind].
    destruct (handler (default no_handler (irq_handler_tab s !! n)) =? NULL); done.
  - unfold LPI_IRQ_MIN, MAX_IRQ_ID in *. unfold mbind_, gic_write_eoir, write_sysreg_s, emit, tab_get. cbn [obind].
    rewrite (u32_small n), u64_small by (rewrite El; dlia).
    destruct (Z.leb_spec 0 n); [|lia]. cbn [andb]. unfold MAX_IRQ_ID, LPI_IRQ_MIN.
    destruct (Z.leb_spec n (8192 + 32)), (Z.ltb_spec (8192 + 32) n); try lia. cbn [obind].
    destruct (handler (default no_handler (irq_handler_tab s !! n)) =? NULL); done.
Qed.

(** The clearing of the active bit, as the registers see it. *)
Lemma deactivates hw mpidr irq s t :
  (forall t, u64 (sysreg hw t "MPIDR_EL1") = mpidr) -> layout mpidr (gic_data s) -> 0 <= irq < 1020 ->
  exists l, gicv3_clean_active_irq hw irq s t = Ok (tt, s, t ++ l) /\
    writes l = [(irq_base mpidr (gic_data s) irq + 0x380 + irq / 32 * 4, 2 ^ (irq mod 32))] /\
    only_bit mpidr (gic_data s) Active irq false t (t ++ l).
Proof.
  intros Hmp Hl Hi. destruct (makes_poke hw mpidr Hmp irq (reg_for Active false) s t) as ([] & s' & l & E & -> & W & _).
  exists l. split; [exact E|]. split; [exact W|]. intros k' j Hj. rewrite chip_app, W. cbn [fold_left]. by apply poke_effect.
Qed.

(** C15: the dispatcher on any acknowledged number [n], of the 24 bits the
    acknowledge register has.  [do_irq_handle] reads that register once.  The
    special numbers 1020 to 8191 end there.  A number above MAX_IRQ_ID indexes
    outside the table: the code does not check it.  Any other number is
    signalled as ended; then the handler of the table is called with its
    argument, or a message printed where there is none; what the handler does
    not survive is not survived by the dispatcher.  After the handler a number
    below 1020 is deactivated: the one register written is the clear-active
    register of the interrupt (in the redistributor of the core below 32, in
    the distributor from there on), with the one bit of the interrupt, and
    among the enable, pending and active bits of all interrupts only that
    active bit changes, to clear; a number from 8192 on is left alone. *)
Theorem dispatch_correct (hw : hardware) (invoke : Z -> Z -> G unit) (mpidr : Z) (s : gic_state) (t : trace) (n : Z) :
  (forall t, u64 (sysreg hw t "MPIDR_EL1") = mpidr) -> u64 (sysreg hw t "ICC_IAR1_EL1") = n -> n < 2 ^ 24 ->
  let t0 := t ++ [MRS "ICC_IAR1_EL1" n] in
  if (1020 <=? n) && (n <? 8192) then do_irq_handle hw invoke s t = Ok (tt, s, t0)
  else if MAX_IRQ_ID <? n then do_irq_handle hw invoke s t = Fault
  else
    let e := default no_handler (irq_handler_tab s !! n) in
    let t1 := t0 ++ [MSR "ICC_EOIR1_EL1" n] in
    let called :=
      if handler e =? NULL then Ok (tt, s, t1 ++ [Message "%d Not Found handler.please Check IRQ_DEFINE.\n" [n]])
      else invoke (handler e) (arg e) s t1 in
    match called with
    | Ok (_, s2, t2) =>
        if n <? 1020 then
          layout mpidr (gic_data s2) ->
          exists l, do_irq_handle hw invoke s t = Ok (tt, s2, t2 ++ l) /\
            writes l = [((if n <? 32 then rdist_base (gic_data s2) + cpu_of mpidr * 0x20000 + 0x10000 else dist_base (gic_data s2))
                           + 0x380 + n / 32 * 4, 2 ^ (n mod 32))] /\
            only_bit mpidr (gic_data s2) Active n false t2 (t2 ++ l)
        else do_irq_handle hw invoke s t = Ok (tt, s2, t2)
    | r => do_irq_handle hw invoke s t = r
    end.
Proof.
  intros Hmp Hs Hr t0. pose proof (u64_range (sysreg hw t "ICC_IAR1_EL1")) as Hr0. rewrite Hs in Hr0.
  rewrite (do_irq_handle_dispatch hw invoke s t n Hs) by lia. unfold dispatch.
  assert (Z.land n GICC_IAR_INT_MASK = n) as ->.
  { change GICC_IAR_INT_MASK with (2 ^ 24 - 1). rewrite land_mask, Z.mod_small by lia. done. }
  change LPI_IRQ_MIN with 8192. destruct ((1020 <=? n) && (n <? 8192)); [done|]. destruct (MAX_IRQ_ID <? n); [done|]. cbv zeta.
  destruct (if handler _ =? NULL then _ else _) as [[[[] s2] t2]| | |]; cbn [obind]; try done.
  destruct (Z.ltb_spec n 1020); [|done]. intros Hl. apply (deactivates hw mpidr n s2 t2 Hmp Hl). lia.
Qed.

(** Interrupt 40 with a handler that says so: ended, handled, deactivated. *)
Lemma dispatch_correct_witness :
  let hw := Hardware (fun _ _ => 0) (fun _ r => if String.eqb r "MPIDR_EL1" then 0 else 40) in
  let s := GicState (gic_data echo_state) {[40 := IrqHandler 40 0x80000 7 "soft install" 4]} in
  exists l, do_irq_handle hw (fun h a => message "handler %lx %lx\n" [h; a]) s [] =
      Ok (tt, s, [MRS "ICC_IAR1_EL1" 40; MSR "ICC_EOIR1_EL1" 40; Message "handler %lx %lx\n" [0x80000; 7]] ++ l) /\
    writes l = [(GICV3_DIST_BASE + 0x380 + 4, 2 ^ 8)].
Proof.
  intros hw s. pose proof (dispatch_correct hw (fun h a => message "handler %lx %lx\n" [h; a]) 0 s [] 40 ltac:(done) eq_refl ltac:(lia)) as H.
  destruct (H echo_layout) as (l & E & W & _). exists l. split; [exact E|exact W].
Defined.

(** ** Registering handlers *)

Lemma register_eq hw irq h flags a name s t :
  0 <= irq < LPI_IRQ_MIN ->
  gic_register_irq hw irq h flags a name s t =
    enable_irq hw irq (GicState (gic_data s) (<[irq := IrqHandler irq h a name flags]> (irq_handler_tab s))) t.
Proof.
  intros Hi. unfold gic_register_irq, tab_set, mbind_. unfold LPI_IRQ_MIN, MAX_IRQ_ID, LPI_IRQ_MIN in *.
  destruct (Z.leb_spec (8192 + 32) irq); [lia|]. destruct (Z.leb_spec 0 irq); [|lia]. destruct (Z.leb_spec irq (8192 + 32)); [|lia].
  cbn [andb obind]. by destruct (Z.ltb_spec irq 8192); [|lia].
Qed.

Lemma unregister_eq hw irq s t :
  0 <= irq < LPI_IRQ_MIN ->
  let e := default no_handler (irq_handler_tab s !! irq) in
  gic_unregister_irq hw irq s t =
    disable_irq hw irq (GicState (gic_data s) (<[irq := IrqHandler (irqid e) NULL (arg e) (irqname e) (irqflags e)]> (irq_handler_tab s))) t.
Proof.
  intros Hi e. unfold gic_unregister_irq, tab_get, tab_set, mbind_. unfold LPI_IRQ_MIN, MAX_IRQ_ID, LPI_IRQ_MIN in *.
  destruct (Z.leb_spec (8192 + 32) irq); [lia|]. destruct (Z.leb_spec 0 irq); [|lia]. by destruct (Z.leb_spec irq (8192 + 32)); [|lia].
Qed.

(** Entries that are not selected are not registered. *)
Lemma register_none hw f l s t : Forall (fun e => f e = false) l -> register_all hw f l s t = Ok (tt, s, t).
Proof.
  revert s t. induction l as [|e l IH]; intros s t HF; [done|]. apply list.Forall_cons in HF as [He HF].
  cbn [register_all]. rewrite He. by apply IH.
Qed.

(** C30: from installing a handler to its call and back.  For an interrupt
    below 1020: [irq_install_handler] enters the handler, enables exactly that
    interrupt and returns 0; from then on, in any state with that table, an
    acknowledge of the interrupt calls the handler with its argument after
    signalling the end of the interrupt, and deactivates the interrupt
    afterwards.  [irq_free_handler] disables exactly that interrupt; unless
    the linker table has an entry for it, an acknowledge then calls nothing. *)
Theorem install_dispatch_free (hw : hardware) (mpidr : Z) (irq_table : list irq_handler_struct) (invoke : Z -> Z -> G unit)
    (s : gic_state) (t : trace) (irq h a f : Z) :
  (forall t, u64 (sysreg hw t "MPIDR_EL1") = mpidr) -> layout mpidr (gic_data s) -> 0 <= irq < 1020 -> h <> NULL ->
  (exists s1 t1, irq_install_handler hw irq h a f s t = Ok (0, s1, t1) /\ only_bit mpidr (gic_data s) Enable irq true t t1 /\
    forall s2 t2, irq_handler_tab s2 = irq_handler_tab s1 -> u64 (sysreg hw t2 "ICC_IAR1_EL1") = irq ->
      do_irq_handle hw invoke s2 t2 =
        let! '(_, s3, t3) := invoke h a s2 (t2 ++ [MRS "ICC_IAR1_EL1" irq; MSR "ICC_EOIR1_EL1" irq]) in
        gicv3_clean_active_irq hw irq s3 t3) /\
  (Forall (fun e => irqid e <> irq) irq_table ->
   exists s1 t1, irq_free_handler hw irq_table irq s t = Ok (tt, s1, t1) /\ only_bit mpidr (gic_data s) Enable irq false t t1 /\
    forall s2 t2, irq_handler_tab s2 = irq_handler_tab s1 -> u64 (sysreg hw t2 "ICC_IAR1_EL1") = irq ->
      do_irq_handle hw invoke s2 t2 =
        gicv3_clean_active_irq hw irq s2 (t2 ++ [MRS "ICC_IAR1_EL1" irq; MSR "ICC_EOIR1_EL1" irq;
          Message "%d Not Found handler.please Check IRQ_DEFINE.\n" [irq]])).
Proof.
  intros Hmp Hl Hi Hh.
  assert (Z.land irq GICC_IAR_INT_MASK = irq) as En.
  { change GICC_IAR_INT_MASK with (2 ^ 24 - 1). rewrite land_mask, Z.mod_small by lia. done. }
  assert (forall s2 t2 e, irq_handler_tab s2 !! irq = Some e -> u64 (sysreg hw t2 "ICC_IAR1_EL1") = irq ->
    do_irq_handle hw invoke s2 t2 =
      (let t3 := t2 ++ [MRS "ICC_IAR1_EL1" irq; MSR "ICC_EOIR1_EL1" irq] in
       let! '(_, s, t) := if handler e =? NULL then Ok (tt, s2, t3 ++ [Message "%d Not Found handler.please Check IRQ_DEFINE.\n" [irq]])
         else invoke (handler e) (arg e) s2 t3 in gicv3_clean_active_irq hw irq s t)) as Hd.
  { intros s2 t2 e He Hs. rewrite (do_irq_handle_dispatch hw invoke s2 t2 irq Hs) by lia. unfold dispatch. rewrite En, He. cbn [default].
    destruct (Z.leb_spec 1020 irq); [lia|]. cbn [andb]. unfold MAX_IRQ_ID, LPI_IRQ_MIN. destruct (Z.ltb_spec (8192 + 32) irq); [lia|].
    destruct (Z.ltb_spec irq 1020); [|lia]. unfold id. cbv zeta. rewrite <- !app_assoc. reflexivity. }
  split.
  - unfold irq_install_handler, mbind_. rewrite u32_small by lia. rewrite register_eq by (unfold LPI_IRQ_MIN; lia).
    set (s1 := GicState _ _). destruct (poke_bit hw mpidr Hmp irq Enable true s1 t Hl Hi) as (t1 & E & Hbit).
    exists s1, t1. split; [|split; [exact Hbit|]].
    + unfold enable_irq, irq_unmask, gic_unmask_irq. change GICD_ISENABLER with (reg_for Enable true). by rewrite E.
    + intros s2 t2 Ht Hs. rewrite (Hd s2 t2 (IrqHandler irq h a "soft install" f)); [|rewrite Ht; apply lookup_insert_eq|done].
      cbv zeta. cbn [handler arg]. by destruct (Z.eqb_spec h NULL).
  - intros HF. unfold irq_free_handler. unfold mbind_ at 1. rewrite u32_small by lia.
    rewrite unregister_eq by (unfold LPI_IRQ_MIN; lia).
    set (s1 := GicState _ _). destruct (poke_bit hw mpidr Hmp irq Enable false s1 t Hl Hi) as (t1 & E & Hbit).
    exists s1, t1. split; [|split; [exact Hbit|]].
    + unfold disable_irq, irq_mask, gic_eoimode1_mask_irq, gic_mask_irq. change GICD_ICENABLER with (reg_for Enable false).
      rewrite E. cbn [obind]. apply register_none. eapply list.Forall_impl; [exact HF|]. cbv beta. intros e He.
      destruct (Z.eqb_spec irq (irqid e)) as [Heq|]; [|done]. by rewrite Heq in He.
    + intros s2 t2 Ht Hs. erewrite (Hd s2 t2); [|rewrite Ht; apply lookup_insert_eq|done].
      cbv zeta. cbn [handler obind]. change (NULL =? NULL) with true. cbv iota. cbn [obind]. by rewrite <- app_assoc.
Qed.

Lemma install_dispatch_free_witness :
  exists s1 t1, irq_install_handler echo_hw 40 0x80000 7 4 echo_state [] = Ok (0, s1, t1) /\
    only_bit 0 (gic_data echo_state) Enable 40 true [] t1.
Proof.
  destruct (install_dispatch_free echo_hw 0 [] (fun _ _ => ret tt) echo_state [] 40 0x80000 7 4) as [(s1 & t1 & E & Hb & _) _];
    [done|exact echo_layout|done|done|].
  exists s1, t1. split; [exact E|exact Hb].
Defined.
