(* ===== verification/GicCmd.v ===== *)
(** * The gicv3 command (cmd/gicv3.c, module/gicv3/irq-gicv3-test.c)

    The manual test of the interrupt controller: a dump of its registers, and
    the installation of a handler.  The command has the shape of the uart
    command; its output and its register accesses are one trace, so that the
    order of reads and lines is part of the result.  [lit] gives the address
    of a string literal, [str0] is what the pointer [str] of the dump holds
    before it is set. *)

From S2P Require Import Prelude CMem Str StrFacts Strto Console Words Pages PagesFacts Malloc MallocSpec MallocFacts.
From S2P Require Import MallocGrow MallocRelease MallocCorrect HeapTheorems Command CommandFacts MemCmd UartCmd.
From S2P Require Import Device Gic Interrupt GicFacts IrqTheorems.
From stdpp Require Import strings.

Local Open Scope string_scope.
Local Open Scope Z_scope.
Local Open Scope c_scope.

Definition GICD_IIDR : Z := 0x0008.
Definition GICD_IPRIORITYR : Z := 0x0400.
Definition GICD_ITARGETSR : Z := 0x0800.
Definition GICD_SGIR : Z := 0x0F00.
Definition GICD_CPENDSGIR : Z := 0x0F10.
Definition GICD_SPENDSGIR : Z := 0x0F20.
Definition GICR_ISENABLER0 : Z := GICD_ISENABLER.
Definition GICR_ICENABLER0 : Z := GICD_ICENABLER.
Definition GICR_ICACTIVER0 : Z := GICD_ICACTIVER.
Definition GICR_IPRIORITYR0 : Z := GICD_IPRIORITYR.

Section test.
Context (hw : hardware) (lit : string -> Z) (str0 irq_handler : Z).

Definition PRINT_SYS_REG (reg : string) : G unit :=
  do! v := read_sysreg_s hw reg in message ("SYS_" ++ reg ++ " 0x%0x\n") [u32 v].

Definition PRINT_REG (fmt : string) (a : Z) : G unit :=
  do! v := readl_relaxed hw a in message fmt [v].

(** [for (i = 0; i < limit; i += 4) printf(fmt, i, readl(a + i));], with the
    [i] after the loop. *)
Definition dump_loop (fmt : string) (limit a : Z) : G Z :=
  mwhile (S (Z.to_nat limit)) (fun i =>
    if i <? limit then
      do! v := readl_relaxed hw (a + i) in
      seq! message fmt [i; v] then ret (inl (i + 4))
    else ret (inr i)) 0.

(** The [switch]es on the variant and the revision. *)
Definition variant_str (val : Z) (str : Z) : Z :=
  let v := Z.shiftr (Z.land val 0xf0000) 16 in
  if v =? 0 then lit "r0" else if v =? 1 then lit "r1" else str.
Definition revision_str (val : Z) (str : Z) : Z :=
  let v := Z.shiftr (Z.land val 0xf000) 12 in
  if v =? 0 then lit "p0" else if v =? 3 then lit "p1" else if v =? 4 then lit "p2"
  else if v =? 5 then lit "p3" else if v =? 6 then lit "p4" else if v =? 7 then lit "p6" else str.

Definition dump_cpu : G unit :=
  seq! message "== Dump GIC CPU registers. ==\n" [] then
  seq! PRINT_SYS_REG "ICC_CTLR_EL1" then
  seq! PRINT_SYS_REG "ICC_PMR_EL1" then
  seq! PRINT_SYS_REG "ICC_BPR0_EL1" then
  seq! PRINT_SYS_REG "ICC_BPR1_EL1" then
  seq! PRINT_SYS_REG "ICC_IAR0_EL1" then
  seq! PRINT_SYS_REG "ICC_IAR1_EL1" then
  seq! PRINT_SYS_REG "ICC_IGRPEN0_EL1" then
  seq! PRINT_SYS_REG "ICC_IGRPEN1_EL1" then
  seq! PRINT_SYS_REG "ICC_RPR_EL1" then
  seq! PRINT_SYS_REG "ICC_HPPIR0_EL1" then
  PRINT_SYS_REG "ICC_HPPIR1_EL1".

Definition dump_id (base : Z) : G unit :=
  seq! message "== Dump GIC Distributor registers. ==\n" [] then
  seq! PRINT_REG "GICD_CTLR  :0x%0x\n" (base + GICD_CTLR) then
  seq! PRINT_REG "GICD_TYPER :0x%0x\n" (base + GICD_TYPER) then
  do! val := readl_relaxed hw (base + GICD_IIDR) in
  seq! message "GICD_IIDR  :0x%0x\n" [val] then
  seq! (if negb (Z.land (Z.shiftr val 24) 2 =? 0) then message "    [31:24]: GIC-600\n" [] else ret tt) then
  let str := variant_str val str0 in
  seq! message "    [19:16] Variant: %s\n" [str] then
  let str := revision_str val str in
  seq! message "    [15:12] revision:%s\n" [str] then
  if Z.land val 0xfff =? 0x43B then message "    [15:12] Implementer: %s\n" [lit "ARM"] else ret tt.

Definition dump_dist (base limit : Z) : G unit :=
  seq! dump_loop "GICD_IGROUPRn i: %d val: 0x%x\n" limit (base + GICD_IGROUPR) then
  seq! dump_loop "GICD_ISENABLERn i: %d val: 0x%x\n" limit (base + GICD_ISENABLER) then
  seq! dump_loop "GICD_ICENABLERn i: %d val: 0x%x\n" limit (base + GICD_ICENABLER) then
  seq! dump_loop "GICD_ISPENDRn i: %d val: 0x%x\n" limit (base + GICD_ISPENDR) then
  seq! dump_loop "GICD_ICPENDRn i: %d val: 0x%x\n" limit (base + GICD_ICPENDR) then
  seq! dump_loop "GICD_ISACTIVERn i: %d val: 0x%x\n" limit (base + GICD_ISACTIVER) then
  seq! dump_loop "GICD_ICACTIVERn i: %d val: 0x%x\n" limit (base + GICD_ICACTIVER) then
  seq! dump_loop "GICD_IPRIORITYRn i: %d val: 0x%x\n" limit (base + GICD_IPRIORITYR) then
  seq! dump_loop "GICD_ITARGETSRn i: %d val: 0x%x\n" limit (base + GICD_ITARGETSR) then
  do! i := dump_loop "GICD_ICFGR i: %d val: 0x%x\n" limit (base + GICD_ICFGR) in
  do! v := readl_relaxed hw (base + GICD_SGIR + i) in
  seq! message "GICD_SGIR i: %d val: 0x%x\n" [i; v] then
  seq! dump_loop "GICD_CPENDSGIRn i: %d val: 0x%x\n" limit (base + GICD_CPENDSGIR) then
  seq! dump_loop "GICD_SPENDSGIRn i: %d val: 0x%x\n" limit (base + GICD_SPENDSGIR) then
  ret tt.

Definition dump_redist (rd_sgi_base : Z) : G unit :=
  seq! message "== Dump cpu0 GIC Rdistributor registers. ==\n" [] then
  seq! PRINT_REG "GICR_IGROUPR0 0x%0x\n" (rd_sgi_base + GICR_IGROUPR0) then
  seq! PRINT_REG "GICR_IGRPMODR0 0x%0x\n" (rd_sgi_base + GICR_IGRPMODR0) then
  seq! PRINT_REG "GICR_ICACTIVER0 0x%0x\n" (rd_sgi_base + GICR_ICACTIVER0) then
  seq! PRINT_REG "GICR_ICENABLER0 0x%0x\n" (rd_sgi_base + GICR_ICENABLER0) then
  seq! PRINT_REG "GICR_ISENABLER0 0x%0x\n" (rd_sgi_base + GICR_ISENABLER0) then
  seq! dump_loop "GICR_IPRIORITYR[%d] 0x%0x\n" 32 (rd_sgi_base + GICR_IPRIORITYR0) then
  ret tt.

Definition gicv3_register_dump_test : G Z :=
  do! d := data in
  seq! dump_cpu then
  seq! dump_id (dist_base d) then
  seq! dump_dist (dist_base d) (gic_irqs d / 8) then
  seq! dump_redist (rdist_base d + GICR_SGI_BASE) then
  ret 0.

Definition module_gicv3_test (case_id arg_list argc : Z) : G Z :=
  seq! message "case: %d\n" [case_id] then
  if case_id =? 0 then gicv3_register_dump_test
  else if case_id =? 1 then seq! irq_install_handler hw 66 irq_handler 66 0 then ret 0
  else seq! message "Unkonw case.\n" [] then ret 1.

Definition module_gicv3_test_help : G unit := message "gicv3 test 0       - Gicv3 Register Dump\n" [].

Definition gicv3_help : G unit := seq! message "gicv3 test help:\n\n" [] then module_gicv3_test_help.

(** The test and the help it may ask for. *)
Definition gicv3_case (case_id arg_list argc : Z) : G Z :=
  do! ret_ := module_gicv3_test case_id arg_list argc in
  if ret_ =? CMD_RET_USAGE then seq! gicv3_help then ret CMD_RET_SUCCESS else ret ret_.

Context (malloc_base malloc_limit : Z).

Definition do_gicv3_test (flag argc : Z) (argv : list Z) (h : heap) (w : world) : G (heap * world * Z) :=
  if argc <? 2 then seq! gicv3_help then ret (h, w, CMD_RET_SUCCESS) else fun s t =>
  let! '(h, w, arg_list) := malloc malloc_base (u64 (8 * (argc - 2))) h w in
  if arg_list =? NULL then Ok ((h, w, - ENOMEM), s, t) else
  let! m := read_args argc argv arg_list (w_mem w) in
  let! case_id := arg_hex m argv 1 in
  let! '(r, s, t) := gicv3_case (s32 case_id) arg_list (argc - 2) s t in
  let! '(h, w) := free malloc_base malloc_limit arg_list h (set_mem m w) in
  Ok ((h, w, r), s, t).

Definition cmd_gicv3_sub (test_name : Z) : list cmd_tbl_t :=
  [CmdTbl test_name 6 (fun _ _ _ _ => Fault) NULL NULL None].

Definition do_gicv3 (test_name flag argc : Z) (argv : list Z) (h : heap) (w : world) : G (heap * world * Z) :=
  if argc <? 2 then ret (h, w, CMD_RET_USAGE) else fun s t =>
  let argc := argc - 1 in
  let argv := tail argv in
  let! arg0 := arr_get argv 0 in
  let! c := find_cmd_tbl (w_mem w) arg0 (cmd_gicv3_sub test_name) in
  match c with
  | Some _ => do_gicv3_test flag argc argv h w s t
  | None => Ok ((h, w, CMD_RET_USAGE), s, t)
  end.
End test.

(** ** Code that only looks *)

Local Open Scope list_scope.

Definition reading (e : access) : Prop := match e with ReadL _ _ | MRS _ _ | Message _ _ => True | _ => False end.
Definition regs_read (t : trace) : list string := omap (fun e => match e with MRS r _ => Some r | _ => None end) t.

(** [c] returns, writes nothing and keeps the driver's data, and the system
    registers it reads are [rs]. *)
Definition looks {A} (c : G A) (rs : list string) : Prop :=
  forall s t, runs c s t (fun _ s' l => s' = s /\ Forall reading l /\ regs_read l = rs).

Lemma looks_ret {A} (a : A) : looks (ret a) [].
Proof. intros s t. by apply runs_ret. Qed.

Lemma looks_bind {A B} (c : G A) (k : A -> G B) rs rs' : looks c rs -> (forall a, looks (k a) rs') -> looks (mbind_ c k) (rs ++ rs').
Proof.
  intros Hc Hk s t. eapply runs_bind; [apply Hc|]. cbv beta. intros a s' l (-> & Hl & <-).
  eapply runs_mono; [apply Hk|]. cbv beta. intros b s'' l' (-> & Hl' & <-). split; [done|].
  split; [by apply list.Forall_app_2|]. apply omap_app.
Qed.

Lemma looks_message f l : looks (message f l) [].
Proof. intros s t. apply runs_emit. split; [done|]. split; [|done]. by repeat constructor. Qed.

Lemma looks_data : looks data [].
Proof. intros s t. eexists _, s, []. rewrite app_nil_r. split; [reflexivity|done]. Qed.

Section dump.
Context (hw : hardware).

Lemma looks_readl a : looks (readl_relaxed hw a) [].
Proof. intros s t. eexists _, s, [ReadL a _]. split; [reflexivity|]. split; [done|]. split; [|done]. by repeat constructor. Qed.

Lemma looks_mrs r : looks (read_sysreg_s hw r) [r].
Proof. intros s t. eexists _, s, [MRS r _]. split; [reflexivity|]. split; [done|]. split; [|done]. by repeat constructor. Qed.

Lemma looks_seq {A B} (c : G A) (k : A -> G B) rs : looks c [] -> (forall a, looks (k a) rs) -> looks (mbind_ c k) rs.
Proof. apply (looks_bind c k [] rs). Qed.

Lemma looks_print_sys r : looks (PRINT_SYS_REG hw r) [r].
Proof. apply (looks_bind _ _ [r] []); [apply looks_mrs|]. intros v. apply looks_message. Qed.

Lemma looks_print f a : looks (PRINT_REG hw f a) [].
Proof. apply looks_seq; [apply looks_readl|]. intros v. apply looks_message. Qed.

Lemma looks_loop f limit a : looks (dump_loop hw f limit a) [].
Proof.
  unfold dump_loop. set (body := fun i => _).
  assert (H : forall fuel i, 0 <= i -> (Z.to_nat (limit - i) < fuel)%nat -> looks (mwhile fuel body i) []).
  { induction fuel as [|fuel IH]; intros i Hi Hf s t; [lia|]. destruct (Z.ltb_spec i limit) as [Hlt|Hge].
    - set (v := u32 (mmio hw t (a + i))). specialize (IH (i + 4) ltac:(lia) ltac:(lia) s ((t ++ [ReadL (a + i) v]) ++ [Message f [i; v]])).
      destruct IH as (b & s' & l & E & -> & HF & HR). exists b, s, ([ReadL (a + i) v; Message f [i; v]] ++ l). split.
      + cbn [mwhile]. unfold mbind_ at 1. unfold body at 1. destruct (Z.ltb_spec i limit); [|lia].
        etransitivity; [exact E|]. by rewrite <- !app_assoc.
      + split; [done|]. split; [by repeat constructor|done].
    - apply Z.ltb_ge in Hge. cbn [mwhile]. unfold mbind_, body. rewrite Hge. apply (looks_ret (A := Z)). }
  apply H; lia.
Qed.
End dump.

Ltac looks_step :=
  lazymatch goal with
  | |- looks (ret _) _ => apply looks_ret
  | |- looks (message _ _) _ => apply looks_message
  | |- looks (readl_relaxed _ _) _ => apply looks_readl
  | |- looks (PRINT_REG _ _ _) _ => apply looks_print
  | |- looks (dump_loop _ _ _ _) _ => apply looks_loop
  | |- looks (mbind_ _ _) _ => apply looks_seq; [|intros]
  | |- looks (if ?b then _ else _) _ => destruct b
  | |- looks (let _ := _ in _) _ => cbv zeta
  end.

(** The system registers of the dump, in the order they are read. *)
Definition cpu_regs : list string :=
  ["ICC_CTLR_EL1"; "ICC_PMR_EL1"; "ICC_BPR0_EL1"; "ICC_BPR1_EL1"; "ICC_IAR0_EL1"; "ICC_IAR1_EL1"; "ICC_IGRPEN0_EL1";
   "ICC_IGRPEN1_EL1"; "ICC_RPR_EL1"; "ICC_HPPIR0_EL1"; "ICC_HPPIR1_EL1"].

Lemma looks_cpu hw : looks (dump_cpu hw) cpu_regs.
Proof.
  unfold dump_cpu, cpu_regs. apply looks_seq; [apply looks_message|]. intros _.
  repeat (apply (looks_bind _ _ [_] (_ :: _)); [apply looks_print_sys|intros _]). apply looks_print_sys.
Qed.

Lemma looks_dump hw lit str0 : looks (gicv3_register_dump_test hw lit str0) cpu_regs.
Proof.
  unfold gicv3_register_dump_test. apply looks_seq; [apply looks_data|]. intros d. apply (looks_bind _ _ cpu_regs []); [apply looks_cpu|]. intros _.
  unfold dump_id, dump_dist, dump_redist. repeat looks_step.
Qed.

(** A computation with only one possible result. *)
Definition gives {A} (c : G A) (v : A) : Prop := forall s t r s' t', c s t = Ok (r, s', t') -> r = v.

Lemma gives_bind {A B} (c : G A) (k : A -> G B) v : (forall a, gives (k a) v) -> gives (mbind_ c k) v.
Proof.
  intros Hk s t r s' t'. unfold mbind_. destruct (c s t) as [[[a s1] t1]| | |]; cbn [obind]; try done. apply Hk.
Qed.

Lemma gives_dump hw lit str0 : gives (gicv3_register_dump_test hw lit str0) 0.
Proof. unfold gicv3_register_dump_test. repeat (apply gives_bind; intros). by intros s t r s' t' [= <- _ _]. Qed.

(** ** The cases *)

(** What a case of the test does to the driver and the trace. *)
Definition case_done (mpidr irq_handler case_id : Z) (s : gic_state) (t : trace) (s' : gic_state) (t' : trace) : Prop :=
  let t0 := t ++ [Message "case: %d\n" [case_id]] in
  if case_id =? 0 then exists l, t' = t0 ++ l /\ s' = s /\ Forall reading l /\ regs_read l = cpu_regs
  else if case_id =? 1 then
    s' = GicState (gic_data s) (<[66 := IrqHandler 66 irq_handler 66 "soft install" 0]> (irq_handler_tab s)) /\
    only_bit mpidr (gic_data s) Enable 66 true t0 t'
  else s' = s /\ t' = t0 ++ [Message "Unkonw case.\n" []; Message "gicv3 test help:\n\n" [];
                             Message "gicv3 test 0       - Gicv3 Register Dump\n" []].

Section cases.
Context (hw : hardware) (mpidr : Z) (Hmpidr : forall t, u64 (sysreg hw t "MPIDR_EL1") = mpidr).
Context (lit : string -> Z) (str0 irq_handler : Z).

Lemma install_bit s t :
  layout mpidr (gic_data s) ->
  exists t', irq_install_handler hw 66 irq_handler 66 0 s t =
      Ok (0, GicState (gic_data s) (<[66 := IrqHandler 66 irq_handler 66 "soft install" 0]> (irq_handler_tab s)), t') /\
    only_bit mpidr (gic_data s) Enable 66 true t t'.
Proof.
  intros Hl. unfold irq_install_handler, mbind_. rewrite u32_small by lia. rewrite register_eq by (unfold LPI_IRQ_MIN; lia).
  set (s1 := GicState _ _). destruct (poke_bit hw mpidr Hmpidr 66 Enable true s1 t Hl ltac:(lia)) as (t1 & E & Hbit).
  exists t1. split; [|exact Hbit]. unfold enable_irq, irq_unmask, gic_unmask_irq. change GICD_ISENABLER with (reg_for Enable true). by rewrite E.
Qed.

Lemma gicv3_case_spec case_id arg_list argc s t :
  layout mpidr (gic_data s) ->
  exists s' t', gicv3_case hw lit str0 irq_handler case_id arg_list argc s t = Ok (CMD_RET_SUCCESS, s', t') /\
    case_done mpidr irq_handler case_id s t s' t'.
Proof.
  intros Hl. unfold gicv3_case, module_gicv3_test, case_done. destruct (case_id =? 0).
  - destruct (looks_dump hw lit str0 s (t ++ [Message "case: %d\n" [case_id]])) as (r & s' & l & E & -> & HF & HR).
    apply gives_dump in E as Er. subst r.
    exists s, ((t ++ [Message "case: %d\n" [case_id]]) ++ l). split.
    + unfold mbind_ at 1 2, message, emit. cbn [obind]. rewrite E. reflexivity.
    + clear E. exists l. auto.
  - destruct (case_id =? 1).
    + destruct (install_bit s (t ++ [Message "case: %d\n" [case_id]]) Hl) as (t' & E & Hb). eexists _, t'. split; [|by split].
      unfold mbind_, message, emit. cbn [obind]. by rewrite E.
    + eexists s, _. split; [|by split]. unfold mbind_, message, emit, gicv3_help, module_gicv3_test_help, ret. cbn [obind].
      change (1 =? CMD_RET_USAGE) with true. cbv iota. unfold mbind_, message, emit. cbn [obind]. by rewrite <- !app_assoc.
Qed.
End cases.

(** The outcomes of a run of the test. *)
Definition gic_test_done (base n mpidr irq_handler : Z) (H : aheap) (w : world) (s : gic_state) (t : trace)
    (strs : list (list Z)) (case : list Z) (r : outcome (heap * world * Z * gic_state * trace)) : Prop :=
  (exists msg, r = Panic msg /\ scarce base n H) \/
  (r = Panic "Trying to repeat free addr\n" /\ exists x, strs !! 2%nat = Some x /\ base <= arg_value x mod 2 ^ 64 < base + 4096 * n) \/
  exists H' h' w' s' t', r = Ok (h', w', CMD_RET_SUCCESS, s', t') /\ heap_inv base n H' h' (w_mem w') /\ a_live H' ≡ₚ a_live H /\
    unchanged (heap_private base n H) (w_mem w) (w_mem w') /\ w_io w' = w_io w /\
    case_done mpidr irq_handler (s32 (arg_value case)) s t s' t'.

Lemma do_gicv3_test_spec hw mpidr lit str0 irq_handler base n H h w flag argv strs case s t :
  (forall t, u64 (sysreg hw t "MPIDR_EL1") = mpidr) -> layout mpidr (gic_data s) ->
  Region base n -> heap_inv base n H h (w_mem w) -> (2 <= length argv <= 16)%nat ->
  args_at argv strs (w_mem w) (heap_private base n H) -> strs !! 1%nat = Some case ->
  gic_test_done base n mpidr irq_handler H w s t strs case
    (do_gicv3_test hw lit str0 irq_handler base (4096 * n) flag (Z.of_nat (length argv)) argv h w s t).
Proof.
  intros Hmp Hl HR Hi Hlen Ha Hs1. unfold do_gicv3_test. destruct (Z.ltb_spec (Z.of_nat (length argv)) 2) as [|_]; [lia|].
  destruct (args_object base n H h w argv strs case Hi Hlen Ha Hs1) as [(msg & -> & Hsc)|(h1 & w1 & p & m2 & -> & Hp & Hio & E2 & E1 & Hf)];
    [left; eauto|right]. cbn [obind].
  destruct (Z.eqb_spec p NULL); [done|]. rewrite E2. cbn [obind]. rewrite E1. cbn [obind].
  destruct (gicv3_case_spec hw mpidr Hmp lit str0 irq_handler (s32 (arg_value case)) p (Z.of_nat (length argv) - 2) s t Hl)
    as (s' & t' & -> & Hc). cbn [obind].
  destruct (Hf (w_io w1)) as [[Ef Hx]|(H' & h' & w' & Ef & Hi' & HL & HU & Hw)]; unfold set_mem; rewrite Ef; cbn [obind].
  - left. by split.
  - right. exists H', h', w', s', t'. rewrite <- Hio. auto 6.
Qed.

Lemma help_run {A} (v : A) s t :
  (seq! gicv3_help then ret v) s t =
    Ok (v, s, t ++ [Message "gicv3 test help:\n\n" []; Message "gicv3 test 0       - Gicv3 Register Dump\n" []]).
Proof. unfold gicv3_help, module_gicv3_test_help, mbind_, message, emit, ret. cbn [obind]. by rewrite <- app_assoc. Qed.

(** C39: the gicv3 command, from its words to the controller and the heap.  As
    for the uart command, the run asks for the usage, prints the help, panics
    for lack of memory or because an argument is an address of the heap, or
    succeeds with the heap as before.  Then case 1 has entered the test's
    handler for interrupt 66 and enabled exactly that interrupt; another case
    but 0 printed the help.  Case 0 dumped the registers without a single
    write and kept the driver's data, but among the system registers it reads
    are the two acknowledge registers, so that a pending interrupt is
    acknowledged by the dump and never ended. *)
Theorem do_gicv3_correct (hw : hardware) (mpidr : Z) (lit : string -> Z) (str0 irq_handler base n : Z) (H : aheap) (h : heap) (w : world)
    (s : gic_state) (t : trace) (test_name flag : Z) (argv : list Z) (strs : list (list Z)) :
  (forall t, u64 (sysreg hw t "MPIDR_EL1") = mpidr) -> layout mpidr (gic_data s) ->
  Region base n -> heap_inv base n H h (w_mem w) -> cstr (w_mem w) test_name test_text ->
  args_at argv strs (w_mem w) (heap_private base n H) -> Forall (fun p => 0 < p) argv -> (length argv <= 16)%nat ->
  let r := do_gicv3 hw lit str0 irq_handler base (4096 * n) test_name flag (Z.of_nat (length argv)) argv h w s t in
  match strs with
  | _ :: sub :: rest =>
      match find_spec sub [test_text], rest with
      | Some _, [] => r = Ok (h, w, CMD_RET_SUCCESS, s,
          t ++ [Message "gicv3 test help:\n\n" []; Message "gicv3 test 0       - Gicv3 Register Dump\n" []])
      | Some _, case :: _ => gic_test_done base n mpidr irq_handler H w s t (sub :: rest) case r
      | None, _ => r = Ok (h, w, CMD_RET_USAGE, s, t)
      end
  | _ => r = Ok (h, w, CMD_RET_USAGE, s, t)
  end.
Proof.
  intros Hmp Hl HR Hi Ht Ha Hpos Hlen r. subst r. unfold do_gicv3. pose proof (Forall2_length _ _ _ Ha) as EL.
  destruct strs as [|x0 [|sub rest]]; destruct argv as [|a0 [|a1 argv]]; try done.
  destruct (Z.ltb_spec (Z.of_nat (length (a0 :: a1 :: argv))) 2) as [Hlt|_]; [cbn [length] in Hlt; lia|]. cbn [tail].
  apply Forall2_cons_1 in Ha as [_ Ha]. apply list.Forall_cons_1 in Hpos as [_ Hpos]. apply list.Forall_cons_1 in Hpos as [Hp1 _].
  change (arr_get (a1 :: argv) 0) with (Ok a1). cbn [obind]. pose proof Ha as ((Hs & _) & _)%Forall2_cons_1.
  rewrite (find_cmd_tbl_spec _ _ sub _ [test_text]) by (done || (constructor; [done|constructor])). cbn [obind].
  destruct (find_spec sub [test_text]); [|done].
  replace (Z.of_nat (length (a0 :: a1 :: argv)) - 1) with (Z.of_nat (length (a1 :: argv))) by (cbn [length]; lia).
  destruct rest as [|case rest].
  - destruct argv; [|cbn [length] in EL; lia]. apply help_run.
  - cbn [length] in Hlen, EL. apply do_gicv3_test_spec; [done|done|done|done|cbn [length]; lia|done|done].
Qed.

(** The words "test 0" of [uart_mem] for a controller after reset. *)
Lemma do_gicv3_correct_witness :
  exists h' w' s' t', do_gicv3 echo_hw (fun _ => 7) 0 0x80000 4096 (4096 * 2) 105 0 3 [100; 105; 110] (heap0 pages2) (World uart_mem []) echo_state [] =
      Ok (h', w', 0, s', t') /\ w_io w' = [] /\ case_done 0 0x80000 0 echo_state [] s' t'.
Proof.
  destruct (do_gicv3_correct echo_hw 0 (fun _ => 7) 0 0x80000 4096 2 empty_heap (heap0 pages2) (World uart_mem []) echo_state [] 105 0
    [100; 105; 110] [[117; 97; 114; 116]; test_text; [48]]) as [(msg & _ & Hs)|[(_ & x & Ex & _)|(H' & h' & w' & s' & t' & E & _ & _ & _ & Hio & Hc)]].
  - reflexivity.
  - exact echo_layout.
  - exact region2_region.
  - exact uart_mem_facts.
  - apply uart_cstr; [lia|vm_compute; done|]. split; [vm_compute; tauto|repeat constructor; lia].
  - repeat (apply Forall2_cons_2; [apply uart_arg; [lia|vm_compute; done|split; [vm_compute; tauto|repeat constructor; lia]]|]). constructor.
  - repeat constructor; lia.
  - cbn. lia.
  - by destruct (region2_plenty Hs).
  - discriminate Ex.
  - exists h', w', s', t'. split; [exact E|]. split; [exact Hio|exact Hc].
Defined.
