(* ===== verification/IrqInit.v ===== *)
(** * From reset to interrupts: interrupt_init

    The controller is initialised and the handlers of the linker's table are
    installed while the processor masks interrupts.  That nothing in between
    touches the mask is a property of the code's shape, checked by going
    through it ([quiet]). *)

From S2P Require Import Prelude CMem Device Gic Interrupt GicFacts GicInit IrqTheorems.
From stdpp Require Import strings.

Local Open Scope Z_scope.
Local Open Scope c_scope.

(** ** Code that leaves the interrupt mask alone *)

Definition touches_mask (e : access) : bool :=
  match e with MSR r _ => String.eqb r "DAIFSet" || String.eqb r "DAIFClr" | _ => false end.

(** Every run of [c] that returns adds accesses without the mask. *)
Definition quiet {A} (c : G A) : Prop :=
  forall s t a s' t', c s t = Ok (a, s', t') -> exists l, t' = t ++ l /\ Forall (fun e => touches_mask e = false) l.

Lemma quiet_ret {A} (a : A) : quiet (ret a).
Proof. intros s t b s' t' [= <- <- <-]. exists []. split; [by rewrite app_nil_r|constructor]. Qed.

Lemma quiet_bind {A B} (c : G A) (k : A -> G B) : quiet c -> (forall a, quiet (k a)) -> quiet (mbind_ c k).
Proof.
  intros Hc Hk s t b s' t' E. unfold mbind_ in E. destruct (c s t) as [[[a s1] t1]| | |] eqn:Ec; cbn [obind] in E; try done.
  destruct (Hc _ _ _ _ _ Ec) as (l1 & -> & F1). destruct (Hk _ _ _ _ _ _ E) as (l2 & -> & F2).
  exists (l1 ++ l2). split; [by rewrite app_assoc|by apply list.Forall_app_2].
Qed.

Lemma quiet_mwhile {S R} (body : S -> G (S + R)) : (forall x, quiet (body x)) -> forall fuel x, quiet (mwhile fuel body x).
Proof.
  intros Hb. induction fuel as [|fuel IH]; intros x; [by intros s t a s' t'|]. cbn [mwhile].
  apply quiet_bind; [apply Hb|]. intros [x'|r]; [apply IH|apply quiet_ret].
Qed.

Lemma quiet_emit e : touches_mask e = false -> quiet (emit e).
Proof. intros He s t a s' t' [= <- <- <-]. exists [e]. split; [done|]. constructor; [done|constructor]. Qed.

Lemma quiet_read {A} (f : trace -> A) (e : trace -> access) :
  (forall t, touches_mask (e t) = false) -> quiet (fun s t => Ok (f t, s, t ++ [e t])).
Proof. intros He s t a s' t' [= <- <- <-]. exists [e t]. split; [done|]. constructor; [done|constructor]. Qed.

Lemma quiet_data (d : G gic_state) : d = get_data -> quiet d.
Proof. intros -> s t a s' t' [= <- <- <-]. exists []. split; [by rewrite app_nil_r|constructor]. Qed.

Lemma quiet_put s0 : quiet (put_data s0).
Proof. intros s t a s' t' [= <- <- <-]. exists []. split; [by rewrite app_nil_r|constructor]. Qed.

Lemma quiet_panic {A} msg : quiet (fail_panic (A := A) msg).
Proof. by intros s t a s' t'. Qed.

Lemma quiet_tab_set i e : quiet (tab_set i e).
Proof.
  intros s t a s' t'. unfold tab_set. destruct (_ && _); [|done]. intros [= <- <- <-].
  exists []. split; [by rewrite app_nil_r|constructor].
Qed.

(** Walk through a computation down to its accesses. *)
Ltac quiet_step :=
  lazymatch goal with
  | |- quiet (ret _) => apply quiet_ret
  | |- quiet (mbind_ _ _) => apply quiet_bind; [|intros]
  | |- quiet (mwhile _ _ _) => apply quiet_mwhile; intros
  | |- quiet (emit _) => apply quiet_emit; reflexivity
  | |- quiet (readl_relaxed _ _) => apply (quiet_read _ (fun t => ReadL _ _)); reflexivity
  | |- quiet (readq_relaxed _ _) => apply (quiet_read _ (fun t => ReadQ _ _)); reflexivity
  | |- quiet (read_sysreg_s _ _) => apply (quiet_read _ (fun t => MRS _ _)); reflexivity
  | |- quiet (writel_relaxed _ _) => apply quiet_emit; reflexivity
  | |- quiet (writeq_relaxed _ _) => apply quiet_emit; reflexivity
  | |- quiet (write_sysreg_s _ _) => apply quiet_emit; reflexivity
  | |- quiet (udelay _) => apply quiet_emit; reflexivity
  | |- quiet (message _ _) => apply quiet_emit; reflexivity
  | |- quiet (fail_panic _) => apply quiet_panic
  | |- quiet (tab_set _ _) => apply quiet_tab_set
  | |- quiet get_data => by apply quiet_data
  | |- quiet (put_data _) => apply quiet_put
  | |- quiet (if ?b then _ else _) => destruct b
  | |- quiet (match ?x with _ => _ end) => destruct x
  | |- quiet (let _ := _ in _) => cbv zeta
  | |- quiet (?f _ _ _ _ _ _) => unfold f
  | |- quiet (?f _ _ _ _ _) => unfold f
  | |- quiet (?f _ _ _ _) => unfold f
  | |- quiet (?f _ _ _) => unfold f
  | |- quiet (?f _ _) => unfold f
  | |- quiet (?f _) => unfold f
  | |- quiet ?f => unfold f
  end.

Lemma quiet_gic_init hw frames : quiet (gic_init hw frames).
Proof. repeat quiet_step. Qed.

Lemma quiet_register hw f l : quiet (register_all hw f l).
Proof. induction l as [|e l IH]; cbn [register_all]; [apply quiet_ret|]. apply quiet_bind; [|done]. repeat quiet_step. Qed.

(** ** Installing a table of handlers *)

Section table.
Context (hw : hardware) (mpidr : Z) (Hmpidr : forall t, u64 (sysreg hw t "MPIDR_EL1") = mpidr).
Context (f : irq_handler_struct -> bool).

(** The last selected entry for an interrupt. *)
Definition entry_for (l : list irq_handler_struct) (i : Z) : option irq_handler_struct :=
  last (filter (fun e => f e = true /\ irqid e = i) l).

Lemma entry_for_cons e l i :
  entry_for (e :: l) i = match entry_for l i with Some e' => Some e' | None => if decide (f e = true /\ irqid e = i) then Some e else None end.
Proof.
  unfold entry_for. rewrite filter_cons. destruct (decide _) as [Hd|Hd].
  - rewrite last_cons. by destruct (last _).
  - by destruct (last _).
Qed.

(** Each selected entry gets into the table, and its interrupt is enabled. *)
Lemma register_all_spec l : forall s t,
  layout mpidr (gic_data s) -> Forall (fun e => f e = true -> 0 <= irqid e < 1020) l ->
  exists s' t', register_all hw f l s t = Ok (tt, s', t') /\ gic_data s' = gic_data s /\
    (forall i, irq_handler_tab s' !! i = match entry_for l i with Some e => Some e | None => irq_handler_tab s !! i end) /\
    (forall k j, 0 <= j < 1020 -> chip (irq_base mpidr (gic_data s) j) k j t' =
       if decide (k = Enable /\ is_Some (entry_for l j)) then true else chip (irq_base mpidr (gic_data s) j) k j t).
Proof.
  induction l as [|e l IH]; intros s t Hl HF.
  { exists s, t. split; [done|]. split; [done|]. split; [done|]. intros k j Hj. rewrite decide_False; [done|]. by intros [_ [? ?]]. }
  apply list.Forall_cons_1 in HF as [He HF]. cbn [register_all]. unfold mbind_. destruct (f e) eqn:Ef.
  - specialize (He eq_refl). rewrite register_eq by (unfold LPI_IRQ_MIN; lia).
    replace (IrqHandler (irqid e) (handler e) (arg e) (irqname e) (irqflags e)) with e by by destruct e.
    set (s1 := GicState _ _). destruct (poke_bit hw mpidr Hmpidr (irqid e) Enable true s1 t Hl He) as (t1 & E & Hbit).
    unfold enable_irq, irq_unmask, gic_unmask_irq. change GICD_ISENABLER with (reg_for Enable true). rewrite E. cbn [obind].
    destruct (IH s1 t1 Hl HF) as (s' & t' & E' & Hd & Ht & Hc). exists s', t'. split; [done|]. split; [done|]. split.
    + intros i. rewrite Ht, entry_for_cons. destruct (entry_for l i); [done|]. cbn [irq_handler_tab s1].
      destruct (decide (f e = true /\ irqid e = i)) as [[_ <-]|Hn]; [apply lookup_insert_eq|]. apply lookup_insert_ne. intros <-. by apply Hn.
    + intros k j Hj. change (gic_data s1) with (gic_data s) in *. rewrite Hc, Hbit by done. rewrite entry_for_cons.
      destruct (entry_for l j) as [e'|].
      * destruct (decide (k = Enable)) as [->|]; [by rewrite !decide_True by eauto|]. rewrite !decide_False by by intros [? _]. done.
      * rewrite (decide_False (P := k = Enable /\ is_Some None)) by (intros [_ [? ?]]; done).
        destruct (decide (k = Enable /\ j = irqid e)) as [[-> ->]|Hn].
        -- rewrite (decide_True (P := f e = true /\ _)) by done. by rewrite decide_True by eauto.
        -- rewrite decide_False; [done|]. intros [-> [x Hx]]. destruct (decide (f e = true /\ irqid e = j)) as [[_ <-]|]; [by apply Hn|done].
  - cbn [ret obind]. destruct (IH s t Hl HF) as (s' & t' & E' & Hd & Ht & Hc). exists s', t'. split; [done|]. split; [done|].
    assert (forall i, entry_for (e :: l) i = entry_for l i) as Ee.
    { intros i. rewrite entry_for_cons. destruct (entry_for l i); [done|]. rewrite decide_False; [done|]. intros [? _]. congruence. }
    split; [intros i; by rewrite Ee|]. intros k j Hj. by rewrite Ee, Hc.
Qed.
End table.

Definition boot_entry (e : irq_handler_struct) : bool := flag ISR_ATTR_GEN (irqflags e).

Lemma interrupt_init_spec (hw : hardware) (frames : nat) (mpidr : Z) (irq_table : list irq_handler_struct) (s : gic_state) (t : trace) :
  (forall t, u64 (sysreg hw t "MPIDR_EL1") = mpidr) -> last_frame hw frames GICV3_RDIST_0_BASE ->
  Forall (fun e => boot_entry e = true -> 0 <= irqid e < 1020) irq_table ->
  interrupt_init hw frames irq_table s t = Panic NO_DIST \/ interrupt_init hw frames irq_table s t = Panic NO_SRE \/
  exists s' l, interrupt_init hw frames irq_table s t = Ok (0, s', t ++ [MSR "DAIFSet" 3] ++ l ++ [MSR "DAIFClr" 3]) /\
    Forall (fun e => touches_mask e = false) l /\
    (forall i, irq_handler_tab s' !! i = match entry_for boot_entry irq_table i with Some e => Some e | None => irq_handler_tab s !! i end) /\
    forall i, 32 <= i < gic_irqs (gic_data s') ->
      chip GICV3_DIST_BASE Enable i (t ++ [MSR "DAIFSet" 3] ++ l) = bool_decide (is_Some (entry_for boot_entry irq_table i)).
Proof.
  intros Hmp Hlast HF. unfold interrupt_init, local_irq_disable, local_irq_enable, write_sysreg_s, emit, mbind_. cbn [obind].
  change (u64 3) with 3. set (t1 := t ++ [MSR "DAIFSet" 3]).
  destruct (gic_init_spec hw frames mpidr s t1 Hmp Hlast) as [->|[->|(s1 & l1 & E1 & Htab & Hd & Hr & Hn & Hspi & _)]]; [by left|by right; left|].
  right. right. rewrite E1. cbn [obind]. destruct (quiet_gic_init hw frames _ _ _ _ _ E1) as (l1' & El & Q1). apply app_inv_head in El as <-.
  assert (layout mpidr (gic_data s1)) as Hl by (split; [rewrite Hd, Hr; vm_compute; done|lia]).
  destruct (register_all_spec hw mpidr Hmp boot_entry irq_table s1 (t1 ++ l1) Hl HF) as (s2 & t2 & E2 & Hd2 & Ht2 & Hc).
  unfold irq_table_init. fold boot_entry. change (fun e => flag ISR_ATTR_GEN (irqflags e)) with boot_entry. rewrite E2. cbn [obind].
  destruct (quiet_register hw _ _ _ _ _ _ _ E2) as (l2 & -> & Q2).
  exists s2, (l1 ++ l2). split; [cbn [ret]; f_equal; f_equal; unfold t1; by rewrite <- !app_assoc|].
  split; [by apply list.Forall_app_2|]. split; [intros i; by rewrite Ht2, Htab|]. intros i Hi. rewrite Hd2 in Hi.
  specialize (Hc Enable i ltac:(lia)). unfold irq_base in Hc. destruct (Z.ltb_spec i 32) as [|_]; [lia|]. rewrite Hd in Hc.
  replace (t ++ [MSR "DAIFSet" 3] ++ l1 ++ l2) with ((t1 ++ l1) ++ l2) by (unfold t1; by rewrite <- !app_assoc).
  rewrite Hc. destruct (decide _) as [[_ Hs]|Hs]; [by rewrite bool_decide_true|].
  rewrite (spi_disabled _ _ _ _ _ (Hspi i Hi)). rewrite bool_decide_false; [done|]. intros ?. by apply Hs.
Qed.

(** ** Claim *)

(** C13: the start of interrupt handling.  On a controller as in the claim on
    [gic_init], with a table of handlers for interrupts below 1020,
    [interrupt_init] panics because there is no controller or its system
    registers cannot be enabled, or it returns 0.  Then the processor's mask
    was set first and cleared last, with no change of it in between, so that
    no interrupt is taken before all is set up; every handler of the table
    that is marked for this is installed (the last one where an interrupt has
    several), all other entries are as before, and of the shared interrupts
    exactly those with such a handler are enabled. *)
Theorem interrupt_init_correct (hw : hardware) (frames : nat) (mpidr : Z) (irq_table : list irq_handler_struct) (s : gic_state) (t : trace) :
  (forall t, u64 (sysreg hw t "MPIDR_EL1") = mpidr) -> last_frame hw frames GICV3_RDIST_0_BASE ->
  Forall (fun e => boot_entry e = true -> 0 <= irqid e < 1020) irq_table ->
  interrupt_init hw frames irq_table s t = Panic NO_DIST \/ interrupt_init hw frames irq_table s t = Panic NO_SRE \/
  exists s' l, interrupt_init hw frames irq_table s t = Ok (0, s', t ++ [MSR "DAIFSet" 3] ++ l ++ [MSR "DAIFClr" 3]) /\
    Forall (fun e => touches_mask e = false) l /\
    (forall i, irq_handler_tab s' !! i = match entry_for boot_entry irq_table i with Some e => Some e | None => irq_handler_tab s !! i end) /\
    forall i, 32 <= i < gic_irqs (gic_data s') ->
      chip GICV3_DIST_BASE Enable i (t ++ [MSR "DAIFSet" 3] ++ l) = bool_decide (is_Some (entry_for boot_entry irq_table i)).
Proof. apply interrupt_init_spec. Qed.

(** One handler, for interrupt 66. *)
Definition boot_table : list irq_handler_struct := [IrqHandler 66 0x80000 7 "timer" ISR_ATTR_GEN].

Lemma boot_table_runs : exists r, interrupt_init demo_hw 0 boot_table reset_state [] = Ok r.
Proof. eexists. vm_compute. reflexivity. Qed.

Lemma interrupt_init_correct_witness :
  exists s' l, interrupt_init demo_hw 0 boot_table reset_state [] = Ok (0, s', [MSR "DAIFSet" 3] ++ l ++ [MSR "DAIFClr" 3]) /\
    irq_handler_tab s' !! 66 = Some (IrqHandler 66 0x80000 7 "timer" ISR_ATTR_GEN).
Proof.
  destruct boot_table_runs as [r Er].
  destruct (interrupt_init_correct demo_hw 0 0 boot_table reset_state []) as [H|[H|(s' & l & H & _ & Ht & _)]].
  - done.
  - intros t a _. reflexivity.
  - repeat constructor; cbn; lia.
  - rewrite Er in H. done.
  - rewrite Er in H. done.
  - exists s', l. split; [exact H|]. rewrite Ht. reflexivity.
Defined.
