(* ===== verification/LateBoot.v ===== *)
(** * Late boot (common/board_r.c)

    After relocation the parts of the system are started one after another and
    control goes to the command line for good.  The state of the whole machine
    puts the states of the parts together: core and memory ([Mmu]), the pages
    of the heap ([Pages]), the interrupt controller ([Gic]) with the trace of
    its registers, and the console.  The global data lies in memory at [gd]. *)

From S2P Require Import Prelude CMem Str StrFacts StrSafe Console Words Pages PagesFacts Malloc MallocSpec HeapTheorems Display Boot.
From S2P Require Import PgTable PgWalk PgMap PgSetup PgTheorems PgSpace Mmu MmuFacts MmuTheorems Device Gic Interrupt GicFacts GicInit IrqInit.
From stdpp Require Import strings.

Local Open Scope Z_scope.
Local Open Scope c_scope.

Definition GD_FLG_FULL_MALLOC_INIT : Z := 0x200.
Definition GD_FLG_LOG_READY : Z := 0x8000.

Record machine : Type := Machine {
  ma_sys : sys;
  ma_pages : pages;
  ma_gic : gic_state;
  ma_trace : trace;
  ma_io : list event
}.

Definition ma_mem (x : machine) : mem := s_mem (ma_sys x).
Definition with_mem (m : mem) (x : machine) : machine :=
  let s := ma_sys x in
  Machine (Sys (s_core s) (s_gd s) m (g_core0_ttbr0_el3 s) (g_gd s)) (ma_pages x) (ma_gic x) (ma_trace x) (ma_io x).
Definition with_io (io : list event) (x : machine) : machine :=
  Machine (ma_sys x) (ma_pages x) (ma_gic x) (ma_trace x) io.

(** A call returns a code, or does not return: then the state in which it
    entered its endless loop. *)
Definition init_fnc_r : Type := machine -> outcome (machine * Z + machine).

Section late.
Context (gd : Z) (mem_map : list mm_region) (CONFIG_ARMV8_CACHE : bool).
Context (hw : hardware) (frames : nat) (irq_table : list irq_handler_struct).
Context (fn_addr : init_fnc_r -> Z) (init_sequence_addr : Z).

Definition fld (x : machine) (field : Z) : outcome Z := load64 (ma_mem x) (gd + field).
Definition set_flags (v : Z) (x : machine) : outcome machine :=
  let! m := store64 (ma_mem x) (gd + gd_flags) v in Ok (with_mem m x).

Definition initr_reloc : init_fnc_r := fun x =>
  let! flags := fld x gd_flags in
  let! x := set_flags (Z.lor flags (Z.lor GD_FLG_RELOC GD_FLG_FULL_MALLOC_INIT)) x in
  Ok (inl (x, 0)).

Definition initr_caches : init_fnc_r := fun x =>
  let! s := enable_caches mem_map CONFIG_ARMV8_CACHE (ma_sys x) in
  Ok (inl (Machine s (ma_pages x) (ma_gic x) (ma_trace x) (ma_io x), 0)).

(** [memory_init] of common/memory.c with the region the global data names. *)
Definition initr_memory : init_fnc_r := fun x =>
  let! base := fld x gd_malloc_base in
  let! limit := fld x gd_malloc_limit in
  let! '(pg, w) := memory_init base limit (ma_pages x) (World (ma_mem x) (ma_io x)) in
  Ok (inl (with_io (w_io w) (with_mem (w_mem w) (Machine (ma_sys x) pg (ma_gic x) (ma_trace x) (ma_io x))), 0)).

(** [interrupt_init] of common/interrupt.c. *)
Definition initr_interrupts : init_fnc_r := fun x =>
  let! '(r, g, t) := interrupt_init hw frames irq_table (ma_gic x) (ma_trace x) in
  Ok (inl (Machine (ma_sys x) (ma_pages x) g t (ma_io x), r)).

Definition board_early_init_r : init_fnc_r := fun x => Ok (inl (x, 0)).

(** [enable_interrupts] of common/interrupt.c is empty. *)
Definition initr_enable_interrupts : init_fnc_r := fun x => Ok (inl (x, 0)).

Definition run_main_loop : init_fnc_r := fun x => Ok (inr (with_io (ma_io x ++ [PutsLit "\n"]) x)).

(** The array has no null pointer at its end, so the call after the last one
    would be through what lies behind it. *)
Fixpoint initcall_run_list_r (init_sequence : list init_fnc_r) (x : machine) : outcome (machine * Z + machine) :=
  match init_sequence with
  | [] => Fault
  | f :: rest =>
      let! flags := fld x gd_flags in
      let! reloc_ofs := if negb (Z.land flags GD_FLG_RELOC =? 0) then fld x gd_reloc_off else Ok 0 in
      let! r := f x in
      match r with
      | inr x => Ok (inr x)
      | inl (x, ret) =>
          if negb (ret =? 0) then
            Ok (inl (with_io (ma_io x ++ [Printf "initcall sequence %p failed at call %p (err=%d)\n"
                  [init_sequence_addr; u64 (fn_addr f - reloc_ofs); ret]]) x, -1))
          else initcall_run_list_r rest x
      end
  end.

Definition init_sequence_r : list init_fnc_r :=
  [initr_reloc; initr_caches; initr_memory; initr_interrupts; board_early_init_r; initr_enable_interrupts; run_main_loop].

(** The result is the state in which the command line is entered. *)
Definition board_init_r (x : machine) : outcome machine :=
  let! flags := fld x gd_flags in
  let! x := set_flags (Z.ldiff flags GD_FLG_LOG_READY) x in
  let! r := initcall_run_list_r init_sequence_r x in
  match r with
  | inr x => Ok x
  | inl _ => Panic HANG
  end.
End late.

(** ** The steps *)

Section steps.
Context (gd : Z) (mem_map : list mm_region) (CONFIG_ARMV8_CACHE : bool).
Context (hw : hardware) (frames : nat) (irq_table : list irq_handler_struct).
Context (fn_addr : init_fnc_r -> Z) (seq_addr : Z).

Definition gd_mapped (x : machine) : Prop := mapped (ma_mem x) gd sizeof_gd.

Lemma fld_rdw x o : gd_mapped x -> 0 <= o <= 224 -> fld gd x o = Ok (rdw (ma_mem x) (gd + o)).
Proof. intros Hm Ho. apply load64_rdw. eapply mapped_sub; [exact Hm|lia|unfold sizeof_gd; lia]. Qed.

(** A call that returns 0 goes on with the next. *)
Lemma initcall_step f rest x x' :
  gd_mapped x -> f x = Ok (inl (x', 0)) ->
  initcall_run_list_r gd fn_addr seq_addr (f :: rest) x = initcall_run_list_r gd fn_addr seq_addr rest x'.
Proof.
  intros Hm E. cbn [initcall_run_list_r]. rewrite !fld_rdw by (done || unfold gd_flags, gd_reloc_off; lia). cbn [obind].
  destruct (negb _); cbn [obind]; rewrite E; reflexivity.
Qed.

(** A call that fails or does not return ends the list. *)
Lemma initcall_stop f rest x :
  gd_mapped x -> (forall x' r, f x <> Ok (inl (x', r))) -> initcall_run_list_r gd fn_addr seq_addr (f :: rest) x = f x.
Proof.
  intros Hm E. cbn [initcall_run_list_r]. rewrite !fld_rdw by (done || unfold gd_flags, gd_reloc_off; lia). cbn [obind].
  destruct (negb _); cbn [obind]; destruct (f x) as [[[x' r]|x']| | |] eqn:Ef; cbn [obind]; try done; by destruct (E x' r).
Qed.

Lemma set_flags_spec v x :
  gd_mapped x -> returns (set_flags gd v x) (fun x' => exists m', x' = with_mem m' x /\
    unchanged (span_of (gd + gd_flags) 8) (ma_mem x) m' /\ rdw m' (gd + gd_flags) = v mod 2 ^ 64).
Proof.
  intros Hm. unfold set_flags. eapply returns_bind; [apply store64_spec; eapply mapped_sub; [exact Hm|unfold gd_flags; lia|unfold gd_flags, sizeof_gd; lia]|].
  intros m' [U E]. apply returns_ok. by exists m'.
Qed.
End steps.

(** ** Claim *)

(** What late boot starts from: the global data with the region of the heap,
    memory for both, and, when the caches are to be enabled, a machine that
    [enable_caches] accepts, with its tables apart from the global data. *)
Record late_env (gd base n : Z) (mem_map : list mm_region) (CONFIG_ARMV8_CACHE : bool) (x : machine) : Prop := {
  le_gd : mapped (ma_mem x) gd sizeof_gd;
  le_region : Region base n;
  le_flags : 0 <= rdw (ma_mem x) (gd + gd_flags) < 2 ^ 64;
  le_base : rdw (ma_mem x) (gd + gd_malloc_base) = base;
  le_limit : rdw (ma_mem x) (gd + gd_malloc_limit) = 4096 * n;
  le_heap : mapped (ma_mem x) base (4096 * n);
  le_pages : length (Pages.mem_map (ma_pages x)) = Z.to_nat PAGING_PAGES;
  le_map : Forall (region_ok (va_limit (start_level mem_map))) (active mem_map) /\ regions_apart (active mem_map) /\ active mem_map <> [];
  le_mmu : CONFIG_ARMV8_CACHE = true -> mmu_inv mem_map (ma_sys x) /\ tlb_fillptr (s_gd (ma_sys x)) = 0 /\
    apart (span_of (tlb_addr (s_gd (ma_sys x))) (tlb_size (s_gd (ma_sys x)))) gd sizeof_gd
}.

Section claim.
Context (gd base n : Z) (mem_map : list mm_region) (cfg : bool).
Context (hw : hardware) (frames : nat) (irq_table : list irq_handler_struct) (fn_addr : init_fnc_r -> Z) (seq_addr : Z).

(** Writing the flags does not disturb the environment. *)
Lemma late_env_flags x m' :
  late_env gd base n mem_map cfg x -> unchanged (span_of (gd + gd_flags) 8) (ma_mem x) m' -> 0 <= rdw m' (gd + gd_flags) < 2 ^ 64 ->
  late_env gd base n mem_map cfg (with_mem m' x).
Proof.
  intros [H1 H2 Hf0 H3 H4 H5 H6 H7 H8] U Hf.
  assert (forall o, 8 <= o <= 224 -> rdw m' (gd + o) = rdw (ma_mem x) (gd + o)) as Hr.
  { intros o Ho. eapply (rdn_unchanged 8); [exact U|]. apply apart_span. unfold gd_flags. lia. }
  split; [eapply unchanged_mapped; [exact U|done]|done|done| | |eapply unchanged_mapped; [exact U|done]|done|done|].
  - change (ma_mem (with_mem m' x)) with m'. rewrite Hr; [done|unfold gd_malloc_base; lia].
  - change (ma_mem (with_mem m' x)) with m'. rewrite Hr; [done|unfold gd_malloc_limit; lia].
  - intros Ec. destruct (H8 Ec) as ([M1 M2 M3 M4] & Hfp & Hap). split; [|done]. split; [done| |done|done].
    unfold tables_ok in *. cbn [ma_sys with_mem s_gd s_mem]. rewrite decide_True in * by done.
    destruct M2 as (A1 & A2 & A3 & A4 & A5). repeat split; try done. by eapply unchanged_mapped.
Qed.

(** The state after [enable_caches]. *)
Definition caches_started (x x' : machine) : Prop :=
  if cfg then mmu_inv mem_map (ma_sys x') /\ dcache_on (s_core (ma_sys x')) = true /\ icache_on (s_core (ma_sys x')) = true
  else s_core (ma_sys x') = s_core (ma_sys x).

Lemma caches_step x :
  late_env gd base n mem_map cfg x ->
  exists s', enable_caches mem_map cfg (ma_sys x) = Ok s' /\
    (forall pg g t io, caches_started x (Machine s' pg g t io)) /\ dom (s_mem s') =@{gset Z} dom (ma_mem x) /\
    forall o, 0 <= o <= 224 -> rdw (s_mem s') (gd + o) = rdw (ma_mem x) (gd + o).
Proof.
  intros [H1 H2 _ H3 H4 H5 H6 (M1 & M2 & M3) H8]. unfold enable_caches, caches_started. destruct cfg.
  - destruct (H8 eq_refl) as (Hi & _ & Hap).
    destruct (cache_run_spec mem_map M1 M2 M3 [DcacheEnable; IcacheEnable] (ma_sys x) Hi) as (s' & E & (Hi' & [_ U]) & Hd & Hic).
    cbn [cache_run cache_do] in E. destruct (dcache_enable mem_map (ma_sys x)) as [s1| | |]; cbn [obind] in E |- *; try done.
    injection E as <-. exists (on_core icache_enable s1). split; [done|]. split; [by intros; cbn [ma_sys]; rewrite Hd, Hic|].
    split; [apply U|]. intros o Ho. eapply (rdn_unchanged 8); [exact U|]. eapply apart_sub; [exact Hap|lia|unfold sizeof_gd; lia].
  - exists (ma_sys x). done.
Qed.
End claim.

Lemma with_mem_same m x : m = ma_mem x -> with_mem m x = x.
Proof. intros ->. by destruct x as [[] ? ? ? ?]. Qed.

(** The interrupts as [interrupt_init] leaves them. *)
Definition interrupts_started (irq_table : list irq_handler_struct) (x x' : machine) : Prop :=
  exists l, ma_trace x' = ma_trace x ++ [MSR "DAIFSet" 3] ++ l ++ [MSR "DAIFClr" 3] /\
    Forall (fun e => touches_mask e = false) l /\
    (forall i, irq_handler_tab (ma_gic x') !! i =
       match entry_for boot_entry irq_table i with Some e => Some e | None => irq_handler_tab (ma_gic x) !! i end) /\
    forall i, 32 <= i < gic_irqs (gic_data (ma_gic x')) ->
      chip GICV3_DIST_BASE Enable i (ma_trace x ++ [MSR "DAIFSet" 3] ++ l) = bool_decide (is_Some (entry_for boot_entry irq_table i)).

(** C11: late boot.  From an environment as the early boot leaves it,
    [board_init_r] panics, exactly with [interrupt_init] and for want of a
    usable interrupt controller, or enters the command line.  It does the
    latter with the flags saying that the image is relocated, the allocator
    ready and the log not; the invariant of the allocator holds with no live
    object; and interrupts were unmasked last, with all handlers of the table
    installed and exactly their interrupts enabled.  Translation and caches
    depend on the configuration [cfg] (CONFIG_ARMV8_CACHE, which no file of the
    repository sets): with it the MMU translates by the memory map and both
    caches are on, without it the registers of the core are as before.  The end
    of the array of calls, which has no terminator, is never reached. *)
Theorem board_init_r_correct (gd base n : Z) (mem_map : list mm_region) (cfg : bool) (hw : hardware) (frames : nat) (mpidr : Z)
    (irq_table : list irq_handler_struct) (fn_addr : init_fnc_r -> Z) (seq_addr : Z) (x : machine) :
  late_env gd base n mem_map cfg x ->
  (forall t, u64 (sysreg hw t "MPIDR_EL1") = mpidr) -> last_frame hw frames GICV3_RDIST_0_BASE ->
  Forall (fun e => boot_entry e = true -> 0 <= irqid e < 1020) irq_table ->
  let r := board_init_r gd mem_map cfg hw frames irq_table fn_addr seq_addr x in
  (exists msg, (msg = NO_DIST \/ msg = NO_SRE) /\ interrupt_init hw frames irq_table (ma_gic x) (ma_trace x) = Panic msg /\ r = Panic msg) \/
  exists x', r = Ok x' /\
    rdw (ma_mem x') (gd + gd_flags) =
      Z.lor (Z.ldiff (rdw (ma_mem x) (gd + gd_flags)) GD_FLG_LOG_READY) (Z.lor GD_FLG_RELOC GD_FLG_FULL_MALLOC_INIT) /\
    caches_started mem_map cfg x x' /\
    heap_inv base n empty_heap (heap0 (ma_pages x')) (ma_mem x') /\
    interrupts_started irq_table x x'.
Proof.
  intros He Hmp Hlast HF r. subst r. unfold board_init_r.
  pose proof (le_gd _ _ _ _ _ _ He) as Hgd. rewrite (fld_rdw gd x) by (done || unfold gd_flags; lia). cbn [obind].
  set (flags := rdw (ma_mem x) (gd + gd_flags)). pose proof (le_flags _ _ _ _ _ _ He) as Hfl. fold flags in Hfl.
  destruct (set_flags_spec gd (Z.ldiff flags GD_FLG_LOG_READY) x Hgd) as (x1 & -> & m1 & -> & U1 & E1). cbn [obind].
  assert (0 <= Z.ldiff flags GD_FLG_LOG_READY < 2 ^ 64) as Hw1 by (apply ldiff_word; [lia|done]). rewrite Z.mod_small in E1 by done.
  pose proof (late_env_flags _ _ _ _ _ _ m1 He U1 ltac:(by rewrite E1)) as He1. set (x1 := with_mem m1 x) in *.
  pose proof (le_gd _ _ _ _ _ _ He1) as Hgd1.
  set (v := Z.lor (Z.ldiff flags GD_FLG_LOG_READY) (Z.lor GD_FLG_RELOC GD_FLG_FULL_MALLOC_INIT)).
  (* initr_reloc *)
  unfold init_sequence_r. destruct (set_flags_spec gd v x1 Hgd1) as (x2 & E2 & m2 & -> & U2 & F2).
  erewrite initcall_step; [|exact Hgd1|unfold initr_reloc; rewrite (fld_rdw gd x1) by (done || unfold gd_flags; lia); cbn [obind];
    change (ma_mem x1) with m1; rewrite E1; fold v; rewrite E2; reflexivity].
  assert (0 <= v < 2 ^ 64) as Hw2 by by apply lor_word. rewrite Z.mod_small in F2 by done.
  pose proof (late_env_flags _ _ _ _ _ _ m2 He1 U2 ltac:(by rewrite F2)) as He2. set (x2 := with_mem m2 x1) in *.
  (* initr_caches *)
  destruct (caches_step _ _ _ _ _ _ He2) as (s3 & E3 & Hc3 & D3 & R3).
  erewrite initcall_step; [|apply (le_gd _ _ _ _ _ _ He2)|unfold initr_caches; rewrite E3; reflexivity].
  set (x3 := Machine s3 _ _ _ _). destruct He2 as [A1 A2 _ A3 A4 A5 A6 _ _].
  assert (gd_mapped gd x3) as Hgd3 by (eapply mapped_dom; [exact D3|exact A1]).
  (* memory_init *)
  destruct (memory_init_spec base n (ma_pages x3) (World (ma_mem x3) (ma_io x3)) A6) as ([pg w] & E4 & Hpg & Ew).
  erewrite initcall_step; [|exact Hgd3|unfold initr_memory; rewrite !(fld_rdw gd x3) by (done || unfold gd_malloc_base, gd_malloc_limit; lia);
    cbn [obind]; change (ma_mem x3) with (s_mem s3); rewrite !R3 by (unfold gd_malloc_base, gd_malloc_limit; lia); rewrite A3, A4;
    change (s_mem s3) with (ma_mem x3); rewrite E4; cbn [obind]; reflexivity].
  rewrite Ew. cbn [w_mem]. rewrite with_mem_same by done. set (x4 := with_io _ _). change (gd_mapped gd x4) in Hgd3.
  (* interrupt_init *)
  destruct (interrupt_init_spec hw frames mpidr irq_table (ma_gic x) (ma_trace x) Hmp Hlast HF) as [E5|[E5|(g & l & E5 & Q & Ht & Hch)]].
  all: assert (initr_interrupts hw frames irq_table x4 = (let! '(r, g, t) := interrupt_init hw frames irq_table (ma_gic x) (ma_trace x) in
    Ok (inl (Machine (ma_sys x4) (ma_pages x4) g t (ma_io x4), r)))) as Ei by reflexivity; rewrite E5 in Ei; cbn [obind] in Ei.
  1: left; exists NO_DIST. 2: left; exists NO_SRE.
  1,2: (split; [auto|]; split; [exact E5|]);
    rewrite initcall_stop; [by rewrite Ei|done|]; intros x' r; by rewrite Ei.
  right. erewrite initcall_step; [|exact Hgd3|exact Ei]. set (x5 := Machine _ _ g _ _).
  erewrite initcall_step; [|exact Hgd3|reflexivity]. erewrite initcall_step; [|exact Hgd3|reflexivity].
  rewrite initcall_stop; [|exact Hgd3|done]. cbn [run_main_loop obind]. eexists. split; [reflexivity|].
  split; [change (rdw (s_mem s3) (gd + gd_flags) = v); rewrite R3 by (unfold gd_flags; lia); exact F2|].
  split; [specialize (Hc3 (ma_pages x5) g (ma_trace x5) []); unfold caches_started in *; by destruct cfg|]. split.
  - apply (empty_heap_inv base n); [done|]. eapply mapped_dom; [exact D3|exact A5].
  - exists l. done.
Qed.

(** Global data at 0x1000 that names two pages at 0x4000 as the heap, space
    for tables at 0x10000, and the controller of the claim on [gic_init]. *)
Definition late_gd : list Z :=
  replicate 96 0 ++ [0; 0x40; 0; 0; 0; 0; 0; 0] ++ [0; 0x20; 0; 0; 0; 0; 0; 0] ++ replicate 120 0.
Definition late_mem : mem :=
  write_bytes (write_bytes (write_bytes ∅ 0x10000 (replicate (Z.to_nat 0xc000) 0)) 0x4000 (replicate (Z.to_nat 8192) 0)) 0x1000 late_gd.
Definition late_machine : machine :=
  Machine (Sys reset_core small_size_gd late_mem 0 0) pages0 reset_state [] [].

Lemma zeros_mapped (m : mem) p k : mapped (write_bytes m p (replicate (Z.to_nat k) 0)) p k.
Proof.
  pose proof (bytes_at_mapped _ _ _ (write_bytes_at m p (replicate (Z.to_nat k) 0))) as H. rewrite length_replicate in H.
  intros q Hq. apply H. lia.
Qed.

Lemma late_fields :
  rdw late_mem 0x1000 = 0 /\ rdw late_mem (0x1000 + 96) = 0x4000 /\ rdw late_mem (0x1000 + 104) = 0x2000.
Proof.
  assert (bytes_at late_mem 0x1000 late_gd) as H by apply write_bytes_at.
  assert (forall o k l l', late_gd = l ++ k ++ l' -> Z.of_nat (length l) = o -> length k = 8%nat ->
    read_bytes late_mem (0x1000 + o) 8 = k) as Hr.
  { intros o k l l' E <- Hk. rewrite E in H. apply bytes_at_app in H as [_ H]. apply bytes_at_app in H as [H _].
    rewrite <- Hk. by apply bytes_at_read_bytes. }
  unfold rdn. split; [|split].
  - change 0x1000 with (0x1000 + 0). rewrite (Hr 0 (replicate 8 0) [] (drop 8 late_gd)); reflexivity.
  - rewrite (Hr 96 [0; 0x40; 0; 0; 0; 0; 0; 0] (replicate 96 0) (drop 104 late_gd)); reflexivity.
  - rewrite (Hr 104 [0; 0x20; 0; 0; 0; 0; 0; 0] (take 104 late_gd) (drop 112 late_gd)); reflexivity.
Qed.

Lemma late_env_of (m : mem) :
  mapped m 0x1000 sizeof_gd -> mapped m 0x4000 (4096 * 2) -> mapped m 0x10000 0xc000 ->
  rdw m (0x1000 + gd_flags) = 0 -> rdw m (0x1000 + gd_malloc_base) = 0x4000 -> rdw m (0x1000 + gd_malloc_limit) = 4096 * 2 ->
  late_env 0x1000 0x4000 2 small_map true (Machine (Sys reset_core small_size_gd m 0 0) pages0 reset_state [] []).
Proof.
  intros H1 H2 H3 F0 F1 F2. split; [exact H1| | |exact F1|exact F2|exact H2|reflexivity|split; [exact small_map_ok|exact small_map_apart]|].
  - split; [lia|done|split; [lia|by vm_compute]|lia].
  - cbn [ma_mem ma_sys s_mem]. rewrite F0. lia.
  - intros _. cbn [ma_sys s_gd small_size_gd tlb_fillptr tlb_addr tlb_size]. split; [|split; [done|]].
    + split; [done| |done|done]. unfold tables_ok. rewrite decide_True by done. split; [done|]. split; [done|].
      split; [exists 0xc000; split; [exact small_map_size|done]|]. split; [done|exact H3].
    + intros y Hy [Hs _]. unfold sizeof_gd in Hy. lia.
Qed.

Lemma late_machine_env : late_env 0x1000 0x4000 2 small_map true late_machine.
Proof.
  destruct late_fields as (F0 & F1 & F2). apply late_env_of; [| | |exact F0|exact F1|exact F2].
  - change sizeof_gd with (Z.of_nat (length late_gd)). apply (bytes_at_mapped _ 0x1000 late_gd), write_bytes_at.
  - apply mapped_write_bytes, zeros_mapped.
  - apply mapped_write_bytes, mapped_write_bytes, zeros_mapped.
Qed.

Lemma late_gic_runs msg : interrupt_init demo_hw 0 boot_table (ma_gic late_machine) (ma_trace late_machine) <> Panic msg.
Proof. destruct boot_table_runs as [y Ey]. cbn [late_machine ma_gic ma_trace]. by rewrite Ey. Qed.

Lemma late_flags : rdw (ma_mem late_machine) (0x1000 + gd_flags) = 0.
Proof. exact (proj1 late_fields). Qed.

Lemma board_init_r_correct_witness :
  exists x', board_init_r 0x1000 small_map true demo_hw 0 boot_table (fun _ => 0) 0 late_machine = Ok x' /\
    rdw (ma_mem x') (0x1000 + gd_flags) = 0x201 /\ caches_started small_map true late_machine x' /\
    heap_inv 0x4000 2 empty_heap (heap0 (ma_pages x')) (ma_mem x') /\ interrupts_started boot_table late_machine x'.
Proof.
  destruct (board_init_r_correct 0x1000 0x4000 2 small_map true demo_hw 0 0 boot_table (fun _ => 0) 0 late_machine)
    as [(msg & _ & E & _)|(x' & E & Hf & Hc & Hh & Hi)].
  - exact late_machine_env.
  - intros t. reflexivity.
  - intros t a _. reflexivity.
  - repeat constructor; cbn; lia.
  - by destruct (late_gic_runs msg).
  - exists x'. split; [exact E|]. split; [|split; [exact Hc|split; [exact Hh|exact Hi]]].
    rewrite late_flags in Hf. exact Hf.
Defined.
