(* ===== verification/ElCmd.v ===== *)
(** * Switching the exception level (common/interrupt.c, from line 109)

    The command switch_el and its five subcommands.  The switch itself is
    assembly: [switch_to_el2_g], [switch_to_el1_g] and [switch_to_el0_g] are
    parameters, functions on the core.  The names of the subcommands lie in
    memory at [names]. *)

From S2P Require Import Prelude CMem Ctype Str StrFacts Console Pages Command CommandFacts PgTable Mmu MmuFacts MmuTheorems.

Local Open Scope Z_scope.
Local Open Scope c_scope.

Section switch.
Context (switch_to_el2_g switch_to_el1_g switch_to_el0_g : core -> core).

Definition now_in (el_stat : Z) (c : core) : core * Z := (tell (Printf "Now In EL%d\n\r" [el_stat]) c, CMD_RET_SUCCESS).

Definition swtich_to_el3_test (c : core) : core * Z :=
  let c := dcache_disable c in now_in (current_el c) c.
Definition swtich_to_el2_test (c : core) : core * Z :=
  let c := switch_to_el2_g (dcache_disable c) in now_in (current_el c) c.
Definition swtich_to_el1_test (c : core) : core * Z :=
  let c := switch_to_el1_g c in now_in (current_el c) c.
Definition swtich_to_el0_test (c : core) : core * Z :=
  now_in 0 (switch_to_el0_g c).
Definition get_current_el (c : core) : core * Z := now_in (current_el c) c.

(** The functions of [cmd_switch_sub], in the order of the table. *)
Definition switch_functions : list (core -> core * Z) :=
  [swtich_to_el3_test; swtich_to_el2_test; swtich_to_el1_test; swtich_to_el0_test; get_current_el].

Definition cmd_switch_sub (names : list Z) : list cmd_tbl_t :=
  zip_with (fun p n => CmdTbl p n (fun _ _ _ _ => Fault) NULL NULL None) names [1; 1; 3; 3; 3].

Definition do_switch_el (names : list Z) (argc : Z) (argv : list Z) (s : sys) : outcome (sys * Z) :=
  if argc <? 2 then Ok (s, CMD_RET_USAGE) else
  let argv := tail argv in
  let! arg0 := arr_get argv 0 in
  let! c := find_cmd_tbl (s_mem s) arg0 (cmd_switch_sub names) in
  match c with
  | None => Ok (s, CMD_RET_USAGE)
  | Some i =>
      match switch_functions !! i with
      | None => Fault
      | Some f => let '(c, r) := f (s_core s) in Ok (on_core (fun _ => c) s, r)
      end
  end.
End switch.

(** "el3", "el2", "el1", "el0", "get" *)
Definition switch_names : list (list Z) := [[101; 108; 51]; [101; 108; 50]; [101; 108; 49]; [101; 108; 48]; [103; 101; 116]].

Lemma find_idx_lt {A} (f : A -> bool) l i : find_idx f l = Some i -> (i < length l)%nat.
Proof.
  revert i. induction l as [|a l IH]; intros i; cbn [find_idx length]; [done|]. destruct (f a); [intros [= <-]; lia|].
  destruct (find_idx f l) as [k|]; [|done]. intros [= <-]. specialize (IH k eq_refl). lia.
Qed.

Lemma matches_lt key names : forall n i, i ∈ matches n key names -> (i < n + length names)%nat.
Proof.
  induction names as [|t names IH]; intros n i; cbn [matches length]; [by intros ?%elem_of_nil|].
  case_bool_decide; [intros [->|Hi]%elem_of_cons; [lia|]|intros Hi]; apply IH in Hi; lia.
Qed.

Lemma find_spec_lt s names i : find_spec s names = Some i -> (i < length names)%nat.
Proof.
  unfold find_spec. destruct (find_idx _ _) as [k|] eqn:E; [intros [= <-]; by eapply find_idx_lt|].
  destruct (matches O (key_of s) names) as [|k [|]] eqn:Em; try done. intros [= <-].
  apply (matches_lt (key_of s) names O). rewrite Em. by left.
Qed.

(** Without the data cache there is no MMU either. *)
Lemma disabled_off c : MmuFacts.runs c -> dcache_on (dcache_disable c) = false.
Proof.
  intros Hr. rewrite dcache_disable_eq. destruct (dcache_on c) eqn:E; [|done]. unfold dcache_on.
  set (v := Z.ldiff _ _). change (get_sctlr (__asm_invalidate_tlb_all (flush_dcache_all (set_sctlr v c)))) with (get_sctlr (set_sctlr v c)).
  rewrite get_sctlr_set by done. unfold v. rewrite clear_bits_word by apply get_sctlr_range. rewrite Z.ldiff_spec.
  change (Z.testbit (Z.lor CR_C CR_M) 2) with true. apply andb_false_r.
Qed.

(** The subcommand the word names, or abbreviates without ambiguity, runs on
    the core and nothing else changes; otherwise the usage is asked for.  el3
    and el2 switch with the data cache off; el1 and el0 leave it on. *)
Theorem do_switch_el_correct (el2 el1 el0 : core -> core) (names argv : list Z) (word : list Z) (a0 a1 : Z) (rest : list Z) (s : sys) :
  argv = a0 :: a1 :: rest -> 0 < a1 -> cstr (s_mem s) a1 word -> Forall2 (cstr (s_mem s)) names switch_names ->
  let r := do_switch_el el2 el1 el0 names (Z.of_nat (length argv)) argv s in
  match find_spec word switch_names with
  | None => r = Ok (s, CMD_RET_USAGE)
  | Some i => exists f c, switch_functions el2 el1 el0 !! i = Some f /\ f (s_core s) = (c, CMD_RET_SUCCESS) /\
      r = Ok (on_core (fun _ => c) s, CMD_RET_SUCCESS)
  end /\
  (MmuFacts.runs (s_core s) ->
     dcache_on (swtich_to_el3_test (s_core s)).1 = false /\
     exists c, swtich_to_el2_test el2 (s_core s) = now_in (current_el (el2 c)) (el2 c) /\ dcache_on c = false) /\
  swtich_to_el1_test el1 (s_core s) = now_in (current_el (el1 (s_core s))) (el1 (s_core s)).
Proof.
  intros -> Hp Hw Hn r. split.
  - unfold r, do_switch_el. destruct (Z.ltb_spec (Z.of_nat (length (a0 :: a1 :: rest))) 2) as [Hlt|_]; [cbn [length] in Hlt; lia|]. cbn [tail].
    change (arr_get (a1 :: rest) 0) with (Ok a1). cbn [obind].
    rewrite (find_cmd_tbl_spec _ _ word _ switch_names); [|done|done|].
    + cbn [obind]. destruct (find_spec word switch_names) as [i|] eqn:E; [|done]. apply find_spec_lt in E. cbn in E.
      destruct i as [|[|[|[|[|i]]]]]; try lia; by eexists _, _.
    + apply Forall2_length in Hn as El. do 5 (destruct names as [|? names]; [done|]). destruct names; [|done].
      repeat (apply Forall2_cons_1 in Hn as [? Hn]). repeat (constructor; [done|]). constructor.
  - split; [|done]. intros Hr. split; [exact (disabled_off _ Hr)|]. exists (dcache_disable (s_core s)). split; [done|by apply disabled_off].
Qed.
