(* ===== verification/Its.v ===== *)
(** * The interrupt translation service (module/gicv3/gicv3_its.c)

    The driver of the ITS: the command queue, the commands, the descriptors of
    the tables and the LPI tables of a redistributor.  The queue lies in memory
    the device reads while the driver runs, so the stores into it are accesses
    of the trace like those to the registers.  The dsb before a command is
    published keeps this order; it is not an access.

    A command is a union of four 64-bit and eight 32-bit words, little endian:
    the block is the list of its 64-bit words, and a 32-bit word is one half of
    one of them.  The block is a local variable that is not initialised;
    [garbage] is what it holds.  The wait for room in the queue has no limit
    in the code; [polls] is the number of rounds a run is followed. *)

From S2P Require Import Prelude CMem Device Gic.

Local Open Scope Z_scope.
Local Open Scope c_scope.

Definition GENMASK_ULL (h l : Z) : Z :=
  Z.land (u64 (Z.shiftl (2 ^ 64 - 1) l)) (Z.shiftr (2 ^ 64 - 1) (64 - 1 - h)).

Definition GITS_CMD_MAPD : Z := 0x08.
Definition GITS_CMD_MAPC : Z := 0x09.
Definition GITS_CMD_MAPTI : Z := 0x0a.
Definition GITS_CMD_MAPI : Z := 0x0b.
Definition GITS_CMD_INV : Z := 0x0c.
Definition GITS_CMD_INVALL : Z := 0x0d.
Definition GITS_CMD_INT : Z := 0x03.
Definition GITS_CMD_SYNC : Z := 0x05.
Definition COMMAND_SIZE : Z := 32.
Definition SOC_GIC_ITS0_OFFSET : Z := 0x40000.
Definition SOC_GIC_ITS1_OFFSET : Z := SOC_GIC_ITS0_OFFSET + SZ_128K.
Definition GICR_PROPBASER : Z := 0x0070.
Definition GICR_PENDBASER : Z := 0x0078.

(** The register map, as offsets. *)
Definition its_ctlr : Z := 0x00000.
Definition its_typer : Z := 0x00008.
Definition its_cbaser : Z := 0x00080.
Definition its_cwriter : Z := 0x00088.
Definition its_creadr : Z := 0x00090.
Definition its_baser (index : Z) : Z := 0x00100 + 8 * index.

(** The ITS the driver works on. *)
Record its_state : Type := ItsState { gits : Z }.

Definition gits0 : Z := GICV3_DIST_BASE + SOC_GIC_ITS0_OFFSET.
Definition gits1 : Z := GICV3_DIST_BASE + SOC_GIC_ITS1_OFFSET.

Abbreviation I := (M its_state).

Abbreviation its_cmd_block := (list Z).

Definition raw_cmd64 (i : nat) (v : Z) (b : its_cmd_block) : its_cmd_block := <[i := u64 v]> b.

Definition raw_cmd32 (i : nat) (v : Z) (b : its_cmd_block) : its_cmd_block :=
  let j := Nat.div i 2 in
  let w := default 0 (b !! j) in
  <[j := if Nat.even i then Z.lor (Z.land w 0xffffffff00000000) (u32 v)
         else Z.lor (Z.land w 0xffffffff) (Z.shiftl (u32 v) 32)]> b.

Section its.
Context (hw : hardware) (polls : nat) (garbage : its_cmd_block).

(** ** The command queue *)

Definition init_ITS_command_queue (address attributes num_pages : Z) : I unit :=
  let address := Z.land address (GENMASK_ULL 51 12) in
  let attributes := Z.land attributes 0xF800000000000C00 in
  let num_pages := Z.land num_pages (GENMASK_ULL 7 0) in
  if num_pages =? 0 then ret tt else
  let tmp := Z.lor (Z.lor address attributes) (num_pages - 1) in
  do! s := get_data in
  seq! writeq_relaxed tmp (gits s + its_cbaser) then
  writeq_relaxed 0 (gits s + its_cwriter).

(** [for (i = 0; i < 4; i++) entry[i] = command->raw_cmd64[i]] *)
Fixpoint copy_command (entry : Z) (command : its_cmd_block) : I unit :=
  match command with
  | [] => ret tt
  | w :: command => seq! writeq_relaxed w entry then copy_command (entry + 8) command
  end.

(** Wait until the queue has room: one round reads its_creadr. *)
Definition wait_for_room (base qsize qwriter : Z) : I unit :=
  mwhile polls (fun _ =>
    do! qreader := readq_relaxed hw (base + its_creadr) in
    let qreader := if qreader =? 0 then u32 (qsize - COMMAND_SIZE) else u64 (qreader - COMMAND_SIZE) in
    if qwriter =? qreader then ret (inl tt) else ret (inr tt)) tt.

Definition add_ITS_command (command : its_cmd_block) : I unit :=
  do! s := get_data in
  do! cbaser := readq_relaxed hw (gits s + its_cbaser) in
  let qsize := u32 ((Z.land cbaser (GENMASK_ULL 7 0) + 1) * 0x1000) in
  do! cbaser := readq_relaxed hw (gits s + its_cbaser) in
  let qbase := Z.land cbaser (GENMASK_ULL 51 12) in
  do! qwriter := readq_relaxed hw (gits s + its_cwriter) in
  seq! wait_for_room (gits s) qsize qwriter then
  seq! copy_command (qbase + qwriter) command then
  let new_cwriter := u64 (qwriter + COMMAND_SIZE) in
  let new_cwriter := if new_cwriter =? qsize then 0 else new_cwriter in
  writeq_relaxed new_cwriter (gits s + its_cwriter).

(** ** The commands *)

Definition add_ITS_INT (device_id event_id : Z) : I unit :=
  let cmd := raw_cmd32 0 GITS_CMD_INT garbage in
  let cmd := raw_cmd32 1 device_id cmd in
  let cmd := raw_cmd32 2 event_id cmd in
  let cmd := raw_cmd32 3 0x0 cmd in
  let cmd := raw_cmd64 2 0x0 cmd in
  let cmd := raw_cmd64 3 0x0 cmd in
  add_ITS_command cmd.

Definition add_ITS_INV (device_id event_id : Z) : I unit :=
  let cmd := raw_cmd32 0 GITS_CMD_INV garbage in
  let cmd := raw_cmd32 1 device_id cmd in
  let cmd := raw_cmd32 2 event_id cmd in
  let cmd := raw_cmd32 3 0x0 cmd in
  let cmd := raw_cmd64 2 0x0 cmd in
  let cmd := raw_cmd64 3 0x0 cmd in
  add_ITS_command cmd.

Definition add_ITS_INVALL (icid : Z) : I unit :=
  let cmd := raw_cmd64 0 GITS_CMD_INVALL garbage in
  let cmd := raw_cmd64 1 0x0 cmd in
  let cmd := raw_cmd64 2 (Z.land icid (GENMASK_ULL 15 0)) cmd in
  let cmd := raw_cmd64 3 0x0 cmd in
  add_ITS_command cmd.

Definition add_ITS_MAPC (rdbase icid : Z) : I unit :=
  let cmd := raw_cmd64 0 GITS_CMD_MAPC garbage in
  let cmd := raw_cmd64 1 0x0 cmd in
  let cmd := raw_cmd64 2 (Z.lor (Z.lor (Z.shiftl 1 63) (Z.land rdbase (GENMASK_ULL 50 16))) (Z.land icid (GENMASK_ULL 15 0))) cmd in
  let cmd := raw_cmd64 3 0x0 cmd in
  add_ITS_command cmd.

Definition add_ITS_MAPD (device_id itt_addr size : Z) : I unit :=
  let cmd := raw_cmd32 0 GITS_CMD_MAPD garbage in
  let cmd := raw_cmd32 1 device_id cmd in
  let cmd := raw_cmd64 1 (Z.land size (GENMASK_ULL 4 0)) cmd in
  let cmd := raw_cmd64 2 (Z.lor (Z.shiftl 1 63) (Z.land itt_addr (GENMASK_ULL 51 8))) cmd in
  let cmd := raw_cmd64 3 0x0 cmd in
  add_ITS_command cmd.

Definition add_ITS_MAPI (device_id event_id icid : Z) : I unit :=
  let cmd := raw_cmd32 0 GITS_CMD_MAPI garbage in
  let cmd := raw_cmd32 1 device_id cmd in
  let cmd := raw_cmd32 2 event_id cmd in
  let cmd := raw_cmd32 3 0x0 cmd in
  let cmd := raw_cmd64 2 (Z.land icid (GENMASK_ULL 15 0)) cmd in
  let cmd := raw_cmd64 3 0x0 cmd in
  add_ITS_command cmd.

Definition Add_ITS_MAPTI (device_id event_id intid icid : Z) : I unit :=
  let cmd := raw_cmd32 0 GITS_CMD_MAPTI garbage in
  let cmd := raw_cmd32 1 device_id cmd in
  let cmd := raw_cmd32 2 event_id cmd in
  let cmd := raw_cmd32 3 intid cmd in
  let cmd := raw_cmd64 2 (Z.land icid (GENMASK_ULL 15 0)) cmd in
  let cmd := raw_cmd64 3 0x0 cmd in
  add_ITS_command cmd.

Definition add_ITS_SYNC (rdbase : Z) : I unit :=
  let cmd := raw_cmd64 0 GITS_CMD_SYNC garbage in
  let cmd := raw_cmd64 1 0x0 cmd in
  let cmd := raw_cmd64 2 (Z.land rdbase (GENMASK_ULL 50 16)) cmd in
  let cmd := raw_cmd64 3 0x0 cmd in
  add_ITS_command cmd.

(** ** Tables *)

(** The values stored through [type] and [entry_size], where they are. *)
Definition get_ITS_table_type (index : Z) : I (Z * option (Z * Z)) :=
  if 7 <? index then ret (0, None) else
  do! s := get_data in
  do! b := readq_relaxed hw (gits s + its_baser index) in
  let type := u32 (Z.land 0x7 (Z.shiftr b 56)) in
  do! b := readq_relaxed hw (gits s + its_baser index) in
  let entry_size := u32 (Z.land 0x1F (Z.shiftr b 48)) in
  ret (1, Some (type, entry_size)).

Definition set_ITS_table_addr (index addr attributes page_size num_pages : Z) : I unit :=
  if (7 <? index) || (num_pages =? 0) then ret tt else
  let tmp := Z.land (num_pages - 1) 0xFF in
  let tmp := Z.lor tmp (Z.land (u32 (Z.shiftl page_size 8)) 0x300) in
  let tmp := Z.lor tmp (Z.land addr 0x0000FFFFFFFFF000) in
  let tmp := Z.lor tmp (Z.land attributes 0xF800000000000C00) in
  do! s := get_data in
  writeq_relaxed tmp (gits s + its_baser index).

Definition get_ITS_PTA : I Z :=
  do! s := get_data in
  do! v := readq_relaxed hw (gits s + its_typer) in
  ret (u32 (Z.land (Z.shiftr v 19) 0x1)).

Definition enable_ITS : I unit := do! s := get_data in writel_relaxed 1 (gits s + its_ctlr).
Definition disable_ITS : I unit := do! s := get_data in writel_relaxed 0 (gits s + its_ctlr).

(** ** LPIs of a redistributor *)

Definition set_LPI_config_table_addr (gicr_rdbase addr attributes IDbits : Z) : I unit :=
  if (IDbits <? 14) || (32 <? IDbits) then ret tt else
  let IDbits := IDbits - 1 in
  let addr := Z.land addr 0x0000FFFFFFFFF000 in
  let tmp := Z.lor addr (Z.land attributes 0x0700000000000F80) in
  let tmp := Z.lor tmp (Z.land IDbits 0x000000000000001F) in
  writeq_relaxed tmp (gicr_rdbase + GICR_PROPBASER).

Definition set_LPI_pending_tableAddr (gicr_rdbase addr attributes IDbits : Z) : I unit :=
  if (IDbits <? 14) || (32 <? IDbits) then ret tt else
  let addr := Z.land addr 0x0000FFFFFFFF0000 in
  let tmp := Z.lor addr (Z.land attributes 0x0700000000000F80) in
  let tmp := Z.lor tmp (Z.shiftl 1 62) in
  writeq_relaxed tmp (gicr_rdbase + GICR_PENDBASER).

Definition enable_LPIs (gicr_rdbase : Z) : I unit :=
  do! v := readl_relaxed hw (gicr_rdbase + GICR_CTLR) in
  writel_relaxed (Z.lor v 0x1) (gicr_rdbase + GICR_CTLR).

Definition disable_LPIs (gicr_rdbase : Z) : I unit :=
  do! v := readl_relaxed hw (gicr_rdbase + GICR_CTLR) in
  writel_relaxed (Z.ldiff v 0x1) (gicr_rdbase + GICR_CTLR).
End its.
