(* ===== verification/ItsFacts.v ===== *)
(** * The interrupt translation service: commands and the queue

    What the ITS makes of a command block, by the documented layout of its
    commands, and the environment in which the driver adds commands: the ITS
    reads and executes commands while the driver runs. *)

From S2P Require Import Prelude CMem Device Gic GicFacts Its.

Local Open Scope Z_scope.
Local Open Scope c_scope.

(** ** Commands *)

Inductive its_op : Type :=
  | OpInt (device_id event_id : Z)
  | OpInv (device_id event_id : Z)
  | OpInvall (icid : Z)
  | OpMapc (rdbase icid : Z)
  | OpMapd (device_id itt_addr size : Z)
  | OpMapi (device_id event_id icid : Z)
  | OpMapti (device_id event_id intid icid : Z)
  | OpSync (rdbase : Z).

(** The ranges the comments of the code ask for. *)
Definition op_ok (op : its_op) : Prop :=
  match op with
  | OpInt d e | OpInv d e => 0 <= d < 2 ^ 32 /\ 0 <= e < 2 ^ 32
  | OpInvall c => 0 <= c < 2 ^ 16
  | OpMapc r c => 0 <= r < 2 ^ 51 /\ r mod 2 ^ 16 = 0 /\ 0 <= c < 2 ^ 16
  | OpMapd d a s => 0 <= d < 2 ^ 32 /\ 0 <= a < 2 ^ 52 /\ a mod 2 ^ 8 = 0 /\ 0 <= s < 2 ^ 5
  | OpMapi d e c => 0 <= d < 2 ^ 32 /\ 0 <= e < 2 ^ 32 /\ 0 <= c < 2 ^ 16
  | OpMapti d e i c => 0 <= d < 2 ^ 32 /\ 0 <= e < 2 ^ 32 /\ 0 <= i < 2 ^ 32 /\ 0 <= c < 2 ^ 16
  | OpSync r => 0 <= r < 2 ^ 51 /\ r mod 2 ^ 16 = 0
  end.

(** Bits [h] to [l] of a word. *)
Definition bits (h l w : Z) : Z := w / 2 ^ l mod 2 ^ (h - l + 1).

(** What the ITS makes of the four words of a command: the number of the
    command is the low byte; a collection or device is only mapped when the
    valid bit, bit 63 of the third word, is set. *)
Definition its_decode (b : list Z) : option its_op :=
  match b with
  | [w0; w1; w2; w3] =>
      let device := bits 63 32 w0 in
      let event := bits 31 0 w1 in
      let intid := bits 63 32 w1 in
      let icid := bits 15 0 w2 in
      let rdbase := bits 50 16 w2 * 2 ^ 16 in
      let valid := bits 63 63 w2 =? 1 in
      match bits 7 0 w0 with
      | 0x03 => Some (OpInt device event)
      | 0x0c => Some (OpInv device event)
      | 0x0d => Some (OpInvall icid)
      | 0x09 => if valid then Some (OpMapc rdbase icid) else None
      | 0x08 => if valid then Some (OpMapd device (bits 51 8 w2 * 2 ^ 8) (bits 4 0 w1)) else None
      | 0x0b => Some (OpMapi device event icid)
      | 0x0a => Some (OpMapti device event intid icid)
      | 0x05 => Some (OpSync rdbase)
      | _ => None
      end
  | _ => None
  end.

(** The words of a command. *)
Definition its_encode (op : its_op) : list Z :=
  match op with
  | OpInt d e => [GITS_CMD_INT + d * 2 ^ 32; e; 0; 0]
  | OpInv d e => [GITS_CMD_INV + d * 2 ^ 32; e; 0; 0]
  | OpInvall c => [GITS_CMD_INVALL; 0; c; 0]
  | OpMapc r c => [GITS_CMD_MAPC; 0; 2 ^ 63 + r + c; 0]
  | OpMapd d a s => [GITS_CMD_MAPD + d * 2 ^ 32; s; 2 ^ 63 + a; 0]
  | OpMapi d e c => [GITS_CMD_MAPI + d * 2 ^ 32; e; c; 0]
  | OpMapti d e i c => [GITS_CMD_MAPTI + d * 2 ^ 32; e + i * 2 ^ 32; c; 0]
  | OpSync r => [GITS_CMD_SYNC; 0; r; 0]
  end.

(** Powers of two as numbers. *)
Ltac norm_pow :=
  repeat match goal with |- context [2 ^ ?e] => let v := eval vm_compute in (2 ^ e) in progress change (2 ^ e) with v end.

Lemma its_decode_encode op : op_ok op -> its_decode (its_encode op) = Some op.
Proof.
  destruct op; cbn [op_ok its_encode]; intros H; unfold its_decode, bits, GITS_CMD_INT, GITS_CMD_INV, GITS_CMD_INVALL,
    GITS_CMD_MAPC, GITS_CMD_MAPD, GITS_CMD_MAPI, GITS_CMD_MAPTI, GITS_CMD_SYNC; cbv zeta; revert H; norm_pow; intros H.
  - replace (_ mod 256) with 0x03 by dlia. cbv iota. repeat f_equal; dlia.
  - replace (_ mod 256) with 0x0c by dlia. cbv iota. repeat f_equal; dlia.
  - replace (_ mod 256) with 0x0d by dlia. cbv iota. repeat f_equal; dlia.
  - replace (_ mod 256) with 0x09 by dlia. cbv iota. replace (_ mod 2) with 1 by dlia. rewrite Z.eqb_refl. repeat f_equal; dlia.
  - replace (_ mod 256) with 0x08 by dlia. cbv iota. replace (_ mod 2) with 1 by dlia. rewrite Z.eqb_refl. repeat f_equal; dlia.
  - replace (_ mod 256) with 0x0b by dlia. cbv iota. repeat f_equal; dlia.
  - replace (_ mod 256) with 0x0a by dlia. cbv iota. repeat f_equal; dlia.
  - replace (_ mod 256) with 0x05 by dlia. cbv iota. repeat f_equal; dlia.
Qed.

(** One call of the driver. *)
Definition issue (hw : hardware) (polls : nat) (garbage : its_cmd_block) (op : its_op) : I unit :=
  match op with
  | OpInt d e => add_ITS_INT hw polls garbage d e
  | OpInv d e => add_ITS_INV hw polls garbage d e
  | OpInvall c => add_ITS_INVALL hw polls garbage c
  | OpMapc r c => add_ITS_MAPC hw polls garbage r c
  | OpMapd d a s => add_ITS_MAPD hw polls garbage d a s
  | OpMapi d e c => add_ITS_MAPI hw polls garbage d e c
  | OpMapti d e i c => Add_ITS_MAPTI hw polls garbage d e i c
  | OpSync r => add_ITS_SYNC hw polls garbage r
  end.

(** The mask of the bits [h] to [l] keeps these bits. *)
Lemma land_field x n l : 0 <= l -> 0 <= n -> Z.land x (Z.shiftl (Z.ones n) l) = bits (l + n - 1) l x * 2 ^ l.
Proof.
  intros Hl Hn. unfold bits. replace (l + n - 1 - l + 1) with n by lia.
  rewrite <- Z.land_ones, <- Z.shiftr_div_pow2, <- Z.shiftl_mul_pow2 by lia.
  apply Z.bits_inj'. intros i Hi. rewrite Z.land_spec, !Z.shiftl_spec by done.
  destruct (Z.lt_ge_cases i l); [rewrite !(Z.testbit_neg_r _ (i - l)) by lia; by rewrite andb_false_r|].
  rewrite Z.land_spec, Z.shiftr_spec by lia. by replace (i - l + l) with i by lia.
Qed.

Lemma land_genmask h l x : GENMASK_ULL h l = Z.shiftl (Z.ones (h - l + 1)) l -> 0 <= l <= h ->
  Z.land x (GENMASK_ULL h l) = bits h l x * 2 ^ l.
Proof. intros -> Hl. rewrite land_field by lia. by replace (l + (h - l + 1) - 1) with h by lia. Qed.

(** The two halves of a word. *)
Lemma two_halves w x y : 0 <= x < 2 ^ 32 -> 0 <= y < 2 ^ 32 ->
  Z.lor (Z.land (Z.lor (Z.land w 0xffffffff00000000) x) 0xffffffff) (Z.shiftl y 32) = x + y * 2 ^ 32.
Proof.
  intros Hx Hy. change 0xffffffff with (2 ^ 32 - 1). rewrite land_mask by lia.
  replace (Z.lor (Z.land w 0xffffffff00000000) x mod 2 ^ 32) with x.
  - rewrite Z.shiftl_mul_pow2 by lia. rewrite (lor_field x y 32 32); [done|lia|lia| |lia]. rewrite Z.div_small by lia. done.
  - rewrite <- (Z.mod_small x (2 ^ 32)) at 1 by lia. apply Z.bits_inj'. intros i Hi.
    destruct (Z.lt_ge_cases i 32); [|by rewrite !Z.mod_pow2_bits_high by lia].
    rewrite !Z.mod_pow2_bits_low by lia. rewrite Z.lor_spec, Z.land_spec.
    change 0xffffffff00000000 with (Z.shiftl (Z.ones 32) 32). rewrite Z.shiftl_spec, (Z.testbit_neg_r _ (i - 32)) by lia.
    by rewrite andb_false_r.
Qed.

(** The blocks the driver builds: 32-bit words 0 and 1, or 2 and 3. *)
Lemma block_low g0 g1 g2 g3 x y : 0 <= x < 2 ^ 32 -> 0 <= y < 2 ^ 32 ->
  raw_cmd32 1 y (raw_cmd32 0 x [g0; g1; g2; g3]) = [x + y * 2 ^ 32; g1; g2; g3].
Proof.
  intros Hx Hy. unfold raw_cmd32. cbn -[Z.lor Z.land Z.shiftl Z.pow]. f_equal. rewrite !u32_small by done. by apply two_halves.
Qed.

Lemma block_high w g1 g2 g3 x y : 0 <= x < 2 ^ 32 -> 0 <= y < 2 ^ 32 ->
  raw_cmd32 3 y (raw_cmd32 2 x [w; g1; g2; g3]) = [w; x + y * 2 ^ 32; g2; g3].
Proof.
  intros Hx Hy. unfold raw_cmd32. cbn -[Z.lor Z.land Z.shiftl Z.pow]. f_equal. f_equal. rewrite !u32_small by done. by apply two_halves.
Qed.

Lemma genmask_id h l x : GENMASK_ULL h l = Z.shiftl (Z.ones (h - l + 1)) l -> 0 <= l <= h ->
  0 <= x < 2 ^ (h + 1) -> x mod 2 ^ l = 0 -> Z.land x (GENMASK_ULL h l) = x.
Proof.
  intros Hm Hl Hx Hz. rewrite land_genmask by done. unfold bits. rewrite Z.mod_small.
  - pose proof (Z.div_mod x (2 ^ l) ltac:(lia)). lia.
  - split; [apply Z.div_pos; lia|]. apply Z.div_lt_upper_bound; [lia|]. rewrite <- Z.pow_add_r by lia.
    replace (l + (h - l + 1)) with (h + 1) by lia. lia.
Qed.

(** Whatever the uninitialised block holds, a call adds the words of the command. *)
Lemma issue_eq hw polls garbage op :
  length garbage = 4%nat -> op_ok op -> issue hw polls garbage op = add_ITS_command hw polls (its_encode op).
Proof.
  intros Hg. destruct garbage as [|g0 [|g1 [|g2 [|g3 [|]]]]]; try done. clear Hg.
  assert (forall c, 0 <= c < 2 ^ 16 -> u64 (Z.land c (GENMASK_ULL 15 0)) = c) as Hc.
  { intros c Hc. rewrite genmask_id by first [reflexivity | exact (Z.mod_1_r _) | lia]. apply u64_small. lia. }
  destruct op; cbn [op_ok issue its_encode]; intros H;
    unfold add_ITS_INT, add_ITS_INV, add_ITS_INVALL, add_ITS_MAPC, add_ITS_MAPD, add_ITS_MAPI, Add_ITS_MAPTI, add_ITS_SYNC;
    cbv zeta; f_equal.
  - rewrite block_low, block_high, Z.mul_0_l, Z.add_0_r by (unfold GITS_CMD_INT; lia). done.
  - rewrite block_low, block_high, Z.mul_0_l, Z.add_0_r by (unfold GITS_CMD_INV; lia). done.
  - unfold raw_cmd64. by rewrite Hc.
  - destruct H as (Hr & Hm & Hi). unfold raw_cmd64. rewrite (genmask_id 50 16), (genmask_id 15 0) by first [reflexivity | exact (Z.mod_1_r _) | lia].
    rewrite (lor_above 63 _ 1) by lia. replace (1 * 2 ^ 63 + rdbase) with ((2 ^ 47 + rdbase / 2 ^ 16) * 2 ^ 16) by dlia.
    rewrite lor_above by dlia. replace ((2 ^ 47 + rdbase / 2 ^ 16) * 2 ^ 16 + icid) with (2 ^ 63 + rdbase + icid) by dlia. rewrite (u64_small (2 ^ 63 + _ + _)) by lia. reflexivity.
  - destruct H as (Hd & Ha & Hm & Hs). rewrite block_low by (unfold GITS_CMD_MAPD; lia). unfold raw_cmd64.
    rewrite (genmask_id 4 0), (genmask_id 51 8) by first [reflexivity | exact (Z.mod_1_r _) | lia]. rewrite (lor_above 63 _ 1) by lia. rewrite (u64_small size), (u64_small (1 * 2 ^ 63 + _)) by lia. reflexivity.
  - rewrite block_low, block_high, Z.mul_0_l, Z.add_0_r by (unfold GITS_CMD_MAPI; lia). unfold raw_cmd64. rewrite Hc by lia. reflexivity.
  - rewrite block_low, block_high by (unfold GITS_CMD_MAPTI; lia). unfold raw_cmd64. rewrite Hc by lia. reflexivity.
  - unfold raw_cmd64. rewrite (genmask_id 50 16) by first [reflexivity | exact (Z.mod_1_r _) | lia]. rewrite (u64_small rdbase) by lia. reflexivity.
Qed.
