(* ===== verification/ItsTheorems.v ===== *)
(** * The interrupt translation service: the command queue is a FIFO

    The driver and the ITS share the queue.  How far the ITS has come is a
    function of the accesses the driver made since the queue was set up, any
    function that respects the documented behaviour of the device; it may
    advance between any two accesses of the driver. *)

From S2P Require Import Prelude CMem Device Gic GicFacts Its ItsFacts.

Local Open Scope Z_scope.
Local Open Scope c_scope.

(** The number of commands published: writes of its_cwriter. *)
Definition published (g : Z) (u : trace) : Z :=
  Z.of_nat (length (filter (fun w : Z * Z => w.1 = g + its_cwriter) (writes u))).

(** The entry of command [k] in a queue of [n] entries at [q], as the writes left it. *)
Definition queue_entry (q n k : Z) (t : trace) : list Z :=
  map (fun i => default 0 (last_write (q + 32 * (k mod n) + 8 * i) (writes t))) [0; 1; 2; 3].

(** Documented behaviour of the ITS after the queue was set up by the accesses
    [t0], which wrote [cbaser] and announced [pages]: the size and address fields
    of its_cbaser, and its_cwriter, read back; its_creadr is the offset of the
    next command to execute, of which [consumed] counts those executed; the
    ITS executes published commands only, and one that waits is executed within
    a bounded number of polls. *)
Record its_env (hw : hardware) (g cbaser pages : Z) (polls : nat) (t0 : trace) (consumed : trace -> Z) (latency : trace -> nat) : Prop := {
  env_size : forall u, Z.land (u64 (mmio hw (t0 ++ u) (g + its_cbaser))) (GENMASK_ULL 7 0) = Z.land cbaser (GENMASK_ULL 7 0);
  env_base : forall u, Z.land (u64 (mmio hw (t0 ++ u) (g + its_cbaser))) (GENMASK_ULL 51 12) = Z.land cbaser (GENMASK_ULL 51 12);
  env_cwriter : forall u v, last_write (g + its_cwriter) (writes (t0 ++ u)) = Some v -> u64 (mmio hw (t0 ++ u) (g + its_cwriter)) = u64 v;
  env_creadr : forall u, u64 (mmio hw (t0 ++ u) (g + its_creadr)) = 32 * (consumed u mod (128 * pages));
  env_mono : forall u e, consumed u <= consumed (u ++ [e]);
  env_published : forall u, 0 <= consumed u <= published g u;
  env_progress : forall u v, let u' := u ++ [ReadQ (g + its_creadr) v] in
    consumed u < published g u -> consumed u < consumed u' \/ (latency u' < latency u)%nat;
  env_latency : forall u, (S (latency u) < polls)%nat
}.

(** ** Positions in a ring *)

Lemma mod_pred n c : 0 < n -> (c - 1) mod n = if c mod n =? 0 then n - 1 else c mod n - 1.
Proof.
  intros Hn. pose proof (Z.mod_pos_bound c n Hn). pose proof (Z.div_mod c n ltac:(lia)).
  symmetry. destruct (Z.eqb_spec (c mod n) 0).
  - apply (Z.mod_unique_pos _ _ (c / n - 1)); lia.
  - apply (Z.mod_unique_pos _ _ (c / n)); lia.
Qed.

Lemma mod_succ n c : 0 < n -> (c + 1) mod n = if c mod n + 1 =? n then 0 else c mod n + 1.
Proof.
  intros Hn. pose proof (Z.mod_pos_bound c n Hn). pose proof (Z.div_mod c n ltac:(lia)).
  symmetry. destruct (Z.eqb_spec (c mod n + 1) n).
  - apply (Z.mod_unique_pos _ _ (c / n + 1)); lia.
  - apply (Z.mod_unique_pos _ _ (c / n)); lia.
Qed.

Lemma ring_full n a c : 0 < n -> 0 <= a - c <= n - 1 -> (a mod n =? (c - 1) mod n) = (a - c =? n - 1).
Proof.
  intros Hn Hd. apply eq_true_iff_eq. rewrite !Z.eqb_eq. split; intros H.
  - assert ((a - (c - 1)) mod n = 0) as H0 by (rewrite Zminus_mod, H, Z.sub_diag; apply Z.mod_0_l; lia).
    destruct (decide (a - c = n - 1)); [done|]. rewrite Z.mod_small in H0; lia.
  - replace a with (c - 1 + 1 * n) by lia. by rewrite Z.mod_add by lia.
Qed.

Section queue.
Context (hw : hardware) (g cbaser q pages : Z) (polls : nat) (t0 : trace) (consumed : trace -> Z) (latency : trace -> nat).
Context (Hpages : 0 < pages < 256).
Context (Hdisj : q + 4096 * pages <= g \/ g + 0x140 <= q).
Context (Hsize : Z.land cbaser (GENMASK_ULL 7 0) = pages - 1) (Hbase : Z.land cbaser (GENMASK_ULL 51 12) = q).
Context (Henv : its_env hw g cbaser pages polls t0 consumed latency).
Local Abbreviation n := (128 * pages).

(** At this point of the run every command that is published and not yet
    executed lies in its entry, and the queue is not overfull. *)
Definition entries_ok (ops : list its_op) (u : trace) : Prop :=
  published g u <= Z.of_nat (length ops) /\ published g u - consumed u <= n - 1 /\
  forall k, consumed u <= k < published g u ->
    exists op, ops !! Z.to_nat k = Some op /\ queue_entry q n k (t0 ++ u) = its_encode op.

(** The same at every point of the run so far; the driver is between two calls. *)
Record queue_inv (ops : list its_op) (u : trace) : Prop := {
  qi_published : published g u = Z.of_nat (length ops);
  qi_writer : last_write (g + its_cwriter) (writes (t0 ++ u)) = Some (32 * (published g u mod n));
  qi_entries : forall p, p `prefix_of` u -> entries_ok ops p
}.

Lemma published_app u l : published g (u ++ l) = published g u + published g l.
Proof. unfold published. rewrite writes_app, list.filter_app, length_app. lia. Qed.

Lemma published_nil u : (forall v, (g + its_cwriter, v) ∉ writes u) -> published g u = 0.
Proof.
  intros H. unfold published. replace (filter _ (writes u)) with ([] : list (Z * Z)); [done|]. symmetry.
  destruct (filter _ (writes u)) as [|[a v] l] eqn:E; [done|]. destruct (H v).
  assert ((a, v) ∈ filter (fun w : Z * Z => w.1 = g + its_cwriter) (writes u)) as Hin by (rewrite E; by left).
  apply list_elem_of_filter in Hin as [Ha Hin]. cbn [fst] in Ha. by rewrite Ha in Hin.
Qed.

Lemma last_write_snoc a b v ws : last_write a (ws ++ [(b, v)]) = if b =? a then Some v else last_write a ws.
Proof. rewrite last_write_app. unfold last_write at 1. cbn [fold_left fst snd]. by destruct (b =? a). Qed.

Lemma prefix_snoc (u p : trace) e : p `prefix_of` u ++ [e] -> p `prefix_of` u \/ p = u ++ [e].
Proof.
  intros [l Hl]. destruct l as [|x l _] using rev_ind; [right; by rewrite app_nil_r in Hl|left].
  rewrite app_assoc in Hl. apply app_inj_tail in Hl as [-> _]. by exists l.
Qed.

(** Every point of the run is kept by one more access that ends in a good point. *)
Lemma entries_snoc ops u e :
  (forall p, p `prefix_of` u -> entries_ok ops p) -> entries_ok ops (u ++ [e]) ->
  forall p, p `prefix_of` u ++ [e] -> entries_ok ops p.
Proof. intros Hp He p [H| -> ]%prefix_snoc; auto. Qed.

(** An access that writes no entry in use and publishes nothing. *)
Lemma inv_access ops u e :
  queue_inv ops u -> published g [e] = 0 ->
  (forall k i, consumed u <= k < published g u -> 0 <= i < 4 ->
    last_write (q + 32 * (k mod n) + 8 * i) (writes (t0 ++ u) ++ writes [e]) = last_write (q + 32 * (k mod n) + 8 * i) (writes (t0 ++ u))) ->
  queue_inv ops (u ++ [e]).
Proof.
  intros Hi Hp Hw. pose proof (qi_entries _ _ Hi u ltac:(done)) as (Hle & Hroom & Hent). pose proof (env_mono _ _ _ _ _ _ _ _ Henv u e).
  assert (published g (u ++ [e]) = published g u) as Ep by (rewrite published_app; lia). constructor.
  - rewrite Ep. apply Hi.
  - rewrite Ep, app_assoc, writes_app, last_write_app. rewrite last_write_none; [apply Hi|].
    intros v Hin. revert Hp. unfold published. intros Hp.
    assert (filter (fun w : Z * Z => w.1 = g + its_cwriter) (writes [e]) = []) as E.
    { destruct (filter _ _) eqn:E; [done|]. cbn [length] in Hp. lia. }
    assert ((g + its_cwriter, v) ∈ filter (fun w : Z * Z => w.1 = g + its_cwriter) (writes [e])) as Hf by by apply list_elem_of_filter.
    rewrite E in Hf. by apply elem_of_nil in Hf.
  - apply entries_snoc; [apply Hi|]. unfold entries_ok. rewrite Ep. split; [done|]. split; [lia|]. intros k Hk.
    destruct (Hent k ltac:(lia)) as (op & Hop & He). exists op. split; [done|]. rewrite <- He. unfold queue_entry.
    apply map_ext_in. intros i Hin. rewrite app_assoc, writes_app. rewrite Hw; [done|lia|].
    repeat (destruct Hin as [<-|Hin]; [lia|]). done.
Qed.

Lemma inv_read ops u a v : queue_inv ops u -> queue_inv ops (u ++ [ReadQ a v]).
Proof. intros Hi. apply inv_access; [done|done|]. intros k i _ _. by rewrite app_nil_r. Qed.

(** Entries are distinct and are not registers. *)
Lemma entry_range k i : 0 <= i < 4 -> q <= q + 32 * (k mod n) + 8 * i < q + 4096 * pages.
Proof. intros Hi. pose proof (Z.mod_pos_bound k n ltac:(lia)). lia. Qed.

Lemma entry_inj k k' i i' :
  0 <= i < 4 -> 0 <= i' < 4 -> k < k' < k + n -> q + 32 * (k mod n) + 8 * i <> q + 32 * (k' mod n) + 8 * i'.
Proof. intros Hi Hi' Hk E. assert (k mod n = k' mod n) as Em by lia. assert ((k' - k) mod n = 0) as H0.
  { rewrite Zminus_mod, Em, Z.sub_diag. apply Z.mod_0_l. lia. }
  rewrite Z.mod_small in H0; lia.
Qed.

Lemma inv_store ops u k i v a :
  queue_inv ops u -> k = published g u -> k - consumed u <= n - 2 -> 0 <= i < 4 -> a = q + 32 * (k mod n) + 8 * i ->
  let u' := u ++ [WriteQ a v] in queue_inv ops u' /\ k = published g u' /\ k - consumed u' <= n - 2.
Proof.
  intros Hi -> Hroom Hin -> u'. pose proof (env_mono _ _ _ _ _ _ _ _ Henv u (WriteQ (q + 32 * (published g u mod n) + 8 * i) v)) as Hm.
  fold u' in Hm. enough (queue_inv ops u') as H by (pose proof (qi_published _ _ Hi); pose proof (qi_published _ _ H); split; [done|lia]). pose proof (entry_range (published g u) i Hin). apply inv_access; [done| |].
  - apply published_nil. cbn [writes]. intros v' [=E _]%list_elem_of_singleton. unfold its_cwriter in E. lia.
  - intros k j Hk Hj. cbn [writes]. rewrite last_write_snoc. destruct (Z.eqb_spec (q + 32 * (published g u mod n) + 8 * i) (q + 32 * (k mod n) + 8 * j)) as [E|]; [|done].
    symmetry in E. by apply entry_inj in E; [|lia|lia|lia].
Qed.

Lemma writer_range k : 0 <= 32 * (k mod n) <= 4096 * pages - 32.
Proof. pose proof (Z.mod_pos_bound k n ltac:(lia)). lia. Qed.

(** The test for a full queue. *)
Lemma full_test u :
  published g u - consumed u <= n - 1 ->
  let qreader := 32 * (consumed u mod n) in
  (32 * (published g u mod n) =? if qreader =? 0 then u32 (4096 * pages - COMMAND_SIZE) else u64 (qreader - COMMAND_SIZE)) =
    (published g u - consumed u =? n - 1).
Proof.
  intros Hroom qreader. pose proof (env_published _ _ _ _ _ _ _ _ Henv u). pose proof (writer_range (consumed u)) as Hr.
  rewrite <- (ring_full n) by lia. unfold COMMAND_SIZE. rewrite (mod_pred n) by lia. subst qreader.
  destruct (Z.eqb_spec (consumed u mod n) 0) as [E|E].
  - rewrite E, Z.eqb_refl, u32_small by lia. repeat case_cmp; lia.
  - destruct (Z.eqb_spec (32 * (consumed u mod n)) 0); [lia|]. rewrite u64_small by lia. repeat case_cmp; lia.
Qed.

(** The wait ends, when the queue has room. *)
Lemma wait_ok ops fuel u :
  queue_inv ops u -> (S (latency u) < fuel)%nat \/ (published g u - consumed u <> n - 1 /\ (0 < fuel)%nat) ->
  exists l, wait_for_room hw fuel g (4096 * pages) (32 * (published g u mod n)) (ItsState g) (t0 ++ u) =
    Ok (tt, ItsState g, t0 ++ (u ++ l)) /\ queue_inv ops (u ++ l) /\ published g l = 0 /\ published g u - consumed (u ++ l) <= n - 2.
Proof.
  revert u. induction fuel as [|fuel IH]; intros u Hi Hf; [lia|].
  pose proof (qi_entries _ _ Hi u ltac:(done)) as (_ & Hroom & _). pose proof (env_mono _ _ _ _ _ _ _ _ Henv u) as Hmono.
  set (c := 32 * (consumed u mod n)). set (e := ReadQ (g + its_creadr) c).
  pose proof (full_test u Hroom) as Hfull. cbv zeta in Hfull. fold c in Hfull.
  pose proof (inv_read ops u (g + its_creadr) c Hi) as Hi'. fold e in Hi'.
  assert (published g (u ++ [e]) = published g u) as Ep by (rewrite published_app; change (published g [e]) with 0; lia).
  unfold wait_for_room. cbn [mwhile]. unfold mbind_ at 1. unfold mbind_ at 1. unfold readq_relaxed at 1.
  rewrite (env_creadr _ _ _ _ _ _ _ _ Henv u). fold c. fold e. cbn [obind]. rewrite Hfull.
  destruct (Z.eqb_spec (published g u - consumed u) (n - 1)) as [Ef|Ef].
  - cbn [obind ret]. rewrite <- app_assoc. destruct (IH (u ++ [e]) Hi') as (l & E & Hl & Hp & Hc).
    + pose proof (env_progress _ _ _ _ _ _ _ _ Henv u c ltac:(lia)) as Hpr. cbv zeta in Hpr. fold e in Hpr. rewrite Ep. lia.
    + exists (e :: l). rewrite Ep in E, Hc. rewrite <- app_assoc in E, Hl, Hc. split; [exact E|]. split; [exact Hl|].
      split; [exact Hp|exact Hc].
  - exists [e]. rewrite <- app_assoc. split; [done|]. split; [done|]. split; [done|]. specialize (Hmono e). lia.
Qed.

Lemma inv_copy ops u k w0 w1 w2 w3 :
  queue_inv ops u -> k = published g u -> k - consumed u <= n - 2 ->
  let a := q + 32 * (k mod n) in
  let u' := u ++ [WriteQ a w0; WriteQ (a + 8) w1; WriteQ (a + 8 + 8) w2; WriteQ (a + 8 + 8 + 8) w3] in
  queue_inv ops u' /\ k = published g u' /\ k - consumed u' <= n - 2 /\ queue_entry q n k (t0 ++ u') = [w0; w1; w2; w3].
Proof.
  intros Hi Hk Hr a u'.
  destruct (inv_store ops u k 0 w0 a Hi Hk Hr) as (Hi1 & Hk1 & Hr1); [lia|lia|].
  destruct (inv_store ops _ k 1 w1 (a + 8) Hi1 Hk1 Hr1) as (Hi2 & Hk2 & Hr2); [lia|lia|].
  destruct (inv_store ops _ k 2 w2 (a + 8 + 8) Hi2 Hk2 Hr2) as (Hi3 & Hk3 & Hr3); [lia|lia|].
  destruct (inv_store ops _ k 3 w3 (a + 8 + 8 + 8) Hi3 Hk3 Hr3) as (Hi4 & Hk4 & Hr4); [lia|lia|].
  rewrite <- !app_assoc in Hi4, Hk4, Hr4. split; [exact Hi4|]. split; [exact Hk4|]. split; [exact Hr4|].
  unfold queue_entry, u'. rewrite app_assoc, writes_app. cbn [writes map]. fold a.
  assert (forall a ws x0 x1 x2 x3, last_write a (ws ++ [x0; x1; x2; x3]) = last_write a ((((ws ++ [x0]) ++ [x1]) ++ [x2]) ++ [x3])) as Es
    by (intros; by rewrite <- !app_assoc).
  rewrite !Es, !last_write_snoc. repeat (case_cmp; try lia). done.
Qed.

Lemma entries_more ops op u : entries_ok ops u -> entries_ok (ops ++ [op]) u.
Proof.
  intros (H1 & H2 & H3). split; [rewrite length_app; lia|]. split; [done|]. intros k Hk.
  destruct (H3 k Hk) as (o & Ho & He). exists o. split; [by apply lookup_app_l_Some|done].
Qed.

(** Publishing the command that was stored. *)
Lemma inv_publish ops op u :
  queue_inv ops u -> published g u - consumed u <= n - 2 -> queue_entry q n (published g u) (t0 ++ u) = its_encode op ->
  queue_inv (ops ++ [op]) (u ++ [WriteQ (g + its_cwriter) (32 * ((published g u + 1) mod n))]).
Proof.
  intros Hi Hr He. set (e := WriteQ _ _). pose proof (qi_published _ _ Hi) as Hp.
  pose proof (qi_entries _ _ Hi u ltac:(done)) as (_ & _ & Hent). pose proof (env_mono _ _ _ _ _ _ _ _ Henv u e).
  assert (published g [e] = 1) as E1.
  { unfold published, e. cbn [writes]. rewrite filter_cons_True by done. done. }
  assert (published g (u ++ [e]) = published g u + 1) as Ep by (rewrite published_app; lia). constructor.
  - rewrite Ep, length_app. cbn [length]. lia.
  - rewrite Ep, app_assoc, writes_app. cbn [e writes]. by rewrite last_write_snoc, Z.eqb_refl.
  - apply entries_snoc; [intros p Hpre; by apply entries_more, Hi|]. split; [rewrite Ep, length_app; cbn [length]; lia|].
    split; [lia|]. intros k Hk.
    assert (queue_entry q n k (t0 ++ (u ++ [e])) = queue_entry q n k (t0 ++ u)) as ->.
    { unfold queue_entry. apply map_ext_in. intros i Hin. rewrite app_assoc, writes_app. cbn [e writes]. rewrite last_write_snoc.
      assert (0 <= i < 4) as Hi4 by (repeat (destruct Hin as [<-|Hin]; [lia|]); done). pose proof (entry_range k i Hi4).
      destruct (Z.eqb_spec (g + its_cwriter) (q + 32 * (k mod n) + 8 * i)); [unfold its_cwriter in *; lia|done]. }
    destruct (decide (k = published g u)) as [->|Hne].
    + exists op. split; [|done]. rewrite Hp, Nat2Z.id. by rewrite lookup_app_r, Nat.sub_diag by lia.
    + destruct (Hent k ltac:(lia)) as (o & Ho & Hoe). exists o. split; [by apply lookup_app_l_Some|done].
Qed.

Lemma encode_words op : op_ok op -> exists w0 w1 w2 w3, its_encode op = [w0; w1; w2; w3] /\
  u64 w0 = w0 /\ u64 w1 = w1 /\ u64 w2 = w2 /\ u64 w3 = w3.
Proof.
  destruct op; cbn [op_ok its_encode]; intros H; eexists _, _, _, _; (split; [reflexivity|]);
    unfold GITS_CMD_INT, GITS_CMD_INV, GITS_CMD_INVALL, GITS_CMD_MAPC, GITS_CMD_MAPD, GITS_CMD_MAPI, GITS_CMD_MAPTI, GITS_CMD_SYNC;
    repeat split; apply u64_small; lia || dlia.
Qed.

Lemma bind_read {A} a (k : Z -> I A) u v : u64 (mmio hw (t0 ++ u) a) = v ->
  mbind_ (readq_relaxed hw a) k (ItsState g) (t0 ++ u) = k v (ItsState g) (t0 ++ (u ++ [ReadQ a v])).
Proof. intros <-. unfold mbind_, readq_relaxed. cbn [obind]. by rewrite <- app_assoc. Qed.

Lemma bind_ok {A B} (c : I A) (k : A -> I B) x t t' : c (ItsState g) t = Ok (x, ItsState g, t') ->
  mbind_ c k (ItsState g) t = k x (ItsState g) t'.
Proof. intros E. unfold mbind_. by rewrite E. Qed.

Lemma copy_ok a w0 w1 w2 w3 u : u64 w0 = w0 -> u64 w1 = w1 -> u64 w2 = w2 -> u64 w3 = w3 ->
  copy_command a [w0; w1; w2; w3] (ItsState g) (t0 ++ u) =
    Ok (tt, ItsState g, t0 ++ (u ++ [WriteQ a w0; WriteQ (a + 8) w1; WriteQ (a + 8 + 8) w2; WriteQ (a + 8 + 8 + 8) w3])).
Proof.
  intros E0 E1 E2 E3. cbn [copy_command]. unfold mbind_, writeq_relaxed, emit, ret. cbn [obind]. rewrite E0, E1, E2, E3.
  by rewrite <- !app_assoc.
Qed.

(** One call adds one command. *)
Lemma add_command_ok ops op u :
  queue_inv ops u -> op_ok op ->
  exists l, add_ITS_command hw polls (its_encode op) (ItsState g) (t0 ++ u) = Ok (tt, ItsState g, t0 ++ (u ++ l)) /\
    queue_inv (ops ++ [op]) (u ++ l).
Proof.
  intros Hi Hop. destruct (encode_words op Hop) as (w0 & w1 & w2 & w3 & Ew & E0 & E1 & E2 & E3).
  set (e := ReadQ (g + its_cbaser) (u64 (mmio hw (t0 ++ u) (g + its_cbaser)))).
  pose proof (inv_read ops u _ _ Hi : queue_inv ops (u ++ [e])) as Hi1.
  set (e1 := ReadQ (g + its_cbaser) (u64 (mmio hw (t0 ++ (u ++ [e])) (g + its_cbaser)))).
  pose proof (inv_read ops _ _ _ Hi1 : queue_inv ops ((u ++ [e]) ++ [e1])) as Hi2.
  set (k := published g ((u ++ [e]) ++ [e1])). pose proof (inv_read ops _ (g + its_cwriter) (32 * (k mod n)) Hi2) as Hi3.
  set (u3 := ((u ++ [e]) ++ [e1]) ++ _) in Hi3.
  assert (k = published g u3) as Ek by (unfold k; by rewrite (qi_published _ _ Hi2), (qi_published _ _ Hi3)).
  destruct (wait_ok ops polls u3 Hi3) as (l & El & Hl & Hp & Hr); [left; apply Henv|]. rewrite <- Ek in El, Hr.
  destruct (inv_copy ops (u3 ++ l) k w0 w1 w2 w3 Hl) as (Hi4 & Hk4 & Hr4 & He4); [rewrite published_app; lia|done|].
  set (u4 := (u3 ++ l) ++ _) in *. rewrite Hk4 in Hr4, He4. rewrite <- Ew in He4.
  pose proof (inv_publish ops op u4 Hi4 Hr4 He4) as Hi5. rewrite <- Hk4 in Hi5.
  match type of Hi5 with queue_inv _ (_ ++ ?x) => exists ([e; e1; ReadQ (g + its_cwriter) (32 * (k mod n))] ++ l ++
    [WriteQ (q + 32 * (k mod n)) w0; WriteQ (q + 32 * (k mod n) + 8) w1; WriteQ (q + 32 * (k mod n) + 8 + 8) w2;
     WriteQ (q + 32 * (k mod n) + 8 + 8 + 8) w3] ++ x) end.
  assert (forall x, u ++ [e; e1; ReadQ (g + its_cwriter) (32 * (k mod n))] ++ l ++
    [WriteQ (q + 32 * (k mod n)) w0; WriteQ (q + 32 * (k mod n) + 8) w1; WriteQ (q + 32 * (k mod n) + 8 + 8) w2;
     WriteQ (q + 32 * (k mod n) + 8 + 8 + 8) w3] ++ x = u4 ++ x) as Eu.
  { intros x. unfold u4, u3. by rewrite <- !app_assoc. }
  rewrite Eu. split; [|exact Hi5].
  unfold add_ITS_command. rewrite (bind_ok get_data _ (ItsState g) _ (t0 ++ u)) by done. cbn [gits].
  erewrite bind_read by reflexivity. cbv beta. rewrite (env_size _ _ _ _ _ _ _ _ Henv u), Hsize.
  erewrite bind_read by reflexivity. cbv beta zeta. fold e. rewrite (env_base _ _ _ _ _ _ _ _ Henv (u ++ [e])), Hbase.
  pose proof (env_cwriter _ _ _ _ _ _ _ _ Henv _ _ (qi_writer _ _ Hi2)) as Hcw. fold k in Hcw. pose proof (writer_range k).
  rewrite (u64_small (32 * (k mod n))) in Hcw by lia. erewrite bind_read by exact Hcw. cbv beta. fold e1. fold k. fold u3.
  replace (u32 ((pages - 1 + 1) * 0x1000)) with (4096 * pages) by (rewrite u32_small; lia).
  rewrite (bind_ok _ _ _ _ _ El). rewrite Ew, (bind_ok _ _ _ _ _ (copy_ok _ w0 w1 w2 w3 (u3 ++ l) E0 E1 E2 E3)). fold u4.
  unfold writeq_relaxed, emit. rewrite (mod_succ n) by lia. unfold COMMAND_SIZE.
  rewrite (u64_small (32 * (k mod n) + 32)) by lia. rewrite <- app_assoc. destruct (Z.eqb_spec (k mod n + 1) n) as [?E|?E], (Z.eqb_spec (32 * (k mod n) + 32) (4096 * pages)) as [?E|?E];
    try lia; rewrite u64_small by lia; repeat f_equal; lia.
Qed.

Fixpoint issue_all (garbage : its_cmd_block) (ops : list its_op) : I unit :=
  match ops with
  | [] => ret tt
  | op :: ops => seq! issue hw polls garbage op then issue_all garbage ops
  end.

Lemma issue_all_ok garbage ops done u :
  length garbage = 4%nat -> Forall op_ok ops -> queue_inv done u ->
  exists l, issue_all garbage ops (ItsState g) (t0 ++ u) = Ok (tt, ItsState g, t0 ++ (u ++ l)) /\ queue_inv (done ++ ops) (u ++ l).
Proof.
  intros Hg. revert done u. induction ops as [|op ops IH]; intros done u HF Hi.
  - exists []. rewrite !app_nil_r. done.
  - apply list.Forall_cons in HF as [Hop HF]. destruct (add_command_ok done op u Hi Hop) as (l & E & Hi').
    destruct (IH (done ++ [op]) (u ++ l) HF Hi') as (l' & E' & Hi''). exists (l ++ l'). rewrite <- !app_assoc in E'.
    rewrite <- (app_assoc u), <- (app_assoc done) in Hi''.
    split; [|exact Hi'']. cbn [issue_all]. rewrite issue_eq by done. rewrite (bind_ok _ _ _ _ _ E). exact E'.
Qed.
End queue.

(** What setting up a queue writes to its_cbaser, and its fields. *)
Definition cbaser_of (addr attributes pages : Z) : Z :=
  u64 (Z.lor (Z.lor addr (Z.land attributes 0xF800000000000C00)) (pages - 1)).

Lemma cbaser_fields q attributes pages :
  0 < pages < 256 -> 0 <= q < 2 ^ 52 -> q mod 4096 = 0 ->
  Z.land (cbaser_of q attributes pages) (GENMASK_ULL 7 0) = pages - 1 /\
  Z.land (cbaser_of q attributes pages) (GENMASK_ULL 51 12) = q.
Proof.
  intros Hp Hq Hal. unfold cbaser_of, u64. rewrite <- land_mask by lia. rewrite <- !Z.land_assoc.
  change (Z.land (2 ^ 64 - 1) (GENMASK_ULL 7 0)) with (GENMASK_ULL 7 0).
  change (Z.land (2 ^ 64 - 1) (GENMASK_ULL 51 12)) with (GENMASK_ULL 51 12).
  rewrite !Z.land_lor_distr_l, <- !Z.land_assoc.
  change (Z.land 0xF800000000000C00 (GENMASK_ULL 7 0)) with 0. change (Z.land 0xF800000000000C00 (GENMASK_ULL 51 12)) with 0.
  rewrite !Z.land_0_r, !Z.lor_0_r. rewrite (genmask_id 7 0 (pages - 1)), (genmask_id 51 12 q) by first [reflexivity | exact Hal | exact (Z.mod_1_r _) | lia].
  rewrite !land_genmask by first [reflexivity | lia]. unfold bits.
  replace (q / 2 ^ 0 mod 2 ^ (7 - 0 + 1)) with 0 by (revert Hal Hq; norm_pow; intros; dlia).
  replace ((pages - 1) / 2 ^ 12 mod 2 ^ (51 - 12 + 1)) with 0 by (norm_pow; dlia). by rewrite !Z.mul_0_l, Z.lor_0_l, Z.lor_0_r.
Qed.

(** C9: the command queue delivers every command, in order and whole.
    [init_ITS_command_queue] sets up an empty queue of 1 to 255 pages.  Then,
    whatever calls are made and however the ITS proceeds meanwhile, every call
    returns (it waits while the queue is full, as long as the ITS executes
    commands), the calls publish one command each, and at every moment of the
    run each published command that is not yet executed stands in its entry of
    the ring, where the ITS decodes it as the call meant it: command [k] is the
    [k]-th call.  No command is overwritten before it is executed, none is
    published before it is complete. *)
Theorem its_queue_correct (hw : hardware) (polls : nat) (g q attributes pages : Z) (garbage : its_cmd_block) (t : trace)
    (consumed : trace -> Z) (latency : trace -> nat) (ops : list its_op) :
  0 < pages < 256 -> 0 <= q < 2 ^ 52 -> q mod 4096 = 0 -> q + 4096 * pages <= g \/ g + 0x140 <= q ->
  length garbage = 4%nat -> Forall op_ok ops ->
  let cbaser := cbaser_of q attributes pages in
  let t0 := t ++ [WriteQ (g + its_cbaser) cbaser; WriteQ (g + its_cwriter) 0] in
  init_ITS_command_queue q attributes pages (ItsState g) t = Ok (tt, ItsState g, t0) /\
  (its_env hw g cbaser pages polls t0 consumed latency ->
   exists u, issue_all hw polls garbage ops (ItsState g) t0 = Ok (tt, ItsState g, t0 ++ u) /\
     published g u = Z.of_nat (length ops) /\
     forall p k, p `prefix_of` u -> consumed p <= k < published g p ->
       exists op, ops !! Z.to_nat k = Some op /\ its_decode (queue_entry q (128 * pages) k (t0 ++ p)) = Some op).
Proof.
  intros Hpages Hq Hal Hdisj Hg Hops cbaser t0. split.
  - unfold init_ITS_command_queue. rewrite (genmask_id 51 12), (genmask_id 7 0) by first [reflexivity | exact Hal | exact (Z.mod_1_r _) | lia].
    destruct (Z.eqb_spec pages 0); [lia|]. unfold mbind_, get_data, writeq_relaxed, emit. cbn [obind gits]. unfold t0.
    by rewrite <- app_assoc.
  - intros Henv. destruct (cbaser_fields q attributes pages Hpages Hq Hal) as [Hs Hb].
    assert (queue_inv g q pages t0 consumed [] []) as Hi.
    { pose proof (env_published _ _ _ _ _ _ _ _ Henv []) as H0. change (published g []) with 0 in H0. constructor.
      - done.
      - rewrite app_nil_r. unfold t0. rewrite writes_app. cbn [writes].
        change [(g + its_cbaser, cbaser); (g + its_cwriter, 0)] with ([(g + its_cbaser, cbaser)] ++ [(g + its_cwriter, 0)]).
        by rewrite app_assoc, last_write_snoc, Z.eqb_refl.
      - intros p ->%prefix_nil_inv. split; [done|]. change (published g []) with 0. split; lia. }
    destruct (issue_all_ok hw g cbaser q pages polls t0 consumed latency Hpages Hdisj Hs Hb Henv garbage ops [] [] Hg Hops Hi)
      as (u & E & Hu). rewrite !app_nil_l in *. rewrite app_nil_r in E. exists u. split; [exact E|]. split; [apply Hu|].
    intros p k Hp Hk. destruct (qi_entries _ _ _ _ _ _ _ Hu p Hp) as (_ & _ & H). destruct (H k Hk) as (op & Ho & He).
    exists op. split; [done|]. rewrite He. apply its_decode_encode. rewrite list.Forall_lookup in Hops. by eapply Hops.
Qed.

(** An ITS that executes every command as soon as it is published. *)
Definition prompt_its (g cbaser : Z) : hardware :=
  Hardware (fun t a =>
    if a =? g + its_cbaser then cbaser
    else if a =? g + its_cwriter then default 0 (last_write a (writes t))
    else if a =? g + its_creadr then 32 * (published g (drop 2 t) mod 128)
    else 0) (fun _ _ => 0).

Lemma prompt_env : its_env (prompt_its gits0 (cbaser_of 0x10000 0 1)) gits0 (cbaser_of 0x10000 0 1) 1 2
  [WriteQ (gits0 + its_cbaser) (cbaser_of 0x10000 0 1); WriteQ (gits0 + its_cwriter) 0] (published gits0) (fun _ => 0%nat).
Proof.
  constructor.
  - done.
  - done.
  - intros u v Hv. cbn [prompt_its mmio]. change (gits0 + its_cwriter =? gits0 + its_cbaser) with false. rewrite Z.eqb_refl.
    cbv iota. rewrite Hv. done.
  - intros u. cbn [prompt_its mmio]. change (gits0 + its_creadr =? gits0 + its_cbaser) with false.
    change (gits0 + its_creadr =? gits0 + its_cwriter) with false. rewrite Z.eqb_refl. cbv iota. cbn [app drop].
    change (128 * 1) with 128. apply u64_small. pose proof (Z.mod_pos_bound (published gits0 u) 128). lia.
  - intros u e. rewrite published_app. unfold published at 3. lia.
  - intros u. unfold published. lia.
  - intros u v u'. lia.
  - lia.
Qed.

Lemma its_queue_correct_witness :
  let ops := [OpMapd 7 0x20000 4; OpMapc 0 1; OpMapti 7 3 8200 1; OpInt 7 3; OpSync 0] in
  let t0 := [WriteQ (gits0 + its_cbaser) (cbaser_of 0x10000 0 1); WriteQ (gits0 + its_cwriter) 0] in
  exists u, issue_all (prompt_its gits0 (cbaser_of 0x10000 0 1)) 2 [1; 2; 3; 4] ops (ItsState gits0) t0 = Ok (tt, ItsState gits0, t0 ++ u) /\
    published gits0 u = 5.
Proof.
  intros ops t0.
  destruct (its_queue_correct (prompt_its gits0 (cbaser_of 0x10000 0 1)) 2 gits0 0x10000 0 1 [1; 2; 3; 4] [] (published gits0)
    (fun _ => 0%nat) ops) as [_ H].
  - done.
  - done.
  - reflexivity.
  - left. vm_compute. congruence.
  - reflexivity.
  - repeat constructor; lia.
  - destruct (H prompt_env) as (u & E & Hp & _). exists u. split; [exact E|exact Hp].
Defined.

(** ** Table registers *)

Lemma bits_lor h l a b : 0 <= l <= h -> bits h l (Z.lor a b) = Z.lor (bits h l a) (bits h l b).
Proof.
  intros H. unfold bits. rewrite <- !Z.shiftr_div_pow2, <- !Z.land_ones, Z.shiftr_lor by lia. apply Z.land_lor_distr_l.
Qed.

Lemma bits_land h l a m : 0 <= l <= h -> bits h l (Z.land a m) = Z.land (bits h l a) (bits h l m).
Proof.
  intros H. unfold bits. rewrite <- !Z.shiftr_div_pow2, <- !Z.land_ones, Z.shiftr_land by lia.
  apply Z.bits_inj'. intros i Hi. rewrite !Z.land_spec. by destruct (Z.testbit (Z.ones _) i); rewrite ?andb_true_r, ?andb_false_r.
Qed.

Lemma bits_u64 h l a : 0 <= l <= h -> h < 64 -> bits h l (u64 a) = bits h l a.
Proof.
  intros H Hh. unfold bits, u64. rewrite <- !Z.shiftr_div_pow2, <- !Z.land_ones by lia.
  apply Z.bits_inj'. intros i Hi. rewrite !Z.land_spec, !Z.shiftr_spec by lia.
  destruct (Z.lt_ge_cases i (h - l + 1)); [|by rewrite Z.ones_spec_high, !andb_false_r by lia].
  rewrite Z.land_spec, Z.ones_spec_low by lia. by rewrite andb_true_r.
Qed.

(** Bits that a mask keeps or clears. *)
Lemma bits_keep h l a m : 0 <= l <= h -> bits h l m = Z.ones (h - l + 1) -> bits h l (Z.land a m) = bits h l a.
Proof.
  intros H E. rewrite bits_land, E by done. unfold bits. rewrite <- !Z.land_ones, <- Z.land_assoc by lia. by rewrite Z.land_diag.
Qed.

Lemma bits_clear h l a m : 0 <= l <= h -> bits h l m = 0 -> bits h l (Z.land a m) = 0.
Proof. intros H E. by rewrite bits_land, E, Z.land_0_r by done. Qed.

Ltac packed :=
  rewrite bits_u64, ?bits_lor by lia;
  repeat first
    [ rewrite (bits_clear _ _ _ 0xFF) by first [reflexivity | lia] | rewrite (bits_keep _ _ _ 0xFF) by first [reflexivity | lia]
    | rewrite (bits_clear _ _ _ 0x300) by first [reflexivity | lia] | rewrite (bits_keep _ _ _ 0x300) by first [reflexivity | lia]
    | rewrite (bits_clear _ _ _ 0x1F) by first [reflexivity | lia] | rewrite (bits_keep _ _ _ 0x1F) by first [reflexivity | lia]
    | rewrite (bits_clear _ _ _ 0x0000FFFFFFFFF000) by first [reflexivity | lia] | rewrite (bits_keep _ _ _ 0x0000FFFFFFFFF000) by first [reflexivity | lia]
    | rewrite (bits_clear _ _ _ 0x0000FFFFFFFF0000) by first [reflexivity | lia] | rewrite (bits_keep _ _ _ 0x0000FFFFFFFF0000) by first [reflexivity | lia]
    | rewrite (bits_clear _ _ _ 0xF800000000000C00) by first [reflexivity | lia] | rewrite (bits_keep _ _ _ 0xF800000000000C00) by first [reflexivity | lia]
    | rewrite (bits_clear _ _ _ 0x0700000000000F80) by first [reflexivity | lia] | rewrite (bits_keep _ _ _ 0x0700000000000F80) by first [reflexivity | lia] ];
  change (Z.shiftl 1 62) with (2 ^ 62);
  rewrite ?Z.lor_0_l, ?Z.lor_0_r.

(** The descriptors of tables.  [set_ITS_table_addr] ignores a bad index
    or an empty table and otherwise writes one register, whose fields are the
    number of pages less one, the page size, bits 47 to 12 of the address and
    the attributes; the type and entry size fields are zero.  The two LPI
    tables of a redistributor are set for 14 to 32 identifier bits only, with
    address and attributes in their fields, the number of identifier bits less
    one, and the flag that the pending table is zero. *)
Theorem its_tables_packed (g index addr attributes page_size num_pages rdbase idbits : Z) (t : trace) :
  0 <= index -> 0 <= page_size < 4 -> 0 <= num_pages <= 256 ->
  let s := ItsState g in
  (exists w, set_ITS_table_addr index addr attributes page_size num_pages s t =
      Ok (tt, s, if (7 <? index) || (num_pages =? 0) then t else t ++ [WriteQ (g + 0x100 + 8 * index) w]) /\
    (0 < num_pages -> bits 7 0 w = num_pages - 1) /\ bits 9 8 w = page_size /\ bits 11 10 w = bits 11 10 attributes /\
    bits 47 12 w = bits 47 12 addr /\ bits 58 48 w = 0 /\ bits 63 59 w = bits 63 59 attributes) /\
  (exists w, set_LPI_config_table_addr rdbase addr attributes idbits s t =
      Ok (tt, s, if (idbits <? 14) || (32 <? idbits) then t else t ++ [WriteQ (rdbase + 0x70) w]) /\
    bits 4 0 w = bits 4 0 (idbits - 1) /\ bits 11 7 w = bits 11 7 attributes /\ bits 47 12 w = bits 47 12 addr /\
    bits 58 56 w = bits 58 56 attributes) /\
  (exists w, set_LPI_pending_tableAddr rdbase addr attributes idbits s t =
      Ok (tt, s, if (idbits <? 14) || (32 <? idbits) then t else t ++ [WriteQ (rdbase + 0x78) w]) /\
    bits 11 7 w = bits 11 7 attributes /\ bits 47 16 w = bits 47 16 addr /\ bits 58 56 w = bits 58 56 attributes /\
    bits 62 62 w = 1 /\ bits 63 63 w = 0).
Proof.
  intros Hi Hps Hnp s. split; [|split].
  - eexists (u64 _). split.
    + unfold set_ITS_table_addr. destruct ((7 <? index) || (num_pages =? 0)); [reflexivity|].
      unfold mbind_, get_data, writeq_relaxed, emit. cbn [obind gits s]. unfold its_baser. rewrite Z.add_assoc. reflexivity.
    + rewrite u32_small by (rewrite Z.shiftl_mul_pow2 by lia; lia). split; [intros Hpos|]; repeat split; packed.
      all: unfold bits; rewrite ?Z.shiftl_mul_pow2 by lia; norm_pow; dlia.
  - eexists (u64 _). split.
    + unfold set_LPI_config_table_addr. destruct ((idbits <? 14) || (32 <? idbits)); reflexivity.
    + repeat split; by packed.
  - eexists (u64 _). split.
    + unfold set_LPI_pending_tableAddr. destruct ((idbits <? 14) || (32 <? idbits)); reflexivity.
    + repeat split; packed; try reflexivity.
Qed.

Lemma its_tables_packed_witness :
  exists w, set_ITS_table_addr 1 0x80000 (2 ^ 63) 2 16 (ItsState gits0) [] = Ok (tt, ItsState gits0, [WriteQ (gits0 + 0x100 + 8 * 1) w]) /\
    bits 7 0 w = 15 /\ bits 9 8 w = 2 /\ bits 47 12 w = 0x80.
Proof.
  destruct (its_tables_packed gits0 1 0x80000 (2 ^ 63) 2 16 0 20 []) as ((w & E & Hn & Hp & _ & Ha & _) & _); [lia|lia|lia|].
  exists w. split; [exact E|]. split; [exact (Hn ltac:(lia))|]. split; [exact Hp|]. rewrite Ha. reflexivity.
Defined.
